(** * SRB2 movie decoding (src/movie_decode.c): a shallow embedding

    The C functions of [movie_decode.c] are embedded as Rocq functions that
    keep their names.  Conventions:

    - C integers are [Z].  Signed arithmetic ([INT32], [INT64], [int]) is
      written with the operations of [Z]: signed overflow is undefined in C,
      so statements that depend on a value staying in range say so.
      Unsigned and narrowing operations ([size_t] subtraction, [UINT8] and
      [UINT32] stores) have their wrap-around written out.
    - C [/] and [%] truncate towards zero: [Z.quot] and [Z.rem].
    - [I_Error] never returns: the functions that can reach it return an
      [outcome], the others are plain functions.
    - A ring buffer holds its slots as a list; a slot pointer is the number
      of the slot in the backing array, [None] being [NULL].  The module
      [Bytes] has the same functions over the bytes of the array, for buffers
      whose slots differ in size. *)

From Stdlib Require Import ZArith List Lia String Sorted.
From stdpp Require Import base tactics option list relations.

Local Open Scope Z_scope.

(** ** Fatal errors *)

Inductive outcome (A : Type) : Type :=
| Returned (a : A)
| Fatal (msg : string).
Arguments Returned {A} a.
Arguments Fatal {A} msg.

Definition I_Error {A : Type} (msg : string) : outcome A := Fatal msg.

Definition outcome_bind {A B : Type} (f : A → outcome B) (c : outcome A) : outcome B :=
  match c with
  | Returned a => f a
  | Fatal msg => Fatal msg
  end.

#[global] Instance outcome_ret : MRet outcome := @Returned.
#[global] Instance outcome_mbind : MBind outcome := @outcome_bind.

(** ** Constants of movie_decode.c *)

Definition IO_BUFFER_SIZE : Z := 8 * 1024.
Definition STREAM_BUFFER_TIME : Z := 4000.
Definition NUM_PACKETS : Z := 32.
Definition SAMPLE_RATE : Z := 44100.
Definition MAX_AUDIO_DESYNC : Z := 200.
Definition MAX_SEEK_DISTANCE : Z := 10000.
Definition POST_MAX_HEIGHT : Z := 254.
Definition POST_BASE_BYTES : Z := 4.

(** ** Circular buffer *)

Record moviebuffer (A : Type) : Type := Moviebuffer {
  buf_capacity : Z;
  buf_slotsize : Z;
  buf_start : Z;
  buf_size : Z;
  buf_data : option (list A)   (* [None]: the [data] pointer is [NULL] *)
}.
Arguments Moviebuffer {A}.
Arguments buf_capacity {A}.
Arguments buf_slotsize {A}.
Arguments buf_start {A}.
Arguments buf_size {A}.
Arguments buf_data {A}.

Section Buffer.
Context {A : Type} `{!Inhabited A}.

(** A [moviebuffer_t] that [calloc] has zeroed, as the ones inside a fresh
    [movie_t]. *)
Definition zero_buffer : moviebuffer A := Moviebuffer 0 0 0 0 None.

Definition set_start (buffer : moviebuffer A) (v : Z) : moviebuffer A :=
  Moviebuffer (buf_capacity buffer) (buf_slotsize buffer) v (buf_size buffer) (buf_data buffer).

Definition set_size (buffer : moviebuffer A) (v : Z) : moviebuffer A :=
  Moviebuffer (buf_capacity buffer) (buf_slotsize buffer) (buf_start buffer) v (buf_data buffer).

Definition set_data (buffer : moviebuffer A) (d : option (list A)) : moviebuffer A :=
  Moviebuffer (buf_capacity buffer) (buf_slotsize buffer) (buf_start buffer) (buf_size buffer) d.

(** The backing array. *)
Definition slots (buffer : moviebuffer A) : list A := default [] (buf_data buffer).

(** [*(T * )slot] and [*(T * )slot = v] for a slot pointer. *)
Definition read_slot (buffer : moviebuffer A) (slot : Z) : A :=
  slots buffer !!! Z.to_nat slot.

Definition write_slot (buffer : moviebuffer A) (slot : Z) (v : A) : moviebuffer A :=
  set_data buffer (fmap (M := option) (λ d, <[Z.to_nat slot := v]> d) (buf_data buffer)).

(** [calloc(capacity, slotsize)]: [mem] tells whether the host has the
    memory; the slots come back zeroed ([inhabitant]).  A negative
    [capacity] is, as a [size_t], more than [2^63] slots: no host has
    them. *)
Definition calloc (mem : bool) (capacity : Z) : option (list A) :=
  if mem && (0 <=? capacity) then Some (replicate (Z.to_nat capacity) inhabitant)
  else None.

Definition InitialiseBuffer (mem : bool) (capacity slotsize : Z) : outcome (moviebuffer A) :=
  match calloc mem capacity with
  | Some d => Returned (Moviebuffer capacity slotsize 0 0 (Some d))
  | None => I_Error "FFmpeg: cannot allocate buffer"
  end.

Definition CloneBuffer (mem : bool) (src : moviebuffer A) : outcome (moviebuffer A) :=
  match calloc mem (buf_capacity src) with
  | Some d =>
      (* memcpy(dst->data, src->data, capacity * slotsize) *)
      Returned (set_data src (Some (take (Z.to_nat (buf_capacity src)) (slots src ++ d))))
  | None => I_Error "FFmpeg: cannot allocate buffer"
  end.

(** [%] by a [capacity] of 0 is undefined in C; [Z.rem] answers there, so
    the statements about a buffer say that its capacity is not 0 (it is
    above [start] in a buffer the code has initialised). *)
Definition GetBufferSlot (buffer : moviebuffer A) (index : Z) : option Z :=
  if index <? 0 then None
  else Some (Z.rem (buf_start buffer + index) (buf_capacity buffer)).

Definition PeekBuffer (buffer : moviebuffer A) : option Z :=
  GetBufferSlot buffer 0.

Definition EnqueueBuffer (buffer : moviebuffer A) : moviebuffer A * option Z :=
  let buffer := set_size buffer (buf_size buffer + 1) in
  (buffer, GetBufferSlot buffer (buf_size buffer - 1)).

Definition DequeueBuffer (buffer : moviebuffer A) : moviebuffer A * option Z :=
  let slot := PeekBuffer buffer in
  let buffer := set_start buffer (Z.rem (buf_start buffer + 1) (buf_capacity buffer)) in
  let buffer := set_size buffer (buf_size buffer - 1) in
  (buffer, slot).

(** [memcpy(dstslot, srcslot, src->slotsize)] between two buffers of the
    same slot type: the whole slot is copied.  (Between buffers whose slots
    differ in size, see [Bytes.DequeueBufferIntoBuffer].) *)
Definition memcpy_slot (dst : moviebuffer A) (dstslot : option Z)
    (src : moviebuffer A) (srcslot : option Z) : moviebuffer A :=
  match dstslot, srcslot with
  | Some d, Some s => write_slot dst d (read_slot src s)
  | _, _ => dst
  end.

(** Returns the updated [dst], the updated [src] and [dstslot]. *)
Definition DequeueBufferIntoBuffer (dst src : moviebuffer A)
    : moviebuffer A * moviebuffer A * option Z :=
  let '(src, srcslot) := DequeueBuffer src in
  let '(dst, dstslot) := EnqueueBuffer dst in
  let dst := memcpy_slot dst dstslot src srcslot in
  (dst, src, dstslot).

(** [while (src->size > 0) DequeueBufferIntoBuffer(dst, src);]
    Every turn takes one from [src->size], so [src->size] turns are enough;
    [DequeueWholeBufferIntoBuffer] runs the loop with that many. *)
Fixpoint DequeueWholeBufferIntoBuffer_loop (turns : nat) (dst src : moviebuffer A)
    : moviebuffer A * moviebuffer A :=
  match turns with
  | O => (dst, src)
  | S turns =>
      if 0 <? buf_size src then
        let '(dst, src, _) := DequeueBufferIntoBuffer dst src in
        DequeueWholeBufferIntoBuffer_loop turns dst src
      else (dst, src)
  end.

Definition DequeueWholeBufferIntoBuffer (dst src : moviebuffer A)
    : moviebuffer A * moviebuffer A :=
  DequeueWholeBufferIntoBuffer_loop (Z.to_nat (buf_size src)) dst src.

(** The queue a buffer holds, oldest slot first. *)
Definition contents (buffer : moviebuffer A) : list A :=
  (λ i, read_slot buffer (Z.rem (buf_start buffer + i) (buf_capacity buffer)))
    <$> seqZ 0 (buf_size buffer).

(** A buffer in the state the code keeps it in. *)
Definition buffer_ok (buffer : moviebuffer A) : Prop :=
  0 ≤ buf_start buffer ∧ buf_start buffer < buf_capacity buffer ∧
  0 ≤ buf_size buffer ∧ buf_size buffer ≤ buf_capacity buffer ∧
  Z.of_nat (length (slots buffer)) = buf_capacity buffer.
End Buffer.

(** *** The circular buffer, byte by byte

    The same functions over the bytes of the backing array, as the code has
    them: [data] is an array of [capacity * slotsize] bytes and a slot
    pointer is the offset of the first byte of the slot, [None] being
    [NULL].  This is the model for two buffers whose slots differ in size:
    [memcpy] copies [src->slotsize] bytes whatever the size of the slots of
    [dst].  ([memcpy_slot] above, between buffers of one slot type, copies
    the whole slot.)  In C [%] by a [capacity] of 0, a copy through [NULL]
    and a copy that leaves one of the two arrays are undefined: the
    statements about these functions keep away from them. *)
Module Bytes.
Record moviebuffer : Type := Moviebuffer {
  capacity : Z;
  slotsize : Z;
  start : Z;
  size : Z;
  data : list Z
}.

Definition GetBufferSlot (buffer : moviebuffer) (index : Z) : option Z :=
  if index <? 0 then None
  else
    let index := Z.rem (start buffer + index) (capacity buffer) in
    Some (index * slotsize buffer).

Definition PeekBuffer (buffer : moviebuffer) : option Z :=
  GetBufferSlot buffer 0.

Definition EnqueueBuffer (buffer : moviebuffer) : moviebuffer * option Z :=
  let buffer :=
    Moviebuffer (capacity buffer) (slotsize buffer) (start buffer) (size buffer + 1)
      (data buffer) in
  (buffer, GetBufferSlot buffer (size buffer - 1)).

Definition DequeueBuffer (buffer : moviebuffer) : moviebuffer * option Z :=
  let slot := PeekBuffer buffer in
  let buffer :=
    Moviebuffer (capacity buffer) (slotsize buffer)
      (Z.rem (start buffer + 1) (capacity buffer)) (size buffer) (data buffer) in
  let buffer :=
    Moviebuffer (capacity buffer) (slotsize buffer) (start buffer) (size buffer - 1)
      (data buffer) in
  (buffer, slot).

(** [memcpy(dst + d, src + s, n)], the [n] bytes inside the two arrays. *)
Definition memcpy (dst : list Z) (d : Z) (src : list Z) (s n : Z) : list Z :=
  take (Z.to_nat d) dst ++ take (Z.to_nat n) (drop (Z.to_nat s) src)
  ++ drop (Z.to_nat (d + n)) dst.

(** Returns the updated [dst], the updated [src] and [dstslot]. *)
Definition DequeueBufferIntoBuffer (dst src : moviebuffer)
    : moviebuffer * moviebuffer * option Z :=
  let '(src, srcslot) := DequeueBuffer src in
  let '(dst, dstslot) := EnqueueBuffer dst in
  let dst :=
    match dstslot, srcslot with
    | Some d, Some s =>
        Moviebuffer (capacity dst) (slotsize dst) (start dst) (size dst)
          (memcpy (data dst) d (data src) s (slotsize src))
    | _, _ => dst
    end in
  (dst, src, dstslot).
End Bytes.

(** ** Frames, streams, worker and movie (movie_decode.h) *)

Record AVRational : Type := { num : Z; den : Z }.

(** [AVStream]: the fields the decoder reads. *)
Record AVStream : Type := {
  time_base : AVRational;
  avg_frame_rate : AVRational
}.

Record AVCodecContext : Type := {
  cc_width : Z;
  cc_height : Z;
  cc_sample_rate : Z;
  cc_channels : Z
}.

(** [AVFrame]: the decoded frame the worker reuses. *)
Record AVFrame : Type := {
  fr_width : Z;
  fr_height : Z;
  fr_pts : Z;
  fr_pkt_duration : Z;
  fr_nb_samples : Z;
  fr_channels : Z
}.

Record AVPacket : Type := { stream_index : Z }.

(** [AVPacket *]: the address of a packet, 0 for [NULL]. *)
Record packetptr : Type := Packetptr { address : Z }.

(** [vf_image] is the address of the payload, [image.patch] or
    [image.rgba.data[0]]; 0 is [NULL]. *)
Record movievideoframe : Type := {
  vf_id : Z;
  vf_pts : Z;
  vf_duration : Z;
  vf_image : Z
}.

(** [af_samples] is plane 0 of the samples, as bytes. *)
Record movieaudioframe : Type := {
  af_pts : Z;
  af_firstsampleposition : Z;
  af_numsamples : Z;
  af_samples : list Z
}.

#[global] Instance movievideoframe_inhabited : Inhabited movievideoframe :=
  populate {| vf_id := 0; vf_pts := 0; vf_duration := 0; vf_image := 0 |}.
#[global] Instance movieaudioframe_inhabited : Inhabited movieaudioframe :=
  populate {| af_pts := 0; af_firstsampleposition := 0; af_numsamples := 0; af_samples := [] |}.
#[global] Instance AVPacket_inhabited : Inhabited AVPacket :=
  populate {| stream_index := 0 |}.
#[global] Instance packetptr_inhabited : Inhabited packetptr :=
  populate (Packetptr 0).

Definition set_vf_image (f : movievideoframe) (v : Z) : movievideoframe :=
  {| vf_id := vf_id f; vf_pts := vf_pts f; vf_duration := vf_duration f; vf_image := v |}.

Definition set_af_firstsampleposition (f : movieaudioframe) (v : Z) : movieaudioframe :=
  {| af_pts := af_pts f; af_firstsampleposition := v;
     af_numsamples := af_numsamples f; af_samples := af_samples f |}.

(** [moviestream_t], with slots of type [A]. [st_stream = None] is a [NULL]
    [stream] (no such stream in the container). *)
Record moviestream (A : Type) : Type := Moviestream {
  st_stream : option AVStream;
  st_index : Z;
  st_buffer : moviebuffer A;
  st_numplanes : Z
}.
Arguments Moviestream {A}.
Arguments st_stream {A}.
Arguments st_index {A}.
Arguments st_buffer {A}.
Arguments st_numplanes {A}.

Definition set_st_buffer {A} (s : moviestream A) (b : moviebuffer A) : moviestream A :=
  Moviestream (st_stream s) (st_index s) b (st_numplanes s).

Definition set_st_numplanes {A} (s : moviestream A) (n : Z) : moviestream A :=
  Moviestream (st_stream s) (st_index s) (st_buffer s) n.

(** [moviedecodeworkerstream_t]. *)
Record moviedecodeworkerstream (A : Type) : Type := Workerstream {
  ws_index : Z;
  ws_codeccontext : AVCodecContext;
  ws_framequeue : moviebuffer A;
  ws_framepool : moviebuffer A
}.
Arguments Workerstream {A}.
Arguments ws_index {A}.
Arguments ws_codeccontext {A}.
Arguments ws_framequeue {A}.
Arguments ws_framepool {A}.

Definition set_ws_framequeue {A} (s : moviedecodeworkerstream A) (b : moviebuffer A)
    : moviedecodeworkerstream A :=
  Workerstream (ws_index s) (ws_codeccontext s) b (ws_framepool s).

Definition set_ws_framepool {A} (s : moviedecodeworkerstream A) (b : moviebuffer A)
    : moviedecodeworkerstream A :=
  Workerstream (ws_index s) (ws_codeccontext s) (ws_framequeue s) b.

(** [moviedecodeworker_t].  The packet buffers hold [AVPacket *]: a slot is
    the address of a packet, and [dw_packets] is the memory the packets
    live in, packet [p] at position [p]. [dw_colorlut] is
    [colorlut.table]. *)
Record moviedecodeworker : Type := Decodeworker {
  dw_videostream : moviedecodeworkerstream movievideoframe;
  dw_audiostream : moviedecodeworkerstream movieaudioframe;
  dw_packetqueue : moviebuffer packetptr;
  dw_packetpool : moviebuffer packetptr;
  dw_packets : list AVPacket;
  dw_frame : AVFrame;
  dw_tmpimage : Z;
  dw_usepatches : bool;
  dw_flushing : bool;
  dw_stopping : bool;
  dw_nextframeid : Z;
  dw_colorlut : Z → Z
}.

Definition set_dw_videostream (w : moviedecodeworker) (s : moviedecodeworkerstream movievideoframe)
    : moviedecodeworker :=
  Decodeworker s (dw_audiostream w) (dw_packetqueue w) (dw_packetpool w) (dw_packets w)
    (dw_frame w) (dw_tmpimage w) (dw_usepatches w) (dw_flushing w) (dw_stopping w)
    (dw_nextframeid w) (dw_colorlut w).

Definition set_dw_audiostream (w : moviedecodeworker) (s : moviedecodeworkerstream movieaudioframe)
    : moviedecodeworker :=
  Decodeworker (dw_videostream w) s (dw_packetqueue w) (dw_packetpool w) (dw_packets w)
    (dw_frame w) (dw_tmpimage w) (dw_usepatches w) (dw_flushing w) (dw_stopping w)
    (dw_nextframeid w) (dw_colorlut w).

Definition set_dw_packetqueue (w : moviedecodeworker) (b : moviebuffer packetptr)
    : moviedecodeworker :=
  Decodeworker (dw_videostream w) (dw_audiostream w) b (dw_packetpool w) (dw_packets w)
    (dw_frame w) (dw_tmpimage w) (dw_usepatches w) (dw_flushing w) (dw_stopping w)
    (dw_nextframeid w) (dw_colorlut w).

Definition set_dw_packetpool (w : moviedecodeworker) (b : moviebuffer packetptr)
    : moviedecodeworker :=
  Decodeworker (dw_videostream w) (dw_audiostream w) (dw_packetqueue w) b (dw_packets w)
    (dw_frame w) (dw_tmpimage w) (dw_usepatches w) (dw_flushing w) (dw_stopping w)
    (dw_nextframeid w) (dw_colorlut w).

Definition set_dw_packets (w : moviedecodeworker) (ps : list AVPacket) : moviedecodeworker :=
  Decodeworker (dw_videostream w) (dw_audiostream w) (dw_packetqueue w) (dw_packetpool w) ps
    (dw_frame w) (dw_tmpimage w) (dw_usepatches w) (dw_flushing w) (dw_stopping w)
    (dw_nextframeid w) (dw_colorlut w).

Definition set_dw_tmpimage (w : moviedecodeworker) (v : Z) : moviedecodeworker :=
  Decodeworker (dw_videostream w) (dw_audiostream w) (dw_packetqueue w) (dw_packetpool w)
    (dw_packets w) (dw_frame w) v (dw_usepatches w) (dw_flushing w) (dw_stopping w)
    (dw_nextframeid w) (dw_colorlut w).

Definition set_dw_flushing (w : moviedecodeworker) (v : bool) : moviedecodeworker :=
  Decodeworker (dw_videostream w) (dw_audiostream w) (dw_packetqueue w) (dw_packetpool w)
    (dw_packets w) (dw_frame w) (dw_tmpimage w) (dw_usepatches w) v (dw_stopping w)
    (dw_nextframeid w) (dw_colorlut w).

Definition set_dw_nextframeid (w : moviedecodeworker) (v : Z) : moviedecodeworker :=
  Decodeworker (dw_videostream w) (dw_audiostream w) (dw_packetqueue w) (dw_packetpool w)
    (dw_packets w) (dw_frame w) (dw_tmpimage w) (dw_usepatches w) (dw_flushing w)
    (dw_stopping w) v (dw_colorlut w).

(** [movie_t]. *)
Record movie : Type := Movie {
  lumpdata : list Z;
  lumpsize : Z;
  lumpposition : Z;
  videostream : moviestream movievideoframe;
  audiostream : moviestream movieaudioframe;
  decodeworker : moviedecodeworker;
  position : Z;
  audioposition : Z;
  lastvideoframeusedid : Z;
  usepatches : bool;
  seeking : bool
}.

Definition set_lumpposition (m : movie) (v : Z) : movie :=
  Movie (lumpdata m) (lumpsize m) v (videostream m) (audiostream m) (decodeworker m)
    (position m) (audioposition m) (lastvideoframeusedid m) (usepatches m) (seeking m).

Definition set_videostream (m : movie) (s : moviestream movievideoframe) : movie :=
  Movie (lumpdata m) (lumpsize m) (lumpposition m) s (audiostream m) (decodeworker m)
    (position m) (audioposition m) (lastvideoframeusedid m) (usepatches m) (seeking m).

Definition set_audiostream (m : movie) (s : moviestream movieaudioframe) : movie :=
  Movie (lumpdata m) (lumpsize m) (lumpposition m) (videostream m) s (decodeworker m)
    (position m) (audioposition m) (lastvideoframeusedid m) (usepatches m) (seeking m).

Definition set_decodeworker (m : movie) (w : moviedecodeworker) : movie :=
  Movie (lumpdata m) (lumpsize m) (lumpposition m) (videostream m) (audiostream m) w
    (position m) (audioposition m) (lastvideoframeusedid m) (usepatches m) (seeking m).

Definition set_position (m : movie) (v : Z) : movie :=
  Movie (lumpdata m) (lumpsize m) (lumpposition m) (videostream m) (audiostream m)
    (decodeworker m) v (audioposition m) (lastvideoframeusedid m) (usepatches m) (seeking m).

Definition set_audioposition (m : movie) (v : Z) : movie :=
  Movie (lumpdata m) (lumpsize m) (lumpposition m) (videostream m) (audiostream m)
    (decodeworker m) (position m) v (lastvideoframeusedid m) (usepatches m) (seeking m).

Definition set_lastvideoframeusedid (m : movie) (v : Z) : movie :=
  Movie (lumpdata m) (lumpsize m) (lumpposition m) (videostream m) (audiostream m)
    (decodeworker m) (position m) (audioposition m) v (usepatches m) (seeking m).

Definition set_seeking (m : movie) (v : bool) : movie :=
  Movie (lumpdata m) (lumpsize m) (lumpposition m) (videostream m) (audiostream m)
    (decodeworker m) (position m) (audioposition m) (lastvideoframeusedid m) (usepatches m) v.

(** What a slot pointer points to, [*slot], and the frame [index] places
    after the head of the queue, [*GetBufferSlot(buffer, index)]. The code
    only does this for [index >= 0], where the pointer is not [NULL]. *)
Definition frame_of {A} `{!Inhabited A} (buffer : moviebuffer A) (slot : option Z) : A :=
  match slot with
  | Some slot => read_slot buffer slot
  | None => inhabitant
  end.

Definition frame_at {A} `{!Inhabited A} (buffer : moviebuffer A) (index : Z) : A :=
  frame_of buffer (GetBufferSlot buffer index).

(** ** Time conversion *)

Definition INT64_MAX : Z := 2 ^ 63 - 1.
Definition INT64_MIN : Z := - 2 ^ 63.

(** Modelled from the spec: [av_rescale_q] belongs to the codec library, which
    is not among the sources.  It rescales [a] from the time base [bq] to the
    time base [cq] over 64-bit integers, rounding to nearest with ties away
    from zero; the library answers [INT64_MIN] when the result does not fit. *)
Definition av_rescale_q (a : Z) (bq cq : AVRational) : Z :=
  let b := num bq * den cq in
  let c := num cq * den bq in
  if (c <=? 0) || (b <? 0) then INT64_MIN
  else
    let r := (Z.abs a * b + c / 2) / c in
    if INT64_MAX <? r then INT64_MIN
    else if a <? 0 then - r else r.

(** [stream->time_base].  Where [stream] is [NULL] (the audio stream of a
    container without one) the code dereferences it, which is undefined; the
    model answers 0/0 there. *)
Definition stream_time_base {A} (s : moviestream A) : AVRational :=
  match st_stream s with
  | Some st => time_base st
  | None => {| num := 0; den := 0 |}
  end.

Definition PTSToSamples (m : movie) (pts : Z) : Z :=
  let oldtb := stream_time_base (audiostream m) in
  let newtb := {| num := 1; den := SAMPLE_RATE |} in
  av_rescale_q pts oldtb newtb.

Definition SamplesToPTS (m : movie) (numsamples : Z) : Z :=
  let oldtb := {| num := 1; den := SAMPLE_RATE |} in
  let newtb := stream_time_base (audiostream m) in
  av_rescale_q numsamples oldtb newtb.

Definition SamplesToMS (numsamples : Z) : Z :=
  let oldtb := {| num := 1; den := SAMPLE_RATE |} in
  let newtb := {| num := 1; den := 1000 |} in
  av_rescale_q numsamples oldtb newtb.

Definition MSToSamples (ms : Z) : Z :=
  let oldtb := {| num := 1; den := 1000 |} in
  let newtb := {| num := 1; den := SAMPLE_RATE |} in
  av_rescale_q ms oldtb newtb.

Definition VideoPTSToMS (m : movie) (pts : Z) : Z :=
  let oldtb := stream_time_base (videostream m) in
  let newtb := {| num := 1; den := 1000 |} in
  av_rescale_q pts oldtb newtb.

Definition MSToVideoPTS (m : movie) (ms : Z) : Z :=
  let oldtb := {| num := 1; den := 1000 |} in
  let newtb := stream_time_base (videostream m) in
  av_rescale_q ms oldtb newtb.

Definition MSToAudioPTS (m : movie) (ms : Z) : Z :=
  let oldtb := {| num := 1; den := 1000 |} in
  let newtb := stream_time_base (audiostream m) in
  av_rescale_q ms oldtb newtb.

(** ** Miscellaneous getters *)

Definition GetVideoFrameEndPTS (frame : movievideoframe) : Z :=
  vf_pts frame + vf_duration frame.

Definition GetAudioFrameEndPTS (m : movie) (frame : movieaudioframe) : Z :=
  af_pts frame + SamplesToPTS m (af_numsamples frame).

Definition GetAudioFrameEndSample (frame : movieaudioframe) : Z :=
  af_firstsampleposition frame + af_numsamples frame.

Definition GetBytesPerPatchColumn (worker : moviedecodeworker) : Z :=
  let height := cc_height (ws_codeccontext (dw_videostream worker)) in
  let numpostspercolumn := Z.quot (height + POST_MAX_HEIGHT - 1) POST_MAX_HEIGHT in
  height + numpostspercolumn * POST_BASE_BYTES + 1.

(** [for (i = size - 1; i >= 0; i--)]: [turns] is [i + 1]. *)
Fixpoint FindVideoBufferIndexForPosition_loop (buffer : moviebuffer movievideoframe)
    (pts : Z) (turns : nat) : Z :=
  match turns with
  | O => -1
  | S turns =>
      let i := Z.of_nat turns in
      let frame := frame_at buffer i in
      if vf_pts frame <=? pts then i
      else FindVideoBufferIndexForPosition_loop buffer pts turns
  end.

Definition FindVideoBufferIndexForPosition (m : movie) (pts : Z) : Z :=
  let buffer := st_buffer (videostream m) in
  FindVideoBufferIndexForPosition_loop buffer pts (Z.to_nat (buf_size buffer)).

(** [for (i = 0; i < size; i++)]: [turns] is [size - i]. *)
Fixpoint FindAudioBufferIndexForPosition_loop (buffer : moviebuffer movieaudioframe)
    (sample : Z) (turns : nat) (i : Z) : Z :=
  match turns with
  | O => -1
  | S turns =>
      let frame := frame_at buffer i in
      if (af_firstsampleposition frame <=? sample) && (sample <? GetAudioFrameEndSample frame)
      then i
      else FindAudioBufferIndexForPosition_loop buffer sample turns (i + 1)
  end.

Definition FindAudioBufferIndexForPosition (m : movie) (sample : Z) : Z :=
  let buffer := st_buffer (audiostream m) in
  FindAudioBufferIndexForPosition_loop buffer sample (Z.to_nat (buf_size buffer)) 0.

Definition IsPTSInVideoBuffer (m : movie) (pts : Z) : bool :=
  let buffer := st_buffer (videostream m) in
  if buf_size buffer =? 0 then false
  else
    let firstframe := frame_at buffer 0 in
    let lastframe := frame_at buffer (buf_size buffer - 1) in
    (vf_pts firstframe <=? pts) && (pts <? GetVideoFrameEndPTS lastframe).

Definition GetSamplesPerFrame (numsamples inputsamplerate : Z) : Z :=
  Z.quot (numsamples * SAMPLE_RATE) inputsamplerate + 1.

Definition set_dw_frame (w : moviedecodeworker) (f : AVFrame) : moviedecodeworker :=
  Decodeworker (dw_videostream w) (dw_audiostream w) (dw_packetqueue w) (dw_packetpool w)
    (dw_packets w) f (dw_tmpimage w) (dw_usepatches w) (dw_flushing w) (dw_stopping w)
    (dw_nextframeid w) (dw_colorlut w).

Definition set_dw_usepatches (w : moviedecodeworker) (v : bool) : moviedecodeworker :=
  Decodeworker (dw_videostream w) (dw_audiostream w) (dw_packetqueue w) (dw_packetpool w)
    (dw_packets w) (dw_frame w) (dw_tmpimage w) v (dw_flushing w) (dw_stopping w)
    (dw_nextframeid w) (dw_colorlut w).

(** [slot->field = v] through a slot pointer; the code never does it
    through [NULL]. *)
Definition update_slot {A} `{!Inhabited A} (buffer : moviebuffer A) (slot : option Z)
    (f : A → A) : moviebuffer A :=
  match slot with
  | Some s => write_slot buffer s (f (read_slot buffer s))
  | None => buffer
  end.

(** The byte at [pos] in a block of memory; the code reads inside the
    block. *)
Definition byte_at (l : list Z) (pos : Z) : Z := default 0 (l !! Z.to_nat pos).

(** Conversions to [INT32] and to [size_t] (64 bits). *)
Definition to_INT32 (z : Z) : Z := (z + 2 ^ 31) mod 2 ^ 32 - 2 ^ 31.
Definition to_size_t (z : Z) : Z := z mod 2 ^ 64.

(** ** Decoding worker initialisation *)

(** [alloc i] is what the allocation for frame [i] gives: the address of the
    storage, or [None] when it fails. *)
Fixpoint InitialiseImages_loop (alloc : Z → option Z) (usepatches : bool) (turns : nat) (i : Z)
    (framepool : moviebuffer movievideoframe) : outcome (moviebuffer movievideoframe) :=
  match turns with
  | O => Returned framepool
  | S turns =>
      let '(framepool, frame) := EnqueueBuffer framepool in
      match alloc i with
      | Some addr =>
          let framepool := update_slot framepool frame (λ f, set_vf_image f addr) in
          InitialiseImages_loop alloc usepatches turns (i + 1) framepool
      | None =>
          if usepatches then I_Error "FFmpeg: cannot allocate patch data"
          else I_Error "FFmpeg: cannot allocate image"
      end
  end.

Definition InitialiseImages (alloc : Z → option Z) (worker : moviedecodeworker)
    : outcome moviedecodeworker :=
  let vs := dw_videostream worker in
  let capacity := buf_capacity (ws_framepool vs) in
  framepool ← InitialiseImages_loop alloc (dw_usepatches worker) (Z.to_nat capacity) 0
                 (ws_framepool vs);
  let worker := set_dw_videostream worker (set_ws_framepool vs framepool) in
  if dw_usepatches worker then
    match alloc capacity with
    | Some addr => Returned (set_dw_tmpimage worker addr)
    | None => I_Error "FFmpeg: cannot allocate image"
    end
  else Returned worker.

Definition stream_avg_frame_rate {A} (s : moviestream A) : AVRational :=
  match st_stream s with
  | Some st => avg_frame_rate st
  | None => {| num := 0; den := 0 |}
  end.

(** [/] by an [fps->den] of 0 is undefined in C; [Z.quot] answers 0 there. *)
Definition InitialiseVideoBuffer (mem : bool) (sizeof_movievideoframe_t : Z) (m : movie)
    : outcome movie :=
  let vs := set_st_numplanes (videostream m) 1 in
  let fps := stream_avg_frame_rate vs in
  buffer ← InitialiseBuffer mem
              (to_INT32 (Z.quot (Z.quot STREAM_BUFFER_TIME 1000 * num fps) (den fps)))
              sizeof_movievideoframe_t;
  Returned (set_videostream m (set_st_buffer vs buffer)).

(** [samples_alloc i] is what [av_samples_alloc] returns for frame [i]. *)
Fixpoint InitialiseAudioBuffer_loop (samples_alloc : Z → Z) (turns : nat) (i : Z)
    (framepool : moviebuffer movieaudioframe) : outcome (moviebuffer movieaudioframe) :=
  match turns with
  | O => Returned framepool
  | S turns =>
      let '(framepool, _) := EnqueueBuffer framepool in
      if samples_alloc i =? 0 then I_Error "FFmpeg: cannot allocate samples"
      else InitialiseAudioBuffer_loop samples_alloc turns (i + 1) framepool
  end.

(** [planar] is [av_sample_fmt_is_planar(AV_SAMPLE_FMT_S16)]. *)
Definition InitialiseAudioBuffer (mem planar : bool) (samples_alloc : Z → Z)
    (sizeof_movieaudioframe_t : Z)
    (stream : moviestream movieaudioframe) (worker : moviedecodeworker)
    : outcome (moviestream movieaudioframe * moviedecodeworker) :=
  let workerstream := dw_audiostream worker in
  match st_stream stream with
  | None => Returned (stream, worker)
  | Some _ =>
      let stream :=
        set_st_numplanes stream
          (if planar then cc_channels (ws_codeccontext workerstream) else 1) in
      let samplesperframe :=
        GetSamplesPerFrame (fr_nb_samples (dw_frame worker))
          (cc_sample_rate (ws_codeccontext workerstream)) in
      buffer ← InitialiseBuffer mem
                  (to_INT32
                     (Z.quot (Z.quot STREAM_BUFFER_TIME 1000
                              * cc_sample_rate (ws_codeccontext workerstream))
                             samplesperframe))
                  sizeof_movieaudioframe_t;
      let stream := set_st_buffer stream buffer in
      framequeue ← CloneBuffer mem (st_buffer stream);
      framepool ← CloneBuffer mem (st_buffer stream);
      framepool ← InitialiseAudioBuffer_loop samples_alloc
                     (Z.to_nat (buf_capacity framepool)) 0 framepool;
      let workerstream := set_ws_framepool (set_ws_framequeue workerstream framequeue) framepool in
      Returned (stream, set_dw_audiostream worker workerstream)
  end.

(** [av_packet_alloc()]: the new packet gets the next free address. *)
Definition av_packet_alloc (mem : bool) (packets : list AVPacket) : option (Z * list AVPacket) :=
  if mem then Some (Z.of_nat (length packets), packets ++ [inhabitant]) else None.

Fixpoint InitialisePacketQueue_loop (mem : bool) (turns : nat) (worker : moviedecodeworker)
    : outcome moviedecodeworker :=
  match turns with
  | O => Returned worker
  | S turns =>
      match av_packet_alloc mem (dw_packets worker) with
      | None => I_Error "FFmpeg: cannot allocate packet"
      | Some (packet, packets) =>
          let worker := set_dw_packets worker packets in
          let '(packetpool, packetslot) := EnqueueBuffer (dw_packetpool worker) in
          let packetpool := update_slot packetpool packetslot (λ _, Packetptr packet) in
          InitialisePacketQueue_loop mem turns (set_dw_packetpool worker packetpool)
      end
  end.

Definition InitialisePacketQueue (mem : bool) (sizeof_AVPacket_ptr : Z)
    (worker : moviedecodeworker) : outcome moviedecodeworker :=
  packetqueue ← InitialiseBuffer mem NUM_PACKETS sizeof_AVPacket_ptr;
  let worker := set_dw_packetqueue worker packetqueue in
  packetpool ← CloneBuffer mem (dw_packetqueue worker);
  let worker := set_dw_packetpool worker packetpool in
  InitialisePacketQueue_loop mem (Z.to_nat (buf_capacity (dw_packetpool worker))) worker.

(** ** Decoding worker thread *)

(** The codec library's error codes ([AVERROR_EOF], [AVERROR(EAGAIN)]). *)
Definition AVERROR_EOF : Z := -541478725.
Definition AVERROR_EAGAIN : Z := -11.

Definition av_packet_unref (packets : list AVPacket) (packet : Z) : list AVPacket :=
  <[Z.to_nat packet := inhabitant]> packets.

(** [senderror] is what [avcodec_send_packet] returns. *)
Definition SendPacket (senderror : Z) (worker : moviedecodeworker) : outcome moviedecodeworker :=
  if buf_size (dw_packetqueue worker) =? 0 then Returned worker
  else
    let '(packetpool, packetqueue, packetslot) :=
      DequeueBufferIntoBuffer (dw_packetpool worker) (dw_packetqueue worker) in
    let worker := set_dw_packetqueue (set_dw_packetpool worker packetpool) packetqueue in
    let packet := address (frame_of packetpool packetslot) in
    let index := stream_index (dw_packets worker !!! Z.to_nat packet) in
    if (index =? ws_index (dw_videostream worker)) || (index =? ws_index (dw_audiostream worker))
    then
      if senderror <? 0 then I_Error "FFmpeg: cannot send packet to the decoder"
      else Returned (set_dw_packets worker (av_packet_unref (dw_packets worker) packet))
    else I_Error "FFmpeg: unexpected packet".

(** [error] is what [avcodec_receive_frame] returns. *)
Definition ReceiveFrame (error : Z) : outcome bool :=
  if error =? 0 then Returned true
  else if error =? AVERROR_EOF then Returned false
  else if error =? AVERROR_EAGAIN then Returned false
  else I_Error "FFmpeg: cannot receive frame".

(** Modelled from the spec: [WRITEUINT8] and [WRITEUINT32] are macros of
    byteptr.h, which is not among the sources.  They store a value of the
    given width at [dst] and move [dst] past it; the 4-byte offsets of the
    posted image have the low byte first.  [dst] is modelled by the bytes
    written so far. *)
Definition WRITEUINT8 (dst : list Z) (b : Z) : list Z := dst ++ [b mod 256].

Definition UINT32_bytes (b : Z) : list Z :=
  [b mod 256; (b / 256) mod 256; (b / 65536) mod 256; (b / 16777216) mod 256].

Definition WRITEUINT32 (dst : list Z) (b : Z) : list Z := dst ++ UINT32_bytes b.

Section ConvertRGBAToPatch.
(** [CLUTINDEX] is a macro of v_video.h, which is not among the sources:
    the position of a colour in the lookup table. *)
Variable CLUTINDEX : Z → Z → Z → Z.
Variable worker : moviedecodeworker.
Variable src : list Z.

Let width := fr_width (dw_frame worker).
Let height := fr_height (dw_frame worker).
Let lut := dw_colorlut worker.
Let stride := 4 * width.

(** [for (x = 0; x < width; x++) WRITEUINT32(...)]: [turns] is [width - x]. *)
Fixpoint ConvertRGBAToPatch_offsets (bytespercolumn : Z) (turns : nat) (x : Z)
    (dst : list Z) : list Z :=
  match turns with
  | O => dst
  | S turns =>
      ConvertRGBAToPatch_offsets bytespercolumn turns (x + 1)
        (WRITEUINT32 dst (width * 4 + x * bytespercolumn + (POST_BASE_BYTES - 1)))
  end.

(** [while (y < postend)]: returns [y], [srcptr] and [dst]. *)
Fixpoint ConvertRGBAToPatch_pixels (turns : nat) (postend y srcptr : Z) (dst : list Z)
    : Z * Z * list Z :=
  match turns with
  | O => (y, srcptr, dst)
  | S turns =>
      if y <? postend then
        let r := byte_at src srcptr in
        let g := byte_at src (srcptr + 1) in
        let b := byte_at src (srcptr + 2) in
        let i := lut (CLUTINDEX r g b) mod 256 in
        let dst := WRITEUINT8 dst i in
        ConvertRGBAToPatch_pixels turns postend (y + 1) (srcptr + stride) dst
      else (y, srcptr, dst)
  end.

(** [while (y < height)]: a post takes [y] further, so [height] turns are
    enough. *)
Fixpoint ConvertRGBAToPatch_posts (turns : nat) (y srcptr : Z) (dst : list Z) : list Z :=
  match turns with
  | O => dst
  | S turns =>
      if y <? height then
        let postend := Z.min (y + POST_MAX_HEIGHT) height in
        let dst := WRITEUINT8 dst (if y =? 0 then 0 else POST_MAX_HEIGHT) in
        let dst := WRITEUINT8 dst (postend - y) in
        let dst := WRITEUINT8 dst 0 in
        let '(y, srcptr, dst) :=
          ConvertRGBAToPatch_pixels (Z.to_nat (postend - y)) postend y srcptr dst in
        let dst := WRITEUINT8 dst 0 in
        ConvertRGBAToPatch_posts turns y srcptr dst
      else dst
  end.

(** [for (x = 0; x < width; x++)] over the columns. *)
Fixpoint ConvertRGBAToPatch_columns (turns : nat) (x : Z) (dst : list Z) : list Z :=
  match turns with
  | O => dst
  | S turns =>
      let dst := ConvertRGBAToPatch_posts (Z.to_nat height) 0 (4 * x) dst in
      let dst := WRITEUINT8 dst 255 in
      ConvertRGBAToPatch_columns turns (x + 1) dst
  end.

(** The bytes written to [dst]. *)
Definition ConvertRGBAToPatch : list Z :=
  let bytespercolumn := GetBytesPerPatchColumn worker in
  let dst := ConvertRGBAToPatch_offsets bytespercolumn (Z.to_nat width) 0 [] in
  ConvertRGBAToPatch_columns (Z.to_nat width) 0 dst.
End ConvertRGBAToPatch.

(** The decoded frame is [worker->frame]. The pixels go through [sws_scale]
    (and [ConvertRGBAToPatch] when [usepatches]) to the storage [vf_image]
    points to; the frame record keeps the address only. *)
Definition ParseVideoFrame (worker : moviedecodeworker) : moviedecodeworker :=
  let vs := dw_videostream worker in
  let frame := PeekBuffer (ws_framepool vs) in
  let id := dw_nextframeid worker in
  let worker := set_dw_nextframeid worker (id + 1) in
  let framepool :=
    update_slot (ws_framepool vs) frame
      (λ f, {| vf_id := id; vf_pts := fr_pts (dw_frame worker);
               vf_duration := fr_pkt_duration (dw_frame worker);
               vf_image := vf_image f |}) in
  let '(framequeue, framepool, _) := DequeueBufferIntoBuffer (ws_framequeue vs) framepool in
  set_dw_videostream worker (set_ws_framepool (set_ws_framequeue vs framequeue) framepool).

(** [numoutputsamples] is what [swr_convert] returns and [converted] the
    bytes it leaves in plane 0 of the frame.  The other arguments are those
    of [InitialiseAudioBuffer]. *)
Definition ParseAudioFrame (mem planar : bool) (samples_alloc : Z → Z)
    (sizeof_movieaudioframe_t : Z) (numoutputsamples : Z) (converted : list Z)
    (m : movie) : outcome movie :=
  '(stream, worker) ←
    match buf_data (ws_framequeue (dw_audiostream (decodeworker m))) with
    | None =>
        InitialiseAudioBuffer mem planar samples_alloc sizeof_movieaudioframe_t
          (audiostream m) (decodeworker m)
    | Some _ => Returned (audiostream m, decodeworker m)
    end;
  let aus := dw_audiostream worker in
  let frame := PeekBuffer (ws_framepool aus) in
  if numoutputsamples <? 0 then I_Error "FFmpeg: cannot convert audio frame"
  else
    let framepool :=
      update_slot (ws_framepool aus) frame
        (λ f, {| af_pts := fr_pts (dw_frame worker);
                 af_firstsampleposition := af_firstsampleposition f;
                 af_numsamples := numoutputsamples;
                 af_samples := converted |}) in
    let '(framequeue, framepool, _) := DequeueBufferIntoBuffer (ws_framequeue aus) framepool in
    let worker :=
      set_dw_audiostream worker (set_ws_framepool (set_ws_framequeue aus framequeue) framepool) in
    Returned (set_decodeworker (set_audiostream m stream) worker).

Definition FlushDecodeWorker (worker : moviedecodeworker) : moviedecodeworker :=
  let worker := set_dw_flushing worker true in
  let '(packetpool, packetqueue) :=
    DequeueWholeBufferIntoBuffer (dw_packetpool worker) (dw_packetqueue worker) in
  set_dw_packetqueue (set_dw_packetpool worker packetpool) packetqueue.

(** [senderror] is what [avcodec_send_packet(.., NULL)] returns and
    [receiveerror] the first result of [avcodec_receive_frame] that is not 0,
    where the draining loop ends. *)
Definition FlushStream {A} `{!Inhabited A} (senderror receiveerror : Z)
    (stream : moviedecodeworkerstream A) : outcome (moviedecodeworkerstream A) :=
  if senderror <? 0 then I_Error "FFmpeg: cannot flush decoder"
  else if receiveerror =? AVERROR_EOF then
    let '(framepool, framequeue) :=
      DequeueWholeBufferIntoBuffer (ws_framepool stream) (ws_framequeue stream) in
    Returned (set_ws_framequeue (set_ws_framepool stream framepool) framequeue)
  else I_Error "FFmpeg: cannot receive frame".

Definition FlushDecoding (vsend vreceive asend areceive : Z) (worker : moviedecodeworker)
    : outcome moviedecodeworker :=
  vs ← FlushStream vsend vreceive (dw_videostream worker);
  let worker := set_dw_videostream worker vs in
  aus ← FlushStream asend areceive (dw_audiostream worker);
  let worker := set_dw_audiostream worker aus in
  Returned (set_dw_flushing worker false).

(** ** Frame clearing *)

Definition ClearOldestFrame {A} `{!Inhabited A} (stream : moviestream A)
    (workerstream : moviedecodeworkerstream A)
    : moviestream A * moviedecodeworkerstream A :=
  let '(framepool, buffer, _) :=
    DequeueBufferIntoBuffer (ws_framepool workerstream) (st_buffer stream) in
  (set_st_buffer stream buffer, set_ws_framepool workerstream framepool).

(** The [while] loops of the three functions below take one frame from the
    buffer at each turn, so [size] turns are enough. *)
Fixpoint ClearOldVideoFrames_loop (limit : Z) (turns : nat)
    (stream : moviestream movievideoframe)
    (workerstream : moviedecodeworkerstream movievideoframe)
    : moviestream movievideoframe * moviedecodeworkerstream movievideoframe :=
  match turns with
  | O => (stream, workerstream)
  | S turns =>
      let buffer := st_buffer stream in
      if (0 <? buf_size buffer) && (vf_pts (frame_at buffer 0) <? limit) then
        let '(stream, workerstream) := ClearOldestFrame stream workerstream in
        ClearOldVideoFrames_loop limit turns stream workerstream
      else (stream, workerstream)
  end.

Definition ClearOldVideoFrames (m : movie) : movie :=
  let limit := MSToVideoPTS m (position m - Z.quot STREAM_BUFFER_TIME 2) in
  let '(stream, workerstream) :=
    ClearOldVideoFrames_loop limit (Z.to_nat (buf_size (st_buffer (videostream m))))
      (videostream m) (dw_videostream (decodeworker m)) in
  set_decodeworker (set_videostream m stream) (set_dw_videostream (decodeworker m) workerstream).

Fixpoint ClearOldAudioFrames_loop (m : movie) (limit : Z) (turns : nat)
    (stream : moviestream movieaudioframe)
    (workerstream : moviedecodeworkerstream movieaudioframe)
    : moviestream movieaudioframe * moviedecodeworkerstream movieaudioframe :=
  match turns with
  | O => (stream, workerstream)
  | S turns =>
      let buffer := st_buffer stream in
      if (0 <? buf_size buffer) && (GetAudioFrameEndPTS m (frame_at buffer 0) <? limit) then
        let '(stream, workerstream) := ClearOldestFrame stream workerstream in
        ClearOldAudioFrames_loop m limit turns stream workerstream
      else (stream, workerstream)
  end.

Definition ClearOldAudioFrames (m : movie) : movie :=
  let limit := Z.max (MSToAudioPTS m (position m - Z.quot STREAM_BUFFER_TIME 2)) 0 in
  let '(stream, workerstream) :=
    ClearOldAudioFrames_loop m limit (Z.to_nat (buf_size (st_buffer (audiostream m))))
      (audiostream m) (dw_audiostream (decodeworker m)) in
  set_decodeworker (set_audiostream m stream) (set_dw_audiostream (decodeworker m) workerstream).

Fixpoint ClearAllFrames_loop {A} `{!Inhabited A} (turns : nat) (stream : moviestream A)
    (workerstream : moviedecodeworkerstream A)
    : moviestream A * moviedecodeworkerstream A :=
  match turns with
  | O => (stream, workerstream)
  | S turns =>
      if negb (buf_size (st_buffer stream) =? 0) then
        let '(stream, workerstream) := ClearOldestFrame stream workerstream in
        ClearAllFrames_loop turns stream workerstream
      else (stream, workerstream)
  end.

Definition ClearAllFrames (m : movie) : movie :=
  let '(vstream, vworkerstream) :=
    ClearAllFrames_loop (Z.to_nat (buf_size (st_buffer (videostream m))))
      (videostream m) (dw_videostream (decodeworker m)) in
  let '(astream, aworkerstream) :=
    ClearAllFrames_loop (Z.to_nat (buf_size (st_buffer (audiostream m))))
      (audiostream m) (dw_audiostream (decodeworker m)) in
  set_decodeworker (set_audiostream (set_videostream m vstream) astream)
    (set_dw_audiostream (set_dw_videostream (decodeworker m) vworkerstream) aworkerstream).

(** ** Demuxing and I/O *)

(** [n] bytes of [l] from [pos] on, as [memcpy] reads them. *)
Definition read_bytes (l : list Z) (pos : Z) (n : Z) : list Z :=
  (λ k, byte_at l (pos + k)) <$> seqZ 0 n.

(** [lumpsize] and [lumpposition] are [size_t]. Returns the movie, the bytes
    copied to [buffer] and the result. *)
Definition ReadStream (m : movie) (buffersize : Z) : movie * list Z * Z :=
  let bs := to_size_t buffersize in
  let buffersize := to_INT32 (Z.min bs (to_size_t (lumpsize m - lumpposition m))) in
  let copied := read_bytes (lumpdata m) (lumpposition m) (to_size_t buffersize) in
  let m := set_lumpposition m (to_size_t (lumpposition m + buffersize)) in
  (m, copied, buffersize).



(** ** Main thread *)

(** [error] is what [av_read_frame] returns and [read] the packet it reads;
    on an error the library leaves the packet blank. *)
Definition ReadPacket (error : Z) (read : AVPacket) (m : movie) : outcome (movie * bool) :=
  let worker := decodeworker m in
  let packetslot := PeekBuffer (dw_packetpool worker) in
  let packet := address (frame_of (dw_packetpool worker) packetslot) in
  let worker :=
    set_dw_packets worker
      (<[Z.to_nat packet := if error <? 0 then inhabitant else read]> (dw_packets worker)) in
  if error =? AVERROR_EOF then Returned (set_decodeworker m worker, false)
  else if error <? 0 then I_Error "FFmpeg: cannot read packet"
  else
    let index := stream_index (dw_packets worker !!! Z.to_nat packet) in
    if (index =? st_index (videostream m)) || (index =? st_index (audiostream m)) then
      let '(packetqueue, packetpool, _) :=
        DequeueBufferIntoBuffer (dw_packetqueue worker) (dw_packetpool worker) in
      let worker := set_dw_packetpool (set_dw_packetqueue worker packetqueue) packetpool in
      Returned (set_decodeworker m worker, true)
    else
      let worker := set_dw_packets worker (av_packet_unref (dw_packets worker) packet) in
      Returned (set_decodeworker m worker, true).

Definition PollVideoFrameQueue (m : movie) : movie :=
  let worker := decodeworker m in
  let vs := dw_videostream worker in
  if negb (buf_size (ws_framequeue vs) =? 0) then
    let '(buffer, framequeue) :=
      DequeueWholeBufferIntoBuffer (st_buffer (videostream m)) (ws_framequeue vs) in
    set_decodeworker (set_videostream m (set_st_buffer (videostream m) buffer))
      (set_dw_videostream worker (set_ws_framequeue vs framequeue))
  else m.

(** [while (worker->audiostream.framequeue.size > 0)]: returns the consumer
    buffer and the frame queue. *)
Fixpoint PollAudioFrameQueue_loop (m : movie) (turns : nat)
    (buffer framequeue : moviebuffer movieaudioframe)
    : moviebuffer movieaudioframe * moviebuffer movieaudioframe :=
  match turns with
  | O => (buffer, framequeue)
  | S turns =>
      if 0 <? buf_size framequeue then
        let '(buffer, framequeue, frame) := DequeueBufferIntoBuffer buffer framequeue in
        let buffer :=
          if 1 <? buf_size buffer then
            let prevframe := frame_at buffer (buf_size buffer - 2) in
            update_slot buffer frame
              (λ f, set_af_firstsampleposition f
                      (af_firstsampleposition prevframe + af_numsamples prevframe))
          else
            update_slot buffer frame
              (λ f, set_af_firstsampleposition f (PTSToSamples m (af_pts f))) in
        PollAudioFrameQueue_loop m turns buffer framequeue
      else (buffer, framequeue)
  end.

Definition PollAudioFrameQueue (m : movie) : movie :=
  let worker := decodeworker m in
  let aus := dw_audiostream worker in
  if negb (buf_size (ws_framequeue aus) =? 0) then
    let '(buffer, framequeue) :=
      PollAudioFrameQueue_loop m (Z.to_nat (buf_size (ws_framequeue aus)))
        (st_buffer (audiostream m)) (ws_framequeue aus) in
    set_decodeworker (set_audiostream m (set_st_buffer (audiostream m) buffer))
      (set_dw_audiostream worker (set_ws_framequeue aus framequeue))
  else m.

(** [seekerror] is what [avformat_seek_file] returns. *)
Definition Seek (seekerror : Z) (m : movie) : outcome movie :=
  let m := set_seeking m true in
  let m := ClearAllFrames m in
  if seekerror <? 0 then I_Error "FFmpeg: cannot seek"
  else Returned (set_decodeworker m (FlushDecodeWorker (decodeworker m))).

Definition UpdateSeeking (seekerror : Z) (m : movie) : outcome movie :=
  let buffer := st_buffer (videostream m) in
  let m :=
    if seeking m && (0 <? buf_size buffer) then
      let lastframe := frame_at buffer (buf_size buffer - 1) in
      let target := position m + 250 in
      let targetdist := target - VideoPTSToMS m (GetVideoFrameEndPTS lastframe) in
      if (targetdist <=? 0) || (MAX_SEEK_DISTANCE <? targetdist) then set_seeking m false
      else m
    else m in
  let inbuffer := IsPTSInVideoBuffer m (MSToVideoPTS m (position m)) in
  m ← (if negb (inbuffer || seeking m || dw_flushing (decodeworker m) || (buf_size buffer =? 0))
       then Seek seekerror m else Returned m);
  if negb (audioposition m =? -1) then
    let desync := Z.abs (SamplesToMS (audioposition m) - position m) in
    if MAX_AUDIO_DESYNC <? desync then Returned (set_audioposition m (-1))
    else Returned m
  else Returned m.

(** ** API *)

Definition zero_AVCodecContext : AVCodecContext :=
  {| cc_width := 0; cc_height := 0; cc_sample_rate := 0; cc_channels := 0 |}.

Definition zero_AVFrame : AVFrame :=
  {| fr_width := 0; fr_height := 0; fr_pts := 0; fr_pkt_duration := 0;
     fr_nb_samples := 0; fr_channels := 0 |}.

(** [calloc(1, sizeof( *movie))]: every field is zero. *)
Definition zero_movie : movie :=
  {| lumpdata := []; lumpsize := 0; lumpposition := 0;
     videostream := Moviestream None 0 zero_buffer 0;
     audiostream := Moviestream None 0 zero_buffer 0;
     decodeworker :=
       {| dw_videostream := Workerstream 0 zero_AVCodecContext zero_buffer zero_buffer;
          dw_audiostream := Workerstream 0 zero_AVCodecContext zero_buffer zero_buffer;
          dw_packetqueue := zero_buffer; dw_packetpool := zero_buffer; dw_packets := [];
          dw_frame := zero_AVFrame; dw_tmpimage := 0; dw_usepatches := false;
          dw_flushing := false; dw_stopping := false; dw_nextframeid := 0;
          dw_colorlut := λ _, 0 |};
     position := 0; audioposition := 0; lastvideoframeusedid := 0;
     usepatches := false; seeking := false |}.

(** What the container and the codec library tell about the movie:
    the best video and audio streams ([av_find_best_stream], a negative index
    when there is none), their decoders ([InitialiseDecoding]) and the colour
    table ([InitColorLUT]). *)
Record movieinfo : Type := {
  mi_videoindex : Z;
  mi_videostream : AVStream;
  mi_audioindex : Z;
  mi_audiostream : AVStream;
  mi_videocodec : AVCodecContext;
  mi_audiocodec : AVCodecContext;
  mi_colorlut : Z → Z
}.

(** What the host gives to the allocations of [MovieDecode_Play], and the
    sizes of the slots. *)
Record hostinfo : Type := {
  hi_mem : bool;
  hi_image_alloc : Z → option Z;
  hi_sizeof_movievideoframe_t : Z;
  hi_sizeof_AVPacket_ptr : Z
}.

(** [lump] is the movie lump found by [FindMovieLumpNum], if any. *)
Definition CacheMovieLump (lump : option (list Z)) (m : movie) : outcome movie :=
  match lump with
  | None => I_Error "FFmpeg: cannot find movie lump"
  | Some bytes =>
      Returned (Movie bytes (Z.of_nat (length bytes)) (lumpposition m) (videostream m)
                  (audiostream m) (decodeworker m) (position m) (audioposition m)
                  (lastvideoframeusedid m) (usepatches m) (seeking m))
  end.

(** The calls of the codec library succeed. *)
Definition InitialiseDemuxing (info : movieinfo) (m : movie) : outcome movie :=
  let m := set_lumpposition m 0 in
  if mi_videoindex info <? 0 then I_Error "FFmpeg: cannot find video stream"
  else
    let m :=
      set_videostream m
        (Moviestream (Some (mi_videostream info)) (mi_videoindex info)
           (st_buffer (videostream m)) (st_numplanes (videostream m))) in
    let m :=
      set_audiostream m
        (Moviestream
           (if 0 <=? mi_audioindex info then Some (mi_audiostream info)
            else st_stream (audiostream m))
           (mi_audioindex info) (st_buffer (audiostream m)) (st_numplanes (audiostream m))) in
    Returned m.

(** [InitialiseDecoding], [InitialiseVideoConversion] and
    [InitialiseAudioConversion] only call the codec library; [info] has what
    they give.  [InitialiseAudioConversion] reads the audio decoder, which a
    container without audio stream ([mi_audioindex] negative) has none of:
    what the code does then is undefined, and the model goes on. *)
Definition InitialiseDecodeWorker (info : movieinfo) (host : hostinfo) (m : movie)
    : outcome movie :=
  let worker := decodeworker m in
  let vstream := videostream m in
  let worker := set_dw_usepatches worker (usepatches m) in
  framequeue ← CloneBuffer (hi_mem host) (st_buffer vstream);
  framepool ← CloneBuffer (hi_mem host) (st_buffer vstream);
  let worker :=
    set_dw_videostream worker
      (Workerstream (st_index vstream) (mi_videocodec info) framequeue framepool) in
  let worker :=
    set_dw_audiostream worker
      (Workerstream (st_index (audiostream m)) (mi_audiocodec info)
         (ws_framequeue (dw_audiostream worker)) (ws_framepool (dw_audiostream worker))) in
  worker ← InitialiseImages (hi_image_alloc host) worker;
  worker ← InitialisePacketQueue (hi_mem host) (hi_sizeof_AVPacket_ptr host) worker;
  let worker :=
    Decodeworker (dw_videostream worker) (dw_audiostream worker) (dw_packetqueue worker)
      (dw_packetpool worker) (dw_packets worker) (dw_frame worker) (dw_tmpimage worker)
      (dw_usepatches worker) (dw_flushing worker) (dw_stopping worker)
      (dw_nextframeid worker) (mi_colorlut info) in
  Returned (set_decodeworker m worker).

Definition MovieDecode_Play (lump : option (list Z)) (info : movieinfo) (host : hostinfo)
    (usepatches : bool) : outcome movie :=
  let m := zero_movie in
  let m := set_lastvideoframeusedid m 0 in
  let m := set_position m 0 in
  let m := set_audioposition m 0 in
  let m :=
    Movie (lumpdata m) (lumpsize m) (lumpposition m) (videostream m) (audiostream m)
      (decodeworker m) (position m) (audioposition m) (lastvideoframeusedid m)
      usepatches (seeking m) in
  m ← CacheMovieLump lump m;
  m ← InitialiseDemuxing info m;
  m ← InitialiseVideoBuffer (hi_mem host) (hi_sizeof_movievideoframe_t host) m;
  InitialiseDecodeWorker info host m.

Definition MovieDecode_SetPosition (m : movie) (ms : Z) : movie :=
  let m := set_position m ms in
  if audioposition m =? -1 then set_audioposition m (MSToSamples (position m))
  else m.

Definition MovieDecode_Seek (m : movie) (ms : Z) : movie :=
  let m := set_position m ms in
  if audioposition m =? -1 then set_audioposition m (MSToSamples (position m))
  else m.

(** Returns the movie and the pointer, [None] for [NULL]. *)
Definition MovieDecode_GetImage (m : movie) : movie * option Z :=
  let bufferindex := FindVideoBufferIndexForPosition m (MSToVideoPTS m (position m)) in
  let buffer := st_buffer (videostream m) in
  match GetBufferSlot buffer bufferindex with
  | Some slot =>
      let frame := read_slot buffer slot in
      if negb (lastvideoframeusedid m =? vf_id frame) then
        (set_lastvideoframeusedid m (vf_id frame), Some (vf_image frame))
      else (m, None)
  | None => (m, None)
  end.

Definition MovieDecode_GetPatchBytes (m : movie) : Z :=
  let context := ws_codeccontext (dw_videostream (decodeworker m)) in
  cc_width context * (4 + GetBytesPerPatchColumn (decodeworker m)).

(** [for (i = startbufferindex; i <= endbufferindex; i++)]: [turns] is
    [endbufferindex - i + 1].  Returns the bytes copied to [mem], in the
    order of [mempos], and what is left of [size]. *)
Fixpoint MovieDecode_CopyAudioSamples_loop (m : movie) (samplesize : Z) (turns : nat) (i : Z)
    (size : Z) (membytes : list Z) : list Z * Z :=
  match turns with
  | O => (membytes, size)
  | S turns =>
      let frame := frame_at (st_buffer (audiostream m)) i in
      let startsample :=
        to_INT32 (Z.max (audioposition m - af_firstsampleposition frame) 0) in
      let sizeforframe :=
        to_INT32 (Z.min size (to_size_t ((af_numsamples frame - startsample) * samplesize))) in
      let membytes :=
        membytes ++ read_bytes (af_samples frame) (startsample * samplesize)
                      (to_size_t sizeforframe) in
      MovieDecode_CopyAudioSamples_loop m samplesize turns (i + 1)
        (to_size_t (size - sizeforframe)) membytes
  end.

(** [planar] is [av_sample_fmt_is_planar(AV_SAMPLE_FMT_S16)]; a signed 16-bit
    sample takes 2 bytes.  Returns the movie and the bytes copied to [mem]. *)
Definition MovieDecode_CopyAudioSamples (planar : bool) (m : movie) (size : Z)
    : movie * list Z :=
  let codeccontext := ws_codeccontext (dw_audiostream (decodeworker m)) in
  if audioposition m =? -1 then (m, [])
  else
    let samplesize := if planar then 2 else 2 * cc_channels codeccontext in
    let numsamples := Z.quot size (to_size_t samplesize) in
    let startbufferindex := FindAudioBufferIndexForPosition m (audioposition m) in
    let endbufferindex :=
      FindAudioBufferIndexForPosition m (audioposition m + numsamples) in
    let membytes :=
      if negb (startbufferindex =? -1) && negb (endbufferindex =? -1) then
        fst (MovieDecode_CopyAudioSamples_loop m samplesize
               (Z.to_nat (endbufferindex - startbufferindex + 1)) startbufferindex size [])
      else [] in
    (set_audioposition m (audioposition m + numsamples), membytes).

(** ** The operations that move frames

    One step of the main thread or of the decoding thread that moves frames
    between the consumer buffer, the frame queue and the frame pool of a
    stream (or changes what they depend on).  The two threads take these
    steps under [worker->mutex], one at a time. *)
Inductive frame_step : movie → movie → Prop :=
| step_ParseVideoFrame m frame :
    frame_step m
      (set_decodeworker m (ParseVideoFrame (set_dw_frame (decodeworker m) frame)))
| step_ParseAudioFrame m frame mem planar samples_alloc sizeof numoutputsamples converted m' :
    ParseAudioFrame mem planar samples_alloc sizeof numoutputsamples converted
      (set_decodeworker m (set_dw_frame (decodeworker m) frame)) = Returned m' →
    frame_step m m'
| step_FlushDecoding m vsend vreceive asend areceive worker :
    FlushDecoding vsend vreceive asend areceive (decodeworker m) = Returned worker →
    frame_step m (set_decodeworker m worker)
| step_PollVideoFrameQueue m :
    frame_step m (PollVideoFrameQueue m)
| step_PollAudioFrameQueue m :
    frame_step m (PollAudioFrameQueue m)
| step_UpdateSeeking m seekerror m' :
    UpdateSeeking seekerror m = Returned m' →
    frame_step m m'
| step_ClearOldVideoFrames m :
    frame_step m (ClearOldVideoFrames m)
| step_ClearOldAudioFrames m :
    frame_step m (ClearOldAudioFrames m)
| step_ClearAllFrames m :
    frame_step m (ClearAllFrames m)
| step_SetPosition m ms :
    frame_step m (MovieDecode_SetPosition m ms).

(** The slots of a stream are all accounted for: the consumer buffer, the
    frame queue and the frame pool have the same capacity, the backing array
    of each has that many slots, and their sizes add up to it. *)
Definition accounted {A} `{!Inhabited A} (stream : moviestream A)
    (workerstream : moviedecodeworkerstream A) : Prop :=
  let buffer := st_buffer stream in
  let framequeue := ws_framequeue workerstream in
  let framepool := ws_framepool workerstream in
  buf_size buffer + buf_size framequeue + buf_size framepool = buf_capacity buffer ∧
  buf_capacity framequeue = buf_capacity buffer ∧
  buf_capacity framepool = buf_capacity buffer ∧
  Z.of_nat (length (slots buffer)) = buf_capacity buffer ∧
  Z.of_nat (length (slots framequeue)) = buf_capacity buffer ∧
  Z.of_nat (length (slots framepool)) = buf_capacity buffer.

Definition movie_accounted (m : movie) : Prop :=
  accounted (videostream m) (dw_videostream (decodeworker m)) ∧
  accounted (audiostream m) (dw_audiostream (decodeworker m)).

(** ** A small movie, for the examples

    One frame per second, so that four video frames are buffered; no audio
    stream. *)
Definition example_info : movieinfo :=
  {| mi_videoindex := 0;
     mi_videostream := {| time_base := {| num := 1; den := 1000 |};
                          avg_frame_rate := {| num := 1; den := 1 |} |};
     mi_audioindex := -1;
     mi_audiostream := {| time_base := {| num := 0; den := 0 |};
                          avg_frame_rate := {| num := 0; den := 0 |} |};
     mi_videocodec := {| cc_width := 2; cc_height := 3; cc_sample_rate := 0; cc_channels := 0 |};
     mi_audiocodec := zero_AVCodecContext;
     mi_colorlut := λ i, i |}.

Definition example_host : hostinfo :=
  {| hi_mem := true;
     hi_image_alloc := λ i, Some (4096 * (i + 1));
     hi_sizeof_movievideoframe_t := 64;
     hi_sizeof_AVPacket_ptr := 8 |}.

Definition outcome_get {A} (d : A) (c : outcome A) : A :=
  match c with
  | Returned a => a
  | Fatal _ => d
  end.

(** The movie right after [MovieDecode_Play]. *)
Definition example_movie : movie :=
  outcome_get zero_movie (MovieDecode_Play (Some []) example_info example_host false).


(** Two buffers of capacity 3 with slots of 8 bytes: a full one and an empty
    one. *)
Definition example_full : moviebuffer Z := Moviebuffer 3 8 1 3 (Some [10; 20; 30]).
Definition example_empty : moviebuffer Z := Moviebuffer 3 8 1 0 (Some [10; 20; 30]).

(** Two buffers whose slots differ in size, byte by byte: three slots of 2
    bytes and two slots of 4 bytes, the first slot of each queued. *)
Definition example_bytes_dst : Bytes.moviebuffer :=
  Bytes.Moviebuffer 3 2 0 1 [1; 2; 3; 4; 5; 6].
Definition example_bytes_src : Bytes.moviebuffer :=
  Bytes.Moviebuffer 2 4 0 1 [11; 12; 13; 14; 15; 16; 17; 18].


(** ** The sample positions of the buffered audio frames *)

(** Following the spec's words (4.8, step 2): each audio frame moved into
    the consumer buffer gets the end of the previous frame of the buffer as
    its first sample position when there is a previous frame, and its PTS
    converted to samples otherwise. *)
Fixpoint assign_positions (m : movie) (buffered moved : list movieaudioframe)
    : list movieaudioframe :=
  match moved with
  | [] => buffered
  | frame :: moved =>
      let firstsampleposition :=
        match last buffered with
        | Some prev => af_firstsampleposition prev + af_numsamples prev
        | None => PTSToSamples m (af_pts frame)
        end in
      assign_positions m (buffered ++ [set_af_firstsampleposition frame firstsampleposition])
        moved
  end.

(** Each frame starts where the one before it ends. *)
Fixpoint gapless (frames : list movieaudioframe) : Prop :=
  match frames with
  | frame :: (next :: _) as rest =>
      af_firstsampleposition next = GetAudioFrameEndSample frame ∧ gapless rest
  | _ => True
  end.

Definition positions (frames : list movieaudioframe) : list Z :=
  af_firstsampleposition <$> frames.

(** A movie with a mono 44100 Hz audio stream, and its state once the worker
    has decoded two audio frames, the first of which the resampler turned
    into no sample at all. *)
Definition example_audio_info : movieinfo :=
  {| mi_videoindex := 0;
     mi_videostream := {| time_base := {| num := 1; den := 1000 |};
                          avg_frame_rate := {| num := 1; den := 1 |} |};
     mi_audioindex := 1;
     mi_audiostream := {| time_base := {| num := 1; den := 44100 |};
                          avg_frame_rate := {| num := 0; den := 0 |} |};
     mi_videocodec := {| cc_width := 2; cc_height := 3; cc_sample_rate := 0; cc_channels := 0 |};
     mi_audiocodec := {| cc_width := 0; cc_height := 0; cc_sample_rate := 44100;
                         cc_channels := 1 |};
     mi_colorlut := λ i, i |}.

Definition example_audio_frame (pts : Z) : AVFrame :=
  {| fr_width := 0; fr_height := 0; fr_pts := pts; fr_pkt_duration := 0;
     fr_nb_samples := 1024; fr_channels := 1 |}.

Definition example_decode_audio (pts numoutputsamples : Z) (m : movie) : movie :=
  outcome_get zero_movie
    (ParseAudioFrame true false (λ _, 1) 64 numoutputsamples
       (replicate (Z.to_nat (2 * numoutputsamples)) 0)
       (set_decodeworker m (set_dw_frame (decodeworker m) (example_audio_frame pts)))).

Definition example_audio_played : movie :=
  outcome_get zero_movie (MovieDecode_Play (Some []) example_audio_info example_host false).

Definition example_audio_movie : movie :=
  example_decode_audio 1024 1024 (example_decode_audio 0 0 example_audio_played).

(** A worker whose audio decoder reports [2^29] samples per second, with a
    decoded audio frame of 1024 samples. *)
Definition example_fast_worker : moviedecodeworker :=
  set_dw_frame
    (set_dw_audiostream (decodeworker example_audio_played)
       (Workerstream 1
          {| cc_width := 0; cc_height := 0; cc_sample_rate := 2 ^ 29; cc_channels := 1 |}
          zero_buffer zero_buffer))
    (example_audio_frame 0).


(** A movie over a lump of ten bytes. *)
Definition example_lump_movie : movie :=
  outcome_get zero_movie
    (MovieDecode_Play (Some [1; 2; 3; 4; 5; 6; 7; 8; 9; 10]) example_info example_host false).


(** ** The frame [MovieDecode_GetImage] hands out *)

(** Following the spec's words (4.8): the latest frame of the consumer video
    buffer with [pts <= MSToVideoPTS(position)]; if its id differs from
    [lastvideoframeusedid], store the id and return the payload; otherwise
    return null. *)
Definition latest_video_frame (m : movie) : option movievideoframe :=
  last (filter (λ frame, vf_pts frame ≤ MSToVideoPTS m (position m))
          (contents (st_buffer (videostream m)))).

Definition GetImage_spec (m : movie) : movie * option Z :=
  match latest_video_frame m with
  | Some frame =>
      if decide (vf_id frame ≠ lastvideoframeusedid m) then
        (set_lastvideoframeusedid m (vf_id frame), Some (vf_image frame))
      else (m, None)
  | None => (m, None)
  end.

(** The worker decodes a video frame with the given PTS. *)
Definition example_decode_video (pts : Z) (m : movie) : movie :=
  set_decodeworker m
    (ParseVideoFrame
       (set_dw_frame (decodeworker m)
          {| fr_width := 2; fr_height := 3; fr_pts := pts; fr_pkt_duration := 40;
             fr_nb_samples := 0; fr_channels := 0 |})).

(** Three frames, of ids 0, 1 and 2 and PTS 0, 40 and 80 ms, in the consumer
    buffer. *)
Definition example_video_movie : movie :=
  PollVideoFrameQueue
    (example_decode_video 80 (example_decode_video 40 (example_decode_video 0 example_movie))).


(** ** The posted image, as the spec describes it

    Following the spec's words (4.5, 4.7): a header of [width] 4-byte
    column offsets, then for each column its posts and the terminator
    [0xFF]; a post is [top_delta], [length], an unused byte, the pixels and
    an unused byte; a column is cut into posts of [POST_MAX_HEIGHT] pixels
    and a remainder. *)
Section PostedImage.
Variable CLUTINDEX : Z → Z → Z → Z.
Variable lut : Z → Z.
Variable src : list Z.
Variables width height : Z.

Definition posts_per_column : Z := (height + POST_MAX_HEIGHT - 1) / POST_MAX_HEIGHT.

Definition bytes_per_column : Z := height + posts_per_column * POST_BASE_BYTES + 1.

Definition column_offset (x : Z) : Z :=
  width * 4 + x * bytes_per_column + (POST_BASE_BYTES - 1).

(** The palette index of the pixel [(x, y)] of the RGBA image. *)
Definition posted_pixel (x y : Z) : Z :=
  let r := byte_at src (4 * (y * width + x)) in
  let g := byte_at src (4 * (y * width + x) + 1) in
  let b := byte_at src (4 * (y * width + x) + 2) in
  lut (CLUTINDEX r g b) mod 256.

Definition post_length (k : Z) : Z := Z.min POST_MAX_HEIGHT (height - k * POST_MAX_HEIGHT).

(** Post number [k] of column [x]. *)
Definition posted_post (x k : Z) : list Z :=
  [if decide (k = 0) then 0 else POST_MAX_HEIGHT; post_length k; 0]
  ++ (posted_pixel x <$> seqZ (k * POST_MAX_HEIGHT) (post_length k))
  ++ [0].

Definition posted_posts (x : Z) : list (list Z) :=
  posted_post x <$> seqZ 0 posts_per_column.

Definition posted_column (x : Z) : list Z := concat (posted_posts x) ++ [255].

Definition posted_image : list Z :=
  concat (UINT32_bytes <$> (column_offset <$> seqZ 0 width))
  ++ concat (posted_column <$> seqZ 0 width).
End PostedImage.

(** A worker about to convert a frame of 2 columns and 300 rows. *)
Definition example_patch_worker : moviedecodeworker :=
  let worker := decodeworker example_movie in
  set_dw_frame
    (set_dw_videostream worker
       (Workerstream 0 {| cc_width := 2; cc_height := 300; cc_sample_rate := 0;
                          cc_channels := 0 |}
          (ws_framequeue (dw_videostream worker)) (ws_framepool (dw_videostream worker))))
    {| fr_width := 2; fr_height := 300; fr_pts := 0; fr_pkt_duration := 0;
       fr_nb_samples := 0; fr_channels := 0 |}.


(** A worker about to convert a frame of 1 column and 2 rows, and the two
    RGBA pixels of that frame. *)
Definition example_small_worker : moviedecodeworker :=
  let worker := decodeworker example_movie in
  set_dw_frame
    (set_dw_videostream worker
       (Workerstream 0 {| cc_width := 1; cc_height := 2; cc_sample_rate := 0;
                          cc_channels := 0 |}
          (ws_framequeue (dw_videostream worker)) (ws_framepool (dw_videostream worker))))
    {| fr_width := 1; fr_height := 2; fr_pts := 0; fr_pkt_duration := 0;
       fr_nb_samples := 0; fr_channels := 0 |}.

Definition example_small_image : list Z := [10; 20; 30; 255; 40; 50; 60; 255].


(** ** The steps of a playing movie

    The steps that move frames, and the two that move packets: [Update]
    reading a packet while the packet pool is not empty, and the worker
    sending a packet to a decoder. *)
Inductive movie_step : movie → movie → Prop :=
| step_frames m m' :
    frame_step m m' → movie_step m m'
| step_ReadPacket m error read m' more :
    0 < buf_size (dw_packetpool (decodeworker m)) →
    ReadPacket error read m = Returned (m', more) →
    movie_step m m'
| step_SendPacket m senderror worker :
    SendPacket senderror (decodeworker m) = Returned worker →
    movie_step m (set_decodeworker m worker).

(** The packet at [p] belongs to the video or to the audio stream. *)
Definition packet_expected (packets : list AVPacket) (videoindex audioindex : Z)
    (p : packetptr) : Prop :=
  let index := stream_index (packets !!! Z.to_nat (address p)) in
  index = videoindex ∨ index = audioindex.

Definition packet_place (p : packetptr) : nat := Z.to_nat (address p).

(** The packet buffers hold each packet once, and the queued packets belong
    to the two streams. *)
Definition packets_ok_at (packetqueue packetpool : moviebuffer packetptr)
    (packets : list AVPacket) (videoindex audioindex : Z) : Prop :=
  buffer_ok packetqueue ∧ buffer_ok packetpool ∧
  buf_capacity packetqueue = buf_capacity packetpool ∧
  buf_size packetqueue + buf_size packetpool = buf_capacity packetpool ∧
  NoDup (packet_place <$> (contents packetpool ++ contents packetqueue)) ∧
  Forall (packet_expected packets videoindex audioindex) (contents packetqueue).

Definition packets_ok (m : movie) : Prop :=
  let worker := decodeworker m in
  packets_ok_at (dw_packetqueue worker) (dw_packetpool worker) (dw_packets worker)
    (st_index (videostream m)) (st_index (audiostream m)) ∧
  ws_index (dw_videostream worker) = st_index (videostream m) ∧
  ws_index (dw_audiostream worker) = st_index (audiostream m).

(** The movie of the examples, after [Update] has read a video packet. *)
Definition example_packet_movie : movie :=
  (outcome_get (zero_movie, false) (ReadPacket 0 {| stream_index := 0 |} example_movie)).1.


(** ** Copying audio samples, as the spec describes it

    Following the spec's words (4.8): compute the requested sample count,
    find the buffered frame containing [audio_position], iterate forward
    copying [min(remaining_bytes, (frame.num_samples - local_offset) *
    sample_size)] from each frame until the request is satisfied or the
    buffer is exhausted, and advance [audio_position] by the full requested
    sample count. *)
Fixpoint copy_forward (samplesize audioposition : Z) (frames : list movieaudioframe)
    (remaining : Z) : list Z :=
  match frames with
  | [] => []
  | frame :: frames =>
      if remaining <=? 0 then []
      else
        let local_offset := Z.max (audioposition - af_firstsampleposition frame) 0 in
        let n := Z.min remaining ((af_numsamples frame - local_offset) * samplesize) in
        read_bytes (af_samples frame) (local_offset * samplesize) n
        ++ copy_forward samplesize audioposition frames (remaining - n)
  end.

Definition frame_contains (sample : Z) (frame : movieaudioframe) : Prop :=
  af_firstsampleposition frame ≤ sample ∧ sample < GetAudioFrameEndSample frame.

#[global] Instance frame_contains_dec sample frame : Decision (frame_contains sample frame) :=
  and_dec (Z.le_dec _ _) (Z.lt_dec _ _).

Definition CopyAudioSamples_spec (planar : bool) (m : movie) (size : Z) : movie * list Z :=
  if decide (audioposition m = -1) then (m, [])
  else
    let codeccontext := ws_codeccontext (dw_audiostream (decodeworker m)) in
    let samplesize := if planar then 2 else 2 * cc_channels codeccontext in
    let numsamples := size / samplesize in
    let frames := contents (st_buffer (audiostream m)) in
    let copied :=
      match list_find (frame_contains (audioposition m)) frames with
      | Some (i, _) => copy_forward samplesize (audioposition m) (drop i frames) size
      | None => []
      end in
    (set_audioposition m (audioposition m + numsamples), copied).

(** The audio movie with two frames of four mono samples in the consumer
    buffer, at the sample positions 0 and 4. *)
Definition example_decode_samples (pts : Z) (samples : list Z) (m : movie) : movie :=
  outcome_get zero_movie
    (ParseAudioFrame true false (λ _, 1) 64 (Z.of_nat (length samples) / 2) samples
       (set_decodeworker m (set_dw_frame (decodeworker m) (example_audio_frame pts)))).

Definition example_copy_movie : movie :=
  PollAudioFrameQueue
    (example_decode_samples 4 [9; 10; 11; 12; 13; 14; 15; 16]
       (example_decode_samples 0 [1; 2; 3; 4; 5; 6; 7; 8] example_audio_played)).


(** ** Relations between the states of a movie, for the proofs *)

(** Same capacity and as many slots. *)
Definition same_frame {A} (buffer buffer' : moviebuffer A) : Prop :=
  buf_capacity buffer' = buf_capacity buffer ∧
  length (slots buffer') = length (slots buffer).

(** The three buffers of a stream keep their slots and exchange frames; the
    stream keeps its index. *)
Definition stream_moved {A} (stream : moviestream A) (ws : moviedecodeworkerstream A)
    (stream' : moviestream A) (ws' : moviedecodeworkerstream A) : Prop :=
  same_frame (st_buffer stream) (st_buffer stream') ∧
  same_frame (ws_framequeue ws) (ws_framequeue ws') ∧
  same_frame (ws_framepool ws) (ws_framepool ws') ∧
  buf_size (st_buffer stream') + buf_size (ws_framequeue ws') + buf_size (ws_framepool ws')
  = buf_size (st_buffer stream) + buf_size (ws_framequeue ws) + buf_size (ws_framepool ws) ∧
  st_index stream' = st_index stream ∧ ws_index ws' = ws_index ws.

Definition movie_moved (m m' : movie) : Prop :=
  stream_moved (videostream m) (dw_videostream (decodeworker m))
    (videostream m') (dw_videostream (decodeworker m')) ∧
  stream_moved (audiostream m) (dw_audiostream (decodeworker m))
    (audiostream m') (dw_audiostream (decodeworker m')).

(** What a step that moves frames does to the packets: nothing, or the
    flush of the packet queue into the packet pool that [Seek] asks for. *)
Definition packets_kept (m m' : movie) : Prop :=
  let worker := decodeworker m in
  let worker' := decodeworker m' in
  dw_packets worker' = dw_packets worker ∧
  st_index (videostream m') = st_index (videostream m) ∧
  st_index (audiostream m') = st_index (audiostream m) ∧
  ws_index (dw_videostream worker') = ws_index (dw_videostream worker) ∧
  ws_index (dw_audiostream worker') = ws_index (dw_audiostream worker) ∧
  ((dw_packetpool worker', dw_packetqueue worker')
   = (dw_packetpool worker, dw_packetqueue worker) ∨
   (dw_packetpool worker', dw_packetqueue worker')
   = DequeueWholeBufferIntoBuffer (dw_packetpool worker) (dw_packetqueue worker)).

(** The loop of [MovieDecode_CopyAudioSamples], over the frames it visits. *)
Fixpoint copy_frames (samplesize audioposition : Z) (frames : list movieaudioframe)
    (size : Z) (membytes : list Z) : list Z * Z :=
  match frames with
  | [] => (membytes, size)
  | frame :: frames =>
      let startsample :=
        to_INT32 (Z.max (audioposition - af_firstsampleposition frame) 0) in
      let sizeforframe :=
        to_INT32 (Z.min size (to_size_t ((af_numsamples frame - startsample) * samplesize))) in
      copy_frames samplesize audioposition frames (to_size_t (size - sizeforframe))
        (membytes ++ read_bytes (af_samples frame) (startsample * samplesize)
                       (to_size_t sizeforframe))
  end.

(** ** The rest of movie_decode.c *)

(** [AV_TIME_BASE_Q] is the codec library's internal time base, microseconds. *)
Definition AV_TIME_BASE_Q : AVRational := {| num := 1; den := 1000000 |}.

Definition PTSToMS (pts : Z) : Z :=
  let newtb := {| num := 1; den := 1000 |} in
  av_rescale_q pts AV_TIME_BASE_Q newtb.

(** [duration] is [movie->formatcontext->duration]. *)
Definition MovieDecode_GetDuration (duration : Z) : Z := PTSToMS duration.

Definition set_usepatches (m : movie) (v : bool) : movie :=
  Movie (lumpdata m) (lumpsize m) (lumpposition m) (videostream m) (audiostream m)
    (decodeworker m) (position m) (audioposition m) (lastvideoframeusedid m) v (seeking m).

Definition set_dw_stopping (w : moviedecodeworker) (v : bool) : moviedecodeworker :=
  Decodeworker (dw_videostream w) (dw_audiostream w) (dw_packetqueue w) (dw_packetpool w)
    (dw_packets w) (dw_frame w) (dw_tmpimage w) (dw_usepatches w) (dw_flushing w) v
    (dw_nextframeid w) (dw_colorlut w).

(** *** Decoding worker deinitialisation *)

Definition FlushFrameBuffers {A} `{!Inhabited A} (stream : moviestream A)
    (workerstream : moviedecodeworkerstream A)
    : moviestream A * moviedecodeworkerstream A :=
  let '(framepool, buffer) :=
    DequeueWholeBufferIntoBuffer (ws_framepool workerstream) (st_buffer stream) in
  let '(framepool, framequeue) :=
    DequeueWholeBufferIntoBuffer framepool (ws_framequeue workerstream) in
  (set_st_buffer stream buffer,
   set_ws_framequeue (set_ws_framepool workerstream framepool) framequeue).

(** [while (worker->videostream.framepool.size > 0)]: every turn takes a
    frame from the pool and releases its image.  Returns the pool and the
    addresses released, in the order of the calls; [av_freep] also clears
    the pointer it is given. *)
Fixpoint UninitialiseImages_loop (usepatches : bool) (turns : nat)
    (framepool : moviebuffer movievideoframe) (freed : list Z)
    : moviebuffer movievideoframe * list Z :=
  match turns with
  | O => (framepool, freed)
  | S turns =>
      if 0 <? buf_size framepool then
        let '(framepool, frame) := DequeueBuffer framepool in
        let freed := freed ++ [vf_image (frame_of framepool frame)] in
        let framepool :=
          if usepatches then framepool
          else update_slot framepool frame (λ f, set_vf_image f 0) in
        UninitialiseImages_loop usepatches turns framepool freed
      else (framepool, freed)
  end.

(** Returns the movie and the addresses released. *)
Definition UninitialiseImages (m : movie) : movie * list Z :=
  let worker := decodeworker m in
  let '(stream, vs) := FlushFrameBuffers (videostream m) (dw_videostream worker) in
  let '(framepool, freed) :=
    UninitialiseImages_loop (usepatches m) (Z.to_nat (buf_size (ws_framepool vs)))
      (ws_framepool vs) [] in
  let worker := set_dw_videostream worker (set_ws_framepool vs framepool) in
  let m := set_videostream m stream in
  if usepatches m then
    (set_decodeworker m (set_dw_tmpimage worker 0), freed ++ [dw_tmpimage worker])
  else (set_decodeworker m worker, freed).

(** [while (worker->packetpool.size > 0) av_packet_free(DequeueBuffer(..))]:
    returns the pool and the packets released; [av_packet_free] also clears
    the pointer in the slot. *)
Fixpoint UninitialisePacketQueue_loop (turns : nat) (packetpool : moviebuffer packetptr)
    (freed : list packetptr) : moviebuffer packetptr * list packetptr :=
  match turns with
  | O => (packetpool, freed)
  | S turns =>
      if 0 <? buf_size packetpool then
        let '(packetpool, packetslot) := DequeueBuffer packetpool in
        let freed := freed ++ [frame_of packetpool packetslot] in
        let packetpool := update_slot packetpool packetslot (λ _, Packetptr 0) in
        UninitialisePacketQueue_loop turns packetpool freed
      else (packetpool, freed)
  end.

(** Returns the worker and the packets released. The two backing arrays are
    released last ([UninitialiseBuffer]); nothing reads them afterwards. *)
Definition UninitialisePacketQueue (worker : moviedecodeworker)
    : moviedecodeworker * list packetptr :=
  let '(packetpool, packetqueue) :=
    DequeueWholeBufferIntoBuffer (dw_packetpool worker) (dw_packetqueue worker) in
  let '(packetpool, freed) :=
    UninitialisePacketQueue_loop (Z.to_nat (buf_size packetpool)) packetpool [] in
  (set_dw_packetqueue (set_dw_packetpool worker packetpool) packetqueue, freed).

(** [StopDecoderThread] raises [stopping] and spins until the decoding
    thread, which leaves its loop when it sees the flag, has lowered it
    again. *)
Definition StopDecoderThread (worker : moviedecodeworker) : moviedecodeworker :=
  let worker := set_dw_stopping worker true in
  set_dw_stopping worker false.

(** *** The decoding thread *)

(** What the codec library answers during one turn of the loop of
    [DecoderThread]: to the flush, to the two [avcodec_receive_frame] (the
    result and what is in [worker->frame] afterwards), to the conversion of
    an audio frame (as for [ParseAudioFrame]) and to
    [avcodec_send_packet]. *)
Record decoderevents : Type := {
  ev_vsend : Z;
  ev_vreceive : Z;
  ev_asend : Z;
  ev_areceive : Z;
  ev_videoerror : Z;
  ev_videoframe : AVFrame;
  ev_audioerror : Z;
  ev_audioframe : AVFrame;
  ev_mem : bool;
  ev_planar : bool;
  ev_samples_alloc : Z → Z;
  ev_sizeof_movieaudioframe_t : Z;
  ev_numoutputsamples : Z;
  ev_converted : list Z;
  ev_senderror : Z
}.

(** One turn of [while (true)] in [DecoderThread].  The result tells whether
    the loop goes on; on [break] the thread lowers [stopping] and ends.
    Waiting on the condition ([I_hold_cond]) changes nothing in the movie. *)
Definition DecoderThread_turn (ev : decoderevents) (m : movie) : outcome (movie * bool) :=
  let worker := decodeworker m in
  let stopping := dw_stopping worker in
  let flushing := dw_flushing worker in
  let vsize := buf_size (ws_framepool (dw_videostream worker)) in
  let asize := buf_size (ws_framepool (dw_audiostream worker)) in
  let queuesfull :=
    (vsize =? 0)
    || (match buf_data (ws_framequeue (dw_audiostream worker)) with
        | Some _ => true
        | None => false
        end && (asize =? 0)) in
  if stopping then Returned (set_decodeworker m (set_dw_stopping worker false), false)
  else
    worker ← (if flushing then
                FlushDecoding (ev_vsend ev) (ev_vreceive ev) (ev_asend ev) (ev_areceive ev)
                  worker
              else Returned worker);
    if queuesfull then Returned (set_decodeworker m worker, true)
    else
      let worker := set_dw_frame worker (ev_videoframe ev) in
      received ← ReceiveFrame (ev_videoerror ev);
      if received : bool then Returned (set_decodeworker m (ParseVideoFrame worker), true)
      else
        let worker := set_dw_frame worker (ev_audioframe ev) in
        received ← ReceiveFrame (ev_audioerror ev);
        if received : bool then
          m ← ParseAudioFrame (ev_mem ev) (ev_planar ev) (ev_samples_alloc ev)
                 (ev_sizeof_movieaudioframe_t ev) (ev_numoutputsamples ev) (ev_converted ev)
                 (set_decodeworker m worker);
          Returned (m, true)
        else if 0 <? buf_size (dw_packetqueue worker) then
          worker ← SendPacket (ev_senderror ev) worker;
          Returned (set_decodeworker m worker, true)
        else Returned (set_decodeworker m worker, true).

(** *** [MovieDecode_Update] *)

(** [while (worker->packetpool.size > 0 && ReadPacket(movie));]
    [reads] holds what the successive calls of [av_read_frame] give, as for
    [ReadPacket].  The result is [None] when the loop asks for more than
    [reads] holds. *)
Fixpoint MovieDecode_Update_packets (reads : list (Z * AVPacket)) (m : movie)
    : option (outcome movie) :=
  match reads with
  | [] =>
      if 0 <? buf_size (dw_packetpool (decodeworker m)) then None
      else Some (Returned m)
  | (error, read) :: reads =>
      if 0 <? buf_size (dw_packetpool (decodeworker m)) then
        match ReadPacket error read m with
        | Returned (m, true) => MovieDecode_Update_packets reads m
        | Returned (m, false) => Some (Returned m)
        | Fatal msg => Some (Fatal msg)
        end
      else Some (Returned m)
  end.

(** What follows the loop. *)
Definition MovieDecode_Update_frames (seekerror : Z) (m : movie) : outcome movie :=
  let m :=
    if negb (dw_flushing (decodeworker m)) then PollAudioFrameQueue (PollVideoFrameQueue m)
    else m in
  m ← UpdateSeeking seekerror m;
  if 0 <? buf_size (st_buffer (videostream m)) then
    Returned (ClearOldAudioFrames (ClearOldVideoFrames m))
  else Returned m.

Definition MovieDecode_Update (reads : list (Z * AVPacket)) (seekerror : Z) (m : movie)
    : option (outcome movie) :=
  match MovieDecode_Update_packets reads m with
  | Some (Returned m) => Some (MovieDecode_Update_frames seekerror m)
  | Some (Fatal msg) => Some (Fatal msg)
  | None => None
  end.

(** [alloc] is as for [InitialiseImages].  Returns the movie and the
    addresses released. *)
Definition MovieDecode_SetImageFormat (alloc : Z → option Z) (m : movie) (usepatches' : bool)
    : outcome (movie * list Z) :=
  if Bool.eqb usepatches' (usepatches m) then Returned (m, [])
  else
    let m := set_decodeworker m (StopDecoderThread (decodeworker m)) in
    let '(m, freed) := UninitialiseImages m in
    let m := ClearAllFrames m in
    let m := set_usepatches m usepatches' in
    let m := set_decodeworker m (set_dw_usepatches (decodeworker m) usepatches') in
    worker ← InitialiseImages alloc (decodeworker m);
    Returned (set_decodeworker m worker, freed).

(** *** Finding the lump *)

Definition INT16_MAX : Z := 32767.

(** [for (wadnum = numwadfiles - 1; wadnum >= 0; wadnum--)]: [turns] is
    [wadnum + 1].  [W_CheckNumForFullNamePK3] stands for the look-up of the
    full name of the movie in a file, a function of w_wad.c, and [LUMPERROR]
    for the constant of w_wad.h; neither is among the sources.  [lumpnum]
    is a [UINT16]; [(wadnum << 16) + lumpnum] is computed in an [INT32], which
    it fits as long as there are at most [2^15] files, what the theorems
    about it assume. *)
Fixpoint FindMovieLumpNum_loop (LUMPERROR : Z) (W_CheckNumForFullNamePK3 : Z → Z)
    (turns : nat) : Z :=
  match turns with
  | O => LUMPERROR
  | S turns =>
      let wadnum := Z.of_nat turns in
      let lumpnum := W_CheckNumForFullNamePK3 wadnum mod 2 ^ 16 in
      if negb (lumpnum =? INT16_MAX) then Z.shiftl wadnum 16 + lumpnum
      else FindMovieLumpNum_loop LUMPERROR W_CheckNumForFullNamePK3 turns
  end.

Definition FindMovieLumpNum (LUMPERROR numwadfiles : Z) (W_CheckNumForFullNamePK3 : Z → Z)
    : Z :=
  FindMovieLumpNum_loop LUMPERROR W_CheckNumForFullNamePK3 (Z.to_nat numwadfiles).

(** ** A playing movie

    What the main thread and the decoding thread do to a movie between
    [MovieDecode_Play] and [MovieDecode_Stop]: calls of the API and turns of
    the loop of [DecoderThread], taken one at a time. (The decoding thread
    only takes frames from the pools and adds frames to the queues, the main
    thread does the opposite, and both move frames under [worker->mutex].) *)
Inductive playing_step : movie → movie → Prop :=
| playing_Update m reads seekerror m' :
    MovieDecode_Update reads seekerror m = Some (Returned m') →
    playing_step m m'
| playing_DecoderThread m ev m' more :
    DecoderThread_turn ev m = Returned (m', more) →
    playing_step m m'
| playing_SetPosition m ms :
    playing_step m (MovieDecode_SetPosition m ms)
| playing_Seek m ms :
    playing_step m (MovieDecode_Seek m ms)
| playing_GetImage m :
    playing_step m (MovieDecode_GetImage m).1
| playing_CopyAudioSamples m planar size :
    playing_step m (MovieDecode_CopyAudioSamples planar m size).1.

(** The three buffers of a stream are in the state the code keeps them in:
    same capacity, and every slot in exactly one of them. *)
Definition stream_ok {A} `{!Inhabited A} (stream : moviestream A)
    (workerstream : moviedecodeworkerstream A) : Prop :=
  buffer_ok (st_buffer stream) ∧
  buffer_ok (ws_framequeue workerstream) ∧
  buffer_ok (ws_framepool workerstream) ∧
  buf_capacity (ws_framequeue workerstream) = buf_capacity (st_buffer stream) ∧
  buf_capacity (ws_framepool workerstream) = buf_capacity (st_buffer stream) ∧
  buf_size (st_buffer stream) + buf_size (ws_framequeue workerstream)
  + buf_size (ws_framepool workerstream) = buf_capacity (st_buffer stream).

(** The frames a stream holds: those of the consumer buffer, of the frame
    queue and of the frame pool. *)
Definition held {A} `{!Inhabited A} (stream : moviestream A)
    (workerstream : moviedecodeworkerstream A) : list A :=
  contents (st_buffer stream) ++ contents (ws_framequeue workerstream)
  ++ contents (ws_framepool workerstream).

(** The decoded video frames, in the order the consumer gets them: those of
    the consumer buffer, then those still in the frame queue. *)
Definition decoded_video (m : movie) : list movievideoframe :=
  contents (st_buffer (videostream m))
  ++ contents (ws_framequeue (dw_videostream (decodeworker m))).

(** What the video stream of a playing movie keeps true of the frames of its
    consumer buffer, frame queue and frame pool: together they hold the
    images [images], and the decoded frames (buffer, then queue) have
    increasing ids below [nextframeid]. *)
Definition video_lists (images : list Z) (nextframeid : Z)
    (buffer framequeue framepool : list movievideoframe) : Prop :=
  vf_image <$> (buffer ++ framequeue ++ framepool) ≡ₚ images ∧
  StronglySorted Z.lt (vf_id <$> (buffer ++ framequeue)) ∧
  Forall (λ frame, vf_id frame < nextframeid) (buffer ++ framequeue).

Definition video_ok (images : list Z) (m : movie) : Prop :=
  stream_ok (videostream m) (dw_videostream (decodeworker m)) ∧
  video_lists images (dw_nextframeid (decodeworker m))
    (contents (st_buffer (videostream m)))
    (contents (ws_framequeue (dw_videostream (decodeworker m))))
    (contents (ws_framepool (dw_videostream (decodeworker m)))).

(** The state of the audio stream of a playing movie, once its buffers have
    been given a capacity. *)
Definition audio_ok (m : movie) : Prop :=
  0 < buf_capacity (st_buffer (audiostream m)) →
  stream_ok (audiostream m) (dw_audiostream (decodeworker m)) ∧
  gapless (contents (st_buffer (audiostream m))).

(** What a seek relies on, for a frame id [id]: the decoded frames that the
    game can get, those of the consumer video buffer and, unless the worker
    is being flushed, those of the frame queue, have an id from [id] on; and
    while the worker is being flushed the consumer video buffer is empty. *)
Definition flush_ok (id : Z) (m : movie) : Prop :=
  let worker := decodeworker m in
  id ≤ dw_nextframeid worker ∧
  Forall (λ frame, id ≤ vf_id frame) (contents (st_buffer (videostream m))) ∧
  (dw_flushing worker = false →
   Forall (λ frame, id ≤ vf_id frame) (contents (ws_framequeue (dw_videostream worker)))) ∧
  (dw_flushing worker = true → contents (st_buffer (videostream m)) = []).

(** ** A movie that plays, for the examples

    The decoding thread gets a video frame, or an audio frame with its
    samples, from the codec library. *)
Definition example_video_events (pts : Z) : decoderevents :=
  {| ev_vsend := 0; ev_vreceive := AVERROR_EOF; ev_asend := 0; ev_areceive := AVERROR_EOF;
     ev_videoerror := 0;
     ev_videoframe := {| fr_width := 2; fr_height := 3; fr_pts := pts; fr_pkt_duration := 40;
                         fr_nb_samples := 0; fr_channels := 0 |};
     ev_audioerror := AVERROR_EAGAIN;
     ev_audioframe := zero_AVFrame;
     ev_mem := true; ev_planar := false; ev_samples_alloc := λ _, 1;
     ev_sizeof_movieaudioframe_t := 64; ev_numoutputsamples := 0; ev_converted := [];
     ev_senderror := 0 |}.

Definition example_audio_events (pts : Z) (samples : list Z) : decoderevents :=
  {| ev_vsend := 0; ev_vreceive := AVERROR_EOF; ev_asend := 0; ev_areceive := AVERROR_EOF;
     ev_videoerror := AVERROR_EAGAIN;
     ev_videoframe := zero_AVFrame;
     ev_audioerror := 0;
     ev_audioframe := example_audio_frame pts;
     ev_mem := true; ev_planar := false; ev_samples_alloc := λ _, 1;
     ev_sizeof_movieaudioframe_t := 64;
     ev_numoutputsamples := Z.of_nat (length samples) / 2; ev_converted := samples;
     ev_senderror := 0 |}.

Definition example_turn (ev : decoderevents) (m : movie) : movie :=
  (outcome_get (zero_movie, false) (DecoderThread_turn ev m)).1.

(** [MovieDecode_Update] reads a video packet, then reaches the end of the
    lump. *)
Definition example_reads : list (Z * AVPacket) :=
  [(0, {| stream_index := 0 |}); (AVERROR_EOF, {| stream_index := 0 |})].

Definition example_update (m : movie) : movie :=
  outcome_get zero_movie (default (Returned zero_movie) (MovieDecode_Update example_reads 0 m)).

(** The audio movie once the decoding thread has decoded two video frames
    and two audio frames, [MovieDecode_Update] has run, and the game has
    asked for the image and for four bytes of samples. *)
Definition example_playing_movie : movie :=
  (MovieDecode_CopyAudioSamples false
     (MovieDecode_GetImage
        (example_update
           (example_turn (example_audio_events 4 [9; 10; 11; 12; 13; 14; 15; 16])
              (example_turn (example_audio_events 0 [1; 2; 3; 4; 5; 6; 7; 8])
                 (example_turn (example_video_events 40)
                    (example_turn (example_video_events 0) example_audio_played)))))).1
     4).1.

(** The game asks for patches while three frames are buffered. *)
Definition example_format_change : movie * list Z :=
  outcome_get (zero_movie, [])
    (MovieDecode_SetImageFormat (λ i, Some (65536 + 4096 * i)) example_video_movie true).

(** The game jumps ten seconds ahead: the next update seeks, and the worker
    is being flushed; then the decoding thread flushes the decoders and
    decodes a frame, and the next update hands it to the game. *)
Definition example_seeking_movie : movie :=
  example_update (MovieDecode_SetPosition example_playing_movie 10000).

Definition example_sought_movie : movie :=
  example_update (example_turn (example_video_events 10000) example_seeking_movie).

(** * Proofs *)

(** ** Circular buffer: shape *)

Section BufferShape.
Context {A : Type} `{!Inhabited A}.
Implicit Types buffer dst src : moviebuffer A.

Lemma same_frame_refl buffer : same_frame buffer buffer.
Proof. by split. Qed.

Lemma same_frame_trans (b1 b2 b3 : moviebuffer A) :
  same_frame b1 b2 → same_frame b2 b3 → same_frame b1 b3.
Proof. intros [? ?] [? ?]; split; congruence. Qed.

Lemma slots_write_slot buffer slot v :
  slots (write_slot buffer slot v) = <[Z.to_nat slot := v]> (slots buffer).
Proof. unfold slots, write_slot; simpl. by destruct (buf_data buffer). Qed.

Lemma write_slot_same_frame buffer slot v : same_frame buffer (write_slot buffer slot v).
Proof. split; [done|]. by rewrite slots_write_slot, length_insert. Qed.

Lemma update_slot_same_frame buffer slot f : same_frame buffer (update_slot buffer slot f).
Proof. destruct slot; simpl; [apply write_slot_same_frame | apply same_frame_refl]. Qed.

Lemma update_slot_size buffer slot f : buf_size (update_slot buffer slot f) = buf_size buffer.
Proof. by destruct slot. Qed.

Lemma update_slot_start buffer slot f : buf_start (update_slot buffer slot f) = buf_start buffer.
Proof. by destruct slot. Qed.

Lemma EnqueueBuffer_shape buffer :
  same_frame buffer (EnqueueBuffer buffer).1 ∧
  buf_size (EnqueueBuffer buffer).1 = buf_size buffer + 1 ∧
  buf_start (EnqueueBuffer buffer).1 = buf_start buffer.
Proof. by repeat split. Qed.

Lemma DequeueBuffer_shape buffer :
  same_frame buffer (DequeueBuffer buffer).1 ∧
  buf_size (DequeueBuffer buffer).1 = buf_size buffer - 1.
Proof. by repeat split. Qed.

Lemma DequeueBufferIntoBuffer_shape dst src dst' src' slot :
  DequeueBufferIntoBuffer dst src = (dst', src', slot) →
  same_frame dst dst' ∧ same_frame src src' ∧
  buf_size dst' = buf_size dst + 1 ∧ buf_size src' = buf_size src - 1.
Proof.
  unfold DequeueBufferIntoBuffer; simpl. intros [= <- <- <-].
  repeat split; unfold memcpy_slot, GetBufferSlot; simpl;
    repeat case_match; simpl; try done;
    by rewrite slots_write_slot, length_insert.
Qed.

Lemma DequeueWholeBufferIntoBuffer_loop_shape turns dst src dst' src' :
  DequeueWholeBufferIntoBuffer_loop turns dst src = (dst', src') →
  same_frame dst dst' ∧ same_frame src src' ∧
  buf_size dst' + buf_size src' = buf_size dst + buf_size src.
Proof.
  revert dst src. induction turns as [|turns IH]; intros dst src;
    cbn [DequeueWholeBufferIntoBuffer_loop].
  - intros [= <- <-]. by repeat split.
  - case_match; [|intros [= <- <-]; by repeat split].
    destruct (DequeueBufferIntoBuffer dst src) as [[dst1 src1] slot] eqn:Hmove.
    intros Hloop. apply DequeueBufferIntoBuffer_shape in Hmove as (? & ? & ? & ?).
    apply IH in Hloop as (? & ? & ?).
    split; [|split]; [eauto using same_frame_trans..|lia].
Qed.

Lemma DequeueWholeBufferIntoBuffer_shape dst src dst' src' :
  DequeueWholeBufferIntoBuffer dst src = (dst', src') →
  same_frame dst dst' ∧ same_frame src src' ∧
  buf_size dst' + buf_size src' = buf_size dst + buf_size src.
Proof. apply DequeueWholeBufferIntoBuffer_loop_shape. Qed.
End BufferShape.

(** ** The slots of a stream stay accounted for *)

Section Accounting.
Context {A : Type} `{!Inhabited A}.
Implicit Types (stream : moviestream A) (ws : moviedecodeworkerstream A).

Lemma stream_moved_intro stream ws stream' ws' :
  same_frame (st_buffer stream) (st_buffer stream') →
  same_frame (ws_framequeue ws) (ws_framequeue ws') →
  same_frame (ws_framepool ws) (ws_framepool ws') →
  buf_size (st_buffer stream') + buf_size (ws_framequeue ws') + buf_size (ws_framepool ws')
  = buf_size (st_buffer stream) + buf_size (ws_framequeue ws) + buf_size (ws_framepool ws) →
  st_index stream' = st_index stream → ws_index ws' = ws_index ws →
  stream_moved stream ws stream' ws'.
Proof. unfold stream_moved. by intros; split_and!. Qed.

Lemma stream_moved_refl stream ws : stream_moved stream ws stream ws.
Proof. repeat split. Qed.

Lemma stream_moved_trans (s1 : moviestream A) w1 s2 w2 s3 w3 :
  stream_moved s1 w1 s2 w2 → stream_moved s2 w2 s3 w3 → stream_moved s1 w1 s3 w3.
Proof.
  intros (? & ? & ? & ? & ? & ?) (? & ? & ? & ? & ? & ?).
  apply stream_moved_intro; [eauto using same_frame_trans..|lia|congruence|congruence].
Qed.

Lemma accounted_moved stream ws stream' ws' :
  accounted stream ws → stream_moved stream ws stream' ws' → accounted stream' ws'.
Proof.
  unfold accounted, stream_moved, same_frame.
  intros (? & ? & ? & ? & ? & ?) ((? & ?) & (? & ?) & (? & ?) & ? & _).
  repeat split; lia.
Qed.

Lemma ClearOldestFrame_moved stream ws stream' ws' :
  ClearOldestFrame stream ws = (stream', ws') → stream_moved stream ws stream' ws'.
Proof.
  unfold ClearOldestFrame.
  destruct (DequeueBufferIntoBuffer _ _) as [[framepool buffer] slot] eqn:Hmove.
  intros [= <- <-]. apply DequeueBufferIntoBuffer_shape in Hmove as (? & ? & ? & ?).
  apply stream_moved_intro; simpl; [done|apply same_frame_refl|done|lia|done|done].
Qed.

Lemma ClearAllFrames_loop_moved turns stream ws stream' ws' :
  ClearAllFrames_loop turns stream ws = (stream', ws') → stream_moved stream ws stream' ws'.
Proof.
  revert stream ws. induction turns as [|turns IH]; intros stream ws;
    cbn [ClearAllFrames_loop].
  - intros [= <- <-]. apply stream_moved_refl.
  - case_match; [|intros [= <- <-]; apply stream_moved_refl].
    destruct (ClearOldestFrame stream ws) as [stream1 ws1] eqn:Hclear.
    intros Hloop. eapply stream_moved_trans; [by apply ClearOldestFrame_moved|by apply IH].
Qed.

Lemma FlushStream_moved senderror receiveerror stream ws ws' :
  FlushStream senderror receiveerror ws = Returned ws' → stream_moved stream ws stream ws'.
Proof.
  unfold FlushStream. repeat case_match; try done.
  intros [= <-]. subst.
  match goal with H : DequeueWholeBufferIntoBuffer _ _ = _ |- _ =>
    apply DequeueWholeBufferIntoBuffer_shape in H as (? & ? & ?) end.
  apply stream_moved_intro; simpl; [apply same_frame_refl|done|done|lia|done|done].
Qed.
End Accounting.

Lemma ClearOldVideoFrames_loop_moved limit turns stream ws stream' ws' :
  ClearOldVideoFrames_loop limit turns stream ws = (stream', ws') →
  stream_moved stream ws stream' ws'.
Proof.
  revert stream ws. induction turns as [|turns IH]; intros stream ws;
    cbn [ClearOldVideoFrames_loop].
  - intros [= <- <-]. apply stream_moved_refl.
  - case_match; [|intros [= <- <-]; apply stream_moved_refl].
    destruct (ClearOldestFrame stream ws) as [stream1 ws1] eqn:Hclear.
    intros Hloop. eapply stream_moved_trans; [by apply ClearOldestFrame_moved|by apply IH].
Qed.

Lemma ClearOldAudioFrames_loop_moved m limit turns stream ws stream' ws' :
  ClearOldAudioFrames_loop m limit turns stream ws = (stream', ws') →
  stream_moved stream ws stream' ws'.
Proof.
  revert stream ws. induction turns as [|turns IH]; intros stream ws;
    cbn [ClearOldAudioFrames_loop].
  - intros [= <- <-]. apply stream_moved_refl.
  - case_match; [|intros [= <- <-]; apply stream_moved_refl].
    destruct (ClearOldestFrame stream ws) as [stream1 ws1] eqn:Hclear.
    intros Hloop. eapply stream_moved_trans; [by apply ClearOldestFrame_moved|by apply IH].
Qed.

Lemma PollAudioFrameQueue_loop_shape m turns buffer framequeue buffer' framequeue' :
  PollAudioFrameQueue_loop m turns buffer framequeue = (buffer', framequeue') →
  same_frame buffer buffer' ∧ same_frame framequeue framequeue' ∧
  buf_size buffer' + buf_size framequeue' = buf_size buffer + buf_size framequeue.
Proof.
  revert buffer framequeue. induction turns as [|turns IH]; intros buffer framequeue;
    cbn [PollAudioFrameQueue_loop].
  - intros [= <- <-]. by repeat split.
  - case_match; [|intros [= <- <-]; by repeat split].
    destruct (DequeueBufferIntoBuffer buffer framequeue) as [[buffer1 queue1] frame] eqn:Hmove.
    apply DequeueBufferIntoBuffer_shape in Hmove as (? & ? & ? & ?).
    intros Hloop. apply IH in Hloop as (Hb & ? & Hsize).
    split; [|split]; [| eauto using same_frame_trans |].
    + eapply same_frame_trans; [done|]. eapply same_frame_trans; [|exact Hb].
      case_match; apply update_slot_same_frame.
    + rewrite Hsize. case_match; rewrite update_slot_size; lia.
Qed.

Lemma movie_moved_refl m : movie_moved m m.
Proof. split; apply stream_moved_refl. Qed.

Lemma movie_moved_trans m1 m2 m3 : movie_moved m1 m2 → movie_moved m2 m3 → movie_moved m1 m3.
Proof. intros [? ?] [? ?]; split; eauto using stream_moved_trans. Qed.

Lemma movie_accounted_moved m m' : movie_accounted m → movie_moved m m' → movie_accounted m'.
Proof. intros [? ?] [? ?]; split; eauto using accounted_moved. Qed.

Lemma ParseVideoFrame_moved m frame :
  movie_moved m (set_decodeworker m (ParseVideoFrame (set_dw_frame (decodeworker m) frame))).
Proof.
  split; [|apply stream_moved_refl].
  unfold ParseVideoFrame.
  destruct (DequeueBufferIntoBuffer _ _) as [[framequeue framepool] slot] eqn:Hmove.
  apply DequeueBufferIntoBuffer_shape in Hmove as (? & Hpool & ? & Hsize).
  rewrite update_slot_size in Hsize. simpl in *.
  apply stream_moved_intro; simpl; [apply same_frame_refl|done| |lia|done|done].
  eapply same_frame_trans; [|exact Hpool]. apply write_slot_same_frame.
Qed.

Lemma PollVideoFrameQueue_moved m : movie_moved m (PollVideoFrameQueue m).
Proof.
  unfold PollVideoFrameQueue. case_match; [|apply movie_moved_refl].
  destruct (DequeueWholeBufferIntoBuffer _ _) as [buffer framequeue] eqn:Hmove.
  apply DequeueWholeBufferIntoBuffer_shape in Hmove as (? & ? & ?).
  split; [|apply stream_moved_refl].
  apply stream_moved_intro; simpl; [done|done|apply same_frame_refl|lia|done|done].
Qed.

Lemma PollAudioFrameQueue_moved m : movie_moved m (PollAudioFrameQueue m).
Proof.
  unfold PollAudioFrameQueue. case_match; [|apply movie_moved_refl].
  destruct (PollAudioFrameQueue_loop _ _ _ _) as [buffer framequeue] eqn:Hmove.
  apply PollAudioFrameQueue_loop_shape in Hmove as (? & ? & ?).
  split; [apply stream_moved_refl|].
  apply stream_moved_intro; simpl; [done|done|apply same_frame_refl|lia|done|done].
Qed.

Lemma ClearOldVideoFrames_moved m : movie_moved m (ClearOldVideoFrames m).
Proof.
  unfold ClearOldVideoFrames.
  destruct (ClearOldVideoFrames_loop _ _ _ _) as [stream ws] eqn:Hloop.
  apply ClearOldVideoFrames_loop_moved in Hloop.
  split; [done|apply stream_moved_refl].
Qed.

Lemma ClearOldAudioFrames_moved m : movie_moved m (ClearOldAudioFrames m).
Proof.
  unfold ClearOldAudioFrames.
  destruct (ClearOldAudioFrames_loop _ _ _ _ _) as [stream ws] eqn:Hloop.
  apply ClearOldAudioFrames_loop_moved in Hloop.
  split; [apply stream_moved_refl|done].
Qed.

Lemma ClearAllFrames_moved m : movie_moved m (ClearAllFrames m).
Proof.
  unfold ClearAllFrames.
  destruct (ClearAllFrames_loop _ (videostream m) _) as [vstream vws] eqn:Hv.
  destruct (ClearAllFrames_loop _ (audiostream m) _) as [astream aws] eqn:Ha.
  apply ClearAllFrames_loop_moved in Hv, Ha. by split.
Qed.

Lemma FlushDecodeWorker_streams worker :
  dw_videostream (FlushDecodeWorker worker) = dw_videostream worker ∧
  dw_audiostream (FlushDecodeWorker worker) = dw_audiostream worker.
Proof. unfold FlushDecodeWorker. by destruct (DequeueWholeBufferIntoBuffer _ _). Qed.

Lemma Seek_moved seekerror m m' : Seek seekerror m = Returned m' → movie_moved m m'.
Proof.
  unfold Seek. case_match; [done|]. intros [= <-].
  destruct (FlushDecodeWorker_streams (decodeworker (ClearAllFrames (set_seeking m true))))
    as [Hv Ha].
  pose proof (ClearAllFrames_moved (set_seeking m true)) as [? ?].
  split; simpl; [rewrite Hv|rewrite Ha]; done.
Qed.

Lemma UpdateSeeking_moved seekerror m m' :
  UpdateSeeking seekerror m = Returned m' → movie_moved m m'.
Proof.
  unfold UpdateSeeking.
  set (m1 := if seeking m && _ then _ else m).
  assert (movie_moved m m1) as Hm1.
  { subst m1. repeat case_match; split; apply stream_moved_refl. }
  destruct (negb _).
  - destruct (Seek seekerror m1) as [m2|] eqn:Hseek; [|done].
    apply Seek_moved in Hseek. simpl.
    repeat case_match; intros [= <-];
      (eapply movie_moved_trans; [exact Hm1|]); destruct Hseek; by split.
  - simpl. repeat case_match; intros [= <-]; destruct Hm1; by split.
Qed.

Lemma FlushDecoding_moved vsend vreceive asend areceive m worker :
  FlushDecoding vsend vreceive asend areceive (decodeworker m) = Returned worker →
  movie_moved m (set_decodeworker m worker).
Proof.
  unfold FlushDecoding.
  destruct (FlushStream vsend vreceive _) as [vs|] eqn:Hv; [|done]. simpl.
  destruct (FlushStream asend areceive _) as [aus|] eqn:Ha; [|done]. simpl.
  intros [= <-].
  split; simpl; by eapply FlushStream_moved.
Qed.

Lemma SetPosition_moved m ms : movie_moved m (MovieDecode_SetPosition m ms).
Proof. unfold MovieDecode_SetPosition. case_match; split; apply stream_moved_refl. Qed.

(** ** Initialisation accounts for the slots *)

Section Initialisation.
Context {A : Type} `{!Inhabited A}.

Lemma InitialiseBuffer_inv mem capacity slotsize (buffer : moviebuffer A) :
  InitialiseBuffer mem capacity slotsize = Returned buffer →
  0 ≤ capacity ∧
  buffer = Moviebuffer capacity slotsize 0 0 (Some (replicate (Z.to_nat capacity) inhabitant)).
Proof.
  unfold InitialiseBuffer, calloc. destruct mem; simpl; [|done].
  destruct (0 <=? capacity) eqn:Hcap; [|done]. intros [= <-]. split; [lia|done].
Qed.

Lemma CloneBuffer_inv mem (src dst : moviebuffer A) :
  CloneBuffer mem src = Returned dst →
  Z.of_nat (length (slots src)) = buf_capacity src →
  buf_capacity dst = buf_capacity src ∧ buf_size dst = buf_size src ∧
  buf_start dst = buf_start src ∧ slots dst = slots src.
Proof.
  unfold CloneBuffer, calloc. destruct mem; simpl; [|done].
  destruct (0 <=? buf_capacity src) eqn:Hcap; [|done]. intros [= <-] Hlen.
  repeat split. unfold slots at 1; simpl.
  rewrite take_app_le by lia. apply take_ge. lia.
Qed.
End Initialisation.

Lemma InitialiseImages_loop_shape alloc up turns i framepool framepool' :
  InitialiseImages_loop alloc up turns i framepool = Returned framepool' →
  same_frame framepool framepool' ∧
  buf_size framepool' = buf_size framepool + Z.of_nat turns.
Proof.
  revert i framepool. induction turns as [|turns IH]; intros i framepool;
    cbn [InitialiseImages_loop].
  - intros [= <-]. split; [apply same_frame_refl|lia].
  - destruct (EnqueueBuffer framepool) as [pool1 frame] eqn:Henq.
    pose proof (EnqueueBuffer_shape framepool) as (Hframe & Hsize & _).
    rewrite Henq in Hframe, Hsize. simpl in Hframe, Hsize.
    destruct (alloc i); [|by destruct up].
    intros Hloop. apply IH in Hloop as [Hframe' Hsize'].
    rewrite update_slot_size in Hsize'. split; [|lia].
    eapply same_frame_trans; [exact Hframe|].
    eapply same_frame_trans; [apply update_slot_same_frame|exact Hframe'].
Qed.

Lemma InitialiseAudioBuffer_loop_shape samples_alloc turns i framepool framepool' :
  InitialiseAudioBuffer_loop samples_alloc turns i framepool = Returned framepool' →
  same_frame framepool framepool' ∧
  buf_size framepool' = buf_size framepool + Z.of_nat turns.
Proof.
  revert i framepool. induction turns as [|turns IH]; intros i framepool;
    cbn [InitialiseAudioBuffer_loop].
  - intros [= <-]. split; [apply same_frame_refl|lia].
  - destruct (EnqueueBuffer framepool) as [pool1 frame] eqn:Henq.
    pose proof (EnqueueBuffer_shape framepool) as (Hframe & Hsize & _).
    rewrite Henq in Hframe, Hsize. simpl in Hframe, Hsize.
    case_match; [done|].
    intros Hloop. apply IH in Hloop as [Hframe' Hsize']. split; [|lia].
    eapply same_frame_trans; [exact Hframe|exact Hframe'].
Qed.

Lemma outcome_bind_Returned {A B} (f : A → outcome B) (c : outcome A) (b : B) :
  c ≫= f = Returned b → ∃ a, c = Returned a ∧ f a = Returned b.
Proof. destruct c as [a|]; [|done]. intros Hf. by exists a. Qed.

Lemma InitialiseAudioBuffer_accounted mem planar samples_alloc sizeof stream worker
    stream' worker' :
  InitialiseAudioBuffer mem planar samples_alloc sizeof stream worker
    = Returned (stream', worker') →
  accounted stream (dw_audiostream worker) →
  accounted stream' (dw_audiostream worker') ∧
  dw_videostream worker' = dw_videostream worker.
Proof.
  unfold InitialiseAudioBuffer. destruct (st_stream stream); [|by intros [= <- <-]].
  intros Hinit _.
  apply outcome_bind_Returned in Hinit as (buffer & Hbuffer & Hinit).
  apply InitialiseBuffer_inv in Hbuffer as [Hcap ->]. cbn zeta in Hinit.
  apply outcome_bind_Returned in Hinit as (framequeue & Hqueue & Hinit).
  apply outcome_bind_Returned in Hinit as (framepool & Hpool & Hinit).
  apply outcome_bind_Returned in Hinit as (framepool' & Hloop & Hinit).
  injection Hinit as <- <-.
  set (capacity := to_INT32 _) in *.
  assert (Z.of_nat (length (slots (A := movieaudioframe)
            (Moviebuffer capacity sizeof 0 0
               (Some (replicate (Z.to_nat capacity) inhabitant))))) = capacity) as Hlen.
  { unfold slots; simpl. rewrite length_replicate. lia. }
  apply CloneBuffer_inv in Hqueue as (? & ? & ? & Hq); [|exact Hlen].
  apply CloneBuffer_inv in Hpool as (Hpcap & ? & ? & Hp); [|exact Hlen].
  apply InitialiseAudioBuffer_loop_shape in Hloop as [[? Hlen'] ?].
  split; [|done]. unfold accounted; simpl in *.
  rewrite Hlen', Hq, Hp, Hlen. repeat split; lia.
Qed.

Lemma ParseAudioFrame_accounted mem planar samples_alloc sizeof numoutputsamples converted m m' :
  ParseAudioFrame mem planar samples_alloc sizeof numoutputsamples converted m = Returned m' →
  movie_accounted m → movie_accounted m'.
Proof.
  unfold ParseAudioFrame. intros Hparse [Hv Ha].
  apply outcome_bind_Returned in Hparse as ([stream worker] & Hinit & Hparse).
  assert (accounted stream (dw_audiostream worker) ∧
          dw_videostream worker = dw_videostream (decodeworker m)) as [Ha' Hv'].
  { destruct (buf_data _).
    - by injection Hinit as <- <-.
    - by eapply InitialiseAudioBuffer_accounted. }
  destruct (numoutputsamples <? 0); [done|].
  destruct (DequeueBufferIntoBuffer _ _) as [[framequeue framepool] slot] eqn:Hmove.
  injection Hparse as <-.
  apply DequeueBufferIntoBuffer_shape in Hmove as (? & Hpool & ? & Hsize).
  rewrite update_slot_size in Hsize.
  split; simpl; [by rewrite Hv'|].
  eapply accounted_moved; [exact Ha'|].
  apply stream_moved_intro; simpl; [apply same_frame_refl|done| |lia|done|done].
  eapply same_frame_trans; [apply update_slot_same_frame|exact Hpool].
Qed.

Lemma zero_buffers_accounted {A} `{!Inhabited A} st index np ix cc :
  accounted (A := A) (Moviestream st index zero_buffer np)
    (Workerstream ix cc zero_buffer zero_buffer).
Proof. by repeat split. Qed.

Lemma InitialisePacketQueue_loop_streams mem turns worker worker' :
  InitialisePacketQueue_loop mem turns worker = Returned worker' →
  dw_videostream worker' = dw_videostream worker ∧
  dw_audiostream worker' = dw_audiostream worker.
Proof.
  revert worker. induction turns as [|turns IH]; intros worker;
    cbn [InitialisePacketQueue_loop].
  - by intros [= <-].
  - destruct (av_packet_alloc _ _) as [[packet packets]|]; [|done].
    destruct (EnqueueBuffer _) as [packetpool packetslot].
    intros Hloop. by apply IH in Hloop as [-> ->].
Qed.

Lemma MovieDecode_Play_accounted lump info host up m :
  MovieDecode_Play lump info host up = Returned m → movie_accounted m.
Proof.
  unfold MovieDecode_Play. intros Hplay.
  apply outcome_bind_Returned in Hplay as (m1 & Hlump & Hplay).
  destruct lump as [bytes|]; [|done]. injection Hlump as <-.
  apply outcome_bind_Returned in Hplay as (m2 & Hdemux & Hplay).
  unfold InitialiseDemuxing in Hdemux. destruct (mi_videoindex info <? 0); [done|].
  injection Hdemux as <-.
  apply outcome_bind_Returned in Hplay as (m3 & Hvideo & Hplay).
  unfold InitialiseVideoBuffer in Hvideo.
  apply outcome_bind_Returned in Hvideo as (buffer & Hbuffer & Hvideo).
  apply InitialiseBuffer_inv in Hbuffer as [Hcap ->]. injection Hvideo as <-.
  unfold InitialiseDecodeWorker in Hplay.
  set (capacity := to_INT32 _) in *. cbn in Hplay.
  assert (Z.of_nat (length (slots (A := movievideoframe)
            (Moviebuffer capacity (hi_sizeof_movievideoframe_t host) 0 0
               (Some (replicate (Z.to_nat capacity) inhabitant))))) = capacity) as Hlen.
  { unfold slots; simpl. rewrite length_replicate. lia. }
  apply outcome_bind_Returned in Hplay as (framequeue & Hqueue & Hplay).
  apply outcome_bind_Returned in Hplay as (framepool & Hpool & Hplay).
  apply CloneBuffer_inv in Hqueue as (? & ? & ? & Hq); [|exact Hlen].
  apply CloneBuffer_inv in Hpool as (Hpcap & ? & ? & Hp); [|exact Hlen].
  apply outcome_bind_Returned in Hplay as (worker1 & Himages & Hplay).
  apply outcome_bind_Returned in Hplay as (worker2 & Hpackets & Hplay).
  injection Hplay as <-.
  unfold InitialisePacketQueue in Hpackets.
  apply outcome_bind_Returned in Hpackets as (packetqueue & _ & Hpackets).
  apply outcome_bind_Returned in Hpackets as (packetpool & _ & Hpackets).
  apply InitialisePacketQueue_loop_streams in Hpackets as [Hv2 Ha2]. simpl in Hv2, Ha2.
  unfold InitialiseImages in Himages.
  apply outcome_bind_Returned in Himages as (framepool' & Hloop & Himages).
  apply InitialiseImages_loop_shape in Hloop as [[? Hlen'] Hsize]. simpl in *.
  assert (dw_videostream worker1
          = Workerstream (mi_videoindex info) (mi_videocodec info) framequeue framepool'
          ∧ dw_audiostream worker1
            = Workerstream (mi_audioindex info) (mi_audiocodec info) zero_buffer zero_buffer)
    as [Hv1 Ha1].
  { destruct up; [destruct (hi_image_alloc host _); [|done]|]; by injection Himages as <-. }
  split; simpl; rewrite ?Hv2, ?Ha2, ?Hv1, ?Ha1; [|by repeat split].
  unfold accounted; simpl. rewrite Hlen', Hq, Hp, Hlen. repeat split; lia.
Qed.

Lemma ParseAudioFrame_videostream mem planar samples_alloc sizeof numoutputsamples converted
    m m' :
  ParseAudioFrame mem planar samples_alloc sizeof numoutputsamples converted m = Returned m' →
  videostream m' = videostream m.
Proof.
  unfold ParseAudioFrame. intros Hparse.
  apply outcome_bind_Returned in Hparse as ([stream worker] & _ & Hparse).
  destruct (numoutputsamples <? 0); [done|].
  destruct (DequeueBufferIntoBuffer _ _) as [[framequeue framepool] slot].
  by injection Hparse as <-.
Qed.

Lemma movie_moved_capacity m m' :
  movie_moved m m' →
  buf_capacity (st_buffer (videostream m')) = buf_capacity (st_buffer (videostream m)).
Proof. by intros [[[? ?] _] _]. Qed.

Lemma frame_step_accounted m m' :
  frame_step m m' → movie_accounted m →
  movie_accounted m' ∧
  buf_capacity (st_buffer (videostream m')) = buf_capacity (st_buffer (videostream m)).
Proof.
  intros Hstep Hm.
  assert (movie_moved m m' → movie_accounted m' ∧
          buf_capacity (st_buffer (videostream m'))
          = buf_capacity (st_buffer (videostream m))) as Hmoved.
  { intros Hmoved. split; [by eapply movie_accounted_moved|by apply movie_moved_capacity]. }
  destruct Hstep as
    [m frame
    |m frame mem planar samples_alloc sizeof numoutputsamples converted m' Hparse
    |m vsend vreceive asend areceive worker Hflush
    |m|m|m seekerror m' Hseek|m|m|m|m ms].
  - apply Hmoved, ParseVideoFrame_moved.
  - split.
    + eapply ParseAudioFrame_accounted; [exact Hparse|]. by destruct Hm.
    + by rewrite (ParseAudioFrame_videostream _ _ _ _ _ _ _ _ Hparse).
  - by eapply Hmoved, FlushDecoding_moved.
  - apply Hmoved, PollVideoFrameQueue_moved.
  - apply Hmoved, PollAudioFrameQueue_moved.
  - by eapply Hmoved, UpdateSeeking_moved.
  - apply Hmoved, ClearOldVideoFrames_moved.
  - apply Hmoved, ClearOldAudioFrames_moved.
  - apply Hmoved, ClearAllFrames_moved.
  - apply Hmoved, SetPosition_moved.
Qed.

(** C2. For the video and the audio stream of a movie that [MovieDecode_Play]
    has returned, after any sequence of the operations that move frames
    (the worker handing out a decoded frame, the worker flushing, [Update]
    draining the worker queues, updating the seek state, evicting the old
    frames, clearing all frames, setting the position), the sizes of the
    consumer buffer, of the frame queue and of the frame pool add up to the
    capacity of the buffers, which is the number of slots allocated for each
    of them; the capacity of the video buffers is the one [MovieDecode_Play]
    allocated. *)
Theorem stream_slots_accounted lump info host up (m0 m : movie) :
  MovieDecode_Play lump info host up = Returned m0 →
  rtc frame_step m0 m →
  movie_accounted m ∧
  buf_capacity (st_buffer (videostream m)) = buf_capacity (st_buffer (videostream m0)).
Proof.
  intros Hplay Hsteps. apply MovieDecode_Play_accounted in Hplay.
  induction Hsteps as [m|m1 m2 m3 Hstep _ IH]; [done|].
  destruct (frame_step_accounted _ _ Hstep Hplay) as [Hm2 Hcap].
  destruct (IH Hm2) as [Hm3 Hcap']. split; [done|congruence].
Qed.

Lemma stream_slots_accounted_witness :
  movie_accounted
    (PollVideoFrameQueue
       (set_decodeworker example_movie
          (ParseVideoFrame (set_dw_frame (decodeworker example_movie) zero_AVFrame)))) ∧
  buf_capacity (st_buffer (videostream
    (PollVideoFrameQueue
       (set_decodeworker example_movie
          (ParseVideoFrame (set_dw_frame (decodeworker example_movie) zero_AVFrame))))))
  = buf_capacity (st_buffer (videostream example_movie)).
Proof.
  apply (stream_slots_accounted (Some []) example_info example_host false example_movie).
  - vm_compute. reflexivity.
  - eapply rtc_l; [apply step_ParseVideoFrame|].
    eapply rtc_l; [apply step_PollVideoFrameQueue|]. apply rtc_refl.
Defined.

(** ** The circular buffer makes no check *)

(** C7, as stated, fails: on a full buffer [EnqueueBuffer] does not abort.
    It returns, with [size] beyond [capacity], and the slot it hands out is
    the one of the head of the queue. *)
Lemma EnqueueBuffer_full_returns :
  buf_size example_full = buf_capacity example_full ∧
  EnqueueBuffer example_full = (set_size example_full 4, Some 1) ∧
  PeekBuffer example_full = Some 1 ∧
  contents (EnqueueBuffer example_full).1 = [20; 30; 10; 20].
Proof. by repeat split. Qed.

Lemma rem_wrap (start capacity : Z) :
  0 ≤ start → start < capacity → Z.rem (start + capacity) capacity = Z.rem (start + 0) capacity.
Proof.
  intros. rewrite !Z.rem_mod_nonneg by lia.
  rewrite Z.add_0_r, <- (Z.mul_1_l capacity) at 1.
  rewrite Z.mod_add by lia. done.
Qed.

Lemma memcpy_length (dst : list Z) (d : Z) (src : list Z) (s n : Z) :
  0 ≤ d → 0 ≤ s → 0 ≤ n →
  d + n ≤ Z.of_nat (length dst) → s + n ≤ Z.of_nat (length src) →
  length (Bytes.memcpy dst d src s n) = length dst.
Proof.
  intros ? ? ? ? ?. unfold Bytes.memcpy.
  rewrite !length_app, !length_take, !length_drop. lia.
Qed.

Lemma memcpy_lookup_copied (dst : list Z) (d : Z) (src : list Z) (s n k : Z) :
  0 ≤ d → 0 ≤ s → d + n ≤ Z.of_nat (length dst) → s + n ≤ Z.of_nat (length src) →
  0 ≤ k → k < n →
  Bytes.memcpy dst d src s n !! Z.to_nat (d + k) = src !! Z.to_nat (s + k).
Proof.
  intros ? ? ? ? ? ?. unfold Bytes.memcpy.
  rewrite lookup_app_r by (rewrite length_take; lia).
  rewrite length_take, lookup_app_l by (rewrite length_take, length_drop; lia).
  rewrite lookup_take_lt, lookup_drop by lia. f_equal. lia.
Qed.

Lemma memcpy_lookup_other (dst : list Z) (d : Z) (src : list Z) (s n j : Z) :
  0 ≤ d → 0 ≤ s → 0 ≤ n →
  d + n ≤ Z.of_nat (length dst) → s + n ≤ Z.of_nat (length src) →
  0 ≤ j → j < d ∨ d + n ≤ j →
  Bytes.memcpy dst d src s n !! Z.to_nat j = dst !! Z.to_nat j.
Proof.
  intros ? ? ? ? ? ? [?|?]; unfold Bytes.memcpy.
  - rewrite lookup_app_l by (rewrite length_take; lia). apply lookup_take_lt. lia.
  - rewrite lookup_app_r by (rewrite length_take; lia).
    rewrite lookup_app_r by (rewrite !length_take, length_drop; lia).
    rewrite lookup_drop, !length_take, length_drop. f_equal. lia.
Qed.

(** C7, amended. The circular buffer operations make no check and never
    abort. On an empty buffer [DequeueBuffer] returns the slot of the head,
    moves [start] on and leaves [size] at -1. On a full buffer
    [EnqueueBuffer] leaves [size] at [capacity + 1] and returns the slot of
    the head. [DequeueBufferIntoBuffer] compares no slot sizes: it takes one
    from the size of [src], adds one to the size of [dst] and copies the
    [slotsize] bytes of a slot of [src] to the slot after the tail of [dst],
    whatever the slot size of [dst]; every other byte of [dst] stays. When
    the slots of [src] are the larger, the bytes that follow the slot of
    [dst] are overwritten. (The buffers have their start within their
    capacity, and the copy stays inside the two arrays.) *)
Theorem ring_buffer_misuse_unchecked {A : Type} `{!Inhabited A} (dst src : moviebuffer A)
    (bdst bsrc : Bytes.moviebuffer) :
  (buf_size src = 0 → 0 ≤ buf_start src → buf_start src < buf_capacity src →
   DequeueBuffer src
   = (Moviebuffer (buf_capacity src) (buf_slotsize src)
        (Z.rem (buf_start src + 1) (buf_capacity src)) (-1) (buf_data src),
      PeekBuffer src)) ∧
  (buf_size dst = buf_capacity dst → 0 ≤ buf_start dst → buf_start dst < buf_capacity dst →
   EnqueueBuffer dst = (set_size dst (buf_capacity dst + 1), PeekBuffer dst)) ∧
  (0 ≤ Bytes.start bdst → Bytes.start bdst < Bytes.capacity bdst →
   0 ≤ Bytes.start bsrc → Bytes.start bsrc < Bytes.capacity bsrc →
   0 ≤ Bytes.size bdst → 0 ≤ Bytes.slotsize bdst → 0 ≤ Bytes.slotsize bsrc →
   let d :=
     Z.rem (Bytes.start bdst + Bytes.size bdst) (Bytes.capacity bdst) * Bytes.slotsize bdst in
   let s := Bytes.start bsrc * Bytes.slotsize bsrc in
   let n := Bytes.slotsize bsrc in
   d + n ≤ Z.of_nat (length (Bytes.data bdst)) →
   s + n ≤ Z.of_nat (length (Bytes.data bsrc)) →
   ∃ data',
     Bytes.DequeueBufferIntoBuffer bdst bsrc
     = (Bytes.Moviebuffer (Bytes.capacity bdst) (Bytes.slotsize bdst) (Bytes.start bdst)
          (Bytes.size bdst + 1) data',
        Bytes.Moviebuffer (Bytes.capacity bsrc) (Bytes.slotsize bsrc)
          (Z.rem (Bytes.start bsrc + 1) (Bytes.capacity bsrc)) (Bytes.size bsrc - 1)
          (Bytes.data bsrc),
        Some d) ∧
     length data' = length (Bytes.data bdst) ∧
     (∀ k, 0 ≤ k → k < n →
        data' !! Z.to_nat (d + k) = Bytes.data bsrc !! Z.to_nat (s + k)) ∧
     (∀ j, 0 ≤ j → j < d ∨ d + n ≤ j →
        data' !! Z.to_nat j = Bytes.data bdst !! Z.to_nat j)).
Proof.
  split; [|split].
  - intros Hsize _ _. unfold DequeueBuffer, set_size, set_start; simpl. by rewrite Hsize.
  - intros Hsize Hstart Hcap. unfold EnqueueBuffer, PeekBuffer, GetBufferSlot, set_size; simpl.
    rewrite Hsize. replace (buf_capacity dst + 1 - 1) with (buf_capacity dst) by lia.
    destruct (buf_capacity dst <? 0) eqn:Hneg; [lia|].
    by rewrite rem_wrap.
  - intros ? ? ? ? ? ? ? d s n Hd Hs.
    assert (0 ≤ d).
    { unfold d. apply Z.mul_nonneg_nonneg; [|done]. apply Z.rem_nonneg; lia. }
    assert (0 ≤ s) by (unfold s; lia).
    exists (Bytes.memcpy (Bytes.data bdst) d (Bytes.data bsrc) s n).
    split_and!.
    + unfold Bytes.DequeueBufferIntoBuffer, Bytes.DequeueBuffer, Bytes.EnqueueBuffer,
        Bytes.PeekBuffer, Bytes.GetBufferSlot. cbn [Bytes.capacity Bytes.slotsize Bytes.start
        Bytes.size Bytes.data]. change (0 <? 0) with false. cbv iota.
      replace (Bytes.size bdst + 1 - 1) with (Bytes.size bdst) by lia.
      destruct (Z.ltb_spec (Bytes.size bdst) 0); [lia|].
      rewrite Z.add_0_r, (Z.rem_small (Bytes.start bsrc)) by lia. done.
    + apply memcpy_length; unfold n; lia.
    + intros k ? ?. by apply memcpy_lookup_copied.
    + intros j ? ?. apply memcpy_lookup_other; unfold n; try lia; done.
Qed.

Lemma ring_buffer_misuse_unchecked_witness :
  DequeueBuffer example_empty = (Moviebuffer 3 8 2 (-1) (Some [10; 20; 30]), Some 1) ∧
  EnqueueBuffer example_full = (set_size example_full 4, PeekBuffer example_full) ∧
  (∃ data',
     Bytes.DequeueBufferIntoBuffer example_bytes_dst example_bytes_src
     = (Bytes.Moviebuffer 3 2 0 2 data',
        Bytes.Moviebuffer 2 4 1 0 [11; 12; 13; 14; 15; 16; 17; 18], Some 2) ∧
     length data' = 6%nat ∧
     (∀ k, 0 ≤ k → k < 4 →
        data' !! Z.to_nat (2 + k) = [11; 12; 13; 14; 15; 16; 17; 18] !! Z.to_nat (0 + k)) ∧
     (∀ j, 0 ≤ j → j < 2 ∨ 2 + 4 ≤ j → data' !! Z.to_nat j = [1; 2; 3; 4; 5; 6] !! Z.to_nat j)) ∧
  Bytes.DequeueBufferIntoBuffer example_bytes_dst example_bytes_src
  = (Bytes.Moviebuffer 3 2 0 2 [1; 2; 11; 12; 13; 14],
     Bytes.Moviebuffer 2 4 1 0 [11; 12; 13; 14; 15; 16; 17; 18], Some 2).
Proof.
  split_and!.
  - apply (proj1 (ring_buffer_misuse_unchecked example_full example_empty
                    example_bytes_dst example_bytes_src)); [reflexivity|done|done].
  - apply (proj1 (proj2 (ring_buffer_misuse_unchecked example_full example_empty
                           example_bytes_dst example_bytes_src)));
      [reflexivity|done|done].
  - apply (proj2 (proj2 (ring_buffer_misuse_unchecked example_full example_empty
                           example_bytes_dst example_bytes_src)));
      vm_compute; first [reflexivity|congruence].
  - reflexivity.
Defined.

(** ** Circular buffer: the queue it holds *)

Section BufferContents.
Context {A : Type} `{!Inhabited A}.
Implicit Types buffer dst src : moviebuffer A.

(** The slot of the frame [index] places after the head. *)
Lemma slot_number buffer index :
  buffer_ok buffer → 0 ≤ index → index < buf_capacity buffer →
  Z.rem (buf_start buffer + index) (buf_capacity buffer)
  = if buf_start buffer + index <? buf_capacity buffer
    then buf_start buffer + index
    else buf_start buffer + index - buf_capacity buffer.
Proof.
  intros (? & ? & ? & ? & ?) ? ?. rewrite Z.rem_mod_nonneg by lia.
  case_match.
  - apply Z.mod_small. lia.
  - symmetry. apply (Z.mod_unique _ _ 1); lia.
Qed.

Lemma slot_number_bounds buffer index :
  buffer_ok buffer → 0 ≤ index → index < buf_capacity buffer →
  0 ≤ Z.rem (buf_start buffer + index) (buf_capacity buffer) < buf_capacity buffer.
Proof.
  intros Hok ? ?. rewrite slot_number by done.
  destruct Hok as (? & ? & ? & ? & ?). case_match; lia.
Qed.

Lemma slot_number_inj buffer i j :
  buffer_ok buffer → 0 ≤ i → i < buf_capacity buffer → 0 ≤ j → j < buf_capacity buffer →
  Z.rem (buf_start buffer + i) (buf_capacity buffer)
  = Z.rem (buf_start buffer + j) (buf_capacity buffer) →
  i = j.
Proof.
  intros Hok ? ? ? ?. rewrite !slot_number by done.
  destruct Hok as (? & ? & ? & ? & ?). repeat case_match; lia.
Qed.

Lemma slot_number_next (start capacity i : Z) :
  0 ≤ start → 0 < capacity → 0 ≤ i →
  Z.rem (Z.rem (start + 1) capacity + i) capacity = Z.rem (start + (1 + i)) capacity.
Proof.
  intros ? ? ?.
  pose proof (Z.rem_bound_pos (start + 1) capacity).
  rewrite (Z.rem_mod_nonneg (_ + i)), (Z.rem_mod_nonneg (start + 1)),
    (Z.rem_mod_nonneg (start + (1 + i))) by lia.
  rewrite Zplus_mod_idemp_l. f_equal. lia.
Qed.

Lemma length_contents buffer : length (contents buffer) = Z.to_nat (buf_size buffer).
Proof. unfold contents. by rewrite length_fmap, length_seqZ. Qed.

Lemma contents_lookup buffer index :
  0 ≤ index → index < buf_size buffer →
  contents buffer !! Z.to_nat index = Some (frame_at buffer index).
Proof.
  intros ? ?. unfold contents, frame_at, GetBufferSlot.
  rewrite list_lookup_fmap, lookup_seqZ_lt by lia. simpl.
  destruct (index <? 0) eqn:?; [lia|]. by rewrite Z2Nat.id by lia.
Qed.

Lemma contents_lookup_total buffer index :
  0 ≤ index → index < buf_size buffer →
  contents buffer !!! Z.to_nat index = frame_at buffer index.
Proof. intros. apply list_lookup_total_correct. by apply contents_lookup. Qed.

Lemma contents_empty buffer : buf_size buffer ≤ 0 → contents buffer = [].
Proof. intros. unfold contents. by rewrite seqZ_nil. Qed.

(** Writing the frame [index] places after the head. *)
Lemma contents_write_slot buffer index v :
  buffer_ok buffer → 0 ≤ index → index < buf_size buffer →
  contents (write_slot buffer (Z.rem (buf_start buffer + index) (buf_capacity buffer)) v)
  = <[Z.to_nat index := v]> (contents buffer).
Proof.
  intros Hok ? ?. pose proof Hok as (? & ? & ? & ? & Hlen).
  apply list_eq. intros n. unfold contents at 1, read_slot. simpl.
  rewrite list_lookup_fmap, slots_write_slot.
  destruct (decide (Z.of_nat n < buf_size buffer)) as [Hn|Hn].
  - rewrite lookup_seqZ_lt by lia. simpl.
    destruct (decide (n = Z.to_nat index)) as [->|Hne].
    + rewrite Z2Nat.id by lia.
      rewrite list_lookup_insert_eq by (rewrite length_contents; lia).
      rewrite list_lookup_total_insert_eq; [done|].
      pose proof (slot_number_bounds buffer index Hok). lia.
    + rewrite list_lookup_insert_ne by done.
      rewrite list_lookup_total_insert_ne.
      * unfold contents, read_slot. by rewrite list_lookup_fmap, lookup_seqZ_lt by lia.
      * intros Heq.
        pose proof (slot_number_bounds buffer index Hok).
        pose proof (slot_number_bounds buffer (Z.of_nat n) Hok).
        rewrite Z.add_0_l in Heq. apply Z2Nat.inj in Heq; [|lia..].
        apply slot_number_inj in Heq; [lia|done|lia..].
  - rewrite lookup_seqZ_ge by lia. simpl. symmetry.
    apply lookup_ge_None. rewrite length_insert, length_contents. lia.
Qed.

Lemma write_slot_ok buffer slot v : buffer_ok buffer → buffer_ok (write_slot buffer slot v).
Proof.
  intros (? & ? & ? & ? & ?). repeat split; simpl; try done.
  by rewrite slots_write_slot, length_insert.
Qed.

Lemma update_slot_ok buffer slot f : buffer_ok buffer → buffer_ok (update_slot buffer slot f).
Proof. destruct slot; simpl; [apply write_slot_ok|done]. Qed.

(** [frame->field = v] on the frame [index] places after the head. *)
Lemma contents_update_slot buffer index f :
  buffer_ok buffer → 0 ≤ index → index < buf_size buffer →
  contents (update_slot buffer (GetBufferSlot buffer index) f)
  = <[Z.to_nat index := f (frame_at buffer index)]> (contents buffer).
Proof.
  intros Hok ? ?. unfold frame_at, GetBufferSlot.
  destruct (index <? 0) eqn:?; [lia|]. simpl. by apply contents_write_slot.
Qed.

Lemma contents_set_size_succ buffer :
  0 ≤ buf_size buffer →
  contents (set_size buffer (buf_size buffer + 1))
  = contents buffer ++ [frame_at (set_size buffer (buf_size buffer + 1)) (buf_size buffer)].
Proof.
  intros ?. unfold contents at 1. simpl.
  replace (buf_size buffer + 1) with (Z.of_nat (S (Z.to_nat (buf_size buffer)))) by lia.
  rewrite seqZ_S, fmap_app, Z2Nat.id by lia. f_equal. simpl.
  unfold frame_at, GetBufferSlot. destruct (buf_size buffer <? 0) eqn:?; [lia|]. done.
Qed.

Lemma DequeueBuffer_contents buffer :
  buffer_ok buffer → 0 < buf_size buffer →
  buffer_ok (DequeueBuffer buffer).1 ∧
  contents buffer = frame_at buffer 0 :: contents (DequeueBuffer buffer).1 ∧
  (DequeueBuffer buffer).2 = GetBufferSlot buffer 0.
Proof.
  intros Hok Hsize. pose proof Hok as (? & ? & ? & ? & Hlen).
  split; [|split; [|done]].
  - pose proof (Z.rem_bound_pos (buf_start buffer + 1) (buf_capacity buffer)).
    repeat split; simpl; try lia. done.
  - unfold contents at 1. rewrite seqZ_cons by lia. rewrite fmap_cons. f_equal.
    unfold contents, read_slot; simpl.
    replace (Z.succ 0) with (1 + 0) by lia. rewrite <- fmap_add_seqZ, <- list_fmap_compose.
    apply list_fmap_ext. intros n i Hi. apply lookup_seqZ in Hi as [-> ?]. simpl.
    do 2 f_equal. symmetry. apply slot_number_next; lia.
Qed.

(** Moving a frame: it leaves the head of [src] for the tail of [dst]. *)
Lemma DequeueBufferIntoBuffer_contents dst src dst' src' slot :
  DequeueBufferIntoBuffer dst src = (dst', src', slot) →
  buffer_ok dst → buffer_ok src →
  buf_size dst < buf_capacity dst → 0 < buf_size src →
  buffer_ok dst' ∧ buffer_ok src' ∧
  contents dst' = contents dst ++ [frame_at src 0] ∧
  contents src = frame_at src 0 :: contents src' ∧
  slot = GetBufferSlot dst' (buf_size dst' - 1) ∧
  buf_size dst' = buf_size dst + 1 ∧ buf_size src' = buf_size src - 1 ∧
  buf_capacity dst' = buf_capacity dst ∧ buf_capacity src' = buf_capacity src.
Proof.
  intros Hmove Hdst Hsrc Hroom Hsome.
  pose proof (DequeueBufferIntoBuffer_shape _ _ _ _ _ Hmove) as ([? _] & [? _] & ? & ?).
  destruct (DequeueBuffer_contents src Hsrc Hsome) as (Hsrc' & Hcontents & _).
  cbv beta iota zeta delta [DequeueBufferIntoBuffer DequeueBuffer EnqueueBuffer] in Hmove.
  unfold DequeueBuffer in Hsrc', Hcontents. cbn [fst] in Hsrc', Hcontents.
  set (src1 := set_size (set_start src _) _) in *.
  injection Hmove as <- <- <-.
  pose proof Hdst as (? & ? & ? & ? & ?).
  set (dst1 := set_size dst (buf_size dst + 1)).
  assert (buffer_ok dst1) as Hdst1 by (repeat split; simpl; try lia; done).
  assert (GetBufferSlot dst1 (buf_size dst + 1 - 1)
          = Some (Z.rem (buf_start dst1 + buf_size dst) (buf_capacity dst1))) as ->.
  { unfold GetBufferSlot. simpl. destruct (_ <? 0) eqn:?; [lia|]. do 3 f_equal. lia. }
  assert (PeekBuffer src = Some (Z.rem (buf_start src + 0) (buf_capacity src))) as ->
    by done.
  cbn [memcpy_slot].
  set (v := read_slot src1 _).
  assert (v = frame_at src 0) as -> by done.
  split; [by apply write_slot_ok|]. split; [done|].
  split; [|repeat split; try done].
  - rewrite (contents_write_slot dst1) by (simpl; done || lia).
    unfold dst1. rewrite contents_set_size_succ by lia.
    replace (Z.to_nat (buf_size dst)) with (length (contents dst) + 0)%nat
      by (rewrite length_contents; lia).
    by rewrite insert_app_r.
  - unfold GetBufferSlot. simpl. destruct (_ <? 0) eqn:?; [lia|]. do 3 f_equal. lia.
Qed.

Lemma DequeueWholeBufferIntoBuffer_loop_contents turns dst src dst' src' :
  DequeueWholeBufferIntoBuffer_loop turns dst src = (dst', src') →
  buffer_ok dst → buffer_ok src →
  buf_size dst + buf_size src ≤ buf_capacity dst → buf_size src ≤ Z.of_nat turns →
  buffer_ok dst' ∧ buffer_ok src' ∧
  contents dst' = contents dst ++ contents src ∧ buf_size src' = 0.
Proof.
  revert dst src. induction turns as [|turns IH]; intros dst src;
    cbn [DequeueWholeBufferIntoBuffer_loop]; intros Hloop Hdst Hsrc Hroom Hturns.
  - injection Hloop as <- <-. pose proof Hsrc as (? & ? & ? & ? & ?).
    rewrite (contents_empty src), app_nil_r by lia. split_and!; [done..|lia].
  - destruct (0 <? buf_size src) eqn:Hsome.
    + destruct (DequeueBufferIntoBuffer dst src) as [[dst1 src1] slot] eqn:Hmove.
      apply DequeueBufferIntoBuffer_contents in Hmove
        as (Hdst1 & Hsrc1 & Hc1 & Hc2 & _ & ? & ? & ? & ?); [|done|done|lia|lia].
      apply IH in Hloop as (? & ? & Hc & ?); [|done|done|lia|lia].
      split_and!; [done..| |done]. rewrite Hc, Hc1, Hc2, <- app_assoc. done.
    + injection Hloop as <- <-. pose proof Hsrc as (? & ? & ? & ? & ?).
      rewrite (contents_empty src), app_nil_r by lia. split_and!; [done..|lia].
Qed.

Lemma DequeueWholeBufferIntoBuffer_contents dst src dst' src' :
  DequeueWholeBufferIntoBuffer dst src = (dst', src') →
  buffer_ok dst → buffer_ok src →
  buf_size dst + buf_size src ≤ buf_capacity dst →
  buffer_ok dst' ∧ buffer_ok src' ∧
  contents dst' = contents dst ++ contents src ∧ buf_size src' = 0.
Proof.
  intros Hloop Hdst Hsrc Hroom.
  eapply DequeueWholeBufferIntoBuffer_loop_contents; try done.
  destruct Hsrc as (? & ? & ? & ? & ?). lia.
Qed.
End BufferContents.

(** ** Sample positions of the audio frames *)

Lemma gapless_snoc frames frame :
  gapless frames →
  (∀ prev, last frames = Some prev →
     af_firstsampleposition frame = GetAudioFrameEndSample prev) →
  gapless (frames ++ [frame]).
Proof.
  induction frames as [|f1 frames IH]; [done|].
  destruct frames as [|f2 frames].
  - intros _ Hlast. split; [|done]. by apply Hlast.
  - intros [Hgap Hrest] Hlast. split; [done|]. apply IH; [done|].
    intros prev Hprev. by apply Hlast.
Qed.

Lemma gapless_tail frame frames : gapless (frame :: frames) → gapless frames.
Proof. destruct frames; [done|]. by intros [_ ?]. Qed.

Lemma assign_positions_gapless m buffered moved :
  gapless buffered → gapless (assign_positions m buffered moved).
Proof.
  revert buffered. induction moved as [|frame moved IH]; intros buffered Hgap; [done|].
  cbn [assign_positions]. apply IH, gapless_snoc; [done|].
  by intros prev ->.
Qed.

Lemma assign_positions_numsamples m buffered moved :
  af_numsamples <$> assign_positions m buffered moved
  = af_numsamples <$> (buffered ++ moved).
Proof.
  revert buffered. induction moved as [|frame moved IH]; intros buffered.
  - by rewrite app_nil_r.
  - cbn [assign_positions]. rewrite IH, <- app_assoc. by rewrite !fmap_app.
Qed.

Lemma gapless_sorted (R : Z → Z → Prop) (P : Z → Prop) frames :
  (∀ a n, P n → R a (a + n)) →
  gapless frames →
  Forall P (af_numsamples <$> frames) →
  Sorted R (positions frames).
Proof.
  intros HR. induction frames as [|f1 frames IH]; [constructor|].
  intros Hgap Hn. apply Forall_cons in Hn as [Hn1 Hn].
  constructor; [apply IH; [by eapply gapless_tail|done]|].
  destruct frames as [|f2 frames]; [constructor|].
  destruct Hgap as [Hgap _]. constructor. simpl. rewrite Hgap. by apply HR.
Qed.

Lemma PollAudioFrameQueue_loop_contents m turns buffer framequeue buffer' framequeue' :
  PollAudioFrameQueue_loop m turns buffer framequeue = (buffer', framequeue') →
  buffer_ok buffer → buffer_ok framequeue →
  buf_size buffer + buf_size framequeue ≤ buf_capacity buffer →
  buf_size framequeue ≤ Z.of_nat turns →
  buffer_ok buffer' ∧ buffer_ok framequeue' ∧
  contents buffer' = assign_positions m (contents buffer) (contents framequeue) ∧
  buf_size framequeue' = 0.
Proof.
  revert buffer framequeue. induction turns as [|turns IH]; intros buffer framequeue;
    cbn [PollAudioFrameQueue_loop]; intros Hloop Hbuffer Hqueue Hroom Hturns.
  - injection Hloop as <- <-. pose proof Hqueue as (? & ? & ? & ? & ?).
    rewrite (contents_empty framequeue) by lia. split_and!; [done..|lia].
  - destruct (0 <? buf_size framequeue) eqn:Hsome.
    + destruct (DequeueBufferIntoBuffer buffer framequeue) as [[buffer1 queue1] frame]
        eqn:Hmove.
      apply DequeueBufferIntoBuffer_contents in Hmove
        as (Hbuffer1 & Hqueue1 & Hc1 & Hc2 & -> & Hsize1 & ? & Hcap1 & ?);
        [|done|done|lia|lia].
      pose proof Hbuffer as (? & ? & ? & ? & ?).
      set (x := frame_at framequeue 0) in *.
      assert (frame_at buffer1 (buf_size buffer1 - 1) = x) as Hlast.
      { apply (inj Some). rewrite <- contents_lookup by lia. rewrite Hc1.
        replace (Z.to_nat (buf_size buffer1 - 1)) with (length (contents buffer) + 0)%nat
          by (rewrite length_contents; lia).
        by rewrite lookup_app_r, Nat.add_comm, Nat.add_sub by lia. }
      apply IH in Hloop as (? & ? & Hc & ?).
      * split_and!; [done..| |done]. rewrite Hc, Hc2. cbn [assign_positions]. f_equal.
        destruct (1 <? buf_size buffer1) eqn:Hprev.
        -- rewrite contents_update_slot, Hlast, Hc1 by (done || lia).
           replace (Z.to_nat (buf_size buffer1 - 1)) with (length (contents buffer) + 0)%nat
             by (rewrite length_contents; lia).
           rewrite insert_app_r. simpl. do 3 f_equal.
           assert (last (contents buffer) = Some (frame_at buffer1 (buf_size buffer1 - 2)))
             as ->; [|done].
           rewrite last_lookup, <- contents_lookup, Hc1, length_contents by lia.
           replace (Z.to_nat (buf_size buffer1 - 2)) with (pred (Z.to_nat (buf_size buffer)))
             by lia.
           rewrite lookup_app_l by (rewrite length_contents; lia). done.
        -- rewrite contents_update_slot, Hlast, Hc1 by (done || lia).
           rewrite (contents_empty buffer) by lia.
           by replace (Z.to_nat (buf_size buffer1 - 1)) with 0%nat by lia.
      * case_match; by apply update_slot_ok.
      * done.
      * case_match; rewrite update_slot_size; unfold update_slot; repeat case_match;
          simpl; lia.
      * lia.
    + injection Hloop as <- <-. pose proof Hqueue as (? & ? & ? & ? & ?).
      rewrite (contents_empty framequeue) by lia. split_and!; [done..|lia].
Qed.

(** C3, as stated, fails: the positions need not be strictly increasing.
    [swr_convert] may turn a decoded frame into no sample ([ParseAudioFrame]
    only aborts on a negative count); the frame after it then gets the same
    first sample position. Here the worker has decoded two frames after
    [MovieDecode_Play], the first one of 0 samples. *)
Lemma PollAudioFrameQueue_positions_repeat :
  af_numsamples <$> contents (ws_framequeue (dw_audiostream (decodeworker example_audio_movie)))
  = [0; 1024] ∧
  positions (contents (st_buffer (audiostream (PollAudioFrameQueue example_audio_movie))))
  = [0; 0] ∧
  ¬ Sorted Z.lt
      (positions (contents (st_buffer (audiostream (PollAudioFrameQueue example_audio_movie))))).
Proof.
  assert (positions (contents (st_buffer (audiostream (PollAudioFrameQueue example_audio_movie))))
          = [0; 0]) as Hpos by (vm_compute; reflexivity).
  split; [vm_compute; reflexivity|]. split; [exact Hpos|].
  rewrite Hpos. intros Hsorted.
  apply Sorted_inv in Hsorted as [_ Hhd]. apply HdRel_inv in Hhd. lia.
Qed.

(** C3, amended. When [Update] moves the audio frames of the worker queue
    into the consumer buffer, each moved frame gets as its first sample
    position the first sample position of the previous frame of the buffer
    plus the number of samples of that frame when the buffer has a previous
    frame, and its PTS converted to samples otherwise. Consequently the
    first sample positions of the consumer audio buffer stay gapless after
    the first frame; they are nondecreasing, and strictly increasing when
    every frame holds at least one sample. *)
Theorem PollAudioFrameQueue_positions (m : movie) :
  let buffer := st_buffer (audiostream m) in
  let framequeue := ws_framequeue (dw_audiostream (decodeworker m)) in
  let buffer' := st_buffer (audiostream (PollAudioFrameQueue m)) in
  let framequeue' := ws_framequeue (dw_audiostream (decodeworker (PollAudioFrameQueue m))) in
  buffer_ok buffer → buffer_ok framequeue →
  buf_size buffer + buf_size framequeue ≤ buf_capacity buffer →
  gapless (contents buffer) →
  Forall (λ frame, 0 ≤ af_numsamples frame) (contents buffer ++ contents framequeue) →
  contents buffer' = assign_positions m (contents buffer) (contents framequeue) ∧
  contents framequeue' = [] ∧
  gapless (contents buffer') ∧
  Sorted Z.le (positions (contents buffer')) ∧
  (Forall (λ frame, 0 < af_numsamples frame) (contents buffer ++ contents framequeue) →
   Sorted Z.lt (positions (contents buffer'))).
Proof.
  intros buffer framequeue buffer' framequeue' Hbuffer Hqueue Hroom Hgap Hsamples.
  assert (contents buffer' = assign_positions m (contents buffer) (contents framequeue)
          ∧ contents framequeue' = []) as [Hc Hq].
  { subst buffer' framequeue'. unfold PollAudioFrameQueue. fold buffer framequeue.
    destruct (buf_size framequeue =? 0) eqn:Hempty; simpl.
    - fold buffer framequeue. by rewrite (contents_empty framequeue) by lia.
    - destruct (PollAudioFrameQueue_loop _ _ _ _) as [buffer1 queue1] eqn:Hloop. simpl.
      apply PollAudioFrameQueue_loop_contents in Hloop as (? & ? & ? & ?);
        [|done|done|lia|destruct Hqueue as (? & ? & ? & ? & ?); lia].
      split; [done|]. apply contents_empty. lia. }
  split; [done|]. split; [done|].
  assert (gapless (contents buffer')) as Hgap'
    by (rewrite Hc; by apply assign_positions_gapless).
  split; [done|]. split.
  - apply (gapless_sorted Z.le (λ n, 0 ≤ n)); [intros; lia|done|].
    rewrite Hc, assign_positions_numsamples. by apply Forall_fmap.
  - intros Hpositive. apply (gapless_sorted Z.lt (λ n, 0 < n)); [intros; lia|done|].
    rewrite Hc, assign_positions_numsamples. by apply Forall_fmap.
Qed.

Lemma PollAudioFrameQueue_positions_witness :
  contents (st_buffer (audiostream (PollAudioFrameQueue example_audio_movie)))
  = assign_positions example_audio_movie
      (contents (st_buffer (audiostream example_audio_movie)))
      (contents (ws_framequeue (dw_audiostream (decodeworker example_audio_movie)))) ∧
  gapless (contents (st_buffer (audiostream (PollAudioFrameQueue example_audio_movie)))).
Proof.
  assert (buffer_ok (st_buffer (audiostream example_audio_movie))) as H1
    by (vm_compute; repeat split; congruence).
  assert (buffer_ok (ws_framequeue (dw_audiostream (decodeworker example_audio_movie)))) as H2
    by (vm_compute; repeat split; congruence).
  assert (buf_size (st_buffer (audiostream example_audio_movie))
          + buf_size (ws_framequeue (dw_audiostream (decodeworker example_audio_movie)))
          ≤ buf_capacity (st_buffer (audiostream example_audio_movie))) as H3
    by (vm_compute; congruence).
  assert (gapless (contents (st_buffer (audiostream example_audio_movie)))) as H4
    by (vm_compute; exact I).
  assert (Forall (λ frame, 0 ≤ af_numsamples frame)
            (contents (st_buffer (audiostream example_audio_movie))
             ++ contents (ws_framequeue (dw_audiostream (decodeworker example_audio_movie)))))
    as H5.
  { apply (proj1 (Forall_fmap af_numsamples (λ n, 0 ≤ n) _)).
    replace (af_numsamples <$> _) with [0; 1024] by (vm_compute; reflexivity).
    repeat constructor; lia. }
  pose proof (PollAudioFrameQueue_positions example_audio_movie H1 H2 H3 H4 H5)
    as (Hc & _ & Hgap & _).
  split; [exact Hc|exact Hgap].
Defined.

(** ** Time conversion *)

Lemma SamplesToMS_eq (s : Z) :
  0 ≤ s → s ≤ INT64_MAX → SamplesToMS s = (s * 1000 + 22050) / 44100.
Proof.
  intros ? ?. unfold SamplesToMS, av_rescale_q, SAMPLE_RATE, INT64_MAX in *. simpl.
  rewrite Z.abs_eq by lia.
  change (1 * 1000) with 1000. change (1 * 44100) with 44100.
  change (44100 / 2) with 22050.
  assert ((s * 1000 + 22050) / 44100 ≤ s).
  { pose proof (Z.div_mod (s * 1000 + 22050) 44100 ltac:(lia)).
    pose proof (Z.mod_pos_bound (s * 1000 + 22050) 44100 ltac:(lia)). lia. }
  destruct (2 ^ 63 - 1 <? _) eqn:?; [lia|]. destruct (s <? 0) eqn:?; [lia|]. done.
Qed.

Lemma MSToSamples_eq (ms : Z) :
  0 ≤ ms → (ms * 44100 + 500) / 1000 ≤ INT64_MAX →
  MSToSamples ms = (ms * 44100 + 500) / 1000.
Proof.
  intros ? ?. unfold MSToSamples, av_rescale_q, SAMPLE_RATE, INT64_MAX in *. simpl.
  rewrite Z.abs_eq by lia.
  change (1 * 1000) with 1000. change (1 * 44100) with 44100.
  change (1000 / 2) with 500.
  destruct (2 ^ 63 - 1 <? _) eqn:?; [lia|]. destruct (ms <? 0) eqn:?; [lia|]. done.
Qed.

(** C6, as stated, fails: a millisecond is 44.1 samples, so the way through
    milliseconds loses up to 22 samples. *)
Lemma MSToSamples_SamplesToMS_22 :
  SamplesToMS 22 = 0 ∧ MSToSamples (SamplesToMS 22) = 0 ∧
  ¬ Z.abs (MSToSamples (SamplesToMS 22) - 22) ≤ 1.
Proof. split; [done|]. split; [done|]. vm_compute. congruence. Qed.

(** C6, amended. For every sample index [s] with [0 <= s <= INT64_MAX - 22],
    [MSToSamples (SamplesToMS s)] differs from [s] by at most 22 samples. *)
Theorem MSToSamples_SamplesToMS (s : Z) :
  0 ≤ s → s ≤ INT64_MAX - 22 →
  Z.abs (MSToSamples (SamplesToMS s) - s) ≤ 22.
Proof.
  intros ? ?. rewrite SamplesToMS_eq by (unfold INT64_MAX in *; lia).
  set (ms := (s * 1000 + 22050) / 44100).
  assert (0 ≤ ms) by (apply Z.div_pos; lia).
  pose proof (Z.div_mod (s * 1000 + 22050) 44100 ltac:(lia)) as Hms.
  pose proof (Z.mod_pos_bound (s * 1000 + 22050) 44100 ltac:(lia)).
  fold ms in Hms.
  pose proof (Z.div_mod (ms * 44100 + 500) 1000 ltac:(lia)) as Ht.
  pose proof (Z.mod_pos_bound (ms * 44100 + 500) 1000 ltac:(lia)).
  rewrite MSToSamples_eq; [lia|done|].
  unfold INT64_MAX in *. lia.
Qed.

Lemma MSToSamples_SamplesToMS_witness : Z.abs (MSToSamples (SamplesToMS 22) - 22) ≤ 22.
Proof. apply MSToSamples_SamplesToMS; vm_compute; congruence. Defined.

(** ** The byte source *)

Lemma to_size_t_small (z : Z) : 0 ≤ z → z < 2 ^ 64 → to_size_t z = z.
Proof. intros. by apply Z.mod_small. Qed.

Lemma to_INT32_small (z : Z) : - 2 ^ 31 ≤ z → z < 2 ^ 31 → to_INT32 z = z.
Proof. intros. unfold to_INT32. rewrite Z.mod_small; lia. Qed.

Lemma read_bytes_take_drop (l : list Z) (pos n : Z) :
  0 ≤ pos → 0 ≤ n → pos + n ≤ Z.of_nat (length l) →
  read_bytes l pos n = take (Z.to_nat n) (drop (Z.to_nat pos) l).
Proof.
  intros ? ? ?. apply list_eq. intros i. unfold read_bytes.
  rewrite list_lookup_fmap.
  destruct (decide (Z.of_nat i < n)).
  - rewrite lookup_seqZ_lt, lookup_take_lt, lookup_drop by lia. simpl.
    unfold byte_at.
    replace (Z.to_nat (pos + (0 + Z.of_nat i))) with (Z.to_nat pos + i)%nat by lia.
    destruct (lookup_lt_is_Some_2 l (Z.to_nat pos + i)) as [b Hb]; [lia|]. by rewrite Hb.
  - rewrite lookup_seqZ_ge, lookup_take_ge by lia. done.
Qed.





(** ** The size of the audio buffers *)

Lemma InitialiseAudioBuffer_loop_returns samples_alloc turns i framepool :
  (∀ i, samples_alloc i ≠ 0) →
  ∃ framepool', InitialiseAudioBuffer_loop samples_alloc turns i framepool = Returned framepool'.
Proof.
  intros Halloc. revert i framepool. induction turns as [|turns IH]; intros i framepool;
    cbn [InitialiseAudioBuffer_loop]; [by eexists|].
  destruct (EnqueueBuffer framepool) as [pool1 frame].
  specialize (Halloc i). destruct (samples_alloc i =? 0) eqn:?; [lia|]. apply IH.
Qed.

Lemma audio_capacity_eq (in_rate samples_per_frame : Z) :
  0 < in_rate → 0 < samples_per_frame →
  Z.quot (Z.quot STREAM_BUFFER_TIME 1000 * in_rate) samples_per_frame
  = STREAM_BUFFER_TIME * in_rate / samples_per_frame / 1000.
Proof.
  intros ? ?. unfold STREAM_BUFFER_TIME. change (Z.quot 4000 1000) with 4.
  rewrite Z.quot_div_nonneg by lia.
  rewrite Z.div_div by lia.
  replace (4000 * in_rate) with (4 * in_rate * 1000) by lia.
  by rewrite Z.div_mul_cancel_r by lia.
Qed.

(** C9, as stated, fails: it is not for all positive rates. For a decoder
    that reports [2^29] samples per second and a frame of 1024 samples the
    capacity of the claim is [2^31] frames; [STREAM_BUFFER_TIME / 1000 *
    sample_rate] does not fit the [int] it is computed in, the capacity
    [InitialiseBuffer] is given is no [2^31], and [InitialiseAudioBuffer]
    stops with "cannot allocate buffer". *)
Lemma InitialiseAudioBuffer_capacity_overflow :
  let in_samples := fr_nb_samples (dw_frame example_fast_worker) in
  let in_rate := cc_sample_rate (ws_codeccontext (dw_audiostream example_fast_worker)) in
  let samples_per_frame := in_samples * SAMPLE_RATE / in_rate + 1 in
  0 < in_samples ∧ 0 < in_rate ∧
  STREAM_BUFFER_TIME * in_rate / samples_per_frame / 1000 = 2 ^ 31 ∧
  2 ^ 31 ≤ Z.quot STREAM_BUFFER_TIME 1000 * in_rate ∧
  st_stream (audiostream example_audio_played) ≠ None ∧
  InitialiseAudioBuffer true false (λ _, 1) 64 (audiostream example_audio_played)
    example_fast_worker
  = I_Error "FFmpeg: cannot allocate buffer".
Proof.
  cbv zeta. split_and!.
  - vm_compute. reflexivity.
  - vm_compute. reflexivity.
  - vm_compute. reflexivity.
  - vm_compute. congruence.
  - vm_compute. congruence.
  - vm_compute. reflexivity.
Qed.

(** C9, amended. When the audio buffers are sized from the first decoded audio frame
    ([in_samples] samples at [in_rate] Hz, both positive, [4 * in_rate]
    within [int]) and the host has the memory, [InitialiseAudioBuffer]
    returns, and the consumer buffer, the frame queue and the frame pool have
    the capacity [STREAM_BUFFER_TIME * in_rate / samples_per_frame / 1000]
    with [samples_per_frame = in_samples * SAMPLE_RATE / in_rate + 1]; the
    pool holds that many frames. *)
Theorem InitialiseAudioBuffer_capacity (planar : bool) (samples_alloc : Z → Z) (sizeof : Z)
    (stream : moviestream movieaudioframe) (worker : moviedecodeworker) :
  let in_samples := fr_nb_samples (dw_frame worker) in
  let in_rate := cc_sample_rate (ws_codeccontext (dw_audiostream worker)) in
  let samples_per_frame := in_samples * SAMPLE_RATE / in_rate + 1 in
  let capacity := STREAM_BUFFER_TIME * in_rate / samples_per_frame / 1000 in
  st_stream stream ≠ None →
  0 < in_samples → 0 < in_rate → 4 * in_rate < 2 ^ 31 →
  (∀ i, samples_alloc i ≠ 0) →
  ∃ stream' worker',
    InitialiseAudioBuffer true planar samples_alloc sizeof stream worker
    = Returned (stream', worker') ∧
    GetSamplesPerFrame in_samples in_rate = samples_per_frame ∧
    buf_capacity (st_buffer stream') = capacity ∧
    buf_capacity (ws_framequeue (dw_audiostream worker')) = capacity ∧
    buf_capacity (ws_framepool (dw_audiostream worker')) = capacity ∧
    Z.of_nat (length (slots (st_buffer stream'))) = capacity ∧
    buf_size (ws_framepool (dw_audiostream worker')) = capacity.
Proof.
  intros in_samples in_rate samples_per_frame capacity Hstream ? ? ? Halloc.
  assert (GetSamplesPerFrame in_samples in_rate = samples_per_frame) as Hspf.
  { unfold GetSamplesPerFrame, samples_per_frame, SAMPLE_RATE.
    by rewrite Z.quot_div_nonneg by lia. }
  assert (0 < samples_per_frame).
  { unfold samples_per_frame, SAMPLE_RATE.
    pose proof (Z.div_pos (in_samples * 44100) in_rate). lia. }
  assert (0 ≤ capacity ∧ capacity ≤ 4 * in_rate) as [? ?].
  { unfold capacity. rewrite <- audio_capacity_eq by done.
    change (Z.quot STREAM_BUFFER_TIME 1000) with 4.
    rewrite Z.quot_div_nonneg by lia. split; [apply Z.div_pos; lia|].
    apply Z.div_le_upper_bound; nia. }
  unfold InitialiseAudioBuffer. destruct (st_stream stream); [|done].
  fold in_samples in_rate. rewrite Hspf, audio_capacity_eq by done. fold capacity.
  rewrite to_INT32_small by lia.
  unfold InitialiseBuffer, CloneBuffer, calloc. simpl.
  destruct (0 <=? capacity) eqn:?; [|lia]. simpl.
  destruct (0 <=? capacity) eqn:?; [|lia]. simpl.
  match goal with |- context [InitialiseAudioBuffer_loop ?a ?t ?i ?p] =>
    destruct (InitialiseAudioBuffer_loop_returns a t i p Halloc) as [framepool' Hloop];
    pose proof (InitialiseAudioBuffer_loop_shape _ _ _ _ _ Hloop) as [[Hcap _] Hsize];
    rewrite Hloop end.
  simpl in *. eexists _, _. split; [done|]. simpl.
  split_and!; try done; [|lia].
  unfold slots; simpl. rewrite length_replicate. lia.
Qed.

Lemma InitialiseAudioBuffer_capacity_witness :
  ∃ stream' worker',
    InitialiseAudioBuffer true false (λ _, 1) 64 (audiostream example_audio_played)
      (set_dw_frame (decodeworker example_audio_played) (example_audio_frame 0))
    = Returned (stream', worker') ∧
    buf_capacity (st_buffer stream') = 172.
Proof.
  destruct (InitialiseAudioBuffer_capacity false (λ _, 1) 64 (audiostream example_audio_played)
              (set_dw_frame (decodeworker example_audio_played) (example_audio_frame 0)))
    as (stream' & worker' & Hinit & _ & Hcap & _).
  - vm_compute. congruence.
  - vm_compute. congruence.
  - vm_compute. congruence.
  - vm_compute. congruence.
  - intros i. lia.
  - exists stream', worker'. split; [exact Hinit|exact Hcap].
Defined.

(** ** The frame [MovieDecode_GetImage] hands out *)

Lemma seqZ_to_nat (m n : Z) : seqZ m (Z.of_nat (Z.to_nat n)) = seqZ m n.
Proof. unfold seqZ. by rewrite Nat2Z.id. Qed.

Lemma contents_frame_at {A} `{!Inhabited A} (buffer : moviebuffer A) :
  contents buffer = frame_at buffer <$> seqZ 0 (Z.of_nat (Z.to_nat (buf_size buffer))).
Proof.
  unfold contents, seqZ. rewrite Nat2Z.id. rewrite <- !list_fmap_compose.
  apply list_fmap_ext. intros n i _. simpl. unfold frame_at, GetBufferSlot.
  destruct (Z.ltb_spec (Z.of_nat i + 0) 0); [lia|done].
Qed.

Lemma FindVideoBufferIndexForPosition_loop_latest buffer pts turns :
  match last (filter (λ frame, vf_pts frame ≤ pts)
                (frame_at buffer <$> seqZ 0 (Z.of_nat turns))) with
  | Some frame =>
      0 ≤ FindVideoBufferIndexForPosition_loop buffer pts turns ∧
      frame_at buffer (FindVideoBufferIndexForPosition_loop buffer pts turns) = frame
  | None => FindVideoBufferIndexForPosition_loop buffer pts turns = -1
  end.
Proof.
  induction turns as [|turns IH]; [done|].
  rewrite seqZ_S, fmap_app, filter_app. cbn [FindVideoBufferIndexForPosition_loop].
  rewrite Z.add_0_l. simpl. rewrite filter_cons, filter_nil.
  destruct (decide (vf_pts (frame_at buffer (Z.of_nat turns)) ≤ pts)) as [Hle|Hgt].
  - rewrite last_snoc. destruct (_ <=? _) eqn:?; [|lia]. split; [lia|done].
  - rewrite app_nil_r. destruct (_ <=? _) eqn:?; [lia|]. exact IH.
Qed.

(** C5, as stated, fails: a null return does not mean that no newer frame
    is at the position, and a frame can be delivered more than once. With
    the frames of ids 0, 1 and 2 buffered, the position set to 80 ms, back to
    40 ms and to 80 ms again, [MovieDecode_GetImage] hands out frame 2, then
    the older frame 1, then frame 2 a second time. *)
Lemma GetImage_delivers_again :
  let m1 := MovieDecode_SetPosition example_video_movie 80 in
  let m2 := MovieDecode_SetPosition (MovieDecode_GetImage m1).1 40 in
  let m3 := MovieDecode_SetPosition (MovieDecode_GetImage m2).1 80 in
  (vf_id <$> contents (st_buffer (videostream example_video_movie)) = [0; 1; 2]) ∧
  (vf_image <$> contents (st_buffer (videostream example_video_movie))
   = [4096; 8192; 12288]) ∧
  (MovieDecode_GetImage m1).2 = Some 12288 ∧ lastvideoframeusedid m2 = 2 ∧
  (MovieDecode_GetImage m2).2 = Some 8192 ∧ lastvideoframeusedid m3 = 1 ∧
  (MovieDecode_GetImage m3).2 = Some 12288.
Proof. by vm_compute. Qed.

(** C5, amended. [MovieDecode_GetImage] selects the latest frame of the
    consumer video buffer whose pts is at most [MSToVideoPTS(position)]; if
    there is such a frame and its id differs from [lastvideoframeusedid], it
    stores that id and returns the payload of the frame; otherwise it returns
    null and leaves the movie as it is. So a null return occurs exactly when
    no buffered frame has its pts at or before the position or the id of the
    selected frame is [lastvideoframeusedid]. *)
Theorem GetImage_latest_frame (m : movie) :
  MovieDecode_GetImage m = GetImage_spec m ∧
  ((MovieDecode_GetImage m).2 = None ↔
   match latest_video_frame m with
   | Some frame => vf_id frame = lastvideoframeusedid m
   | None => True
   end).
Proof.
  assert (MovieDecode_GetImage m = GetImage_spec m) as Heq.
  { unfold MovieDecode_GetImage, GetImage_spec, latest_video_frame,
      FindVideoBufferIndexForPosition.
    rewrite contents_frame_at.
    pose proof (FindVideoBufferIndexForPosition_loop_latest (st_buffer (videostream m))
                  (MSToVideoPTS m (position m))
                  (Z.to_nat (buf_size (st_buffer (videostream m))))) as Hloop.
    destruct (last _) as [frame|].
    - destruct Hloop as [Hnonneg Hframe]. unfold frame_at, frame_of in Hframe.
      unfold GetBufferSlot in *. destruct (_ <? 0) eqn:?; [lia|]. rewrite Hframe.
      destruct (decide (vf_id frame ≠ lastvideoframeusedid m)) as [Hne|Heq].
      + destruct (Z.eqb_spec (lastvideoframeusedid m) (vf_id frame)); [congruence|done].
      + destruct (Z.eqb_spec (lastvideoframeusedid m) (vf_id frame)); [done|].
        by destruct (decide (vf_id frame = lastvideoframeusedid m)).
    - by rewrite Hloop. }
  split; [exact Heq|]. rewrite Heq. unfold GetImage_spec.
  destruct (latest_video_frame m) as [frame|]; [|done].
  destruct (decide (vf_id frame ≠ lastvideoframeusedid m)); simpl; split; try done.
  intros _. lia.
Qed.

(** Right after [MovieDecode_Play], [lastvideoframeusedid] is 0 and the
    worker gives the id 0 to the first frame it decodes:
    [MovieDecode_GetImage] keeps that frame back. *)
Lemma GetImage_first_frame :
  let m := PollVideoFrameQueue (example_decode_video 0 example_movie) in
  vf_id <$> contents (st_buffer (videostream m)) = [0] ∧
  vf_pts <$> contents (st_buffer (videostream m)) = [0] ∧
  MSToVideoPTS m (position m) = 0 ∧
  lastvideoframeusedid m = 0 ∧
  (MovieDecode_GetImage m).2 = None.
Proof. by vm_compute. Qed.

(** ** The RGBA to posted image conversion *)

Section ConvertRGBAToPatchProofs.
Variable CLUTINDEX : Z → Z → Z → Z.
Variable worker : moviedecodeworker.
Variable src : list Z.

Local Abbreviation width := (fr_width (dw_frame worker)).
Local Abbreviation height := (fr_height (dw_frame worker)).
Local Abbreviation lut := (dw_colorlut worker).

Lemma ConvertRGBAToPatch_offsets_eq bytespercolumn turns x dst :
  ConvertRGBAToPatch_offsets worker bytespercolumn turns x dst
  = dst ++ concat (UINT32_bytes
                     <$> ((λ x, width * 4 + x * bytespercolumn + (POST_BASE_BYTES - 1))
                            <$> seqZ x (Z.of_nat turns))).
Proof.
  revert x dst. induction turns as [|turns IH]; intros x dst.
  - by rewrite app_nil_r.
  - cbn [ConvertRGBAToPatch_offsets]. rewrite IH. unfold WRITEUINT32.
    rewrite (seqZ_cons x) by lia.
    replace (Z.pred (Z.of_nat (S turns))) with (Z.of_nat turns) by lia.
    replace (Z.succ x) with (x + 1) by lia.
    rewrite !fmap_cons, concat_cons, <- app_assoc. done.
Qed.

Lemma ConvertRGBAToPatch_pixels_eq x turns postend y srcptr dst :
  Z.of_nat turns = postend - y →
  srcptr = 4 * (y * width + x) →
  ConvertRGBAToPatch_pixels CLUTINDEX worker src turns postend y srcptr dst
  = (postend, 4 * (postend * width + x),
     dst ++ (posted_pixel CLUTINDEX lut src width x <$> seqZ y (postend - y))).
Proof.
  revert y srcptr dst. induction turns as [|turns IH]; intros y srcptr dst Hturns ->.
  - cbn [ConvertRGBAToPatch_pixels]. rewrite seqZ_nil by lia.
    rewrite app_nil_r. do 3 f_equal; lia.
  - cbn [ConvertRGBAToPatch_pixels]. destruct (Z.ltb_spec y postend); [|lia].
    rewrite (IH (y + 1)); [|lia|lia].
    rewrite (seqZ_cons y) by lia. rewrite fmap_cons.
    replace (Z.pred (postend - y)) with (postend - (y + 1)) by lia.
    replace (Z.succ y) with (y + 1) by lia.
    unfold WRITEUINT8. rewrite <- app_assoc. cbn [app]. do 3 f_equal.
    unfold posted_pixel. by rewrite Z.mod_mod by lia.
Qed.

Lemma posts_per_column_bounds k :
  0 ≤ height → 0 ≤ k →
  (k * POST_MAX_HEIGHT < height ↔ k < posts_per_column height).
Proof.
  intros ? ?. unfold posts_per_column, POST_MAX_HEIGHT.
  pose proof (Z.div_mod (height + 254 - 1) 254 ltac:(lia)).
  pose proof (Z.mod_pos_bound (height + 254 - 1) 254 ltac:(lia)). lia.
Qed.

Lemma ConvertRGBAToPatch_posts_eq x turns k y srcptr dst :
  0 ≤ height → 0 ≤ k → k ≤ posts_per_column height →
  y = Z.min (k * POST_MAX_HEIGHT) height →
  srcptr = 4 * (y * width + x) →
  posts_per_column height - k ≤ Z.of_nat turns →
  ConvertRGBAToPatch_posts CLUTINDEX worker src turns y srcptr dst
  = dst ++ concat (posted_post CLUTINDEX lut src width height x
                     <$> seqZ k (posts_per_column height - k)).
Proof.
  intros Hheight. revert k y srcptr dst.
  induction turns as [|turns IH]; intros k y srcptr dst Hk Hkmax -> -> Hturns.
  - cbn [ConvertRGBAToPatch_posts]. rewrite seqZ_nil by lia. by rewrite app_nil_r.
  - cbn [ConvertRGBAToPatch_posts].
    pose proof (posts_per_column_bounds k Hheight Hk) as Hbounds.
    destruct (Z.ltb_spec (Z.min (k * POST_MAX_HEIGHT) height) height) as [Hlt|Hge].
    + assert (Z.min (k * POST_MAX_HEIGHT) height = k * POST_MAX_HEIGHT) as -> by lia.
      assert (k < posts_per_column height) by (apply Hbounds; lia).
      set (postend := Z.min (k * POST_MAX_HEIGHT + POST_MAX_HEIGHT) height).
      rewrite (ConvertRGBAToPatch_pixels_eq x);
        [|unfold postend, POST_MAX_HEIGHT in *; lia|done].
      rewrite (IH (k + 1)); [|lia|lia|unfold postend, POST_MAX_HEIGHT; lia|done|lia].
      rewrite (seqZ_cons k) by lia. rewrite fmap_cons, concat_cons.
      replace (Z.pred (posts_per_column height - k))
        with (posts_per_column height - (k + 1)) by lia.
      replace (Z.succ k) with (k + 1) by lia.
      unfold WRITEUINT8, posted_post, post_length. rewrite <- !app_assoc. cbn [app].
      replace (postend - k * POST_MAX_HEIGHT)
        with (Z.min POST_MAX_HEIGHT (height - k * POST_MAX_HEIGHT)) by (unfold postend; lia).
      f_equal. f_equal; [|f_equal].
      * unfold POST_MAX_HEIGHT. destruct (Z.eqb_spec (k * 254) 0);
          destruct (decide (k = 0)); done || lia.
      * apply Z.mod_small. unfold POST_MAX_HEIGHT in *. lia.
    + assert (posts_per_column height ≤ k) by lia.
      rewrite seqZ_nil by lia. by rewrite app_nil_r.
Qed.

Lemma ConvertRGBAToPatch_columns_eq turns x dst :
  0 ≤ height →
  ConvertRGBAToPatch_columns CLUTINDEX worker src turns x dst
  = dst ++ concat (posted_column CLUTINDEX lut src width height <$> seqZ x (Z.of_nat turns)).
Proof.
  intros Hheight. revert x dst. induction turns as [|turns IH]; intros x dst.
  - by rewrite app_nil_r.
  - cbn [ConvertRGBAToPatch_columns].
    rewrite (ConvertRGBAToPatch_posts_eq x _ 0); [|done|lia| | | |].
    + rewrite IH. rewrite (seqZ_cons x) by lia.
      replace (Z.pred (Z.of_nat (S turns))) with (Z.of_nat turns) by lia.
      replace (Z.succ x) with (x + 1) by lia.
      rewrite fmap_cons, concat_cons. unfold WRITEUINT8, posted_column, posted_posts.
      rewrite Z.sub_0_r, <- !app_assoc. done.
    + unfold posts_per_column, POST_MAX_HEIGHT. apply Z.div_pos; lia.
    + lia.
    + lia.
    + unfold posts_per_column, POST_MAX_HEIGHT.
      pose proof (Z.div_mod (height + 254 - 1) 254 ltac:(lia)).
      pose proof (Z.mod_pos_bound (height + 254 - 1) 254 ltac:(lia)). lia.
Qed.
End ConvertRGBAToPatchProofs.

(** C1. For every RGBA image of [width] columns and [height] rows (the
    height of the decoder's context) and every colour table,
    [ConvertRGBAToPatch] writes the posted image of the spec: a header of
    [width] 4-byte offsets, the one of column [x] being
    [width * 4 + x * bytes_per_column + 3] with
    [bytes_per_column = height + ceil(height / 254) * 4 + 1]; then, column by
    column, the posts (top delta 0 for the first and 254 for the others,
    length, an unused byte, at most 254 palette indices, an unused byte) and
    the terminator [0xFF]. A column of at most 254 rows has exactly one post
    and a column of more than 254 and at most 508 rows exactly two. *)
Theorem ConvertRGBAToPatch_posted_image (CLUTINDEX : Z → Z → Z → Z)
    (worker : moviedecodeworker) (src : list Z) :
  let width := fr_width (dw_frame worker) in
  let height := fr_height (dw_frame worker) in
  let lut := dw_colorlut worker in
  cc_height (ws_codeccontext (dw_videostream worker)) = height → 0 ≤ height →
  GetBytesPerPatchColumn worker = bytes_per_column height ∧
  ConvertRGBAToPatch CLUTINDEX worker src = posted_image CLUTINDEX lut src width height ∧
  (∀ x k, 0 ≤ k → k < posts_per_column height →
     0 < post_length height k ∧ post_length height k ≤ 254 ∧
     Z.of_nat (length (posted_post CLUTINDEX lut src width height x k))
     = post_length height k + POST_BASE_BYTES) ∧
  (∀ x, 0 < height → height ≤ 254 →
     posted_posts CLUTINDEX lut src width height x
     = [posted_post CLUTINDEX lut src width height x 0]) ∧
  (∀ x, 254 < height → height ≤ 508 →
     posted_posts CLUTINDEX lut src width height x
     = [posted_post CLUTINDEX lut src width height x 0;
        posted_post CLUTINDEX lut src width height x 1]).
Proof.
  intros width height lut Hcodec Hheight.
  assert (GetBytesPerPatchColumn worker = bytes_per_column height) as Hbytes.
  { unfold GetBytesPerPatchColumn, bytes_per_column, posts_per_column. rewrite Hcodec.
    unfold POST_MAX_HEIGHT. by rewrite Z.quot_div_nonneg by lia. }
  split; [done|]. split; [|split; [|split]].
  - unfold ConvertRGBAToPatch, posted_image.
    rewrite ConvertRGBAToPatch_columns_eq, ConvertRGBAToPatch_offsets_eq by done.
    rewrite Hbytes, !seqZ_to_nat. done.
  - intros x k Hk Hkmax.
    apply posts_per_column_bounds in Hkmax; [|done|done].
    unfold posted_post, post_length, POST_MAX_HEIGHT, POST_BASE_BYTES in *.
    split; [lia|]. split; [lia|].
    cbn [length app]. rewrite length_app, length_fmap, length_seqZ. simpl. lia.
  - intros x ? ?. unfold posted_posts.
    replace (posts_per_column height) with 1; [done|].
    unfold posts_per_column, POST_MAX_HEIGHT. apply Z.div_unique with (height - 1); lia.
  - intros x ? ?. unfold posted_posts.
    replace (posts_per_column height) with 2; [done|].
    unfold posts_per_column, POST_MAX_HEIGHT.
    apply Z.div_unique with (height - 255); lia.
Qed.

Lemma ConvertRGBAToPatch_posted_image_witness :
  ConvertRGBAToPatch (λ r g b, r + g + b) example_patch_worker []
  = posted_image (λ r g b, r + g + b) (dw_colorlut example_patch_worker) [] 2 300 ∧
  posted_posts (λ r g b, r + g + b) (dw_colorlut example_patch_worker) [] 2 300 0
  = [posted_post (λ r g b, r + g + b) (dw_colorlut example_patch_worker) [] 2 300 0 0;
     posted_post (λ r g b, r + g + b) (dw_colorlut example_patch_worker) [] 2 300 0 1].
Proof.
  destruct (ConvertRGBAToPatch_posted_image (λ r g b, r + g + b) example_patch_worker []
              eq_refl ltac:(done)) as (_ & Himage & _ & _ & Htwo).
  split; [exact Himage|]. apply Htwo; done.
Defined.

(** The posted image of a frame of one column and two rows: the offset 7 of
    the column, then one post (top delta 0, length 2, unused, two palette
    indices, unused) and the terminator. *)
Example ConvertRGBAToPatch_small :
  ConvertRGBAToPatch (λ r g b, r + g + b) example_small_worker example_small_image
  = [7; 0; 0; 0; 0; 2; 0; 60; 150; 0; 255].
Proof. reflexivity. Qed.

(** ** The packets in the packet queue *)

Lemma frame_at_head {A} `{!Inhabited A} (buffer : moviebuffer A) x l :
  contents buffer = x :: l → frame_at buffer 0 = x.
Proof.
  intros Hc. assert (0 < buf_size buffer).
  { pose proof (length_contents buffer) as Hlen. rewrite Hc in Hlen. simpl in Hlen. lia. }
  apply (inj Some). rewrite <- (contents_lookup buffer 0) by lia. by rewrite Hc.
Qed.

Lemma frame_at_last {A} `{!Inhabited A} (buffer : moviebuffer A) x l :
  contents buffer = l ++ [x] → frame_at buffer (buf_size buffer - 1) = x.
Proof.
  intros Hc. pose proof (length_contents buffer) as Hlen.
  rewrite Hc, length_app in Hlen. simpl in Hlen.
  apply (inj Some). rewrite <- contents_lookup by lia. rewrite Hc.
  replace (Z.to_nat (buf_size buffer - 1)) with (length l + 0)%nat by lia.
  by rewrite lookup_app_r, Nat.add_comm, Nat.add_sub by lia.
Qed.

Lemma packet_expected_insert packets v a n x (queued : list packetptr) :
  Forall (packet_expected packets v a) queued →
  n ∉ packet_place <$> queued →
  Forall (packet_expected (<[n := x]> packets) v a) queued.
Proof.
  intros Hq Hn. induction Hq as [|p queued Hp _ IH]; [constructor|].
  rewrite fmap_cons in Hn. apply not_elem_of_cons in Hn as [Hne Hn].
  constructor; [|by apply IH].
  unfold packet_expected, packet_place in *.
  by rewrite list_lookup_total_insert_ne.
Qed.

Lemma FlushDecodeWorker_packets_ok queue pool packets v a pool' queue' :
  DequeueWholeBufferIntoBuffer pool queue = (pool', queue') →
  packets_ok_at queue pool packets v a → packets_ok_at queue' pool' packets v a.
Proof.
  intros Hflush (Hq & Hp & Hcap & Hsize & Hnodup & Hexpected).
  pose proof (DequeueWholeBufferIntoBuffer_shape _ _ _ _ Hflush) as ([? _] & [? _] & ?).
  apply DequeueWholeBufferIntoBuffer_contents in Hflush as (? & ? & Hc & ?);
    [|done|done|lia].
  split_and!; try done; try lia.
  - rewrite Hc, (contents_empty queue'), app_nil_r by lia. done.
  - rewrite (contents_empty queue') by lia. constructor.
Qed.

Lemma ReadPacket_packets_ok error read m m' more :
  0 < buf_size (dw_packetpool (decodeworker m)) →
  ReadPacket error read m = Returned (m', more) →
  packets_ok m → packets_ok m'.
Proof.
  intros Hsome Hread ((Hq & Hp & Hcap & Hsize & Hnodup & Hexpected) & Hv & Ha).
  unfold ReadPacket in Hread.
  set (worker := decodeworker m) in *.
  destruct (DequeueBuffer_contents (dw_packetpool worker) Hp Hsome) as (_ & Hpool & _).
  set (rest := contents (DequeueBuffer (dw_packetpool worker)).1) in *.
  change (frame_of (dw_packetpool worker) (PeekBuffer (dw_packetpool worker)))
    with (frame_at (dw_packetpool worker) 0) in Hread.
  set (p := frame_at (dw_packetpool worker) 0) in *.
  pose proof Hnodup as Hnodup0.
  rewrite Hpool, <- app_comm_cons, fmap_cons in Hnodup.
  apply NoDup_cons in Hnodup as [Hfresh Hnodup].
  rewrite fmap_app in Hfresh. apply not_elem_of_app in Hfresh as [Hfresh_pool Hfresh_queue].
  set (packets1 := <[Z.to_nat (address p) := _]> (dw_packets worker)) in *.
  assert (Forall (packet_expected packets1 (st_index (videostream m))
                    (st_index (audiostream m))) (contents (dw_packetqueue worker)))
    as Hexpected1 by (by apply packet_expected_insert).
  destruct (error =? AVERROR_EOF).
  { injection Hread as <- <-. split; [|done]. simpl.
    split_and!; done. }
  destruct (error <? 0); [done|].
  cbn [dw_packetqueue dw_packetpool dw_packets set_dw_packets] in Hread.
  destruct (_ || _) eqn:Hindex.
  - destruct (DequeueBufferIntoBuffer _ _) as [[packetqueue packetpool] slot] eqn:Hmove.
    injection Hread as <- <-.
    apply DequeueBufferIntoBuffer_contents in Hmove
      as (? & ? & Hc1 & Hc2 & _ & ? & ? & ? & ?); [|done|done|lia|done].
    fold p in Hc1, Hc2. rewrite Hpool in Hc2. injection Hc2 as Hc2.
    split; [|done]. simpl. split_and!; try done; try lia.
    + rewrite Hc1, <- Hc2, app_assoc, fmap_app. simpl.
      apply NoDup_app. split; [done|]. split; [|apply NoDup_singleton].
      intros n Hin Hn. apply list_elem_of_singleton in Hn as ->.
      rewrite fmap_app in Hin. apply elem_of_app in Hin as [?|?]; done.
    + rewrite Hc1. apply Forall_app. split; [done|]. constructor; [|constructor].
      unfold packet_expected. apply orb_true_iff in Hindex. simpl. lia.
  - injection Hread as <- <-. split; [|done]. simpl.
    split_and!; try done. by apply packet_expected_insert.
Qed.

Lemma ReadPacket_queued error read m m' more :
  0 < buf_size (dw_packetpool (decodeworker m)) →
  ReadPacket error read m = Returned (m', more) →
  packets_ok m →
  (contents (dw_packetqueue (decodeworker m')) = contents (dw_packetqueue (decodeworker m)) ∧
   contents (dw_packetpool (decodeworker m')) = contents (dw_packetpool (decodeworker m))) ∨
  (∃ p, contents (dw_packetpool (decodeworker m))
        = p :: contents (dw_packetpool (decodeworker m')) ∧
        contents (dw_packetqueue (decodeworker m'))
        = contents (dw_packetqueue (decodeworker m)) ++ [p] ∧
        packet_expected (dw_packets (decodeworker m')) (st_index (videostream m))
          (st_index (audiostream m)) p).
Proof.
  intros Hsome Hread ((Hq & Hp & Hcap & Hsize & Hnodup & Hexpected) & Hv & Ha).
  unfold ReadPacket in Hread.
  set (worker := decodeworker m) in *.
  change (frame_of (dw_packetpool worker) (PeekBuffer (dw_packetpool worker)))
    with (frame_at (dw_packetpool worker) 0) in Hread.
  set (p := frame_at (dw_packetpool worker) 0) in *.
  destruct (error =? AVERROR_EOF); [injection Hread as <- <-; by left|].
  destruct (error <? 0); [done|].
  cbn [dw_packetqueue dw_packetpool dw_packets set_dw_packets] in Hread.
  destruct (_ || _) eqn:Hindex; [|injection Hread as <- <-; by left].
  destruct (DequeueBufferIntoBuffer _ _) as [[packetqueue packetpool] slot] eqn:Hmove.
  injection Hread as <- <-.
  apply DequeueBufferIntoBuffer_contents in Hmove
    as (? & ? & Hc1 & Hc2 & _); [|done|done|lia|done].
  right. exists p. split; [done|]. split; [done|]. simpl.
  unfold packet_expected. apply orb_true_iff in Hindex. lia.
Qed.

Lemma SendPacket_result senderror m :
  packets_ok m →
  ∃ worker,
    packets_ok (set_decodeworker m worker) ∧
    SendPacket senderror (decodeworker m)
    = if (0 <? buf_size (dw_packetqueue (decodeworker m))) && (senderror <? 0)
      then I_Error "FFmpeg: cannot send packet to the decoder"
      else Returned worker.
Proof.
  intros Hok. pose proof Hok as ((Hq & Hp & Hcap & Hsize & Hnodup & Hexpected) & Hv & Ha).
  unfold SendPacket. set (worker := decodeworker m) in *.
  destruct (Z.eqb_spec (buf_size (dw_packetqueue worker)) 0) as [Hempty|Hsome].
  { exists worker. rewrite Hempty. simpl. split; [|done]. by destruct m. }
  assert (0 < buf_size (dw_packetqueue worker)) as Hpos
    by (destruct Hq as (? & ? & ? & ? & ?); lia).
  destruct (0 <? buf_size (dw_packetqueue worker)) eqn:?; [|lia]. cbn [andb].
  destruct (DequeueBufferIntoBuffer _ _) as [[packetpool packetqueue] slot] eqn:Hmove.
  apply DequeueBufferIntoBuffer_contents in Hmove
    as (? & ? & Hc1 & Hc2 & -> & ? & ? & ? & ?); [|done|done|lia|done].
  set (p := frame_at (dw_packetqueue worker) 0) in *.
  cbv zeta.
  cbn [dw_packets dw_videostream dw_audiostream set_dw_packetqueue set_dw_packetpool].
  change (frame_of packetpool (GetBufferSlot packetpool (buf_size packetpool - 1)))
    with (frame_at packetpool (buf_size packetpool - 1)).
  rewrite (frame_at_last packetpool p (contents (dw_packetpool worker))) by done.
  rewrite Hc2 in Hexpected, Hnodup.
  apply Forall_cons in Hexpected as [Hp0 Hexpected].
  rewrite fmap_app, fmap_cons in Hnodup.
  apply NoDup_app in Hnodup as (Hnodup_pool & Hdisjoint & Hnodup_queue).
  apply NoDup_cons in Hnodup_queue as [Hfresh Hnodup_queue].
  eexists. split; [|].
  2:{ unfold packet_expected in Hp0. rewrite <- Hv, <- Ha in Hp0.
      destruct (_ || _) eqn:Hindex; [done|].
      apply orb_false_iff in Hindex. lia. }
  split; [|done]. simpl. split_and!; try done; try lia.
  - rewrite Hc1, fmap_app, fmap_app. simpl. rewrite <- app_assoc. simpl.
    apply NoDup_app. split; [done|]. split.
    + intros n Hin. apply Hdisjoint in Hin. done.
    + by apply NoDup_cons.
  - by apply packet_expected_insert.
Qed.

Lemma packets_kept_ok m m' : packets_kept m m' → packets_ok m → packets_ok m'.
Proof.
  intros (Hpackets & Hv & Ha & Hwv & Hwa & Hbuffers) (Hok & Hiv & Hia).
  unfold packets_ok. rewrite Hpackets, Hv, Ha, Hwv, Hwa. split; [|done].
  destruct Hbuffers as [[= -> ->]|Hflush]; [done|].
  by eapply FlushDecodeWorker_packets_ok.
Qed.

Lemma movie_moved_packets_kept m m' :
  movie_moved m m' →
  dw_packets (decodeworker m') = dw_packets (decodeworker m) →
  dw_packetpool (decodeworker m') = dw_packetpool (decodeworker m) →
  dw_packetqueue (decodeworker m') = dw_packetqueue (decodeworker m) →
  packets_kept m m'.
Proof.
  intros [(_ & _ & _ & _ & ? & ?) (_ & _ & _ & _ & ? & ?)] ? Hpool Hqueue.
  unfold packets_kept. rewrite Hpool, Hqueue. split_and!; try done. by left.
Qed.

Lemma InitialiseAudioBuffer_packets mem planar samples_alloc sizeof stream worker
    stream' worker' :
  InitialiseAudioBuffer mem planar samples_alloc sizeof stream worker
    = Returned (stream', worker') →
  st_index stream' = st_index stream ∧
  ws_index (dw_audiostream worker') = ws_index (dw_audiostream worker) ∧
  dw_videostream worker' = dw_videostream worker ∧
  dw_packets worker' = dw_packets worker ∧
  dw_packetpool worker' = dw_packetpool worker ∧
  dw_packetqueue worker' = dw_packetqueue worker.
Proof.
  unfold InitialiseAudioBuffer. destruct (st_stream stream); [|by intros [= <- <-]].
  intros Hinit.
  apply outcome_bind_Returned in Hinit as (buffer & _ & Hinit). cbn zeta in Hinit.
  apply outcome_bind_Returned in Hinit as (framequeue & _ & Hinit).
  apply outcome_bind_Returned in Hinit as (framepool & _ & Hinit).
  apply outcome_bind_Returned in Hinit as (framepool' & _ & Hinit).
  by injection Hinit as <- <-.
Qed.

Lemma ParseAudioFrame_packets_kept mem planar samples_alloc sizeof numoutputsamples converted
    m m' :
  ParseAudioFrame mem planar samples_alloc sizeof numoutputsamples converted m = Returned m' →
  packets_kept m m'.
Proof.
  unfold ParseAudioFrame. intros Hparse.
  apply outcome_bind_Returned in Hparse as ([stream worker] & Hinit & Hparse).
  assert (st_index stream = st_index (audiostream m) ∧
          ws_index (dw_audiostream worker) = ws_index (dw_audiostream (decodeworker m)) ∧
          dw_videostream worker = dw_videostream (decodeworker m) ∧
          dw_packets worker = dw_packets (decodeworker m) ∧
          dw_packetpool worker = dw_packetpool (decodeworker m) ∧
          dw_packetqueue worker = dw_packetqueue (decodeworker m))
    as (? & ? & Hv & ? & Hpool & Hqueue).
  { destruct (buf_data _).
    - by injection Hinit as <- <-.
    - by eapply InitialiseAudioBuffer_packets. }
  destruct (numoutputsamples <? 0); [done|].
  destruct (DequeueBufferIntoBuffer _ _) as [[framequeue framepool] slot].
  injection Hparse as <-. unfold packets_kept. simpl.
  rewrite Hv, Hpool, Hqueue. split_and!; try done. by left.
Qed.

Lemma frame_step_packets_kept m m' : frame_step m m' → packets_kept m m'.
Proof.
  intros Hstep.
  destruct Hstep as
    [m frame
    |m frame mem planar samples_alloc sizeof numoutputsamples converted m' Hparse
    |m vsend vreceive asend areceive worker Hflush
    |m|m|m seekerror m' Hseek|m|m|m|m ms].
  - apply movie_moved_packets_kept; [apply ParseVideoFrame_moved|..];
      unfold ParseVideoFrame; by destruct (DequeueBufferIntoBuffer _ _) as [[? ?] ?].
  - by apply ParseAudioFrame_packets_kept in Hparse.
  - apply movie_moved_packets_kept; [by eapply FlushDecoding_moved|..];
      unfold FlushDecoding in Hflush;
      apply outcome_bind_Returned in Hflush as (vs & _ & Hflush);
      apply outcome_bind_Returned in Hflush as (aus & _ & Hflush);
      by injection Hflush as <-.
  - apply movie_moved_packets_kept; [apply PollVideoFrameQueue_moved|..];
      unfold PollVideoFrameQueue; case_match; try done;
      by destruct (DequeueWholeBufferIntoBuffer _ _).
  - apply movie_moved_packets_kept; [apply PollAudioFrameQueue_moved|..];
      unfold PollAudioFrameQueue; case_match; try done;
      by destruct (PollAudioFrameQueue_loop _ _ _ _).
  - pose proof (UpdateSeeking_moved _ _ _ Hseek)
      as [(_ & _ & _ & _ & ? & ?) (_ & _ & _ & _ & ? & ?)].
    unfold packets_kept. split_and!; try done.
    + unfold UpdateSeeking, Seek, ClearAllFrames, FlushDecodeWorker in Hseek.
      repeat (case_match; simplify_eq/=); done.
    + unfold UpdateSeeking, Seek, ClearAllFrames, FlushDecodeWorker in Hseek.
      repeat (case_match; simplify_eq/=); (by left) || (by right).
  - apply movie_moved_packets_kept; [apply ClearOldVideoFrames_moved|..];
      unfold ClearOldVideoFrames; by destruct (ClearOldVideoFrames_loop _ _ _ _).
  - apply movie_moved_packets_kept; [apply ClearOldAudioFrames_moved|..];
      unfold ClearOldAudioFrames; by destruct (ClearOldAudioFrames_loop _ _ _ _ _).
  - apply movie_moved_packets_kept; [apply ClearAllFrames_moved|..];
      unfold ClearAllFrames;
      destruct (ClearAllFrames_loop _ (videostream m) _);
      by destruct (ClearAllFrames_loop _ (audiostream m) _).
  - apply movie_moved_packets_kept; [apply SetPosition_moved|..];
      unfold MovieDecode_SetPosition; by case_match.
Qed.

Lemma InitialiseImages_packets alloc worker worker' :
  InitialiseImages alloc worker = Returned worker' →
  dw_packets worker' = dw_packets worker ∧
  ws_index (dw_videostream worker') = ws_index (dw_videostream worker) ∧
  dw_audiostream worker' = dw_audiostream worker.
Proof.
  unfold InitialiseImages. intros Himages.
  apply outcome_bind_Returned in Himages as (framepool & _ & Himages). simpl in Himages.
  destruct (dw_usepatches worker); [destruct (alloc _); [|done]|];
    by injection Himages as <-.
Qed.

Lemma InitialisePacketQueue_packets mem sizeof worker worker' :
  InitialisePacketQueue mem sizeof worker = Returned worker' →
  dw_packets worker = [] →
  dw_packetqueue worker' = Moviebuffer 32 sizeof 0 0 (Some (replicate 32 inhabitant)) ∧
  dw_packetpool worker' = Moviebuffer 32 sizeof 0 32 (Some (Packetptr <$> seqZ 0 32)) ∧
  dw_videostream worker' = dw_videostream worker ∧
  dw_audiostream worker' = dw_audiostream worker.
Proof.
  intros Hinit Hpackets. destruct mem; [|done].
  destruct worker. simpl in Hpackets. subst.
  vm_compute in Hinit. by injection Hinit as <-.
Qed.

Lemma initial_packets_ok sizeof packets v a :
  packets_ok_at (Moviebuffer 32 sizeof 0 0 (Some (replicate 32 inhabitant)))
    (Moviebuffer 32 sizeof 0 32 (Some (Packetptr <$> seqZ 0 32))) packets v a.
Proof.
  split_and!.
  - by repeat split.
  - by repeat split.
  - done.
  - done.
  - apply (bool_decide_unpack _). by vm_compute.
  - constructor.
Qed.

Lemma MovieDecode_Play_packets_ok lump info host up m :
  MovieDecode_Play lump info host up = Returned m → packets_ok m.
Proof.
  unfold MovieDecode_Play. intros Hplay.
  apply outcome_bind_Returned in Hplay as (m1 & Hlump & Hplay).
  destruct lump as [bytes|]; [|done]. injection Hlump as <-.
  apply outcome_bind_Returned in Hplay as (m2 & Hdemux & Hplay).
  unfold InitialiseDemuxing in Hdemux. destruct (mi_videoindex info <? 0); [done|].
  injection Hdemux as <-.
  apply outcome_bind_Returned in Hplay as (m3 & Hvideo & Hplay).
  unfold InitialiseVideoBuffer in Hvideo.
  apply outcome_bind_Returned in Hvideo as (buffer & _ & Hvideo). injection Hvideo as <-.
  unfold InitialiseDecodeWorker in Hplay. cbn in Hplay.
  apply outcome_bind_Returned in Hplay as (framequeue & _ & Hplay).
  apply outcome_bind_Returned in Hplay as (framepool & _ & Hplay).
  apply outcome_bind_Returned in Hplay as (worker1 & Himages & Hplay).
  apply outcome_bind_Returned in Hplay as (worker2 & Hpackets & Hplay).
  injection Hplay as <-.
  apply InitialiseImages_packets in Himages as (Hp1 & Hv1 & Ha1). simpl in Hp1, Hv1, Ha1.
  apply InitialisePacketQueue_packets in Hpackets as (Hq2 & Hp2 & Hv2 & Ha2); [|done].
  unfold packets_ok. simpl. rewrite Hq2, Hp2, Hv2, Ha2, Hv1, Ha1. simpl.
  split; [apply initial_packets_ok|done].
Qed.

Lemma movie_step_packets_ok m m' : movie_step m m' → packets_ok m → packets_ok m'.
Proof.
  intros [m1 m2 Hframes|m1 error read m2 more Hsome Hread|m1 senderror worker Hsend] Hok.
  - eapply packets_kept_ok; [by apply frame_step_packets_kept|done].
  - by eapply ReadPacket_packets_ok.
  - destruct (SendPacket_result senderror m1 Hok) as (worker' & Hok' & Hresult).
    rewrite Hsend in Hresult. destruct (_ && _); [done|]. by injection Hresult as ->.
Qed.

(** C10. In every state a movie reaches after [MovieDecode_Play], by the
    steps of [Update] and of the worker, every packet in the packet queue has
    the stream index of the video stream or of the audio stream: [ReadPacket]
    moves the packet it has read from the pool to the queue only when the
    packet has one of these indices, and otherwise leaves the packet where it
    is in the pool. So [SendPacket] never aborts with "unexpected packet": it
    returns, unless [avcodec_send_packet] fails on a queued packet. *)
Theorem SendPacket_expected_packet lump info host up (m0 m : movie) (senderror : Z) :
  MovieDecode_Play lump info host up = Returned m0 →
  rtc movie_step m0 m →
  Forall (packet_expected (dw_packets (decodeworker m)) (st_index (videostream m))
            (st_index (audiostream m)))
    (contents (dw_packetqueue (decodeworker m))) ∧
  (∀ error read m' more,
     0 < buf_size (dw_packetpool (decodeworker m)) →
     ReadPacket error read m = Returned (m', more) →
     (contents (dw_packetqueue (decodeworker m')) = contents (dw_packetqueue (decodeworker m)) ∧
      contents (dw_packetpool (decodeworker m')) = contents (dw_packetpool (decodeworker m))) ∨
     (∃ p, contents (dw_packetpool (decodeworker m))
           = p :: contents (dw_packetpool (decodeworker m')) ∧
           contents (dw_packetqueue (decodeworker m'))
           = contents (dw_packetqueue (decodeworker m)) ++ [p] ∧
           packet_expected (dw_packets (decodeworker m')) (st_index (videostream m))
             (st_index (audiostream m)) p)) ∧
  SendPacket senderror (decodeworker m) ≠ I_Error "FFmpeg: unexpected packet" ∧
  (0 ≤ senderror → ∃ worker, SendPacket senderror (decodeworker m) = Returned worker).
Proof.
  intros Hplay Hsteps. apply MovieDecode_Play_packets_ok in Hplay.
  assert (packets_ok m) as Hok.
  { induction Hsteps as [m|m1 m2 m3 Hstep _ IH]; [done|].
    apply IH. by eapply movie_step_packets_ok. }
  destruct (SendPacket_result senderror m Hok) as (worker & _ & Hresult).
  split; [by destruct Hok as ((_ & _ & _ & _ & _ & ?) & _)|].
  split; [intros error read m' more ? ?; by eapply ReadPacket_queued|]. split.
  - rewrite Hresult. by destruct (_ && _).
  - intros ?. exists worker. rewrite Hresult.
    destruct (senderror <? 0) eqn:?; [lia|]. by rewrite andb_false_r.
Qed.

Lemma SendPacket_expected_packet_witness :
  SendPacket 0 (decodeworker example_packet_movie) ≠ I_Error "FFmpeg: unexpected packet" ∧
  ∃ worker, SendPacket 0 (decodeworker example_packet_movie) = Returned worker.
Proof.
  destruct (SendPacket_expected_packet (Some []) example_info example_host false
              example_movie example_packet_movie 0) as (_ & _ & Hexpected & Hreturns).
  - vm_compute. reflexivity.
  - eapply rtc_l; [|apply rtc_refl].
    eapply (step_ReadPacket example_movie 0 {| stream_index := 0 |} _ true).
    + vm_compute. reflexivity.
    + vm_compute. reflexivity.
  - split; [exact Hexpected|]. apply Hreturns. done.
Defined.

(** ** Copying audio samples *)

Lemma CopyAudioSamples_loop_frames m samplesize turns i size membytes :
  0 ≤ i → i + Z.of_nat turns ≤ buf_size (st_buffer (audiostream m)) →
  MovieDecode_CopyAudioSamples_loop m samplesize turns i size membytes
  = copy_frames samplesize (audioposition m)
      (take turns (drop (Z.to_nat i) (contents (st_buffer (audiostream m))))) size membytes.
Proof.
  revert i size membytes. induction turns as [|turns IH]; intros i size membytes Hi Hturns.
  - done.
  - cbn [MovieDecode_CopyAudioSamples_loop].
    rewrite (drop_S _ (frame_at (st_buffer (audiostream m)) i))
      by (apply contents_lookup; lia).
    cbn [take copy_frames]. rewrite IH by lia.
    by replace (Z.to_nat (i + 1)) with (S (Z.to_nat i)) by lia.
Qed.

Lemma FindAudioBufferIndexForPosition_loop_first buffer sample turns i :
  0 ≤ i →
  let r := FindAudioBufferIndexForPosition_loop buffer sample turns i in
  (r = -1 ∧
   ∀ k, i ≤ k → k < i + Z.of_nat turns → ¬ frame_contains sample (frame_at buffer k)) ∨
  (i ≤ r ∧ r < i + Z.of_nat turns ∧ frame_contains sample (frame_at buffer r) ∧
   ∀ k, i ≤ k → k < r → ¬ frame_contains sample (frame_at buffer k)).
Proof.
  revert i. induction turns as [|turns IH]; intros i Hi; cbn zeta.
  - left. split; [done|]. intros; lia.
  - cbn [FindAudioBufferIndexForPosition_loop].
    destruct (_ && _) eqn:Hin.
    + right. apply andb_true_iff in Hin as [? ?].
      split; [lia|]. split; [lia|]. split; [unfold frame_contains; lia|]. intros; lia.
    + assert (¬ frame_contains sample (frame_at buffer i)) as Hout.
      { unfold frame_contains. apply andb_false_iff in Hin. lia. }
      destruct (IH (i + 1) ltac:(lia)) as [[-> Hnone]|(? & ? & ? & Hfirst)].
      * left. split; [done|]. intros k ? ?.
        destruct (decide (k = i)) as [->|]; [done|]. apply Hnone; lia.
      * right. split; [lia|]. split; [lia|]. split; [done|]. intros k ? ?.
        destruct (decide (k = i)) as [->|]; [done|]. apply Hfirst; lia.
Qed.

Lemma FindAudioBufferIndexForPosition_found m sample :
  FindAudioBufferIndexForPosition m sample ≠ -1 →
  let r := FindAudioBufferIndexForPosition m sample in
  0 ≤ r ∧ r < buf_size (st_buffer (audiostream m)) ∧
  frame_contains sample (frame_at (st_buffer (audiostream m)) r) ∧
  list_find (frame_contains sample) (contents (st_buffer (audiostream m)))
  = Some (Z.to_nat r, frame_at (st_buffer (audiostream m)) r).
Proof.
  intros Hfound r. unfold FindAudioBufferIndexForPosition in *. subst r.
  set (buffer := st_buffer (audiostream m)) in *.
  destruct (FindAudioBufferIndexForPosition_loop_first buffer sample
              (Z.to_nat (buf_size buffer)) 0 ltac:(done))
    as [[? _]|(? & ? & ? & Hfirst)]; [done|].
  split; [done|]. split; [lia|]. split; [done|].
  apply list_find_Some. split; [apply contents_lookup; lia|]. split; [done|].
  intros j y Hj ?.
  assert (Z.of_nat j < buf_size buffer).
  { apply lookup_lt_Some in Hj. rewrite length_contents in Hj. lia. }
  rewrite <- (Nat2Z.id j), contents_lookup in Hj by lia. injection Hj as <-.
  apply Hfirst; lia.
Qed.

Lemma length_read_bytes l pos n : length (read_bytes l pos n) = Z.to_nat n.
Proof. unfold read_bytes. by rewrite length_fmap, length_seqZ. Qed.

Lemma read_bytes_none l pos : read_bytes l pos 0 = [].
Proof. done. Qed.

Lemma copy_forward_done samplesize audioposition frames remaining :
  remaining ≤ 0 → copy_forward samplesize audioposition frames remaining = [].
Proof. intros ?. destruct frames; [done|]. simpl. by destruct (Z.leb_spec remaining 0); [|lia]. Qed.

Lemma gapless_last_ge frames first final :
  gapless frames → Forall (λ frame, 0 ≤ af_numsamples frame) frames →
  head frames = Some first → last frames = Some final →
  af_firstsampleposition first ≤ af_firstsampleposition final.
Proof.
  revert first. induction frames as [|f0 frames IH]; intros first Hgap Hn Hhead Hlast; [done|].
  injection Hhead as ->. destruct frames as [|f1 frames].
  - injection Hlast as ->. lia.
  - destruct Hgap as [Hgap Hrest]. apply Forall_cons in Hn as [? Hn].
    specialize (IH f1 Hrest Hn eq_refl Hlast).
    unfold GetAudioFrameEndSample in Hgap. lia.
Qed.

Lemma gapless_drop frames n : gapless frames → gapless (drop n frames).
Proof.
  revert frames. induction n as [|n IH]; intros frames Hgap; [done|].
  destruct frames as [|f frames]; [done|]. simpl. apply IH. by eapply gapless_tail.
Qed.

Lemma gapless_take frames n : gapless frames → gapless (take n frames).
Proof.
  revert frames. induction n as [|n IH]; intros frames Hgap; [done|].
  destruct frames as [|f0 frames]; [done|]. simpl.
  destruct n as [|n]; [by destruct frames|].
  destruct frames as [|f1 frames]; [done|].
  destruct Hgap as [? Hrest]. split; [done|]. by apply (IH (f1 :: frames)).
Qed.

Section CopyCover.
Variables samplesize audioposition target tail : Z.
Hypothesis samplesize_pos : 0 < samplesize.
Hypothesis samplesize_int : samplesize < 2 ^ 31.
Hypothesis tail_bytes : 0 ≤ tail ∧ tail < samplesize.

(** The frames from the one that holds the audio position to the one that
    holds the end of the request give the whole request. [target] is the
    sample position of the end and [tail] the bytes beyond whole samples. *)
Lemma copy_frames_cover frames more remaining membytes :
  frames ≠ [] → gapless frames →
  Forall (λ frame, 0 ≤ af_numsamples frame ∧ af_numsamples frame < 2 ^ 31) frames →
  (∀ first, head frames = Some first →
     let offset := Z.max (audioposition - af_firstsampleposition first) 0 in
     offset ≤ af_numsamples first ∧
     af_firstsampleposition first + offset ≤ target ∧
     remaining = (target - (af_firstsampleposition first + offset)) * samplesize + tail) →
  (∀ final, last frames = Some final → frame_contains target final) →
  remaining < 2 ^ 31 →
  copy_frames samplesize audioposition frames remaining membytes
  = (membytes ++ copy_forward samplesize audioposition (frames ++ more) remaining, 0) ∧
  Z.of_nat (length (copy_forward samplesize audioposition (frames ++ more) remaining))
  = remaining.
Proof.
  revert remaining membytes.
  induction frames as [|f0 frames' IH]; intros remaining membytes Hne Hgap Hn Hfirst Hlast Hint;
    [done|].
  apply Forall_cons in Hn as [[Hn0 Hn0'] Hn].
  destruct (Hfirst f0 eq_refl) as (Hoffset & Htarget & Hremaining).
  set (offset := Z.max (audioposition - af_firstsampleposition f0) 0) in *.
  assert (0 ≤ offset) by (unfold offset; lia).
  set (avail := (af_numsamples f0 - offset) * samplesize).
  assert (0 ≤ avail) by (unfold avail; nia).
  assert (avail < 2 ^ 64).
  { unfold avail. assert (af_numsamples f0 - offset < 2 ^ 31) by lia.
    change (2 ^ 64) with (2 ^ 31 * 2 ^ 33). nia. }
  assert (0 ≤ remaining) by nia.
  cbn [copy_frames]. fold offset.
  rewrite (to_INT32_small offset) by lia. fold avail.
  rewrite (to_size_t_small avail) by lia.
  rewrite (to_INT32_small (Z.min remaining avail)) by lia.
  rewrite (to_size_t_small (Z.min remaining avail)) by lia.
  rewrite (to_size_t_small (remaining - Z.min remaining avail)) by lia.
  rewrite <- app_comm_cons. cbn [copy_forward]. fold offset avail.
  destruct frames' as [|f1 frames''].
  - (* the last frame: it holds the end of the request *)
    destruct (Hlast f0 eq_refl) as [? Hend]. unfold GetAudioFrameEndSample in Hend.
    assert (remaining < avail).
    { unfold avail.
      assert ((target - (af_firstsampleposition f0 + offset) + 1) * samplesize
              ≤ (af_numsamples f0 - offset) * samplesize)
        by (apply Z.mul_le_mono_nonneg_r; lia).
      lia. }
    rewrite Z.min_l by lia. rewrite Z.sub_diag. cbn [copy_frames].
    destruct (Z.leb_spec remaining 0).
    + assert (remaining = 0) as -> by lia. split; [|done].
      by rewrite read_bytes_none.
    + rewrite copy_forward_done, app_nil_r by lia. split; [done|].
      rewrite length_read_bytes. lia.
  - (* another frame follows: this one is copied to its end *)
    destruct Hgap as [Hgap Hrest]. unfold GetAudioFrameEndSample in Hgap.
    assert (af_firstsampleposition f1 ≤ target).
    { destruct (last (f1 :: frames'')) as [final|] eqn:Hfinal.
      - pose proof (gapless_last_ge (f1 :: frames'') f1 final Hrest
                      ltac:(eapply Forall_impl; [exact Hn|]; simpl; intros; lia)
                      eq_refl Hfinal).
        destruct (Hlast final) as [? _]; [by rewrite last_cons_cons|]. lia.
      - by apply last_None in Hfinal. }
    assert (avail ≤ remaining).
    { unfold avail.
      assert ((af_numsamples f0 - offset) * samplesize
              ≤ (target - (af_firstsampleposition f0 + offset)) * samplesize)
        by (apply Z.mul_le_mono_nonneg_r; lia).
      lia. }
    rewrite Z.min_r by lia.
    destruct (IH (remaining - avail)
                (membytes ++ read_bytes (af_samples f0) (offset * samplesize) avail))
      as [Hcopy Hlength].
    + done.
    + done.
    + done.
    + intros first [= <-]. cbn zeta.
      assert (Z.max (audioposition - af_firstsampleposition f1) 0 = 0) as ->
        by (unfold offset in *; lia).
      apply Forall_cons in Hn as [[? ?] _].
      split; [lia|]. split; [lia|]. unfold avail. lia.
    + intros final Hfinal. apply Hlast. by rewrite last_cons_cons.
    + lia.
    + rewrite Hcopy. destruct (Z.leb_spec remaining 0).
      * assert (remaining = 0) as Hzero by lia. assert (avail = 0) as Havail by lia.
        rewrite Hzero, Havail in *.
        rewrite read_bytes_none, copy_forward_done, !app_nil_r by lia. done.
      * rewrite <- app_assoc. split; [done|].
        rewrite length_app, length_read_bytes, Nat2Z.inj_add, Hlength. lia.
Qed.
End CopyCover.

Lemma last_take_drop {A} (l : list A) (i j n : nat) (x : A) :
  l !! j = Some x → (i ≤ j)%nat → n = (j - i + 1)%nat →
  last (take n (drop i l)) = Some x.
Proof.
  intros Hj Hij ->. pose proof (lookup_lt_Some _ _ _ Hj).
  rewrite last_lookup, length_take, length_drop.
  rewrite lookup_take_lt, lookup_drop by lia.
  by replace (i + Init.Nat.pred ((j - i + 1) `min` (length l - i)))%nat with j by lia.
Qed.

Lemma gapless_next frame frames j later :
  gapless (frame :: frames) → Forall (λ frame, 0 ≤ af_numsamples frame) frames →
  frames !! j = Some later →
  GetAudioFrameEndSample frame ≤ af_firstsampleposition later.
Proof.
  revert frame frames. induction j as [|j IH]; intros frame frames Hgap Hn Hj.
  - destruct frames as [|f1 frames]; [done|]. injection Hj as ->. destruct Hgap as [-> _]. lia.
  - destruct frames as [|f1 frames]; [done|]. simpl in Hj.
    destruct Hgap as [Hgap Hrest]. apply Forall_cons in Hn as [? Hn].
    specialize (IH f1 frames Hrest Hn Hj). unfold GetAudioFrameEndSample in *. lia.
Qed.

Lemma gapless_later frames i j earlier later :
  gapless frames → Forall (λ frame, 0 ≤ af_numsamples frame) frames →
  frames !! i = Some earlier → frames !! j = Some later → (i < j)%nat →
  GetAudioFrameEndSample earlier ≤ af_firstsampleposition later.
Proof.
  intros Hgap Hn Hi Hj Hlt.
  pose proof (drop_S _ _ _ Hi) as Hdrop.
  apply (gapless_next earlier (drop (S i) frames) (j - S i)).
  - rewrite <- Hdrop. by apply gapless_drop.
  - by apply Forall_drop.
  - rewrite lookup_drop. by replace (S i + (j - S i))%nat with j by lia.
Qed.

(** C4, as stated, fails: when the buffer ends before the end of the
    request, [MovieDecode_CopyAudioSamples] copies nothing at all, where the
    claim has it copy until the buffer is exhausted. Here the buffer holds
    the samples 0 to 7 (16 bytes) and the audio position is 0: a request of
    20 bytes and even a request of the 16 bytes that are there copy
    nothing. *)
Lemma CopyAudioSamples_underrun :
  positions (contents (st_buffer (audiostream example_copy_movie))) = [0; 4] ∧
  audioposition example_copy_movie = 0 ∧
  (MovieDecode_CopyAudioSamples false example_copy_movie 20).2 = [] ∧
  (CopyAudioSamples_spec false example_copy_movie 20).2
  = [1; 2; 3; 4; 5; 6; 7; 8; 9; 10; 11; 12; 13; 14; 15; 16] ∧
  (MovieDecode_CopyAudioSamples false example_copy_movie 16).2 = [] ∧
  (CopyAudioSamples_spec false example_copy_movie 16).2
  = [1; 2; 3; 4; 5; 6; 7; 8; 9; 10; 11; 12; 13; 14; 15; 16].
Proof. by vm_compute. Qed.

(** C4, amended. With the audio position set, [MovieDecode_CopyAudioSamples]
    takes the size divided by the sample size (2 bytes, times the channel
    count for packed output) for the requested sample count and advances the
    audio position by it, whatever it copies. It looks for the buffered frame
    that holds the audio position and for the one that holds the audio
    position plus the requested count. When one of them is missing it copies
    nothing. When both are there it copies forward from the first of them,
    [min(remaining, (numsamples - offset) * samplesize)] bytes of each frame,
    as the spec describes, and that is the whole request. With the audio
    position unset it does nothing. *)
Theorem CopyAudioSamples_copies (planar : bool) (m : movie) (size : Z) :
  let samplesize :=
    if planar then 2 else 2 * cc_channels (ws_codeccontext (dw_audiostream (decodeworker m))) in
  let numsamples := size / samplesize in
  let frames := contents (st_buffer (audiostream m)) in
  let startbufferindex := FindAudioBufferIndexForPosition m (audioposition m) in
  let endbufferindex := FindAudioBufferIndexForPosition m (audioposition m + numsamples) in
  0 < samplesize → samplesize < 2 ^ 31 → 0 ≤ size → size < 2 ^ 31 →
  gapless frames →
  Forall (λ frame, 0 ≤ af_numsamples frame ∧ af_numsamples frame < 2 ^ 31) frames →
  (audioposition m = -1 → MovieDecode_CopyAudioSamples planar m size = (m, [])) ∧
  (audioposition m ≠ -1 →
   (MovieDecode_CopyAudioSamples planar m size).1
   = set_audioposition m (audioposition m + numsamples) ∧
   (startbufferindex = -1 ∨ endbufferindex = -1 →
    (MovieDecode_CopyAudioSamples planar m size).2 = []) ∧
   (startbufferindex ≠ -1 → endbufferindex ≠ -1 →
    MovieDecode_CopyAudioSamples planar m size = CopyAudioSamples_spec planar m size ∧
    Z.of_nat (length (MovieDecode_CopyAudioSamples planar m size).2) = size)).
Proof.
  intros samplesize numsamples frames startbufferindex endbufferindex
    Hss Hss' Hsize Hsize' Hgap Hn.
  assert (Z.quot size (to_size_t samplesize) = numsamples) as Hquot.
  { rewrite to_size_t_small by lia. by apply Z.quot_div_nonneg. }
  assert (0 ≤ numsamples) by (apply Z.div_pos; lia).
  split.
  { intros Hunset. unfold MovieDecode_CopyAudioSamples. by rewrite Hunset. }
  intros Hset. unfold MovieDecode_CopyAudioSamples.
  destruct (Z.eqb_spec (audioposition m) (-1)) as [?|_]; [done|].
  fold samplesize. rewrite Hquot. fold startbufferindex endbufferindex.
  split; [done|]. split.
  { intros [-> | ->]; simpl; [done|]. by rewrite andb_false_r. }
  intros Hstart Hend. cbn [fst snd].
  destruct (Z.eqb_spec startbufferindex (-1)) as [?|_]; [done|].
  destruct (Z.eqb_spec endbufferindex (-1)) as [?|_]; [done|]. cbn [negb andb].
  destruct (FindAudioBufferIndexForPosition_found m _ Hstart)
    as (Hs0 & Hs1 & Hscontains & Hsfind).
  destruct (FindAudioBufferIndexForPosition_found m _ Hend)
    as (He0 & He1 & Hecontains & _).
  fold startbufferindex in Hs0, Hs1, Hscontains, Hsfind.
  fold endbufferindex in He0, He1, Hecontains.
  set (buffer := st_buffer (audiostream m)) in *.
  pose proof (contents_lookup buffer startbufferindex Hs0 Hs1) as Hslookup.
  pose proof (contents_lookup buffer endbufferindex He0 He1) as Helookup.
  fold frames in Hslookup, Helookup, Hsfind.
  assert (Forall (λ frame, 0 ≤ af_numsamples frame) frames) as Hn'
    by (eapply Forall_impl; [exact Hn|]; simpl; intros; lia).
  assert (startbufferindex ≤ endbufferindex) as Horder.
  { destruct (Z.le_gt_cases startbufferindex endbufferindex) as [|Hgt]; [done|].
    pose proof (gapless_later frames _ _ _ _ Hgap Hn' Helookup Hslookup ltac:(lia)).
    destruct Hscontains, Hecontains. lia. }
  rewrite CopyAudioSamples_loop_frames by (unfold buffer in *; lia). fold buffer frames.
  set (turns := Z.to_nat (endbufferindex - startbufferindex + 1)).
  destruct (copy_frames_cover samplesize (audioposition m) (audioposition m + numsamples)
              (size - numsamples * samplesize) Hss Hss'
              ltac:(unfold numsamples;
                    pose proof (Z.div_mod size samplesize ltac:(lia));
                    pose proof (Z.mod_pos_bound size samplesize ltac:(lia)); lia)
              (take turns (drop (Z.to_nat startbufferindex) frames))
              (drop turns (drop (Z.to_nat startbufferindex) frames)) size [])
    as [Hcopy Hlength].
  - rewrite (drop_S _ _ _ Hslookup). unfold turns.
    by replace (Z.to_nat (endbufferindex - startbufferindex + 1))
      with (S (Z.to_nat (endbufferindex - startbufferindex))) by lia.
  - by apply gapless_take, gapless_drop.
  - by apply Forall_take, Forall_drop.
  - intros first Hfirst. rewrite (drop_S _ _ _ Hslookup) in Hfirst.
    unfold turns in Hfirst.
    replace (Z.to_nat (endbufferindex - startbufferindex + 1))
      with (S (Z.to_nat (endbufferindex - startbufferindex))) in Hfirst by lia.
    injection Hfirst as <-. cbn zeta.
    destruct Hscontains as [? Hsend]. unfold GetAudioFrameEndSample in Hsend.
    split; [lia|]. split; lia.
  - intros final Hfinal.
    rewrite (last_take_drop frames (Z.to_nat startbufferindex) (Z.to_nat endbufferindex)
               turns (frame_at buffer endbufferindex)) in Hfinal;
      [by injection Hfinal as <-|done|lia|unfold turns; lia].
  - done.
  - rewrite take_drop in Hcopy, Hlength. rewrite Hcopy. cbn [fst app].
    split; [|done]. unfold CopyAudioSamples_spec.
    destruct (decide (audioposition m = -1)); [done|].
    fold buffer. fold samplesize numsamples frames. by rewrite Hsfind.
Qed.

Lemma CopyAudioSamples_copies_witness :
  MovieDecode_CopyAudioSamples false (set_audioposition example_copy_movie 1) 8
  = CopyAudioSamples_spec false (set_audioposition example_copy_movie 1) 8 ∧
  (MovieDecode_CopyAudioSamples false (set_audioposition example_copy_movie 1) 8).2
  = [3; 4; 5; 6; 7; 8; 9; 10].
Proof.
  destruct (CopyAudioSamples_copies false (set_audioposition example_copy_movie 1) 8)
    as [_ Hset].
  - done.
  - done.
  - done.
  - done.
  - vm_compute. done.
  - apply (proj1 (Forall_fmap af_numsamples (λ n, 0 ≤ n ∧ n < 2 ^ 31) _)).
    replace (af_numsamples <$> _) with [4; 4] by (vm_compute; reflexivity).
    repeat constructor; lia.
  - destruct Hset as (_ & _ & Hcopy); [vm_compute; congruence|].
    destruct Hcopy as [Hcopy _]; [vm_compute; congruence|vm_compute; congruence|].
    split; [exact Hcopy|]. vm_compute. reflexivity.
Defined.

(** * The rest of the decoder *)

(** ** Circular buffer: what its users rely on *)

(** A slot pointer never leaves the backing array: in a buffer in the state
    the code keeps it in, [GetBufferSlot] answers [NULL] to a negative index
    and, to any other index, a slot of the backing array, the one [index]
    places after [start] around the ring. *)
Theorem GetBufferSlot_in_range {A : Type} `{!Inhabited A} (buffer : moviebuffer A) (index : Z) :
  buffer_ok buffer →
  (index < 0 → GetBufferSlot buffer index = None) ∧
  (0 ≤ index →
   ∃ slot, GetBufferSlot buffer index = Some slot ∧
           0 ≤ slot ∧ slot < Z.of_nat (length (slots buffer)) ∧
           slot = (buf_start buffer + index) mod buf_capacity buffer ∧
           is_Some (slots buffer !! Z.to_nat slot)).
Proof.
  intros (? & ? & ? & ? & Hlen). unfold GetBufferSlot. split.
  - intros ?. by destruct (Z.ltb_spec index 0); [|lia].
  - intros ?. destruct (Z.ltb_spec index 0); [lia|].
    pose proof (Z.rem_bound_pos (buf_start buffer + index) (buf_capacity buffer)
                  ltac:(lia) ltac:(lia)).
    eexists. split; [done|]. split; [lia|]. split; [lia|].
    split; [apply Z.rem_mod_nonneg; lia|].
    apply lookup_lt_is_Some. lia.
Qed.

Lemma GetBufferSlot_in_range_witness :
  GetBufferSlot example_full (-1) = None ∧
  ∃ slot, GetBufferSlot example_full 2 = Some slot ∧ slot = 0.
Proof.
  destruct (GetBufferSlot_in_range example_full (-1)) as [Hneg _].
  { unfold buffer_ok. simpl. lia. }
  destruct (GetBufferSlot_in_range example_full 2) as [_ Hpos].
  { unfold buffer_ok. simpl. lia. }
  split; [apply Hneg; lia|].
  destruct Hpos as (slot & Hslot & _ & _ & -> & _); [lia|].
  exists ((buf_start example_full + 2) mod buf_capacity example_full).
  split; [exact Hslot|reflexivity].
Defined.
(** [DequeueBufferIntoBuffer] moves the oldest frame of [src] to the end of
    [dst]: when [src] is not empty and [dst] not full, the frame at the head
    of [src] leaves it, becomes the last frame of [dst], and the slot pointer
    returned is the slot of [dst] that holds it. The other frames keep their
    order. *)
Theorem DequeueBufferIntoBuffer_moves_oldest {A : Type} `{!Inhabited A}
    (dst src : moviebuffer A) :
  buffer_ok dst → buffer_ok src → buf_size dst < buf_capacity dst → 0 < buf_size src →
  ∃ dst' src' slot oldest,
    DequeueBufferIntoBuffer dst src = (dst', src', Some slot) ∧
    contents src = oldest :: contents src' ∧
    contents dst' = contents dst ++ [oldest] ∧
    read_slot dst' slot = oldest ∧
    buffer_ok dst' ∧ buffer_ok src'.
Proof.
  intros Hdst Hsrc Hroom Hsome.
  destruct (DequeueBufferIntoBuffer dst src) as [[dst' src'] slot] eqn:Hmove.
  destruct (DequeueBufferIntoBuffer_contents _ _ _ _ _ Hmove Hdst Hsrc Hroom Hsome)
    as (Hdst' & Hsrc' & Hc1 & Hc2 & Hslot & Hsize & _).
  pose proof Hdst as (? & ? & ? & ? & ?).
  assert (frame_at dst' (buf_size dst' - 1) = frame_at src 0) as Hlast.
  { apply (inj Some). rewrite <- contents_lookup by lia. rewrite Hc1.
    replace (Z.to_nat (buf_size dst' - 1)) with (length (contents dst) + 0)%nat
      by (rewrite length_contents; lia).
    by rewrite lookup_app_r, Nat.add_comm, Nat.add_sub by lia. }
  unfold frame_at in Hlast at 1. rewrite <- Hslot in Hlast.
  destruct slot as [slot|].
  - exists dst', src', slot, (frame_at src 0). split_and!; done.
  - unfold GetBufferSlot in Hslot. destruct (_ <? 0) eqn:?; [lia|done].
Qed.

Lemma DequeueBufferIntoBuffer_moves_oldest_witness :
  ∃ dst' src' slot,
    DequeueBufferIntoBuffer example_empty example_full = (dst', src', Some slot) ∧
    contents example_full = 20 :: contents src' ∧ contents dst' = [20].
Proof.
  destruct (DequeueBufferIntoBuffer_moves_oldest example_empty example_full)
    as (dst' & src' & slot & oldest & Hmove & Hsrc & Hdst & _).
  - unfold buffer_ok. simpl. lia.
  - unfold buffer_ok. simpl. lia.
  - simpl. lia.
  - simpl. lia.
  - exists dst', src', slot. split; [exact Hmove|].
    assert (oldest = 20) as ->; [|by split].
    change (contents example_full) with [20; 30; 10] in Hsrc. congruence.
Defined.

(** [DequeueWholeBufferIntoBuffer] empties [src] into [dst] in order: when
    [dst] has room for the frames of [src], it ends with the frames it had
    followed by those of [src], oldest first, and [src] ends empty. *)
Theorem DequeueWholeBufferIntoBuffer_appends {A : Type} `{!Inhabited A}
    (dst src : moviebuffer A) :
  buffer_ok dst → buffer_ok src → buf_size dst + buf_size src ≤ buf_capacity dst →
  ∃ dst' src',
    DequeueWholeBufferIntoBuffer dst src = (dst', src') ∧
    contents dst' = contents dst ++ contents src ∧
    contents src' = [] ∧ buf_size src' = 0 ∧
    buf_size dst' = buf_size dst + buf_size src ∧
    buffer_ok dst' ∧ buffer_ok src'.
Proof.
  intros Hdst Hsrc Hroom.
  destruct (DequeueWholeBufferIntoBuffer dst src) as [dst' src'] eqn:Hmove.
  destruct (DequeueWholeBufferIntoBuffer_contents _ _ _ _ Hmove Hdst Hsrc Hroom)
    as (Hdst' & Hsrc' & Hc & Hsize).
  exists dst', src'. split_and!; try done.
  - apply contents_empty. lia.
  - apply (f_equal length) in Hc. rewrite length_app, !length_contents in Hc.
    destruct Hdst as (? & ? & ? & ? & ?), Hsrc as (? & ? & ? & ? & ?),
      Hdst' as (? & ? & ? & ? & ?). lia.
Qed.

Lemma DequeueWholeBufferIntoBuffer_appends_witness :
  ∃ dst' src',
    DequeueWholeBufferIntoBuffer example_empty example_full = (dst', src') ∧
    contents dst' = [20; 30; 10] ∧ contents src' = [].
Proof.
  destruct (DequeueWholeBufferIntoBuffer_appends example_empty example_full)
    as (dst' & src' & Hmove & Hdst & Hsrc & _).
  - unfold buffer_ok. simpl. lia.
  - unfold buffer_ok. simpl. lia.
  - simpl. lia.
  - exists dst', src'. split; [exact Hmove|]. split; [exact Hdst|exact Hsrc].
Defined.

(** [CloneBuffer] copies the queue, not only the storage: the clone of a
    buffer has its capacity, slot size, start and size, and holds the same
    frames in the same slots; it stops with "cannot allocate buffer" exactly
    when the host has no memory for the backing array. *)
Theorem CloneBuffer_copies {A : Type} `{!Inhabited A} (mem : bool) (src : moviebuffer A) :
  buffer_ok src →
  if mem then
    ∃ dst, CloneBuffer mem src = Returned dst ∧
           buf_capacity dst = buf_capacity src ∧ buf_slotsize dst = buf_slotsize src ∧
           buf_start dst = buf_start src ∧ buf_size dst = buf_size src ∧
           slots dst = slots src ∧ contents dst = contents src ∧ buffer_ok dst
  else CloneBuffer mem src = I_Error "FFmpeg: cannot allocate buffer".
Proof.
  intros Hok. pose proof Hok as (? & ? & ? & ? & Hlen).
  unfold CloneBuffer, calloc. destruct mem; [|done]. simpl.
  destruct (Z.leb_spec 0 (buf_capacity src)); [|lia].
  eexists. split; [done|].
  assert (take (Z.to_nat (buf_capacity src))
            (slots src ++ replicate (Z.to_nat (buf_capacity src)) inhabitant)
          = slots src) as Htake.
  { rewrite take_app_le by lia. apply take_ge. lia. }
  simpl. unfold slots at 1 3. simpl. fold (slots src). rewrite Htake.
  split_and!; done.
Qed.

Lemma CloneBuffer_copies_witness :
  ∃ dst, CloneBuffer true example_full = Returned dst ∧ contents dst = [20; 30; 10].
Proof.
  destruct (CloneBuffer_copies true example_full) as (dst & Hclone & _ & _ & _ & _ & _ & Hc & _).
  - unfold buffer_ok. simpl. lia.
  - exists dst. split; [exact Hclone|exact Hc].
Defined.

(** ** Time conversion: milliseconds and back *)

Lemma MSToSamples_signed (ms : Z) :
  - 2 ^ 47 ≤ ms → ms ≤ 2 ^ 47 →
  MSToSamples ms = Z.sgn ms * ((Z.abs ms * 44100 + 500) / 1000).
Proof.
  intros ? ?. unfold MSToSamples, av_rescale_q, SAMPLE_RATE, INT64_MAX. simpl.
  change (1 * 1000) with 1000. change (1 * 44100) with 44100. change (1000 / 2) with 500.
  pose proof (Z.div_mod (Z.abs ms * 44100 + 500) 1000 ltac:(lia)).
  pose proof (Z.mod_pos_bound (Z.abs ms * 44100 + 500) 1000 ltac:(lia)).
  destruct (Z.ltb_spec (2 ^ 63 - 1) ((Z.abs ms * 44100 + 500) / 1000)); [lia|].
  destruct (Z.ltb_spec ms 0); [rewrite Z.sgn_neg by lia; lia|].
  destruct (decide (ms = 0)) as [->|]; [done|]. rewrite Z.sgn_pos by lia. lia.
Qed.

Lemma SamplesToMS_signed (s : Z) :
  - 2 ^ 62 ≤ s → s ≤ 2 ^ 62 →
  SamplesToMS s = Z.sgn s * ((Z.abs s * 1000 + 22050) / 44100).
Proof.
  intros ? ?. unfold SamplesToMS, av_rescale_q, SAMPLE_RATE, INT64_MAX. simpl.
  change (1 * 1000) with 1000. change (1 * 44100) with 44100. change (44100 / 2) with 22050.
  pose proof (Z.div_mod (Z.abs s * 1000 + 22050) 44100 ltac:(lia)).
  pose proof (Z.mod_pos_bound (Z.abs s * 1000 + 22050) 44100 ltac:(lia)).
  destruct (Z.ltb_spec (2 ^ 63 - 1) ((Z.abs s * 1000 + 22050) / 44100)); [lia|].
  destruct (Z.ltb_spec s 0); [rewrite Z.sgn_neg by lia; lia|].
  destruct (decide (s = 0)) as [->|]; [done|]. rewrite Z.sgn_pos by lia. lia.
Qed.

Lemma MSToSamples_bounds (ms : Z) :
  - 2 ^ 47 ≤ ms → ms ≤ 2 ^ 47 →
  SamplesToMS (MSToSamples ms) = ms ∧ MSToSamples ms ≠ -1 ∧
  (MSToSamples ms = 0 ↔ ms = 0).
Proof.
  intros ? ?. rewrite MSToSamples_signed by done.
  set (s := (Z.abs ms * 44100 + 500) / 1000).
  pose proof (Z.div_mod (Z.abs ms * 44100 + 500) 1000 ltac:(lia)) as Hs.
  pose proof (Z.mod_pos_bound (Z.abs ms * 44100 + 500) 1000 ltac:(lia)).
  fold s in Hs.
  assert (0 ≤ s) by (apply Z.div_pos; lia).
  assert ((s * 1000 + 22050) / 44100 = Z.abs ms) as Hback.
  { symmetry. apply Z.div_unique with (s * 1000 + 22050 - 44100 * Z.abs ms); lia. }
  destruct (decide (ms = 0)) as [Hzero|?].
  { subst s. rewrite Hzero. by vm_compute. }
  destruct (Z.sgn_spec ms) as [[? ->]|[[? ?]|[? ->]]]; [|lia|].
  - rewrite Z.mul_1_l. rewrite SamplesToMS_signed by lia.
    rewrite (Z.abs_eq s), Hback by lia.
    assert (0 < s) by lia. rewrite Z.sgn_pos by lia. lia.
  - assert (0 < s) by lia. replace (- (1) * s) with (- s) by lia.
    rewrite SamplesToMS_signed by lia.
    replace (Z.abs (- s)) with s by lia. rewrite Hback.
    rewrite Z.sgn_neg by lia. lia.
Qed.

(** Milliseconds survive the way through samples: a millisecond is 44.1
    samples, so [SamplesToMS (MSToSamples ms)] is [ms] again (the other way
    round up to 22 samples are lost). *)
Theorem SamplesToMS_MSToSamples (ms : Z) :
  - 2 ^ 47 ≤ ms → ms ≤ 2 ^ 47 → SamplesToMS (MSToSamples ms) = ms.
Proof. intros ? ?. by apply MSToSamples_bounds. Qed.

Lemma SamplesToMS_MSToSamples_witness :
  SamplesToMS (MSToSamples 1234) = 1234 ∧ SamplesToMS (MSToSamples (-7)) = -7.
Proof.
  split; apply SamplesToMS_MSToSamples; vm_compute; congruence.
Defined.
Lemma ClearAllFrames_position (m : movie) :
  position (ClearAllFrames m) = position m ∧
  audioposition (ClearAllFrames m) = audioposition m.
Proof.
  unfold ClearAllFrames.
  destruct (ClearAllFrames_loop _ (videostream m) _) as [vstream vws].
  destruct (ClearAllFrames_loop _ (audiostream m) _) as [astream aws]. done.
Qed.

Lemma Seek_position (seekerror : Z) (m m' : movie) :
  Seek seekerror m = Returned m' →
  position m' = position m ∧ audioposition m' = audioposition m.
Proof.
  unfold Seek. destruct (seekerror <? 0); [done|]. intros [= <-]. simpl.
  destruct (ClearAllFrames_position (set_seeking m true)) as [-> ->]. done.
Qed.

(** Setting the position when the audio position is unset resynchronises the
    audio: [MovieDecode_SetPosition] (and [MovieDecode_Seek], which has the
    same body) sets the audio position to the samples of that time; the
    position is then set (never -1), it converts back to the position
    exactly, and the next [UpdateSeeking] measures a desynchronisation of 0
    and keeps it. *)
Theorem SetPosition_resynchronises (m : movie) (ms seekerror : Z) (m' : movie) :
  - 2 ^ 47 ≤ ms → ms ≤ 2 ^ 47 → audioposition m = -1 →
  UpdateSeeking seekerror (MovieDecode_SetPosition m ms) = Returned m' →
  MovieDecode_Seek m ms = MovieDecode_SetPosition m ms ∧
  audioposition (MovieDecode_SetPosition m ms) = MSToSamples ms ∧
  position m' = ms ∧ audioposition m' = MSToSamples ms ∧ audioposition m' ≠ -1 ∧
  SamplesToMS (audioposition m') = position m'.
Proof.
  intros ? ? Hunset Hupdate.
  destruct (MSToSamples_bounds ms) as (Hback & Hset & _); [done..|].
  assert (MovieDecode_SetPosition m ms = set_audioposition (set_position m ms) (MSToSamples ms))
    as Hpos.
  { unfold MovieDecode_SetPosition. simpl. by rewrite Hunset. }
  split; [done|]. split; [by rewrite Hpos|].
  rewrite Hpos in Hupdate. unfold UpdateSeeking in Hupdate.
  match type of Hupdate with
  | context [IsPTSInVideoBuffer ?x _] => set (m1 := x) in *
  end.
  assert (position m1 = ms ∧ audioposition m1 = MSToSamples ms) as [Hp1 Ha1].
  { subst m1. by repeat case_match. }
  destruct (negb _) eqn:Hseek in Hupdate.
  - destruct (Seek seekerror m1) as [m2|] eqn:Hm2; [|done]. simpl in Hupdate.
    apply Seek_position in Hm2 as [Hp2 Ha2]. rewrite Hp2, Ha2, Hp1, Ha1 in Hupdate.
    destruct (Z.eqb_spec (MSToSamples ms) (-1)); [done|]. simpl in Hupdate.
    rewrite Hback, Z.sub_diag in Hupdate. simpl in Hupdate.
    injection Hupdate as <-. rewrite Hp2, Ha2, Hp1, Ha1. done.
  - simpl in Hupdate. rewrite Hp1, Ha1 in Hupdate.
    destruct (Z.eqb_spec (MSToSamples ms) (-1)); [done|]. simpl in Hupdate.
    rewrite Hback, Z.sub_diag in Hupdate. simpl in Hupdate.
    injection Hupdate as <-. rewrite Hp1, Ha1. done.
Qed.
Lemma SetPosition_resynchronises_witness :
  ∃ m', UpdateSeeking 0 (MovieDecode_SetPosition (set_audioposition example_movie (-1)) 1000)
        = Returned m' ∧
        position m' = 1000 ∧ audioposition m' = 44100.
Proof.
  set (m' := outcome_get zero_movie
               (UpdateSeeking 0
                  (MovieDecode_SetPosition (set_audioposition example_movie (-1)) 1000))).
  assert (UpdateSeeking 0 (MovieDecode_SetPosition (set_audioposition example_movie (-1)) 1000)
          = Returned m') as Hupdate by (vm_compute; reflexivity).
  exists m'. split; [exact Hupdate|].
  destruct (SetPosition_resynchronises (set_audioposition example_movie (-1)) 1000 0 m')
    as (_ & _ & Hp & Ha & _).
  - vm_compute. congruence.
  - vm_compute. congruence.
  - reflexivity.
  - exact Hupdate.
  - split; [exact Hp|]. rewrite Ha. reflexivity.
Defined.

(** ** The size of a posted image *)

Lemma length_concat_fmap_const {A B : Type} (f : A → list B) (c : nat) (l : list A) :
  Forall (λ x, length (f x) = c) l → length (concat (f <$> l)) = (length l * c)%nat.
Proof.
  induction 1 as [|x l Hx _ IH]; [done|].
  rewrite fmap_cons, concat_cons, length_app, Hx, IH. simpl. lia.
Qed.

Lemma posts_per_column_lt (height k : Z) :
  0 ≤ height → 0 ≤ k →
  (k * POST_MAX_HEIGHT < height ↔ k < posts_per_column height).
Proof.
  intros ? ?. unfold posts_per_column, POST_MAX_HEIGHT.
  pose proof (Z.div_mod (height + 254 - 1) 254 ltac:(lia)).
  pose proof (Z.mod_pos_bound (height + 254 - 1) 254 ltac:(lia)). lia.
Qed.

Lemma length_posted_posts CLUTINDEX lut src width height x (n : nat) (k : Z) :
  0 ≤ height → 0 ≤ k → k + Z.of_nat n = posts_per_column height →
  Z.of_nat (length (concat (posted_post CLUTINDEX lut src width height x
                              <$> seqZ k (Z.of_nat n))))
  = height - Z.min (k * POST_MAX_HEIGHT) height + POST_BASE_BYTES * Z.of_nat n.
Proof.
  intros Hheight. revert k. induction n as [|n IH]; intros k Hk Hn.
  - simpl. pose proof (posts_per_column_lt height k Hheight Hk). lia.
  - rewrite seqZ_cons by lia. rewrite fmap_cons, concat_cons, length_app.
    replace (Z.pred (Z.of_nat (S n))) with (Z.of_nat n) by lia.
    replace (Z.succ k) with (k + 1) by lia.
    rewrite Nat2Z.inj_add, IH by lia.
    pose proof (posts_per_column_lt height k Hheight Hk) as Hbounds.
    assert (k * POST_MAX_HEIGHT < height) by (apply Hbounds; lia).
    unfold posted_post, post_length, POST_MAX_HEIGHT, POST_BASE_BYTES in *.
    cbn [length app]. rewrite length_app, length_fmap, length_seqZ. simpl. lia.
Qed.

Lemma length_posted_column CLUTINDEX lut src width height x :
  0 ≤ height →
  Z.of_nat (length (posted_column CLUTINDEX lut src width height x))
  = bytes_per_column height.
Proof.
  intros Hheight. unfold posted_column, posted_posts.
  assert (0 ≤ posts_per_column height).
  { unfold posts_per_column, POST_MAX_HEIGHT. apply Z.div_pos; lia. }
  rewrite length_app, Nat2Z.inj_add, <- (seqZ_to_nat 0 (posts_per_column height)).
  rewrite length_posted_posts by lia.
  unfold bytes_per_column, POST_MAX_HEIGHT, POST_BASE_BYTES. simpl. lia.
Qed.

(** [ConvertRGBAToPatch] fills the patch exactly: for a frame that has the
    width and the height of the decoder's context, the number of bytes
    written is [MovieDecode_GetPatchBytes], the size [InitialiseImages]
    gives to the storage of a patch:
    [width * (4 + height + ceil(height / 254) * 4 + 1)]. *)
Theorem ConvertRGBAToPatch_fills_patch (CLUTINDEX : Z → Z → Z → Z) (m : movie)
    (src : list Z) :
  let worker := decodeworker m in
  let context := ws_codeccontext (dw_videostream worker) in
  fr_width (dw_frame worker) = cc_width context →
  fr_height (dw_frame worker) = cc_height context →
  0 ≤ cc_width context → 0 ≤ cc_height context →
  Z.of_nat (length (ConvertRGBAToPatch CLUTINDEX worker src)) = MovieDecode_GetPatchBytes m ∧
  MovieDecode_GetPatchBytes m
  = cc_width context
    * (4 + cc_height context + (cc_height context + 253) / 254 * 4 + 1).
Proof.
  intros worker context Hwidth Hheight ? ?.
  assert (GetBytesPerPatchColumn worker = bytes_per_column (cc_height context)) as Hbytes.
  { unfold GetBytesPerPatchColumn, bytes_per_column, posts_per_column. fold context.
    unfold POST_MAX_HEIGHT. by rewrite Z.quot_div_nonneg by lia. }
  assert (MovieDecode_GetPatchBytes m
          = cc_width context * (4 + bytes_per_column (cc_height context))) as Hpatch.
  { unfold MovieDecode_GetPatchBytes. fold worker context. by rewrite Hbytes. }
  split.
  - unfold ConvertRGBAToPatch.
    rewrite ConvertRGBAToPatch_columns_eq, ConvertRGBAToPatch_offsets_eq
      by (rewrite Hheight; lia).
    rewrite Hwidth, Hheight. rewrite app_nil_l, length_app.
    rewrite (length_concat_fmap_const _ 4) by (by apply Forall_forall).
    rewrite (length_concat_fmap_const _ (Z.to_nat (bytes_per_column (cc_height context)))).
    + rewrite !length_fmap, !length_seqZ, Hpatch.
      assert (0 ≤ bytes_per_column (cc_height context)).
      { rewrite <- (length_posted_column CLUTINDEX (dw_colorlut worker) src
                      (cc_width context) (cc_height context) 0) by done. lia. }
      lia.
    + apply Forall_forall. intros x _.
      rewrite <- (length_posted_column CLUTINDEX (dw_colorlut worker) src
                    (cc_width context) (cc_height context) x) by done.
      by rewrite Nat2Z.id.
  - rewrite Hpatch. unfold bytes_per_column, posts_per_column, POST_MAX_HEIGHT, POST_BASE_BYTES.
    f_equal. replace (cc_height context + 254 - 1) with (cc_height context + 253) by lia. lia.
Qed.

Lemma ConvertRGBAToPatch_fills_patch_witness :
  Z.of_nat (length (ConvertRGBAToPatch (λ r g b, r + g + b)
                      (decodeworker (set_decodeworker example_movie example_patch_worker)) []))
  = 2 * (4 + 300 + 2 * 4 + 1).
Proof.
  destruct (ConvertRGBAToPatch_fills_patch (λ r g b, r + g + b)
              (set_decodeworker example_movie example_patch_worker) [])
    as [Hlength Hbytes].
  - reflexivity.
  - reflexivity.
  - vm_compute. congruence.
  - vm_compute. congruence.
  - rewrite Hlength, Hbytes. reflexivity.
Defined.

(** ** Reading the lump piece by piece *)

Lemma ReadStream_eq (m : movie) (n : Z) :
  lumpsize m = Z.of_nat (length (lumpdata m)) →
  0 ≤ lumpposition m → lumpposition m ≤ lumpsize m → lumpsize m < 2 ^ 63 →
  0 ≤ n → n < 2 ^ 31 →
  let copied := Z.min n (lumpsize m - lumpposition m) in
  ReadStream m n
  = (set_lumpposition m (lumpposition m + copied),
     take (Z.to_nat copied) (drop (Z.to_nat (lumpposition m)) (lumpdata m)),
     copied).
Proof.
  intros Hlen ? ? ? ? ?. cbv zeta. unfold ReadStream.
  set (copied := Z.min n (lumpsize m - lumpposition m)).
  assert (0 ≤ copied ∧ copied ≤ n) as [? ?] by (unfold copied; lia).
  rewrite (to_size_t_small n), (to_size_t_small (lumpsize m - lumpposition m)) by lia.
  fold copied. rewrite (to_INT32_small copied), (to_size_t_small copied) by lia.
  rewrite to_size_t_small by lia.
  rewrite read_bytes_take_drop by (unfold copied; lia). done.
Qed.

(** Reading the lump in two pieces gives what reading it in one piece
    gives: the bytes of two consecutive calls of [ReadStream], one after the
    other, are the bytes of a single call for the sum of the two sizes, and
    the cursor ends at the same place. At the end of the lump a call copies
    nothing, leaves the movie as it is and returns 0. *)
Theorem ReadStream_consecutive (m : movie) (n1 n2 : Z) :
  lumpsize m = Z.of_nat (length (lumpdata m)) →
  0 ≤ lumpposition m → lumpposition m ≤ lumpsize m → lumpsize m < 2 ^ 63 →
  0 ≤ n1 → 0 ≤ n2 → n1 + n2 < 2 ^ 31 →
  let '(m1, copied1, read1) := ReadStream m n1 in
  let '(m2, copied2, read2) := ReadStream m1 n2 in
  ReadStream m (n1 + n2) = (m2, copied1 ++ copied2, read1 + read2) ∧
  Z.of_nat (length copied1) = read1 ∧
  (lumpposition m = lumpsize m → ReadStream m n1 = (m, [], 0)).
Proof.
  intros Hlen ? ? ? ? ? ?.
  rewrite (ReadStream_eq m n1) by (done || lia).
  set (c1 := Z.min n1 (lumpsize m - lumpposition m)).
  rewrite (ReadStream_eq (set_lumpposition m _) n2) by (simpl; unfold c1; done || lia).
  rewrite (ReadStream_eq m (n1 + n2)) by (done || lia).
  simpl. set (c2 := Z.min n2 (lumpsize m - (lumpposition m + c1))).
  assert (Z.min (n1 + n2) (lumpsize m - lumpposition m) = c1 + c2) as -> by lia.
  split; [|split].
  - apply pair_equal_spec. split; [apply pair_equal_spec; split|done].
    + destruct m. unfold set_lumpposition. simpl. f_equal. lia.
    + replace (Z.to_nat (c1 + c2)) with (Z.to_nat c1 + Z.to_nat c2)%nat by lia.
      rewrite <- take_take_drop, drop_drop. do 3 f_equal. lia.
  - rewrite length_take, length_drop. lia.
  - intros Hend. apply pair_equal_spec. split; [apply pair_equal_spec; split|lia].
    + destruct m. unfold set_lumpposition. simpl in *. f_equal. lia.
    + replace (Z.to_nat c1) with 0%nat by lia. done.
Qed.

Lemma ReadStream_consecutive_witness :
  ∃ m2 copied, ReadStream example_lump_movie 12 = (m2, copied, 10) ∧ copied = [1; 2; 3; 4; 5; 6; 7; 8; 9; 10].
Proof.
  pose proof (ReadStream_consecutive example_lump_movie 7 5) as Hread.
  destruct (ReadStream example_lump_movie 7) as [[m1 copied1] read1] eqn:H1.
  destruct (ReadStream m1 5) as [[m2 copied2] read2] eqn:H2.
  destruct Hread as (Hsum & _ & _).
  - vm_compute. reflexivity.
  - vm_compute. congruence.
  - vm_compute. congruence.
  - vm_compute. reflexivity.
  - lia.
  - lia.
  - vm_compute. reflexivity.
  - vm_compute in H1. injection H1 as <- <- <-.
    vm_compute in H2. injection H2 as <- <- <-.
    eexists _, _. split; [exact Hsum|reflexivity].
Defined.

(** ** Finding a frame for a position *)

Lemma gapless_cover frames first final sample :
  gapless frames → Forall (λ frame, 0 ≤ af_numsamples frame) frames →
  head frames = Some first → last frames = Some final →
  af_firstsampleposition first ≤ sample → sample < GetAudioFrameEndSample final →
  ∃ i frame, frames !! i = Some frame ∧ frame_contains sample frame.
Proof.
  revert first. induction frames as [|f0 frames IH]; intros first Hgap Hn Hhead Hlast ? ?;
    [done|].
  injection Hhead as ->. apply Forall_cons in Hn as [? Hn].
  destruct (decide (sample < GetAudioFrameEndSample first)) as [Hin|Hout].
  - exists 0%nat, first. split; [done|]. by split.
  - destruct frames as [|f1 frames].
    + injection Hlast as ->. lia.
    + destruct Hgap as [Hgap Hrest].
      destruct (IH f1 Hrest Hn eq_refl Hlast) as (i & frame & Hi & Hframe); [lia|done|].
      by exists (S i), frame.
Qed.

(** [FindAudioBufferIndexForPosition] answers -1 or the index of the first
    buffered frame that holds the sample.  In a gapless buffer of frames
    with no negative sample count it finds a frame exactly for the samples
    from the first sample of the first frame to the last sample of the last
    one; an empty buffer holds none. *)
Theorem FindAudioBufferIndexForPosition_buffered (m : movie) (sample : Z) :
  let buffer := st_buffer (audiostream m) in
  let index := FindAudioBufferIndexForPosition m sample in
  gapless (contents buffer) →
  Forall (λ frame, 0 ≤ af_numsamples frame) (contents buffer) →
  (index = -1 ∨
   0 ≤ index ∧ index < buf_size buffer ∧ frame_contains sample (frame_at buffer index) ∧
   ∀ k, 0 ≤ k → k < index → ¬ frame_contains sample (frame_at buffer k)) ∧
  (index ≠ -1 ↔
   ∃ first final, head (contents buffer) = Some first ∧ last (contents buffer) = Some final ∧
                  af_firstsampleposition first ≤ sample ∧
                  sample < GetAudioFrameEndSample final).
Proof.
  intros buffer index Hgap Hn.
  pose proof (FindAudioBufferIndexForPosition_loop_first buffer sample
                (Z.to_nat (buf_size buffer)) 0 ltac:(done)) as Hloop.
  cbv zeta in Hloop. rewrite !Z.add_0_l in Hloop.
  change (FindAudioBufferIndexForPosition_loop buffer sample (Z.to_nat (buf_size buffer)) 0)
    with index in Hloop.
  split.
  - destruct Hloop as [[? _]|(? & ? & ? & ?)]; [by left|right].
    split_and!; [done|lia|done|done].
  - split.
    + intros Hfound. destruct Hloop as [[? _]|(? & ? & Hin & _)]; [done|].
      assert (contents buffer !! Z.to_nat index = Some (frame_at buffer index)) as Hindex
        by (apply contents_lookup; lia).
      destruct (contents buffer) as [|first frames] eqn:Hc; [done|].
      destruct (last (first :: frames)) as [final|] eqn:Hlast;
        [|by apply last_None in Hlast].
      exists first, final. split; [done|]. split; [done|].
      destruct Hin as [Hstart Hend]. split.
      * destruct (Z.to_nat index) as [|i] eqn:Hi.
        -- injection Hindex as ->. done.
        -- pose proof (gapless_later (first :: frames) 0 (S i) first _ Hgap Hn eq_refl
                         Hindex ltac:(lia)).
           apply Forall_cons in Hn as [? _]. unfold GetAudioFrameEndSample in *. lia.
      * rewrite last_lookup in Hlast.
        destruct (decide (Z.to_nat index = pred (length (first :: frames)))) as [Heq|Hne].
        -- rewrite Heq in Hindex. congruence.
        -- pose proof (lookup_lt_Some _ _ _ Hindex).
           pose proof (gapless_later (first :: frames) (Z.to_nat index) _ _ final Hgap Hn
                         Hindex Hlast ltac:(lia)).
           assert (0 ≤ af_numsamples final).
           { eapply (Forall_lookup_1 _ _ _ _ Hn Hlast). }
           unfold GetAudioFrameEndSample in *. lia.
    + intros (first & final & Hhead & Hlast & ? & ?).
      destruct (gapless_cover _ _ _ sample Hgap Hn Hhead Hlast) as (i & frame & Hi & Hin);
        [done..|].
      destruct Hloop as [[_ Hnone]|(? & ? & ? & ?)]; [|lia].
      pose proof (lookup_lt_Some _ _ _ Hi) as Hlt. rewrite length_contents in Hlt.
      exfalso. apply (Hnone (Z.of_nat i)); [lia|lia|].
      rewrite <- (Nat2Z.id i), contents_lookup in Hi by lia. by injection Hi as <-.
Qed.

Lemma FindAudioBufferIndexForPosition_buffered_witness :
  FindAudioBufferIndexForPosition example_copy_movie 5 ≠ -1 ∧
  ¬ FindAudioBufferIndexForPosition example_copy_movie 8 ≠ -1.
Proof.
  assert (gapless (contents (st_buffer (audiostream example_copy_movie)))) as Hgap
    by (vm_compute; tauto).
  assert (Forall (λ frame, 0 ≤ af_numsamples frame)
            (contents (st_buffer (audiostream example_copy_movie)))) as Hn.
  { apply (bool_decide_unpack _). vm_compute. exact I. }
  split.
  - apply (proj2 (FindAudioBufferIndexForPosition_buffered example_copy_movie 5 Hgap Hn)).
    eexists _, _. split; [vm_compute; reflexivity|]. split; [vm_compute; reflexivity|].
    unfold GetAudioFrameEndSample. simpl. lia.
  - intros Hfound.
    apply (proj2 (FindAudioBufferIndexForPosition_buffered example_copy_movie 8 Hgap Hn))
      in Hfound as (first & final & _ & Hlast & _ & Hend).
    vm_compute in Hlast. injection Hlast as <-.
    unfold GetAudioFrameEndSample in Hend. simpl in Hend. lia.
Defined.

Lemma FindVideoBufferIndexForPosition_loop_last buffer pts turns :
  let r := FindVideoBufferIndexForPosition_loop buffer pts turns in
  (r = -1 ∧ ∀ k, 0 ≤ k → k < Z.of_nat turns → pts < vf_pts (frame_at buffer k)) ∨
  (0 ≤ r ∧ r < Z.of_nat turns ∧ vf_pts (frame_at buffer r) ≤ pts ∧
   ∀ k, r < k → k < Z.of_nat turns → pts < vf_pts (frame_at buffer k)).
Proof.
  induction turns as [|turns IH]; cbv zeta.
  - left. split; [done|]. intros; lia.
  - cbn [FindVideoBufferIndexForPosition_loop].
    destruct (Z.leb_spec (vf_pts (frame_at buffer (Z.of_nat turns))) pts).
    + right. split; [lia|]. split; [lia|]. split; [done|]. intros; lia.
    + destruct IH as [[-> Hnone]|(? & ? & ? & Hlater)].
      * left. split; [done|]. intros k ? ?.
        destruct (decide (k = Z.of_nat turns)) as [->|]; [done|]. apply Hnone; lia.
      * right. split; [lia|]. split; [lia|]. split; [done|]. intros k ? ?.
        destruct (decide (k = Z.of_nat turns)) as [->|]; [done|]. apply Hlater; lia.
Qed.

(** When the position is in the video buffer there is a frame to show:
    if [IsPTSInVideoBuffer] holds of a PTS, [FindVideoBufferIndexForPosition]
    finds the last buffered frame that starts at or before it, and
    [MovieDecode_GetImage] at that position returns null only if that frame
    is the one it handed out last. An empty buffer holds no PTS and gives no
    frame. *)
Theorem IsPTSInVideoBuffer_finds_frame (m : movie) :
  let buffer := st_buffer (videostream m) in
  let pts := MSToVideoPTS m (position m) in
  let index := FindVideoBufferIndexForPosition m pts in
  0 ≤ buf_size buffer →
  (buf_size buffer = 0 →
   IsPTSInVideoBuffer m pts = false ∧ index = -1 ∧ (MovieDecode_GetImage m).2 = None) ∧
  (IsPTSInVideoBuffer m pts = true →
   0 ≤ index ∧ index < buf_size buffer ∧
   vf_pts (frame_at buffer index) ≤ pts ∧
   (∀ k, index < k → k < buf_size buffer → pts < vf_pts (frame_at buffer k)) ∧
   ((MovieDecode_GetImage m).2 = None ↔
    vf_id (frame_at buffer index) = lastvideoframeusedid m) ∧
   ((MovieDecode_GetImage m).2 ≠ None →
    (MovieDecode_GetImage m).2 = Some (vf_image (frame_at buffer index)) ∧
    lastvideoframeusedid (MovieDecode_GetImage m).1 = vf_id (frame_at buffer index))).
Proof.
  intros buffer pts index Hsize.
  pose proof (FindVideoBufferIndexForPosition_loop_last buffer pts
                (Z.to_nat (buf_size buffer))) as Hloop.
  cbv zeta in Hloop.
  change (FindVideoBufferIndexForPosition_loop buffer pts (Z.to_nat (buf_size buffer)))
    with index in Hloop.
  split.
  - intros Hempty. unfold IsPTSInVideoBuffer. fold buffer. rewrite Hempty. simpl.
    assert (index = -1) as Hindex by (destruct Hloop as [[? _]|(? & ? & _)]; [done|lia]).
    split; [done|]. split; [done|].
    unfold MovieDecode_GetImage. fold pts index buffer. by rewrite Hindex.
  - unfold IsPTSInVideoBuffer. fold buffer.
    destruct (Z.eqb_spec (buf_size buffer) 0); [done|].
    intros [Hfirst _]%andb_true_iff. apply Z.leb_le in Hfirst.
    destruct Hloop as [[_ Hnone]|(? & ? & ? & Hlater)].
    { specialize (Hnone 0 ltac:(lia) ltac:(lia)). lia. }
    split; [done|]. split; [lia|]. split; [done|].
    split; [intros k ? ?; apply Hlater; lia|].
    unfold MovieDecode_GetImage. fold pts index buffer.
    unfold frame_at, frame_of, GetBufferSlot.
    destruct (Z.ltb_spec index 0); [lia|].
    destruct (Z.eqb_spec (lastvideoframeusedid m) (vf_id (read_slot buffer
               (Z.rem (buf_start buffer + index) (buf_capacity buffer))))); simpl.
    + split; [done|]. intros Hsome. done.
    + split; [split; [done|congruence]|]. done.
Qed.

Lemma IsPTSInVideoBuffer_finds_frame_witness :
  let m := MovieDecode_SetPosition example_video_movie 50 in
  FindVideoBufferIndexForPosition m (MSToVideoPTS m (position m)) = 1 ∧
  (MovieDecode_GetImage m).2 = Some 8192.
Proof.
  intros m.
  destruct (IsPTSInVideoBuffer_finds_frame m) as [_ Hin].
  - vm_compute. congruence.
  - destruct Hin as (_ & _ & _ & _ & _ & Himage).
    + vm_compute. reflexivity.
    + split; [vm_compute; reflexivity|].
      destruct Himage as [-> _]; [vm_compute; congruence|]. vm_compute. reflexivity.
Defined.

(** ** Finding the lump of a movie *)

Lemma FindMovieLumpNum_loop_last (LUMPERROR : Z) (check : Z → Z) (turns : nat) :
  (∀ wadnum, 0 ≤ check wadnum ∧ check wadnum < 2 ^ 16) →
  let r := FindMovieLumpNum_loop LUMPERROR check turns in
  (r = LUMPERROR ∧ ∀ wadnum, 0 ≤ wadnum → wadnum < Z.of_nat turns → check wadnum = INT16_MAX) ∨
  (∃ wadnum, 0 ≤ wadnum ∧ wadnum < Z.of_nat turns ∧ check wadnum ≠ INT16_MAX ∧
             r = Z.shiftl wadnum 16 + check wadnum ∧
             ∀ later, wadnum < later → later < Z.of_nat turns → check later = INT16_MAX).
Proof.
  intros Hcheck. induction turns as [|turns IH]; cbv zeta.
  - left. split; [done|]. intros; lia.
  - cbn [FindMovieLumpNum_loop]. rewrite Z.mod_small by apply Hcheck.
    destruct (Z.eqb_spec (check (Z.of_nat turns)) INT16_MAX) as [Heq|Hne]; simpl.
    + destruct IH as [[-> Hnone]|(wadnum & ? & ? & ? & -> & Hlater)].
      * left. split; [done|]. intros wadnum ? ?.
        destruct (decide (wadnum = Z.of_nat turns)) as [->|]; [done|]. apply Hnone; lia.
      * right. exists wadnum. split_and!; [done|lia|done|done|]. intros later ? ?.
        destruct (decide (later = Z.of_nat turns)) as [->|]; [done|]. apply Hlater; lia.
    + right. exists (Z.of_nat turns). split_and!; [lia|lia|done|done|]. intros; lia.
Qed.

(** The last file wins: [FindMovieLumpNum] answers for the last loaded file
    that has the lump, with the number of the file in the bits above the
    16 bits of the number of the lump, so that the two can be read back; it
    answers [LUMPERROR] exactly when no file has the lump. *)
Theorem FindMovieLumpNum_last_file (LUMPERROR numwadfiles : Z) (check : Z → Z) :
  0 ≤ numwadfiles → numwadfiles ≤ 2 ^ 15 →
  (∀ wadnum, 0 ≤ check wadnum ∧ check wadnum < 2 ^ 16) →
  let r := FindMovieLumpNum LUMPERROR numwadfiles check in
  (r = LUMPERROR ∧ ∀ wadnum, 0 ≤ wadnum → wadnum < numwadfiles → check wadnum = INT16_MAX) ∨
  (∃ wadnum, 0 ≤ wadnum ∧ wadnum < numwadfiles ∧ check wadnum ≠ INT16_MAX ∧
             (∀ later, wadnum < later → later < numwadfiles → check later = INT16_MAX) ∧
             r = Z.shiftl wadnum 16 + check wadnum ∧
             0 ≤ r ∧ r < 2 ^ 31 ∧
             Z.shiftr r 16 = wadnum ∧ Z.land r (2 ^ 16 - 1) = check wadnum).
Proof.
  intros ? ? Hcheck r.
  destruct (FindMovieLumpNum_loop_last LUMPERROR check (Z.to_nat numwadfiles) Hcheck)
    as [[Hr Hnone]|(wadnum & ? & ? & ? & Hr & Hlater)].
  - left. split; [done|]. intros wadnum ? ?. apply Hnone; lia.
  - right. exists wadnum. fold (FindMovieLumpNum LUMPERROR numwadfiles check) in Hr.
    fold r in Hr. specialize (Hcheck wadnum).
    assert (r = wadnum * 2 ^ 16 + check wadnum) as Hr'
      by (rewrite Hr, Z.shiftl_mul_pow2 by lia; done).
    split_and!; [done|lia|done|intros; apply Hlater; lia|done|lia|lia| |].
    + rewrite Z.shiftr_div_pow2 by lia. symmetry.
      apply Z.div_unique with (check wadnum); lia.
    + change (2 ^ 16 - 1) with (Z.ones 16). rewrite Z.land_ones by lia. symmetry.
      apply Z.mod_unique with wadnum; lia.
Qed.

Lemma FindMovieLumpNum_last_file_witness :
  FindMovieLumpNum (2 ^ 32 - 1) 3 (λ wadnum, if wadnum =? 1 then 7 else INT16_MAX)
  = 1 * 65536 + 7.
Proof.
  destruct (FindMovieLumpNum_last_file (2 ^ 32 - 1) 3
              (λ wadnum, if wadnum =? 1 then 7 else INT16_MAX))
    as [[_ Hnone]|(wadnum & ? & ? & Hfound & _ & Hr & _)].
  - lia.
  - lia.
  - intros wadnum. destruct (wadnum =? 1); unfold INT16_MAX; lia.
  - specialize (Hnone 1 ltac:(lia) ltac:(lia)). discriminate Hnone.
  - rewrite Hr. destruct (Z.eqb_spec wadnum 1) as [->|]; [reflexivity|done].
Defined.

(** ** The frames of a stream, operation by operation *)

Section Held.
Context {A : Type} `{!Inhabited A}.
Implicit Types stream : moviestream A.
Implicit Types ws : moviedecodeworkerstream A.

Lemma stream_ok_sizes stream ws :
  stream_ok stream ws →
  0 ≤ buf_size (st_buffer stream) ∧ 0 ≤ buf_size (ws_framequeue ws) ∧
  0 ≤ buf_size (ws_framepool ws) ∧ 0 < buf_capacity (st_buffer stream).
Proof.
  intros ((? & ? & ? & ? & ?) & (? & ? & ? & ? & ?) & (? & ? & ? & ? & ?) & ? & ? & ?). lia.
Qed.

Lemma ClearOldestFrame_held stream ws stream' ws' :
  ClearOldestFrame stream ws = (stream', ws') →
  stream_ok stream ws → 0 < buf_size (st_buffer stream) →
  stream_ok stream' ws' ∧
  contents (st_buffer stream) = frame_at (st_buffer stream) 0 :: contents (st_buffer stream') ∧
  contents (ws_framepool ws')
  = contents (ws_framepool ws) ++ [frame_at (st_buffer stream) 0] ∧
  ws_framequeue ws' = ws_framequeue ws ∧
  st_stream stream' = st_stream stream ∧
  buf_size (st_buffer stream') = buf_size (st_buffer stream) - 1.
Proof.
  unfold ClearOldestFrame. intros Hclear Hok Hsome.
  pose proof (stream_ok_sizes _ _ Hok) as (? & ? & ? & ?).
  destruct Hok as (Hb & Hq & Hp & Hqc & Hpc & Hsum).
  destruct (DequeueBufferIntoBuffer _ _) as [[framepool buffer] slot] eqn:Hmove.
  injection Hclear as <- <-.
  apply DequeueBufferIntoBuffer_contents in Hmove
    as (Hp' & Hb' & Hc1 & Hc2 & _ & ? & ? & ? & ?); [|done|done|lia|lia].
  simpl. split_and!; try done.
  unfold stream_ok. simpl. split_and!; try done; lia.
Qed.

Lemma ClearAllFrames_loop_held turns stream ws stream' ws' :
  ClearAllFrames_loop turns stream ws = (stream', ws') →
  stream_ok stream ws → buf_size (st_buffer stream) ≤ Z.of_nat turns →
  stream_ok stream' ws' ∧
  contents (st_buffer stream') = [] ∧
  contents (ws_framepool ws') = contents (ws_framepool ws) ++ contents (st_buffer stream) ∧
  ws_framequeue ws' = ws_framequeue ws ∧
  st_stream stream' = st_stream stream.
Proof.
  revert stream ws. induction turns as [|turns IH]; intros stream ws;
    cbn [ClearAllFrames_loop]; intros Hloop Hok Hturns.
  - injection Hloop as <- <-. pose proof (stream_ok_sizes _ _ Hok) as (? & ? & ? & ?).
    rewrite (contents_empty (st_buffer stream)), app_nil_r by lia. done.
  - pose proof (stream_ok_sizes _ _ Hok) as (? & ? & ? & ?).
    destruct (Z.eqb_spec (buf_size (st_buffer stream)) 0) as [Hzero|Hsome];
      cbn [negb] in Hloop.
    + injection Hloop as <- <-.
      rewrite (contents_empty (st_buffer stream)), app_nil_r by lia. done.
    + destruct (ClearOldestFrame stream ws) as [stream1 ws1] eqn:Hclear.
      apply ClearOldestFrame_held in Hclear as (Hok1 & Hc1 & Hc2 & Hq1 & Hs1 & ?);
        [|done|lia].
      apply IH in Hloop as (? & ? & Hc & Hq & Hs); [|done|lia].
      split_and!; [done|done| |congruence|congruence].
      rewrite Hc, Hc2, Hc1, <- app_assoc. done.
Qed.

Lemma FlushStream_held senderror receiveerror stream ws ws' :
  FlushStream senderror receiveerror ws = Returned ws' →
  stream_ok stream ws →
  stream_ok stream ws' ∧
  contents (ws_framequeue ws') = [] ∧
  contents (ws_framepool ws') = contents (ws_framepool ws) ++ contents (ws_framequeue ws).
Proof.
  unfold FlushStream. destruct (senderror <? 0); [done|].
  destruct (receiveerror =? AVERROR_EOF); [|done].
  destruct (DequeueWholeBufferIntoBuffer _ _) as [framepool framequeue] eqn:Hmove.
  intros [= <-] Hok. pose proof (stream_ok_sizes _ _ Hok) as (? & ? & ? & ?).
  destruct Hok as (Hb & Hq & Hp & Hqc & Hpc & Hsum).
  pose proof Hmove as Hshape. apply DequeueWholeBufferIntoBuffer_shape in Hshape
    as ([? _] & [? _] & ?).
  apply DequeueWholeBufferIntoBuffer_contents in Hmove as (Hp' & Hq' & Hc & Hzero);
    [|done|done|lia].
  simpl. split_and!; [|by apply contents_empty; lia|done].
  unfold stream_ok. simpl. split_and!; try done; lia.
Qed.

Lemma Poll_held stream ws buffer framequeue :
  DequeueWholeBufferIntoBuffer (st_buffer stream) (ws_framequeue ws) = (buffer, framequeue) →
  stream_ok stream ws →
  stream_ok (set_st_buffer stream buffer) (set_ws_framequeue ws framequeue) ∧
  contents buffer = contents (st_buffer stream) ++ contents (ws_framequeue ws) ∧
  contents framequeue = [].
Proof.
  intros Hmove Hok. pose proof (stream_ok_sizes _ _ Hok) as (? & ? & ? & ?).
  destruct Hok as (Hb & Hq & Hp & Hqc & Hpc & Hsum).
  pose proof Hmove as Hshape. apply DequeueWholeBufferIntoBuffer_shape in Hshape
    as ([? _] & [? _] & ?).
  apply DequeueWholeBufferIntoBuffer_contents in Hmove as (Hb' & Hq' & Hc & Hzero);
    [|done|done|lia].
  split_and!; [|done|by apply contents_empty; lia].
  unfold stream_ok. simpl. split_and!; try done; lia.
Qed.

(** The worker fills the frame at the head of the pool and queues it. *)
Lemma Parse_held stream ws (fill : A → A) framequeue framepool slot :
  DequeueBufferIntoBuffer (ws_framequeue ws)
    (update_slot (ws_framepool ws) (PeekBuffer (ws_framepool ws)) fill)
  = (framequeue, framepool, slot) →
  stream_ok stream ws → 0 < buf_size (ws_framepool ws) →
  stream_ok stream (set_ws_framepool (set_ws_framequeue ws framequeue) framepool) ∧
  contents (ws_framepool ws) = frame_at (ws_framepool ws) 0 :: contents framepool ∧
  contents framequeue
  = contents (ws_framequeue ws) ++ [fill (frame_at (ws_framepool ws) 0)].
Proof.
  intros Hmove Hok Hsome. pose proof (stream_ok_sizes _ _ Hok) as (? & ? & ? & ?).
  destruct Hok as (Hb & Hq & Hp & Hqc & Hpc & Hsum).
  pose proof (contents_update_slot (ws_framepool ws) 0 fill Hp ltac:(lia) Hsome) as Hupdate.
  fold (PeekBuffer (ws_framepool ws)) in Hupdate.
  set (pool1 := update_slot _ _ _) in *.
  assert (buffer_ok pool1) as Hp1 by (by apply update_slot_ok).
  assert (buf_size pool1 = buf_size (ws_framepool ws)) as Hs1 by apply update_slot_size.
  assert (buf_capacity pool1 = buf_capacity (ws_framepool ws)) as Hc1
    by (by destruct (update_slot_same_frame (ws_framepool ws)
                       (PeekBuffer (ws_framepool ws)) fill)).
  apply DequeueBufferIntoBuffer_contents in Hmove
    as (Hq' & Hp' & Hcq & Hcp & _ & ? & ? & ? & ?); [|done|done|lia|lia].
  assert (frame_at pool1 0 = fill (frame_at (ws_framepool ws) 0)) as Hhead.
  { apply (inj Some). rewrite <- (contents_lookup pool1 0) by lia.
    rewrite Hupdate. apply list_lookup_insert_eq. rewrite length_contents. lia. }
  split_and!.
  - unfold stream_ok. simpl. split_and!; try done; lia.
  - rewrite Hcp, Hhead in Hupdate.
    destruct (contents (ws_framepool ws)) as [|x l] eqn:Hc.
    { apply (f_equal length) in Hc. rewrite length_contents in Hc. simpl in Hc. lia. }
    simpl in Hupdate. injection Hupdate as <-. f_equal.
    apply (inj Some). rewrite <- (contents_lookup (ws_framepool ws) 0) by lia.
    by rewrite Hc.
  - by rewrite Hcq, Hhead.
Qed.
End Held.

(** ** The video frames of a playing movie *)

Lemma StronglySorted_app_l {A} (R : A → A → Prop) (l k : list A) :
  StronglySorted R (l ++ k) → StronglySorted R l.
Proof.
  induction l as [|x l IH]; [constructor|]. simpl. intros Hs.
  apply StronglySorted_inv in Hs as [Hs Hx]. constructor; [by apply IH|].
  by apply Forall_app in Hx as [? _].
Qed.

Lemma StronglySorted_app_r {A} (R : A → A → Prop) (l k : list A) :
  StronglySorted R (l ++ k) → StronglySorted R k.
Proof.
  induction l as [|x l IH]; [done|]. simpl. intros Hs.
  apply StronglySorted_inv in Hs as [Hs _]. by apply IH.
Qed.

Lemma StronglySorted_snoc {A} (R : A → A → Prop) (l : list A) (x : A) :
  StronglySorted R l → Forall (λ y, R y x) l → StronglySorted R (l ++ [x]).
Proof.
  induction l as [|y l IH]; simpl; intros Hs Hx.
  - repeat constructor.
  - apply StronglySorted_inv in Hs as [Hs Hy]. apply Forall_cons in Hx as [? Hx].
    constructor; [by apply IH|]. apply Forall_app. split; [done|]. by constructor.
Qed.

(** Frames leave the head of the consumer buffer for the pool. *)
Lemma video_lists_clear images nextframeid old buffer framequeue framepool :
  video_lists images nextframeid (old ++ buffer) framequeue framepool →
  video_lists images nextframeid buffer framequeue (framepool ++ old).
Proof.
  intros (Hperm & Hsorted & Hbelow). split_and!.
  - rewrite <- Hperm, !fmap_app. solve_Permutation.
  - rewrite <- app_assoc, fmap_app in Hsorted. by apply StronglySorted_app_r in Hsorted.
  - rewrite <- app_assoc in Hbelow. by apply Forall_app in Hbelow as [_ ?].
Qed.

(** The frames of the queue join the consumer buffer. *)
Lemma video_lists_poll images nextframeid buffer framequeue framepool :
  video_lists images nextframeid buffer framequeue framepool →
  video_lists images nextframeid (buffer ++ framequeue) [] framepool.
Proof.
  intros (Hperm & Hsorted & Hbelow). split_and!.
  - rewrite <- Hperm, !fmap_app. simpl. by rewrite <- app_assoc.
  - by rewrite app_nil_r.
  - by rewrite app_nil_r.
Qed.

(** The frames of the queue go back to the pool. *)
Lemma video_lists_flush images nextframeid buffer framequeue framepool :
  video_lists images nextframeid buffer framequeue framepool →
  video_lists images nextframeid buffer [] (framepool ++ framequeue).
Proof.
  intros (Hperm & Hsorted & Hbelow). split_and!.
  - rewrite <- Hperm, !fmap_app. simpl. solve_Permutation.
  - rewrite app_nil_r. rewrite fmap_app in Hsorted. by apply StronglySorted_app_l in Hsorted.
  - rewrite app_nil_r. by apply Forall_app in Hbelow as [? _].
Qed.

(** The frame at the head of the pool is given the next id and queued. *)
Lemma video_lists_parse images nextframeid buffer framequeue frame framepool pts duration :
  video_lists images nextframeid buffer framequeue (frame :: framepool) →
  video_lists images (nextframeid + 1) buffer
    (framequeue ++ [{| vf_id := nextframeid; vf_pts := pts; vf_duration := duration;
                       vf_image := vf_image frame |}])
    framepool.
Proof.
  intros (Hperm & Hsorted & Hbelow). split_and!.
  - rewrite <- Hperm, !fmap_app. simpl. solve_Permutation.
  - rewrite app_assoc, fmap_app. apply StronglySorted_snoc; [done|].
    apply Forall_fmap. eapply Forall_impl; [exact Hbelow|]. intros f ?.
    unfold compose. simpl in *. lia.
  - rewrite app_assoc. apply Forall_app. split.
    + eapply Forall_impl; [exact Hbelow|]. intros f ?. simpl in *. lia.
    + constructor; [simpl; lia|constructor].
Qed.

Lemma video_ok_kept images m m' :
  videostream m' = videostream m →
  dw_videostream (decodeworker m') = dw_videostream (decodeworker m) →
  dw_nextframeid (decodeworker m') = dw_nextframeid (decodeworker m) →
  video_ok images m → video_ok images m'.
Proof. unfold video_ok. by intros -> -> ->. Qed.

Lemma ClearOldVideoFrames_loop_held limit turns stream ws stream' ws' :
  ClearOldVideoFrames_loop limit turns stream ws = (stream', ws') →
  stream_ok stream ws → buf_size (st_buffer stream) ≤ Z.of_nat turns →
  ∃ old,
    stream_ok stream' ws' ∧
    contents (st_buffer stream) = old ++ contents (st_buffer stream') ∧
    contents (ws_framepool ws') = contents (ws_framepool ws) ++ old ∧
    ws_framequeue ws' = ws_framequeue ws ∧
    st_stream stream' = st_stream stream ∧
    Forall (λ frame, vf_pts frame < limit) old ∧
    (∀ frame, head (contents (st_buffer stream')) = Some frame → limit ≤ vf_pts frame).
Proof.
  revert stream ws. induction turns as [|turns IH]; intros stream ws;
    cbn [ClearOldVideoFrames_loop]; intros Hloop Hok Hturns.
  - injection Hloop as <- <-. pose proof (stream_ok_sizes _ _ Hok) as (? & ? & ? & ?).
    exists []. rewrite app_nil_r, (contents_empty (st_buffer stream)) by lia. done.
  - pose proof (stream_ok_sizes _ _ Hok) as (? & ? & ? & ?).
    destruct (Z.ltb_spec 0 (buf_size (st_buffer stream))) as [Hsome|Hnone];
      cbn [andb] in Hloop.
    + assert (head (contents (st_buffer stream)) = Some (frame_at (st_buffer stream) 0))
        as Hhead.
      { rewrite head_lookup. apply (contents_lookup _ 0); lia. }
      destruct (Z.ltb_spec (vf_pts (frame_at (st_buffer stream) 0)) limit) as [Hold|Hnew].
      * destruct (ClearOldestFrame stream ws) as [stream1 ws1] eqn:Hclear.
        apply ClearOldestFrame_held in Hclear as (Hok1 & Hc1 & Hc2 & Hq1 & Hs1 & ?);
          [|done|lia].
        apply IH in Hloop as (old & ? & Hc & Hp & Hq & Hs & Hless & Hfirst); [|done|lia].
        exists (frame_at (st_buffer stream) 0 :: old).
        split_and!; [done| | |congruence|congruence|by constructor|done].
        -- rewrite Hc1, Hc. done.
        -- rewrite Hp, Hc2, <- app_assoc. done.
      * injection Hloop as <- <-. exists []. rewrite app_nil_r.
        split_and!; try done. intros frame Hframe. rewrite Hhead in Hframe.
        by injection Hframe as <-.
    + injection Hloop as <- <-. exists [].
      rewrite app_nil_r, (contents_empty (st_buffer stream)) by lia. done.
Qed.

Lemma PollVideoFrameQueue_video images m :
  video_ok images m → video_ok images (PollVideoFrameQueue m).
Proof.
  intros [Hok Hlists]. unfold PollVideoFrameQueue.
  destruct (negb _); [|done].
  destruct (DequeueWholeBufferIntoBuffer _ _) as [buffer framequeue] eqn:Hmove.
  apply Poll_held in Hmove as (Hok' & Hb & Hq); [|done].
  split; [exact Hok'|]. simpl. rewrite Hb, Hq. by apply video_lists_poll.
Qed.

Lemma ClearOldVideoFrames_video images m :
  video_ok images m → video_ok images (ClearOldVideoFrames m).
Proof.
  intros [Hok Hlists]. unfold ClearOldVideoFrames.
  destruct (ClearOldVideoFrames_loop _ _ _ _) as [stream ws] eqn:Hloop.
  apply ClearOldVideoFrames_loop_held in Hloop
    as (old & Hok' & Hb & Hp & Hq & _); [|done|lia].
  split; [exact Hok'|]. simpl. rewrite Hp, Hq. rewrite Hb in Hlists.
  by apply video_lists_clear.
Qed.

Lemma ClearAllFrames_video images m :
  video_ok images m → video_ok images (ClearAllFrames m).
Proof.
  intros [Hok Hlists]. unfold ClearAllFrames.
  destruct (ClearAllFrames_loop _ (videostream m) _) as [vstream vws] eqn:Hloop.
  destruct (ClearAllFrames_loop _ (audiostream m) _) as [astream aws].
  apply ClearAllFrames_loop_held in Hloop as (Hok' & Hb & Hp & Hq & _); [|done|lia].
  split; [exact Hok'|]. simpl. rewrite Hb, Hp, Hq.
  rewrite <- (app_nil_r (contents (st_buffer (videostream m)))) in Hlists at 1.
  by apply video_lists_clear.
Qed.

Lemma FlushDecodeWorker_frames worker :
  dw_videostream (FlushDecodeWorker worker) = dw_videostream worker ∧
  dw_audiostream (FlushDecodeWorker worker) = dw_audiostream worker ∧
  dw_nextframeid (FlushDecodeWorker worker) = dw_nextframeid worker ∧
  dw_flushing (FlushDecodeWorker worker) = true.
Proof. unfold FlushDecodeWorker. by destruct (DequeueWholeBufferIntoBuffer _ _). Qed.

Lemma Seek_video images seekerror m m' :
  Seek seekerror m = Returned m' → video_ok images m → video_ok images m'.
Proof.
  unfold Seek. destruct (seekerror <? 0); [done|]. intros [= <-] Hvideo.
  apply (ClearAllFrames_video images (set_seeking m true)) in Hvideo.
  destruct (FlushDecodeWorker_frames (decodeworker (ClearAllFrames (set_seeking m true))))
    as (Hv & _ & Hn & _).
  revert Hvideo. by apply video_ok_kept.
Qed.

Lemma UpdateSeeking_video images seekerror m m' :
  UpdateSeeking seekerror m = Returned m' → video_ok images m → video_ok images m'.
Proof.
  unfold UpdateSeeking. intros Hupdate Hvideo.
  match type of Hupdate with
  | context [IsPTSInVideoBuffer ?x _] => set (m1 := x) in *
  end.
  assert (video_ok images m1) as Hvideo1 by (subst m1; by repeat case_match).
  apply outcome_bind_Returned in Hupdate as (m2 & Hseek & Hupdate).
  assert (video_ok images m2) as Hvideo2.
  { destruct (negb _); [by eapply Seek_video|by injection Hseek as <-]. }
  repeat case_match; by injection Hupdate as <-.
Qed.

Lemma FlushDecoding_video images vsend vreceive asend areceive m worker :
  FlushDecoding vsend vreceive asend areceive (decodeworker m) = Returned worker →
  video_ok images m → video_ok images (set_decodeworker m worker).
Proof.
  unfold FlushDecoding. intros Hflush [Hok Hlists].
  apply outcome_bind_Returned in Hflush as (vs & Hvs & Hflush).
  apply outcome_bind_Returned in Hflush as (aus & _ & Hflush).
  injection Hflush as <-.
  apply (FlushStream_held _ _ (videostream m)) in Hvs as (Hok' & Hq & Hp); [|done].
  split; [exact Hok'|]. simpl. rewrite Hq, Hp. by apply video_lists_flush.
Qed.

Lemma ParseVideoFrame_video images m frame :
  video_ok images m →
  buf_size (ws_framepool (dw_videostream (decodeworker m))) ≠ 0 →
  video_ok images (set_decodeworker m (ParseVideoFrame (set_dw_frame (decodeworker m) frame))).
Proof.
  intros [Hok Hlists] Hsome. pose proof (stream_ok_sizes _ _ Hok) as (? & ? & ? & ?).
  unfold ParseVideoFrame.
  destruct (DequeueBufferIntoBuffer _ _) as [[framequeue framepool] slot] eqn:Hmove.
  cbn [dw_videostream set_dw_frame set_dw_nextframeid dw_frame dw_nextframeid] in Hmove.
  apply (Parse_held (videostream m)) in Hmove as (Hok' & Hp & Hq); [|done|lia].
  split; [exact Hok'|]. simpl. rewrite Hq. rewrite Hp in Hlists.
  by apply video_lists_parse.
Qed.

(** ** The audio frames of a playing movie *)

Lemma ClearOldAudioFrames_loop_held m limit turns stream ws stream' ws' :
  ClearOldAudioFrames_loop m limit turns stream ws = (stream', ws') →
  stream_ok stream ws → buf_size (st_buffer stream) ≤ Z.of_nat turns →
  ∃ old,
    stream_ok stream' ws' ∧
    contents (st_buffer stream) = old ++ contents (st_buffer stream') ∧
    contents (ws_framepool ws') = contents (ws_framepool ws) ++ old ∧
    ws_framequeue ws' = ws_framequeue ws ∧
    st_stream stream' = st_stream stream ∧
    Forall (λ frame, GetAudioFrameEndPTS m frame < limit) old ∧
    (∀ frame, head (contents (st_buffer stream')) = Some frame →
       limit ≤ GetAudioFrameEndPTS m frame).
Proof.
  revert stream ws. induction turns as [|turns IH]; intros stream ws;
    cbn [ClearOldAudioFrames_loop]; intros Hloop Hok Hturns.
  - injection Hloop as <- <-. pose proof (stream_ok_sizes _ _ Hok) as (? & ? & ? & ?).
    exists []. rewrite app_nil_r, (contents_empty (st_buffer stream)) by lia. done.
  - pose proof (stream_ok_sizes _ _ Hok) as (? & ? & ? & ?).
    destruct (Z.ltb_spec 0 (buf_size (st_buffer stream))) as [Hsome|Hnone];
      cbn [andb] in Hloop.
    + assert (head (contents (st_buffer stream)) = Some (frame_at (st_buffer stream) 0))
        as Hhead.
      { rewrite head_lookup. apply (contents_lookup _ 0); lia. }
      destruct (Z.ltb_spec (GetAudioFrameEndPTS m (frame_at (st_buffer stream) 0)) limit)
        as [Hold|Hnew].
      * destruct (ClearOldestFrame stream ws) as [stream1 ws1] eqn:Hclear.
        apply ClearOldestFrame_held in Hclear as (Hok1 & Hc1 & Hc2 & Hq1 & Hs1 & ?);
          [|done|lia].
        apply IH in Hloop as (old & ? & Hc & Hp & Hq & Hs & Hless & Hfirst); [|done|lia].
        exists (frame_at (st_buffer stream) 0 :: old).
        split_and!; [done| | |congruence|congruence|by constructor|done].
        -- rewrite Hc1, Hc. done.
        -- rewrite Hp, Hc2, <- app_assoc. done.
      * injection Hloop as <- <-. exists []. rewrite app_nil_r.
        split_and!; try done. intros frame Hframe. rewrite Hhead in Hframe.
        by injection Hframe as <-.
    + injection Hloop as <- <-. exists [].
      rewrite app_nil_r, (contents_empty (st_buffer stream)) by lia. done.
Qed.

Lemma gapless_app_r frames later : gapless (frames ++ later) → gapless later.
Proof.
  intros Hgap. apply (gapless_drop _ (length frames)) in Hgap. by rewrite drop_app_length in Hgap.
Qed.

(** A step that keeps the capacity of the audio buffers keeps the audio
    stream in order, if it does so from a well-formed state. *)
Lemma audio_ok_moved m m' :
  movie_moved m m' →
  (stream_ok (audiostream m) (dw_audiostream (decodeworker m)) →
   gapless (contents (st_buffer (audiostream m))) →
   stream_ok (audiostream m') (dw_audiostream (decodeworker m')) ∧
   gapless (contents (st_buffer (audiostream m')))) →
  audio_ok m → audio_ok m'.
Proof.
  intros [_ ([Hcap _] & _)] Hstep Haudio Hcap'. rewrite Hcap in Hcap'.
  destruct (Haudio Hcap') as [? ?]. by apply Hstep.
Qed.

Lemma audio_ok_kept m m' :
  audiostream m' = audiostream m →
  dw_audiostream (decodeworker m') = dw_audiostream (decodeworker m) →
  audio_ok m → audio_ok m'.
Proof. unfold audio_ok. by intros -> ->. Qed.

Lemma PollAudioFrameQueue_audio m : audio_ok m → audio_ok (PollAudioFrameQueue m).
Proof.
  apply audio_ok_moved; [apply PollAudioFrameQueue_moved|]. intros Hok Hgap.
  pose proof (stream_ok_sizes _ _ Hok) as (? & ? & ? & ?).
  unfold PollAudioFrameQueue. destruct (negb _); [|done].
  destruct (PollAudioFrameQueue_loop _ _ _ _) as [buffer framequeue] eqn:Hloop.
  destruct Hok as (Hb & Hq & Hp & Hqc & Hpc & Hsum).
  pose proof (PollAudioFrameQueue_loop_shape _ _ _ _ _ _ Hloop) as ([? _] & [? _] & ?).
  apply PollAudioFrameQueue_loop_contents in Hloop as (Hb' & Hq' & Hc & Hzero);
    [|done|done|lia|lia].
  simpl. split.
  - unfold stream_ok. simpl. split_and!; try done; lia.
  - rewrite Hc. by apply assign_positions_gapless.
Qed.

Lemma ClearOldAudioFrames_audio m : audio_ok m → audio_ok (ClearOldAudioFrames m).
Proof.
  apply audio_ok_moved; [apply ClearOldAudioFrames_moved|]. intros Hok Hgap.
  unfold ClearOldAudioFrames.
  destruct (ClearOldAudioFrames_loop _ _ _ _ _) as [stream ws] eqn:Hloop.
  apply ClearOldAudioFrames_loop_held in Hloop as (old & Hok' & Hb & _); [|done|lia].
  simpl. split; [done|]. rewrite Hb in Hgap. by eapply gapless_app_r.
Qed.

Lemma ClearAllFrames_audio m : audio_ok m → audio_ok (ClearAllFrames m).
Proof.
  apply audio_ok_moved; [apply ClearAllFrames_moved|]. intros Hok Hgap.
  unfold ClearAllFrames.
  destruct (ClearAllFrames_loop _ (videostream m) _) as [vstream vws].
  destruct (ClearAllFrames_loop _ (audiostream m) _) as [astream aws] eqn:Hloop.
  apply ClearAllFrames_loop_held in Hloop as (Hok' & Hb & _); [|done|lia].
  simpl. split; [done|]. by rewrite Hb.
Qed.

Lemma Seek_audio seekerror m m' : Seek seekerror m = Returned m' → audio_ok m → audio_ok m'.
Proof.
  unfold Seek. destruct (seekerror <? 0); [done|]. intros [= <-] Haudio.
  apply (ClearAllFrames_audio (set_seeking m true)) in Haudio.
  destruct (FlushDecodeWorker_frames (decodeworker (ClearAllFrames (set_seeking m true))))
    as (_ & Ha & _).
  revert Haudio. by apply audio_ok_kept.
Qed.

Lemma UpdateSeeking_audio seekerror m m' :
  UpdateSeeking seekerror m = Returned m' → audio_ok m → audio_ok m'.
Proof.
  unfold UpdateSeeking. intros Hupdate Haudio.
  match type of Hupdate with
  | context [IsPTSInVideoBuffer ?x _] => set (m1 := x) in *
  end.
  assert (audio_ok m1) as Haudio1 by (subst m1; by repeat case_match).
  apply outcome_bind_Returned in Hupdate as (m2 & Hseek & Hupdate).
  assert (audio_ok m2) as Haudio2.
  { destruct (negb _); [by eapply Seek_audio|by injection Hseek as <-]. }
  repeat case_match; by injection Hupdate as <-.
Qed.

Lemma FlushDecoding_audio vsend vreceive asend areceive m worker :
  FlushDecoding vsend vreceive asend areceive (decodeworker m) = Returned worker →
  audio_ok m → audio_ok (set_decodeworker m worker).
Proof.
  intros Hflush. apply audio_ok_moved; [by eapply FlushDecoding_moved|]. intros Hok Hgap.
  unfold FlushDecoding in Hflush.
  apply outcome_bind_Returned in Hflush as (vs & _ & Hflush).
  apply outcome_bind_Returned in Hflush as (aus & Haus & Hflush).
  injection Hflush as <-. simpl in *.
  by apply (FlushStream_held _ _ (audiostream m)) in Haus as (Hok' & _).
Qed.

Lemma InitialiseAudioBuffer_loop_start samples_alloc turns i framepool framepool' :
  InitialiseAudioBuffer_loop samples_alloc turns i framepool = Returned framepool' →
  buf_start framepool' = buf_start framepool.
Proof.
  revert i framepool. induction turns as [|turns IH]; intros i framepool;
    cbn [InitialiseAudioBuffer_loop].
  - by intros [= <-].
  - destruct (EnqueueBuffer framepool) as [pool1 frame] eqn:Henq.
    pose proof (EnqueueBuffer_shape framepool) as (_ & _ & Hstart).
    rewrite Henq in Hstart. simpl in Hstart.
    case_match; [done|]. intros Hloop. apply IH in Hloop. congruence.
Qed.

(** The audio buffers right after [InitialiseAudioBuffer]: the consumer
    buffer and the frame queue are empty and the pool holds every frame. *)
Lemma InitialiseAudioBuffer_fresh mem planar samples_alloc sizeof stream worker
    stream' worker' :
  InitialiseAudioBuffer mem planar samples_alloc sizeof stream worker
    = Returned (stream', worker') →
  st_stream stream ≠ None →
  0 < buf_capacity (st_buffer stream') →
  stream_ok stream' (dw_audiostream worker') ∧
  buf_size (st_buffer stream') = 0 ∧
  buf_size (ws_framequeue (dw_audiostream worker')) = 0 ∧
  is_Some (buf_data (ws_framequeue (dw_audiostream worker'))).
Proof.
  unfold InitialiseAudioBuffer. destruct (st_stream stream); [|done].
  intros Hinit _.
  apply outcome_bind_Returned in Hinit as (buffer & Hbuffer & Hinit).
  apply InitialiseBuffer_inv in Hbuffer as [Hcap ->]. cbn zeta in Hinit.
  apply outcome_bind_Returned in Hinit as (framequeue & Hqueue & Hinit).
  apply outcome_bind_Returned in Hinit as (framepool & Hpool & Hinit).
  apply outcome_bind_Returned in Hinit as (framepool' & Hloop & Hinit).
  injection Hinit as <- <-.
  set (capacity := to_INT32 _) in *. cbn [st_buffer set_st_buffer buf_capacity].
  intros Hpos.
  assert (Z.of_nat (length (slots (A := movieaudioframe)
            (Moviebuffer capacity sizeof 0 0
               (Some (replicate (Z.to_nat capacity) inhabitant))))) = capacity) as Hlen.
  { unfold slots; simpl. rewrite length_replicate. lia. }
  pose proof Hqueue as Hdata. unfold CloneBuffer, calloc in Hdata.
  apply CloneBuffer_inv in Hqueue as (? & ? & ? & Hq); [|exact Hlen].
  apply CloneBuffer_inv in Hpool as (? & ? & ? & Hp); [|exact Hlen].
  pose proof (InitialiseAudioBuffer_loop_start _ _ _ _ _ Hloop) as Hstart.
  apply InitialiseAudioBuffer_loop_shape in Hloop as [[? Hlen'] ?]. simpl in *.
  split_and!; [|done|done|].
  - unfold stream_ok, buffer_ok. simpl. rewrite Hlen', Hq, Hp, Hlen. split_and!; lia.
  - destruct (mem && (0 <=? capacity)); [|done]. injection Hdata as <-. by eexists.
Qed.

(** The worker converts an audio frame when the audio buffers are not yet
    there or when the pool has a frame for it. *)
Lemma ParseAudioFrame_audio mem planar samples_alloc sizeof numoutputsamples converted m m' :
  ParseAudioFrame mem planar samples_alloc sizeof numoutputsamples converted m = Returned m' →
  audio_ok m →
  (stream_ok (audiostream m) (dw_audiostream (decodeworker m)) →
   buf_size (ws_framepool (dw_audiostream (decodeworker m))) ≠ 0) →
  audio_ok m'.
Proof.
  unfold ParseAudioFrame. intros Hparse Haudio Hguard Hcap'.
  apply outcome_bind_Returned in Hparse as ([stream worker] & Hinit & Hparse).
  destruct (numoutputsamples <? 0); [done|].
  destruct (DequeueBufferIntoBuffer _ _) as [[framequeue framepool] slot] eqn:Hmove.
  injection Hparse as <-. simpl in Hcap' |- *.
  assert (stream_ok stream (dw_audiostream worker) ∧
          gapless (contents (st_buffer stream)) ∧
          buf_size (ws_framepool (dw_audiostream worker)) ≠ 0) as (Hok & Hgap & Hsome).
  { destruct (buf_data (ws_framequeue (dw_audiostream (decodeworker m)))) as [d|] eqn:Hdata.
    - injection Hinit as <- <-. destruct (Haudio Hcap') as [? ?].
      split; [done|]. split; [done|]. by apply Hguard.
    - destruct (st_stream (audiostream m)) as [st|] eqn:Hst.
      + apply InitialiseAudioBuffer_fresh in Hinit as (Hok & Hb & Hq & _);
          [|by rewrite Hst|done].
        pose proof (stream_ok_sizes _ _ Hok) as (? & ? & ? & ?).
        destruct Hok as (? & ? & ? & ? & ? & ?).
        split; [done|]. split; [by rewrite contents_empty by lia|lia].
      + unfold InitialiseAudioBuffer in Hinit. rewrite Hst in Hinit.
        injection Hinit as <- <-. destruct (Haudio Hcap') as [Hok _].
        destruct Hok as (_ & (_ & _ & _ & _ & Hlen) & _ & Hqc & _).
        unfold slots in Hlen. rewrite Hdata in Hlen. simpl in Hlen. lia. }
  pose proof (stream_ok_sizes _ _ Hok) as (? & ? & ? & ?).
  apply (Parse_held stream) in Hmove as (Hok' & _); [|done|lia].
  split; [exact Hok'|done].
Qed.

Lemma ParseAudioFrame_video images mem planar samples_alloc sizeof numoutputsamples converted
    m m' :
  ParseAudioFrame mem planar samples_alloc sizeof numoutputsamples converted m = Returned m' →
  video_ok images m → video_ok images m'.
Proof.
  unfold ParseAudioFrame. intros Hparse.
  apply outcome_bind_Returned in Hparse as ([stream worker] & Hinit & Hparse).
  assert (dw_videostream worker = dw_videostream (decodeworker m) ∧
          dw_nextframeid worker = dw_nextframeid (decodeworker m)) as [Hv Hn].
  { destruct (buf_data _); [by injection Hinit as <- <-|].
    unfold InitialiseAudioBuffer in Hinit. destruct (st_stream _); [|by injection Hinit as <- <-].
    apply outcome_bind_Returned in Hinit as (buffer & _ & Hinit). cbn zeta in Hinit.
    apply outcome_bind_Returned in Hinit as (framequeue & _ & Hinit).
    apply outcome_bind_Returned in Hinit as (framepool & _ & Hinit).
    apply outcome_bind_Returned in Hinit as (framepool' & _ & Hinit).
    by injection Hinit as <- <-. }
  destruct (numoutputsamples <? 0); [done|].
  destruct (DequeueBufferIntoBuffer _ _) as [[framequeue framepool] slot].
  injection Hparse as <-. by apply video_ok_kept.
Qed.

(** ** The steps of a playing movie keep it in order *)

(** What moves packets leaves the frames alone. *)
Lemma ReadPacket_frames error read m m' more :
  ReadPacket error read m = Returned (m', more) →
  videostream m' = videostream m ∧ audiostream m' = audiostream m ∧
  dw_videostream (decodeworker m') = dw_videostream (decodeworker m) ∧
  dw_audiostream (decodeworker m') = dw_audiostream (decodeworker m) ∧
  dw_nextframeid (decodeworker m') = dw_nextframeid (decodeworker m) ∧
  dw_flushing (decodeworker m') = dw_flushing (decodeworker m).
Proof.
  unfold ReadPacket. destruct (error =? AVERROR_EOF); [by intros [= <- <-]|].
  destruct (error <? 0); [done|]. destruct (_ || _).
  - destruct (DequeueBufferIntoBuffer _ _) as [[packetqueue packetpool] slot].
    by intros [= <- <-].
  - by intros [= <- <-].
Qed.

Lemma SendPacket_frames senderror worker worker' :
  SendPacket senderror worker = Returned worker' →
  dw_videostream worker' = dw_videostream worker ∧
  dw_audiostream worker' = dw_audiostream worker ∧
  dw_nextframeid worker' = dw_nextframeid worker.
Proof.
  unfold SendPacket. destruct (_ =? 0); [by intros [= <-]|].
  destruct (DequeueBufferIntoBuffer _ _) as [[packetpool packetqueue] slot].
  destruct (_ || _); [|done]. destruct (senderror <? 0); [done|]. by intros [= <-].
Qed.

Lemma MovieDecode_Update_packets_steps reads m m' :
  MovieDecode_Update_packets reads m = Some (Returned m') →
  rtc movie_step m m' ∧
  videostream m' = videostream m ∧ audiostream m' = audiostream m ∧
  dw_videostream (decodeworker m') = dw_videostream (decodeworker m) ∧
  dw_audiostream (decodeworker m') = dw_audiostream (decodeworker m) ∧
  dw_nextframeid (decodeworker m') = dw_nextframeid (decodeworker m) ∧
  dw_flushing (decodeworker m') = dw_flushing (decodeworker m).
Proof.
  revert m. induction reads as [|[error read] reads IH]; intros m;
    cbn [MovieDecode_Update_packets].
  - destruct (0 <? _); [done|]. by intros [= <-].
  - destruct (Z.ltb_spec 0 (buf_size (dw_packetpool (decodeworker m)))) as [Hsome|];
      [|by intros [= <-]].
    destruct (ReadPacket error read m) as [[m1 more]|] eqn:Hread; [|done].
    pose proof (ReadPacket_frames _ _ _ _ _ Hread) as (? & ? & ? & ? & ? & ?).
    assert (movie_step m m1) as Hstep by (by eapply step_ReadPacket).
    destruct more.
    + intros Hloop. apply IH in Hloop as (? & ? & ? & ? & ? & ? & ?).
      split; [by eapply rtc_l|]. split_and!; congruence.
    + intros [= <-]. split; [by apply rtc_once|done].
Qed.

Lemma MovieDecode_Update_frames_steps seekerror m m' :
  MovieDecode_Update_frames seekerror m = Returned m' → rtc movie_step m m'.
Proof.
  unfold MovieDecode_Update_frames. intros Hupdate.
  apply outcome_bind_Returned in Hupdate as (m2 & Hseek & Hupdate).
  set (m1 := if negb _ then _ else m) in *.
  assert (rtc movie_step m m1) as H1.
  { subst m1. destruct (negb _); [|done].
    eapply rtc_l; [apply step_frames, step_PollVideoFrameQueue|].
    apply rtc_once, step_frames, step_PollAudioFrameQueue. }
  assert (rtc movie_step m1 m2) as H2
    by (eapply rtc_once, step_frames, step_UpdateSeeking; done).
  etrans; [exact H1|]. etrans; [exact H2|].
  destruct (0 <? _); injection Hupdate as <-; [|done].
  eapply rtc_l; [apply step_frames, step_ClearOldVideoFrames|].
  apply rtc_once, step_frames, step_ClearOldAudioFrames.
Qed.

Lemma MovieDecode_Update_frames_ok images seekerror m m' :
  MovieDecode_Update_frames seekerror m = Returned m' →
  video_ok images m → audio_ok m → video_ok images m' ∧ audio_ok m'.
Proof.
  unfold MovieDecode_Update_frames. intros Hupdate Hvideo Haudio.
  apply outcome_bind_Returned in Hupdate as (m2 & Hseek & Hupdate).
  set (m1 := if negb _ then _ else m) in *.
  assert (video_ok images m1 ∧ audio_ok m1) as [Hvideo1 Haudio1].
  { subst m1. destruct (negb _); [|done]. split.
    - eapply video_ok_kept; [..|by apply PollVideoFrameQueue_video];
        unfold PollAudioFrameQueue; destruct (negb _); try done;
        by destruct (PollAudioFrameQueue_loop _ _ _ _).
    - apply PollAudioFrameQueue_audio.
      eapply audio_ok_kept; [..|exact Haudio];
        unfold PollVideoFrameQueue; destruct (negb _); try done;
        by destruct (DequeueWholeBufferIntoBuffer _ _). }
  assert (video_ok images m2 ∧ audio_ok m2) as [Hvideo2 Haudio2]
    by (split; [by eapply UpdateSeeking_video|by eapply UpdateSeeking_audio]).
  destruct (0 <? _); injection Hupdate as <-; [|done]. split.
  - eapply video_ok_kept; [..|by apply ClearOldVideoFrames_video];
      unfold ClearOldAudioFrames; by destruct (ClearOldAudioFrames_loop _ _ _ _ _).
  - apply ClearOldAudioFrames_audio.
    eapply audio_ok_kept; [..|exact Haudio2];
      unfold ClearOldVideoFrames; by destruct (ClearOldVideoFrames_loop _ _ _ _).
Qed.

Lemma packets_ok_kept m m' :
  dw_packetqueue (decodeworker m') = dw_packetqueue (decodeworker m) →
  dw_packetpool (decodeworker m') = dw_packetpool (decodeworker m) →
  dw_packets (decodeworker m') = dw_packets (decodeworker m) →
  st_index (videostream m') = st_index (videostream m) →
  st_index (audiostream m') = st_index (audiostream m) →
  ws_index (dw_videostream (decodeworker m')) = ws_index (dw_videostream (decodeworker m)) →
  ws_index (dw_audiostream (decodeworker m')) = ws_index (dw_audiostream (decodeworker m)) →
  packets_ok m → packets_ok m'.
Proof. unfold packets_ok. by intros -> -> -> -> -> -> ->. Qed.

Lemma rtc_movie_step_packets_ok m m' : rtc movie_step m m' → packets_ok m → packets_ok m'.
Proof. induction 1; [done|]. intros ?. eauto using movie_step_packets_ok. Qed.

(** A flush gives frames to the pools and takes none. *)
Lemma FlushDecoding_pools vsend vreceive asend areceive worker worker' :
  FlushDecoding vsend vreceive asend areceive worker = Returned worker' →
  (∀ stream, stream_ok stream (dw_videostream worker) →
     buf_size (ws_framepool (dw_videostream worker))
     ≤ buf_size (ws_framepool (dw_videostream worker'))) ∧
  (∀ stream, stream_ok stream (dw_audiostream worker) →
     buf_size (ws_framepool (dw_audiostream worker))
     ≤ buf_size (ws_framepool (dw_audiostream worker'))) ∧
  dw_packetqueue worker' = dw_packetqueue worker ∧
  dw_stopping worker' = dw_stopping worker.
Proof.
  unfold FlushDecoding. intros Hflush.
  apply outcome_bind_Returned in Hflush as (vs & Hvs & Hflush).
  apply outcome_bind_Returned in Hflush as (aus & Haus & Hflush).
  injection Hflush as <-. simpl in *.
  assert (∀ A `{!Inhabited A} (stream : moviestream A) ws ws' send receive,
            FlushStream send receive ws = Returned ws' → stream_ok stream ws →
            buf_size (ws_framepool ws) ≤ buf_size (ws_framepool ws')) as Hpool.
  { intros A ? stream ws ws' send receive Hf Hok.
    pose proof (stream_ok_sizes _ _ Hok) as (? & ? & ? & ?).
    apply (FlushStream_held _ _ stream) in Hf as (Hok' & _ & Hc); [|done].
    pose proof (stream_ok_sizes _ _ Hok') as (? & ? & ? & ?).
    apply (f_equal length) in Hc. rewrite length_app, !length_contents in Hc. lia. }
  split_and!; [| |done|done].
  - intros stream Hok. by eapply Hpool.
  - intros stream Hok. by eapply Hpool.
Qed.

Lemma DecoderThread_turn_ok images ev m m' more :
  DecoderThread_turn ev m = Returned (m', more) →
  video_ok images m → audio_ok m → packets_ok m →
  video_ok images m' ∧ audio_ok m' ∧ packets_ok m'.
Proof.
  unfold DecoderThread_turn. intros Hturn Hvideo Haudio Hpackets.
  destruct (dw_stopping (decodeworker m)).
  { injection Hturn as <- <-. split_and!;
      [by eapply video_ok_kept|by eapply audio_ok_kept|by eapply packets_ok_kept]. }
  apply outcome_bind_Returned in Hturn as (worker1 & Hflush & Hturn).
  set (m1 := set_decodeworker m worker1).
  assert (video_ok images m1 ∧ audio_ok m1 ∧ packets_ok m1 ∧
          (∀ stream, stream_ok stream (dw_videostream (decodeworker m)) →
             buf_size (ws_framepool (dw_videostream (decodeworker m)))
             ≤ buf_size (ws_framepool (dw_videostream worker1))) ∧
          (∀ stream, stream_ok stream (dw_audiostream (decodeworker m)) →
             buf_size (ws_framepool (dw_audiostream (decodeworker m)))
             ≤ buf_size (ws_framepool (dw_audiostream worker1))) ∧
          buf_capacity (st_buffer (audiostream m1)) = buf_capacity (st_buffer (audiostream m)) ∧
          dw_packetqueue worker1 = dw_packetqueue (decodeworker m))
    as (Hvideo1 & Haudio1 & Hpackets1 & Hvpool & Hapool & Hacap & Hqueue).
  { destruct (dw_flushing (decodeworker m)).
    - pose proof (FlushDecoding_pools _ _ _ _ _ _ Hflush) as (? & ? & ? & ?).
      split_and!; [by eapply FlushDecoding_video|by eapply FlushDecoding_audio| |done..].
      eapply packets_kept_ok; [|exact Hpackets].
      by eapply frame_step_packets_kept, step_FlushDecoding.
    - injection Hflush as <-. subst m1.
      split_and!; [by eapply video_ok_kept|by eapply audio_ok_kept|by eapply packets_ok_kept
                  |done..]. }
  destruct (_ || _) eqn:Hfull; [by injection Hturn as <- <-|].
  apply orb_false_iff in Hfull as [Hvsize Hasize]. apply Z.eqb_neq in Hvsize.
  apply outcome_bind_Returned in Hturn as (vreceived & _ & Hturn).
  destruct vreceived.
  { injection Hturn as <- <-.
    pose proof (ParseVideoFrame_moved m1 (ev_videoframe ev)) as Hmoved.
    pose proof (step_ParseVideoFrame m1 (ev_videoframe ev)) as Hstep.
    split_and!.
    - apply (ParseVideoFrame_video images m1); [done|].
      destruct Hvideo as [Hok _]. pose proof (stream_ok_sizes _ _ Hok) as (? & ? & ? & ?).
      specialize (Hvpool _ Hok). simpl. lia.
    - revert Haudio1. apply audio_ok_kept; [done|]. unfold ParseVideoFrame.
      by destruct (DequeueBufferIntoBuffer _ _) as [[? ?] ?].
    - eapply packets_kept_ok; [|exact Hpackets1]. by apply frame_step_packets_kept. }
  apply outcome_bind_Returned in Hturn as (areceived & _ & Hturn).
  destruct areceived.
  { apply outcome_bind_Returned in Hturn as (m2 & Hparse & Hturn).
    injection Hturn as <- <-.
    assert (frame_step m1 m2) as Hstep by (by eapply step_ParseAudioFrame).
    split_and!.
    - eapply ParseAudioFrame_video; [exact Hparse|]. by eapply video_ok_kept.
    - eapply ParseAudioFrame_audio; [exact Hparse|by eapply audio_ok_kept|].
      simpl. intros Hok1. pose proof (stream_ok_sizes _ _ Hok1) as (? & ? & ? & ?).
      destruct (Haudio ltac:(lia)) as [Hok _].
      pose proof (stream_ok_sizes _ _ Hok) as (? & ? & ? & ?).
      specialize (Hapool _ Hok).
      destruct Hok as (_ & (_ & _ & _ & _ & Hlen) & _ & Hqc & _).
      destruct (buf_data (ws_framequeue (dw_audiostream (decodeworker m)))) as [d|] eqn:Hdata.
      + simpl in Hasize. apply Z.eqb_neq in Hasize. lia.
      + unfold slots in Hlen. rewrite Hdata in Hlen. simpl in Hlen. lia.
    - eapply packets_kept_ok; [|exact Hpackets1]. by apply frame_step_packets_kept. }
  assert (packets_ok (set_decodeworker m (set_dw_frame (set_dw_frame worker1 (ev_videoframe ev))
                                            (ev_audioframe ev)))) as Hpackets2
    by (by eapply packets_ok_kept; [..|exact Hpackets1]).
  destruct (0 <? _).
  - apply outcome_bind_Returned in Hturn as (worker2 & Hsend & Hturn).
    injection Hturn as <- <-.
    pose proof (SendPacket_frames _ _ _ Hsend) as (? & ? & ?).
    split_and!.
    + by eapply video_ok_kept; [..|exact Hvideo1].
    + by eapply audio_ok_kept; [..|exact Haudio1].
    + pose proof (step_SendPacket
                    (set_decodeworker m (set_dw_frame (set_dw_frame worker1 (ev_videoframe ev))
                                           (ev_audioframe ev)))
                    (ev_senderror ev) worker2 Hsend) as Hstep.
      exact (movie_step_packets_ok _ _ Hstep Hpackets2).
  - injection Hturn as <- <-. split_and!; [|by eapply audio_ok_kept; [..|exact Haudio1]|done].
    by eapply video_ok_kept; [..|exact Hvideo1].
Qed.

Lemma playing_step_ok images m m' :
  playing_step m m' →
  video_ok images m → audio_ok m → packets_ok m →
  video_ok images m' ∧ audio_ok m' ∧ packets_ok m'.
Proof.
  intros [m1 reads seekerror m2 Hupdate|m1 ev m2 more Hturn|m1 ms|m1 ms|m1|m1 planar size]
    Hvideo Haudio Hpackets.
  - unfold MovieDecode_Update in Hupdate.
    destruct (MovieDecode_Update_packets reads m1) as [[m3|]|] eqn:Hreads; [|done..].
    injection Hupdate as Hframes.
    apply MovieDecode_Update_packets_steps in Hreads as (Hsteps & ? & ? & ? & ? & ? & ?).
    assert (video_ok images m3) as Hvideo3 by (by eapply video_ok_kept).
    assert (audio_ok m3) as Haudio3 by (by eapply audio_ok_kept).
    assert (packets_ok m3) as Hpackets3 by (by eapply rtc_movie_step_packets_ok).
    destruct (MovieDecode_Update_frames_ok images _ _ _ Hframes Hvideo3 Haudio3) as [? ?].
    split_and!; [done..|].
    eapply rtc_movie_step_packets_ok; [|exact Hpackets3].
    by eapply MovieDecode_Update_frames_steps.
  - by eapply DecoderThread_turn_ok.
  - unfold MovieDecode_SetPosition. destruct (_ =? -1);
      (split_and!; [by eapply video_ok_kept|by eapply audio_ok_kept|by eapply packets_ok_kept]).
  - unfold MovieDecode_Seek. destruct (_ =? -1);
      (split_and!; [by eapply video_ok_kept|by eapply audio_ok_kept|by eapply packets_ok_kept]).
  - unfold MovieDecode_GetImage. repeat case_match; simpl;
      (split_and!; [by eapply video_ok_kept|by eapply audio_ok_kept|by eapply packets_ok_kept]).
  - unfold MovieDecode_CopyAudioSamples. destruct (_ =? -1); simpl;
      (split_and!; [by eapply video_ok_kept|by eapply audio_ok_kept|by eapply packets_ok_kept]).
Qed.

Lemma playing_steps_ok images m m' :
  rtc playing_step m m' →
  video_ok images m → audio_ok m → packets_ok m →
  video_ok images m' ∧ audio_ok m' ∧ packets_ok m'.
Proof.
  induction 1 as [|m1 m2 m3 Hstep _ IH]; [done|]. intros Hvideo Haudio Hpackets.
  destruct (playing_step_ok images _ _ Hstep Hvideo Haudio Hpackets) as (? & ? & ?).
  by apply IH.
Qed.

(** ** The movie right after [MovieDecode_Play] *)

Lemma InitialiseImages_loop_contents alloc up turns i framepool framepool' :
  InitialiseImages_loop alloc up turns i framepool = Returned framepool' →
  buffer_ok framepool → buf_size framepool + Z.of_nat turns ≤ buf_capacity framepool →
  buffer_ok framepool' ∧
  (∀ k, i ≤ k → k < i + Z.of_nat turns → is_Some (alloc k)) ∧
  vf_image <$> contents framepool'
  = (vf_image <$> contents framepool)
    ++ ((λ k, default 0 (alloc k)) <$> seqZ i (Z.of_nat turns)).
Proof.
  revert i framepool. induction turns as [|turns IH]; intros i framepool;
    cbn [InitialiseImages_loop]; intros Hloop Hok Hroom.
  - injection Hloop as <-. rewrite app_nil_r. split; [done|]. split; [intros; lia|done].
  - unfold EnqueueBuffer in Hloop. cbv zeta in Hloop.
    pose proof Hok as (? & ? & ? & ? & Hlen).
    set (pool1 := set_size framepool (buf_size framepool + 1)) in *.
    assert (buffer_ok pool1) as Hok1 by (repeat split; simpl; try lia; done).
    destruct (alloc i) as [addr|] eqn:Halloc; [|by destruct up].
    assert (buf_size pool1 - 1 = buf_size framepool) as Hindex by (simpl; lia).
    rewrite Hindex in Hloop.
    pose proof (contents_update_slot pool1 (buf_size framepool) (λ f, set_vf_image f addr)
                  Hok1 ltac:(lia) ltac:(simpl; lia)) as Hupdate.
    set (pool2 := update_slot pool1 _ _) in *.
    assert (buffer_ok pool2) as Hok2 by (by apply update_slot_ok).
    assert (buf_size pool2 = buf_size framepool + 1) as Hsize2
      by (unfold pool2; by rewrite update_slot_size).
    assert (buf_capacity pool2 = buf_capacity framepool) as Hcap2.
    { unfold pool2, update_slot, GetBufferSlot. by case_match. }
    apply IH in Hloop as (Hok' & Hsome & Hc); [|done|lia].
    split; [done|]. split.
    + intros k ? ?. destruct (decide (k = i)) as [->|]; [by rewrite Halloc|].
      apply Hsome; lia.
    + rewrite Hc, Hupdate. unfold pool1 at 2. rewrite contents_set_size_succ by lia.
      replace (Z.to_nat (buf_size framepool)) with (length (contents framepool) + 0)%nat
        by (rewrite length_contents; lia).
      rewrite insert_app_r. simpl. rewrite fmap_app, <- app_assoc. f_equal. simpl.
      rewrite (seqZ_cons i) by lia. rewrite fmap_cons, Halloc. simpl.
      by replace (Z.pred (Z.of_nat (S turns))) with (Z.of_nat turns) by lia.
Qed.

Lemma InitialiseImages_loop_returns alloc up turns i framepool :
  (∃ framepool', InitialiseImages_loop alloc up turns i framepool = Returned framepool') ↔
  (∀ k, i ≤ k → k < i + Z.of_nat turns → is_Some (alloc k)).
Proof.
  revert i framepool. induction turns as [|turns IH]; intros i framepool;
    cbn [InitialiseImages_loop].
  - split; [intros _ k ? ?; lia|by eexists].
  - destruct (EnqueueBuffer framepool) as [pool1 frame].
    destruct (alloc i) as [addr|] eqn:Halloc.
    + rewrite IH. split.
      * intros Hsome k ? ?. destruct (decide (k = i)) as [->|]; [by rewrite Halloc|].
        apply Hsome; lia.
      * intros Hsome k ? ?. apply Hsome; lia.
    + split.
      * intros [framepool' Hloop]. by destruct up.
      * intros Hsome. specialize (Hsome i ltac:(lia) ltac:(lia)).
        rewrite Halloc in Hsome. by destruct Hsome.
Qed.

Lemma InitialisePacketQueue_loop_returns turns worker :
  ∃ worker', InitialisePacketQueue_loop true turns worker = Returned worker'.
Proof.
  revert worker. induction turns as [|turns IH]; intros worker;
    cbn [InitialisePacketQueue_loop av_packet_alloc]; [by eexists|].
  destruct (EnqueueBuffer _) as [packetpool packetslot]. apply IH.
Qed.

Lemma InitialisePacketQueue_returns sizeof worker :
  ∃ worker', InitialisePacketQueue true sizeof worker = Returned worker'.
Proof. destruct worker. eexists. vm_compute. reflexivity. Qed.

(** The capacity [InitialiseVideoBuffer] gives to the video buffers. *)
Lemma MovieDecode_Play_inv lump info host up m :
  MovieDecode_Play lump info host up = Returned m →
  let fps := avg_frame_rate (mi_videostream info) in
  let capacity := to_INT32 (Z.quot (Z.quot STREAM_BUFFER_TIME 1000 * num fps) (den fps)) in
  let buffer : moviebuffer movievideoframe :=
    Moviebuffer capacity (hi_sizeof_movievideoframe_t host) 0 0
      (Some (replicate (Z.to_nat capacity) inhabitant)) in
  ∃ bytes framepool,
    lump = Some bytes ∧ 0 ≤ mi_videoindex info ∧ hi_mem host = true ∧ 0 ≤ capacity ∧
    InitialiseImages_loop (hi_image_alloc host) up (Z.to_nat capacity) 0 buffer
    = Returned framepool ∧
    (up = true → is_Some (hi_image_alloc host capacity)) ∧
    lumpdata m = bytes ∧ lumpsize m = Z.of_nat (length bytes) ∧ lumpposition m = 0 ∧
    position m = 0 ∧ audioposition m = 0 ∧ lastvideoframeusedid m = 0 ∧
    usepatches m = up ∧ seeking m = false ∧
    videostream m = Moviestream (Some (mi_videostream info)) (mi_videoindex info) buffer 1 ∧
    st_buffer (audiostream m) = zero_buffer ∧
    st_index (audiostream m) = mi_audioindex info ∧
    dw_videostream (decodeworker m)
    = Workerstream (mi_videoindex info) (mi_videocodec info) buffer framepool ∧
    dw_audiostream (decodeworker m)
    = Workerstream (mi_audioindex info) (mi_audiocodec info) zero_buffer zero_buffer ∧
    dw_packetqueue (decodeworker m)
    = Moviebuffer 32 (hi_sizeof_AVPacket_ptr host) 0 0 (Some (replicate 32 inhabitant)) ∧
    dw_packetpool (decodeworker m)
    = Moviebuffer 32 (hi_sizeof_AVPacket_ptr host) 0 32 (Some (Packetptr <$> seqZ 0 32)) ∧
    dw_nextframeid (decodeworker m) = 0 ∧ dw_flushing (decodeworker m) = false ∧
    dw_stopping (decodeworker m) = false ∧ dw_usepatches (decodeworker m) = up.
Proof.
  intros Hplay fps capacity buffer. unfold MovieDecode_Play in Hplay.
  apply outcome_bind_Returned in Hplay as (m1 & Hlump & Hplay).
  destruct lump as [bytes|]; [|done]. injection Hlump as <-.
  apply outcome_bind_Returned in Hplay as (m2 & Hdemux & Hplay).
  unfold InitialiseDemuxing in Hdemux.
  destruct (Z.ltb_spec (mi_videoindex info) 0); [done|].
  injection Hdemux as <-.
  apply outcome_bind_Returned in Hplay as (m3 & Hvideo & Hplay).
  unfold InitialiseVideoBuffer in Hvideo.
  apply outcome_bind_Returned in Hvideo as (buffer' & Hbuffer & Hvideo).
  pose proof Hbuffer as Hmem. unfold InitialiseBuffer, calloc in Hmem.
  destruct (hi_mem host) eqn:Hhost; [|done]. clear Hmem.
  apply InitialiseBuffer_inv in Hbuffer as [Hcap Hbuffer].
  change (0 ≤ capacity) in Hcap. change (buffer' = buffer) in Hbuffer. subst buffer'.
  injection Hvideo as <-.
  unfold InitialiseDecodeWorker in Hplay.
  apply outcome_bind_Returned in Hplay as (framequeue & Hqueue & Hplay).
  apply outcome_bind_Returned in Hplay as (framepool0 & Hpool & Hplay).
  rewrite Hhost in Hqueue, Hpool.
  change (CloneBuffer true buffer = Returned framequeue) in Hqueue.
  change (CloneBuffer true buffer = Returned framepool0) in Hpool.
  assert (CloneBuffer true buffer = Returned buffer) as Hclone.
  { unfold CloneBuffer, calloc, buffer. simpl.
    destruct (Z.leb_spec 0 capacity); [|lia]. unfold set_data, slots. simpl.
    rewrite take_app_le by (rewrite length_replicate; lia).
    rewrite take_ge by (rewrite length_replicate; lia). done. }
  rewrite Hclone in Hqueue, Hpool. injection Hqueue as <-. injection Hpool as <-.
  apply outcome_bind_Returned in Hplay as (worker1 & Himages & Hplay).
  apply outcome_bind_Returned in Hplay as (worker2 & Hpackets & Hplay).
  injection Hplay as <-.
  unfold InitialiseImages in Himages.
  apply outcome_bind_Returned in Himages as (framepool & Hloop & Himages).
  change (InitialiseImages_loop (hi_image_alloc host) up (Z.to_nat capacity) 0 buffer
          = Returned framepool) in Hloop.
  cbn [dw_videostream set_dw_videostream set_dw_audiostream set_dw_usepatches
       dw_usepatches ws_framepool buf_capacity] in Himages.
  assert ((up = true → is_Some (hi_image_alloc host capacity)) ∧
          dw_videostream worker1
          = Workerstream (mi_videoindex info) (mi_videocodec info) buffer framepool ∧
          dw_audiostream worker1
          = Workerstream (mi_audioindex info) (mi_audiocodec info) zero_buffer zero_buffer ∧
          dw_packets worker1 = [] ∧
          dw_nextframeid worker1 = 0 ∧ dw_flushing worker1 = false ∧
          dw_stopping worker1 = false ∧ dw_usepatches worker1 = up)
    as (? & Hv1 & Ha1 & Hp1 & Hn1 & Hf1 & Hs1 & Hu1).
  { change (buf_capacity buffer) with capacity in Himages.
    destruct up; [destruct (hi_image_alloc host capacity); [|done]|];
      injection Himages as <-; split_and!; done. }
  rewrite Hhost in Hpackets. pose proof Hpackets as Hpackets'.
  apply InitialisePacketQueue_packets in Hpackets as (Hq2 & Hp2 & Hv2 & Ha2); [|done].
  assert (dw_nextframeid worker2 = dw_nextframeid worker1 ∧
          dw_flushing worker2 = dw_flushing worker1 ∧
          dw_stopping worker2 = dw_stopping worker1 ∧
          dw_usepatches worker2 = dw_usepatches worker1) as (Hn2 & Hf2 & Hs2 & Hu2).
  { destruct worker1. simpl in Hp1. subst. vm_compute in Hpackets'.
    by injection Hpackets' as <-. }
  exists bytes, framepool. cbn. rewrite Hq2, Hp2, Hv2, Ha2, Hv1, Ha1, Hn2, Hf2, Hs2, Hu2.
  split_and!; done.
Qed.

Lemma MovieDecode_Play_images lump info host up m :
  MovieDecode_Play lump info host up = Returned m →
  let capacity := buf_capacity (st_buffer (videostream m)) in
  contents (st_buffer (videostream m)) = [] ∧
  contents (ws_framequeue (dw_videostream (decodeworker m))) = [] ∧
  vf_image <$> contents (ws_framepool (dw_videostream (decodeworker m)))
  = (λ k, default 0 (hi_image_alloc host k)) <$> seqZ 0 capacity ∧
  (0 < capacity → stream_ok (videostream m) (dw_videostream (decodeworker m))).
Proof.
  intros Hplay. apply MovieDecode_Play_inv in Hplay
    as (bytes & framepool & _ & _ & _ & Hcap & Hloop & _ & _ & _ & _ & _ & _ & _ & _ & _
        & Hv & _ & _ & Hw & _).
  rewrite Hv, Hw. cbn. set (capacity := to_INT32 _) in *.
  set (buffer := Moviebuffer capacity _ 0 0 _) in *.
  split; [done|]. split; [done|].
  destruct (decide (capacity = 0)) as [Hzero|Hpos].
  - rewrite Hzero in *. simpl in Hloop. injection Hloop as <-. done.
  - assert (buffer_ok buffer) as Hok.
    { unfold buffer_ok, buffer, slots. simpl. rewrite length_replicate. lia. }
    pose proof (InitialiseImages_loop_shape _ _ _ _ _ _ Hloop) as [[Hc Hl] Hsize].
    apply InitialiseImages_loop_contents in Hloop as (Hok' & _ & Hcontents);
      [|done|simpl; lia]. simpl in Hc, Hsize.
    rewrite Hcontents. rewrite (contents_empty buffer) by (simpl; lia). simpl.
    rewrite seqZ_to_nat. split; [done|]. intros _.
    unfold stream_ok. simpl. rewrite Hc, Hsize. split_and!; try done; lia.
Qed.

Lemma MovieDecode_Play_ok lump info host up m :
  MovieDecode_Play lump info host up = Returned m →
  0 < buf_capacity (st_buffer (videostream m)) →
  video_ok ((λ k, default 0 (hi_image_alloc host k))
              <$> seqZ 0 (buf_capacity (st_buffer (videostream m)))) m ∧
  audio_ok m ∧ packets_ok m.
Proof.
  intros Hplay Hcap.
  pose proof (MovieDecode_Play_images _ _ _ _ _ Hplay) as (Hb & Hq & Hp & Hok).
  pose proof (MovieDecode_Play_packets_ok _ _ _ _ _ Hplay) as Hpackets.
  apply MovieDecode_Play_inv in Hplay
    as (bytes & framepool & _ & _ & _ & _ & _ & _ & _ & _ & _ & _ & _ & _ & _ & _
        & _ & Ha & _ & _ & _ & _ & _ & Hn & _).
  split_and!; [|by intros Hpos; rewrite Ha in Hpos|done].
  split; [by apply Hok|]. rewrite Hb, Hq, Hn. unfold video_lists. simpl.
  split_and!; [by rewrite Hp|constructor|constructor].
Qed.

Lemma InitialiseVideoBuffer_returns sizeof m :
  let fps := stream_avg_frame_rate (videostream m) in
  let capacity := to_INT32 (Z.quot (Z.quot STREAM_BUFFER_TIME 1000 * num fps) (den fps)) in
  0 ≤ capacity →
  ∃ m', InitialiseVideoBuffer true sizeof m = Returned m' ∧
        st_buffer (videostream m')
        = Moviebuffer capacity sizeof 0 0 (Some (replicate (Z.to_nat capacity) inhabitant)) ∧
        usepatches m' = usepatches m.
Proof.
  intros fps capacity Hcap. unfold InitialiseVideoBuffer, InitialiseBuffer, calloc.
  change (stream_avg_frame_rate (set_st_numplanes (videostream m) 1)) with fps.
  fold capacity. destruct (Z.leb_spec 0 capacity); [|lia]. by eexists.
Qed.

Lemma outcome_returns_bind {A B} (x : outcome A) (f : A → outcome B) a :
  x = Returned a → (∃ b, f a = Returned b) → ∃ b, x ≫= f = Returned b.
Proof. intros -> H. exact H. Qed.

Lemma InitialiseDecodeWorker_returns info host m capacity sizeof :
  hi_mem host = true → 0 ≤ capacity →
  st_buffer (videostream m)
  = Moviebuffer capacity sizeof 0 0 (Some (replicate (Z.to_nat capacity) inhabitant)) →
  (∀ k, 0 ≤ k → k < capacity → is_Some (hi_image_alloc host k)) →
  (usepatches m = true → is_Some (hi_image_alloc host capacity)) →
  ∃ m', InitialiseDecodeWorker info host m = Returned m'.
Proof.
  intros Hmem Hcap Hbuffer Hsome Htmp.
  unfold InitialiseDecodeWorker. rewrite Hmem, Hbuffer.
  set (buffer := Moviebuffer capacity _ 0 0 _).
  assert (CloneBuffer (A := movievideoframe) true buffer = Returned buffer) as ->.
  { unfold CloneBuffer, calloc, buffer. simpl.
    destruct (Z.leb_spec 0 capacity); [|lia]. unfold set_data, slots. simpl.
    rewrite take_app_le by (rewrite length_replicate; lia).
    rewrite take_ge by (rewrite length_replicate; lia). done. }
  cbn [mbind outcome_mbind outcome_bind]. unfold InitialiseImages.
  cbn [dw_videostream set_dw_videostream set_dw_audiostream set_dw_usepatches
       dw_usepatches ws_framepool buf_capacity buffer].
  fold buffer.
  destruct (proj2 (InitialiseImages_loop_returns (hi_image_alloc host) (usepatches m)
                     (Z.to_nat capacity) 0 buffer)) as [framepool ->].
  { intros k ? ?. apply Hsome; lia. }
  cbn [mbind outcome_mbind outcome_bind].
  match goal with
  | |- ∃ m', ?w ≫= _ = _ => assert (∃ worker1, w = Returned worker1) as [worker1 Hworker1]
  end.
  { destruct (usepatches m) eqn:Hup; [|eexists; reflexivity].
    destruct (Htmp eq_refl) as [addr Haddr]. rewrite Haddr. eexists; reflexivity. }
  eapply outcome_returns_bind; [exact Hworker1|].
  match goal with
  | |- ∃ m', InitialisePacketQueue true ?s ?w ≫= _ = _ =>
      destruct (InitialisePacketQueue_returns s w) as [worker2 Hworker2]
  end.
  eapply outcome_returns_bind; [exact Hworker2|]. eexists; reflexivity.
Qed.

(** For a container with an audio stream and a video stream whose average
    frame rate has a denominator that is not 0, and with the calls of the
    codec library taken to succeed and the movie object and the lump data
    allocated: [MovieDecode_Play] returns exactly when the lump is found,
    the container has a video stream, the host has memory for the buffers
    and the packets (the video buffers having a capacity that is not
    negative) and every image can be allocated, one per frame of the video
    buffer, and one more to scale into when patches are asked for. The
    first three failures stop it with their own message, in this order. *)
Theorem MovieDecode_Play_returns (lump : option (list Z)) (info : movieinfo)
    (host : hostinfo) (up : bool) :
  let fps := avg_frame_rate (mi_videostream info) in
  let capacity := to_INT32 (Z.quot (Z.quot STREAM_BUFFER_TIME 1000 * num fps) (den fps)) in
  0 ≤ mi_audioindex info → den fps ≠ 0 →
  ((∃ m, MovieDecode_Play lump info host up = Returned m) ↔
   is_Some lump ∧ 0 ≤ mi_videoindex info ∧ hi_mem host = true ∧ 0 ≤ capacity ∧
   (∀ k, 0 ≤ k → k < capacity → is_Some (hi_image_alloc host k)) ∧
   (up = true → is_Some (hi_image_alloc host capacity))) ∧
  (lump = None →
   MovieDecode_Play lump info host up = I_Error "FFmpeg: cannot find movie lump") ∧
  (is_Some lump → mi_videoindex info < 0 →
   MovieDecode_Play lump info host up = I_Error "FFmpeg: cannot find video stream") ∧
  (is_Some lump → 0 ≤ mi_videoindex info → hi_mem host = false →
   MovieDecode_Play lump info host up = I_Error "FFmpeg: cannot allocate buffer").
Proof.
  intros fps capacity _ _. split_and!.
  - split.
    + intros [m Hplay]. apply MovieDecode_Play_inv in Hplay
        as (bytes & framepool & -> & ? & ? & ? & Hloop & ? & _).
      split_and!; try done. intros k ? ?.
      eapply (proj1 (InitialiseImages_loop_returns _ _ _ _ _)); [by eexists|lia|].
      unfold capacity, fps in *. lia.
    + intros ([bytes ->] & ? & Hmem & Hcap & Hsome & Htmp).
      unfold MovieDecode_Play. cbn [CacheMovieLump mbind outcome_mbind outcome_bind].
      unfold InitialiseDemuxing. destruct (Z.ltb_spec (mi_videoindex info) 0); [lia|].
      cbn [mbind outcome_mbind outcome_bind]. rewrite Hmem.
      match goal with
      | |- ∃ m, InitialiseVideoBuffer true ?s ?m2 ≫= _ = _ =>
          destruct (InitialiseVideoBuffer_returns s m2 Hcap) as (m3 & -> & Hbuffer & Hup)
      end.
      cbn [mbind outcome_mbind outcome_bind].
      eapply InitialiseDecodeWorker_returns; [done|exact Hcap|exact Hbuffer|done|].
      by rewrite Hup.
  - by intros ->.
  - intros [bytes ->] ?. unfold MovieDecode_Play.
    cbn [CacheMovieLump mbind outcome_mbind outcome_bind]. unfold InitialiseDemuxing.
    by destruct (Z.ltb_spec (mi_videoindex info) 0); [|lia].
  - intros [bytes ->] ? Hmem. unfold MovieDecode_Play.
    cbn [CacheMovieLump mbind outcome_mbind outcome_bind]. unfold InitialiseDemuxing.
    destruct (Z.ltb_spec (mi_videoindex info) 0); [lia|].
    cbn [mbind outcome_mbind outcome_bind].
    unfold InitialiseVideoBuffer, InitialiseBuffer, calloc. by rewrite Hmem.
Qed.

Lemma MovieDecode_Play_returns_witness :
  (∃ m, MovieDecode_Play (Some []) example_audio_info example_host false = Returned m) ∧
  MovieDecode_Play None example_audio_info example_host false
  = I_Error "FFmpeg: cannot find movie lump".
Proof.
  destruct (MovieDecode_Play_returns (Some []) example_audio_info example_host false)
    as (Hiff & _); [vm_compute; congruence|vm_compute; congruence|].
  destruct (MovieDecode_Play_returns None example_audio_info example_host false)
    as (_ & Hnone & _); [vm_compute; congruence|vm_compute; congruence|].
  split; [|by apply Hnone].
  apply Hiff. split_and!.
  - by eexists.
  - vm_compute. congruence.
  - reflexivity.
  - vm_compute. congruence.
  - intros k _ _. by eexists.
  - intros. by eexists.
Defined.

(** ** What a playing movie keeps true *)

Lemma MovieDecode_Play_allocated lump info host up m k :
  MovieDecode_Play lump info host up = Returned m →
  0 ≤ k → k < buf_capacity (st_buffer (videostream m)) →
  is_Some (hi_image_alloc host k).
Proof.
  intros Hplay ? Hk. apply MovieDecode_Play_inv in Hplay
    as (bytes & framepool & _ & _ & _ & Hcap & Hloop & _ & _ & _ & _ & _ & _ & _ & _ & _
        & Hv & _).
  rewrite Hv in Hk. cbn [st_buffer buf_capacity] in Hk.
  eapply (proj1 (InitialiseImages_loop_returns _ _ _ _ _)); [by eexists|lia|lia].
Qed.

Lemma playing_ok lump info host up m0 m :
  MovieDecode_Play lump info host up = Returned m0 →
  0 < buf_capacity (st_buffer (videostream m0)) →
  rtc playing_step m0 m →
  video_ok ((λ k, default 0 (hi_image_alloc host k))
              <$> seqZ 0 (buf_capacity (st_buffer (videostream m0)))) m ∧
  audio_ok m ∧ packets_ok m.
Proof.
  intros Hplay Hcap Hsteps.
  destruct (MovieDecode_Play_ok _ _ _ _ _ Hplay Hcap) as (? & ? & ?).
  by eapply playing_steps_ok.
Qed.

(** The steps of the examples: four turns of the decoding thread, an
    update, and the game taking the image and samples. *)
Ltac example_playing_steps :=
  eapply rtc_l;
    [apply (playing_DecoderThread _ (example_video_events 0)
              (example_turn (example_video_events 0) example_audio_played) true);
     vm_compute; reflexivity|];
  eapply rtc_l;
    [apply (playing_DecoderThread _ (example_video_events 40)
              (example_turn (example_video_events 40)
                 (example_turn (example_video_events 0) example_audio_played)) true);
     vm_compute; reflexivity|];
  eapply rtc_l;
    [eapply (playing_DecoderThread _ (example_audio_events 0 [1; 2; 3; 4; 5; 6; 7; 8]) _ true);
     vm_compute; reflexivity|];
  eapply rtc_l;
    [eapply (playing_DecoderThread _ (example_audio_events 4 [9; 10; 11; 12; 13; 14; 15; 16])
               _ true);
     vm_compute; reflexivity|];
  eapply rtc_l;
    [eapply (playing_Update _ example_reads 0); vm_compute; reflexivity|];
  eapply rtc_l; [apply playing_GetImage|];
  eapply rtc_l; [apply (playing_CopyAudioSamples _ false 4)|];
  vm_compute; apply rtc_refl.

(** Between [MovieDecode_Play] and [MovieDecode_Stop], whatever the game and
    the decoding thread do (updates, turns of the decoding thread, setting
    the position, seeking, taking the image, copying samples), the images
    [MovieDecode_Play] allocated are each held by one frame of the consumer
    buffer, of the frame queue or of the frame pool of the video stream:
    none is lost and none is in two frames. *)
Theorem playing_images_held lump info host up (m0 m : movie) :
  MovieDecode_Play lump info host up = Returned m0 →
  0 < buf_capacity (st_buffer (videostream m0)) →
  rtc playing_step m0 m →
  Some <$> (vf_image <$> held (videostream m) (dw_videostream (decodeworker m)))
  ≡ₚ hi_image_alloc host <$> seqZ 0 (buf_capacity (st_buffer (videostream m0))).
Proof.
  intros Hplay Hcap Hsteps.
  destruct (playing_ok _ _ _ _ _ _ Hplay Hcap Hsteps) as ([_ (Himages & _)] & _).
  unfold held. rewrite Himages, <-list_fmap_compose.
  match goal with |- ?l ≡ₚ ?l' => assert (l = l') as ->; [|done] end.
  apply list_fmap_ext. intros i k Hk.
  apply lookup_seqZ in Hk as [-> ?].
  destruct (MovieDecode_Play_allocated _ _ _ _ _ (0 + Z.of_nat i) Hplay) as [addr Haddr];
    [lia..|].
  simpl. by rewrite Haddr.
Qed.

Lemma playing_images_held_witness :
  Some <$> (vf_image <$> held (videostream example_playing_movie)
                           (dw_videostream (decodeworker example_playing_movie)))
  ≡ₚ hi_image_alloc example_host
       <$> seqZ 0 (buf_capacity (st_buffer (videostream example_audio_played))).
Proof.
  apply (playing_images_held (Some []) example_audio_info example_host false
           example_audio_played example_playing_movie).
  - vm_compute. reflexivity.
  - vm_compute. reflexivity.
  - example_playing_steps.
Defined.

(** In a playing movie the decoded video frames, those of the consumer
    buffer followed by those of the frame queue, have strictly increasing
    ids, all below the id the worker gives next: no two frames that the
    game can be handed have the same id. *)
Theorem playing_video_ids_increase lump info host up (m0 m : movie) :
  MovieDecode_Play lump info host up = Returned m0 →
  0 < buf_capacity (st_buffer (videostream m0)) →
  rtc playing_step m0 m →
  StronglySorted Z.lt (vf_id <$> decoded_video m) ∧
  Forall (λ frame, vf_id frame < dw_nextframeid (decodeworker m)) (decoded_video m).
Proof.
  intros Hplay Hcap Hsteps.
  by destruct (playing_ok _ _ _ _ _ _ Hplay Hcap Hsteps) as ([_ (_ & ? & ?)] & _).
Qed.

Lemma playing_video_ids_increase_witness :
  StronglySorted Z.lt (vf_id <$> decoded_video example_playing_movie) ∧
  Forall (λ frame, vf_id frame < dw_nextframeid (decodeworker example_playing_movie))
    (decoded_video example_playing_movie).
Proof.
  apply (playing_video_ids_increase (Some []) example_audio_info example_host false
           example_audio_played example_playing_movie).
  - vm_compute. reflexivity.
  - vm_compute. reflexivity.
  - example_playing_steps.
Defined.

(** In a playing movie whose audio buffers have been allocated, the frames
    of the consumer audio buffer follow each other without a gap: each
    starts at the sample where the one before ends. *)
Theorem playing_audio_gapless lump info host up (m0 m : movie) :
  MovieDecode_Play lump info host up = Returned m0 →
  0 < buf_capacity (st_buffer (videostream m0)) →
  rtc playing_step m0 m →
  0 < buf_capacity (st_buffer (audiostream m)) →
  gapless (contents (st_buffer (audiostream m))).
Proof.
  intros Hplay Hcap Hsteps Haudio.
  destruct (playing_ok _ _ _ _ _ _ Hplay Hcap Hsteps) as (_ & Hok & _).
  by destruct (Hok Haudio).
Qed.

Lemma playing_audio_gapless_witness :
  gapless (contents (st_buffer (audiostream example_playing_movie))).
Proof.
  apply (playing_audio_gapless (Some []) example_audio_info example_host false
           example_audio_played example_playing_movie).
  - vm_compute. reflexivity.
  - vm_compute. reflexivity.
  - example_playing_steps.
  - vm_compute. reflexivity.
Defined.

(** In a playing movie every circular buffer stays in the state its
    operations, which check nothing, need: the start within the capacity,
    the size between 0 and the capacity, as many slots as the capacity.
    This holds of the video buffers and the packet buffers, and of the
    audio buffers once they are allocated. *)
Theorem playing_buffers_ok lump info host up (m0 m : movie) :
  MovieDecode_Play lump info host up = Returned m0 →
  0 < buf_capacity (st_buffer (videostream m0)) →
  rtc playing_step m0 m →
  let worker := decodeworker m in
  (buffer_ok (st_buffer (videostream m)) ∧
   buffer_ok (ws_framequeue (dw_videostream worker)) ∧
   buffer_ok (ws_framepool (dw_videostream worker))) ∧
  (buffer_ok (dw_packetqueue worker) ∧ buffer_ok (dw_packetpool worker)) ∧
  (0 < buf_capacity (st_buffer (audiostream m)) →
   buffer_ok (st_buffer (audiostream m)) ∧
   buffer_ok (ws_framequeue (dw_audiostream worker)) ∧
   buffer_ok (ws_framepool (dw_audiostream worker))).
Proof.
  intros Hplay Hcap Hsteps worker.
  destruct (playing_ok _ _ _ _ _ _ Hplay Hcap Hsteps)
    as ([(? & ? & ? & _) _] & Haudio & [(? & ? & _) _]).
  split_and!; try done. intros Hpos. by destruct (Haudio Hpos) as [(? & ? & ? & _) _].
Qed.

Lemma playing_buffers_ok_witness :
  let worker := decodeworker example_playing_movie in
  (buffer_ok (st_buffer (videostream example_playing_movie)) ∧
   buffer_ok (ws_framequeue (dw_videostream worker)) ∧
   buffer_ok (ws_framepool (dw_videostream worker))) ∧
  (buffer_ok (dw_packetqueue worker) ∧ buffer_ok (dw_packetpool worker)) ∧
  (0 < buf_capacity (st_buffer (audiostream example_playing_movie)) →
   buffer_ok (st_buffer (audiostream example_playing_movie)) ∧
   buffer_ok (ws_framequeue (dw_audiostream worker)) ∧
   buffer_ok (ws_framepool (dw_audiostream worker))).
Proof.
  apply (playing_buffers_ok (Some []) example_audio_info example_host false
           example_audio_played example_playing_movie).
  - vm_compute. reflexivity.
  - vm_compute. reflexivity.
  - example_playing_steps.
Defined.

(** ** What [MovieDecode_Update] does to the frame queues *)













(** ** Evicting the old frames *)

(** [ClearOldVideoFrames] gives back to the frame pool the frames at the
    front of the consumer buffer whose PTS is below the limit (half the
    buffered time before the position), in their order, and stops at the
    first frame that is not: the frames behind it stay, whatever their
    PTS. *)
Theorem ClearOldVideoFrames_drops_front (m : movie) :
  stream_ok (videostream m) (dw_videostream (decodeworker m)) →
  let limit := MSToVideoPTS m (position m - Z.quot STREAM_BUFFER_TIME 2) in
  let m' := ClearOldVideoFrames m in
  ∃ old,
    contents (st_buffer (videostream m)) = old ++ contents (st_buffer (videostream m')) ∧
    contents (ws_framepool (dw_videostream (decodeworker m')))
    = contents (ws_framepool (dw_videostream (decodeworker m))) ++ old ∧
    Forall (λ frame, vf_pts frame < limit) old ∧
    (∀ frame, head (contents (st_buffer (videostream m'))) = Some frame →
       limit ≤ vf_pts frame).
Proof.
  intros Hok limit m'. unfold m', ClearOldVideoFrames. fold limit.
  destruct (ClearOldVideoFrames_loop _ _ _ _) as [stream ws] eqn:Hloop.
  apply ClearOldVideoFrames_loop_held in Hloop
    as (old & _ & Hb & Hp & _ & _ & Hold & Hhead); [|done|lia].
  by exists old.
Qed.

Lemma ClearOldVideoFrames_drops_front_witness :
  let m := set_position example_video_movie 2050 in
  let limit := MSToVideoPTS m (position m - Z.quot STREAM_BUFFER_TIME 2) in
  let m' := ClearOldVideoFrames m in
  ∃ old,
    contents (st_buffer (videostream m)) = old ++ contents (st_buffer (videostream m')) ∧
    contents (ws_framepool (dw_videostream (decodeworker m')))
    = contents (ws_framepool (dw_videostream (decodeworker m))) ++ old ∧
    Forall (λ frame, vf_pts frame < limit) old ∧
    (∀ frame, head (contents (st_buffer (videostream m'))) = Some frame →
       limit ≤ vf_pts frame).
Proof.
  apply (ClearOldVideoFrames_drops_front (set_position example_video_movie 2050)).
  unfold stream_ok, buffer_ok. vm_compute. repeat split; congruence.
Defined.

(** [ClearOldAudioFrames] does the same with the audio frames that end
    before the limit, which is never below 0. *)
Theorem ClearOldAudioFrames_drops_front (m : movie) :
  stream_ok (audiostream m) (dw_audiostream (decodeworker m)) →
  let limit := Z.max (MSToAudioPTS m (position m - Z.quot STREAM_BUFFER_TIME 2)) 0 in
  let m' := ClearOldAudioFrames m in
  ∃ old,
    contents (st_buffer (audiostream m)) = old ++ contents (st_buffer (audiostream m')) ∧
    contents (ws_framepool (dw_audiostream (decodeworker m')))
    = contents (ws_framepool (dw_audiostream (decodeworker m))) ++ old ∧
    Forall (λ frame, GetAudioFrameEndPTS m frame < limit) old ∧
    (∀ frame, head (contents (st_buffer (audiostream m'))) = Some frame →
       limit ≤ GetAudioFrameEndPTS m frame).
Proof.
  intros Hok limit m'. unfold m', ClearOldAudioFrames. fold limit.
  destruct (ClearOldAudioFrames_loop _ _ _ _ _) as [stream ws] eqn:Hloop.
  apply ClearOldAudioFrames_loop_held in Hloop
    as (old & _ & Hb & Hp & _ & _ & Hold & Hhead); [|done|lia].
  by exists old.
Qed.

Lemma ClearOldAudioFrames_drops_front_witness :
  let m := set_position example_copy_movie 2001 in
  let limit := Z.max (MSToAudioPTS m (position m - Z.quot STREAM_BUFFER_TIME 2)) 0 in
  let m' := ClearOldAudioFrames m in
  ∃ old,
    contents (st_buffer (audiostream m)) = old ++ contents (st_buffer (audiostream m')) ∧
    contents (ws_framepool (dw_audiostream (decodeworker m')))
    = contents (ws_framepool (dw_audiostream (decodeworker m))) ++ old ∧
    Forall (λ frame, GetAudioFrameEndPTS m frame < limit) old ∧
    (∀ frame, head (contents (st_buffer (audiostream m'))) = Some frame →
       limit ≤ GetAudioFrameEndPTS m frame).
Proof.
  apply (ClearOldAudioFrames_drops_front (set_position example_copy_movie 2001)).
  unfold stream_ok, buffer_ok. vm_compute. repeat split; congruence.
Defined.

(** ** The movie [MovieDecode_Play] returns *)

(** The movie [MovieDecode_Play] returns is at position 0 with nothing
    decoded: the video buffers have the capacity of [STREAM_BUFFER_TIME] ms
    of frames at the average frame rate, the consumer buffer and the frame
    queue are empty and the frame pool holds one frame per allocated image,
    in the order of the allocations; the audio buffers are not allocated
    yet; the packet queue is empty and the packet pool holds the
    [NUM_PACKETS] packets. *)
Theorem MovieDecode_Play_fresh lump info host up (m : movie) :
  MovieDecode_Play lump info host up = Returned m →
  let fps := avg_frame_rate (mi_videostream info) in
  let capacity := to_INT32 (Z.quot (Z.quot STREAM_BUFFER_TIME 1000 * num fps) (den fps)) in
  let worker := decodeworker m in
  (position m = 0 ∧ audioposition m = 0 ∧ seeking m = false ∧ dw_flushing worker = false) ∧
  (buf_capacity (st_buffer (videostream m)) = capacity ∧
   contents (st_buffer (videostream m)) = [] ∧
   contents (ws_framequeue (dw_videostream worker)) = [] ∧
   Some <$> (vf_image <$> contents (ws_framepool (dw_videostream worker)))
   = hi_image_alloc host <$> seqZ 0 capacity) ∧
  (buf_data (st_buffer (audiostream m)) = None ∧
   buf_data (ws_framequeue (dw_audiostream worker)) = None ∧
   buf_data (ws_framepool (dw_audiostream worker)) = None) ∧
  (contents (dw_packetqueue worker) = [] ∧
   contents (dw_packetpool worker) = Packetptr <$> seqZ 0 NUM_PACKETS).
Proof.
  intros Hplay fps capacity worker.
  pose proof (MovieDecode_Play_images _ _ _ _ _ Hplay) as (Hb & Hq & Hp & _).
  pose proof (λ k, MovieDecode_Play_allocated _ _ _ _ _ k Hplay) as Hsome.
  apply MovieDecode_Play_inv in Hplay
    as (bytes & framepool & _ & _ & _ & _ & _ & _ & _ & _ & _ & Hpos & Hapos & _ & _ & Hseek
        & Hv & Ha & _ & _ & Haw & Hpq & Hpp & _ & Hfl & _).
  assert (buf_capacity (st_buffer (videostream m)) = capacity) as Hcap by (by rewrite Hv).
  rewrite Hcap in *. unfold worker. split_and!; try done.
  - rewrite Hp, <-list_fmap_compose. apply list_fmap_ext. intros i k Hk.
    apply lookup_seqZ in Hk as [-> ?].
    destruct (Hsome (0 + Z.of_nat i)) as [addr Haddr]; [lia..|]. simpl. by rewrite Haddr.
  - by rewrite Ha.
  - by rewrite Haw.
  - by rewrite Haw.
  - by rewrite Hpq.
  - rewrite Hpp. vm_compute. reflexivity.
Qed.

Lemma MovieDecode_Play_fresh_witness :
  let fps := avg_frame_rate (mi_videostream example_info) in
  let capacity := to_INT32 (Z.quot (Z.quot STREAM_BUFFER_TIME 1000 * num fps) (den fps)) in
  let worker := decodeworker example_movie in
  (position example_movie = 0 ∧ audioposition example_movie = 0 ∧
   seeking example_movie = false ∧ dw_flushing worker = false) ∧
  (buf_capacity (st_buffer (videostream example_movie)) = capacity ∧
   contents (st_buffer (videostream example_movie)) = [] ∧
   contents (ws_framequeue (dw_videostream worker)) = [] ∧
   Some <$> (vf_image <$> contents (ws_framepool (dw_videostream worker)))
   = hi_image_alloc example_host <$> seqZ 0 capacity) ∧
  (buf_data (st_buffer (audiostream example_movie)) = None ∧
   buf_data (ws_framequeue (dw_audiostream worker)) = None ∧
   buf_data (ws_framepool (dw_audiostream worker)) = None) ∧
  (contents (dw_packetqueue worker) = [] ∧
   contents (dw_packetpool worker) = Packetptr <$> seqZ 0 NUM_PACKETS).
Proof.
  apply (MovieDecode_Play_fresh (Some []) example_info example_host false example_movie).
  vm_compute. reflexivity.
Defined.

(** ** Changing the image format *)

Lemma update_slot_buffer_ok {A} `{!Inhabited A} (buffer : moviebuffer A) slot f :
  buffer_ok buffer → buffer_ok (update_slot buffer slot f).
Proof.
  intros (? & ? & ? & ? & Hlen). unfold update_slot. destruct slot as [s|]; [|done].
  unfold buffer_ok. simpl. rewrite slots_write_slot, length_insert. done.
Qed.

(** Writing the slot that has just left the queue changes none of its
    frames. *)
Lemma contents_update_left {A} `{!Inhabited A} (buffer : moviebuffer A) f :
  buffer_ok buffer → 0 < buf_size buffer →
  contents (update_slot (DequeueBuffer buffer).1 (DequeueBuffer buffer).2 f)
  = contents (DequeueBuffer buffer).1.
Proof.
  intros Hok Hsome. pose proof Hok as (? & ? & ? & ? & Hlen).
  unfold DequeueBuffer, PeekBuffer, GetBufferSlot. simpl.
  unfold update_slot, contents, read_slot. simpl. rewrite slots_write_slot.
  apply list_fmap_ext. intros n i Hi. apply lookup_seqZ in Hi as [-> ?]. simpl.
  rewrite Z.add_0_r in *. rewrite list_lookup_total_insert_ne; [done|].
  set (c := buf_capacity buffer) in *. set (s := buf_start buffer) in *.
  clearbody c s.
  rewrite (Z.rem_small s c) by lia.
  assert (Z.rem (s + 1) c = if decide (s + 1 < c) then s + 1 else 0) as ->.
  { case_decide; [apply Z.rem_small; lia|].
    replace (s + 1) with c by lia. apply Z.rem_same. lia. }
  set (r := if decide (s + 1 < c) then s + 1 else 0).
  assert (0 ≤ r) by (unfold r; case_decide; lia).
  rewrite Z.rem_mod_nonneg by lia.
  pose proof (Z.mod_pos_bound (r + (0 + Z.of_nat n)) c ltac:(lia)).
  intros Heq. apply Z2Nat.inj in Heq; [|lia..].
  pose proof (Z.div_mod (r + (0 + Z.of_nat n)) c ltac:(lia)) as Hdiv.
  rewrite <-Heq in Hdiv. set (q := (r + (0 + Z.of_nat n)) `div` c) in *. clearbody q.
  clear Heq. unfold r in *. clear r.
  destruct (Z.le_gt_cases q 0); [destruct (decide (q = 0)) as [->|]|].
  - case_decide; lia.
  - assert (c * q ≤ c * (-1)) by (apply Z.mul_le_mono_nonneg_l; lia). case_decide; lia.
  - assert (c * 1 ≤ c * q) by (apply Z.mul_le_mono_nonneg_l; lia). case_decide; lia.
Qed.

Lemma UninitialiseImages_loop_freed up turns framepool freed framepool' freed' :
  UninitialiseImages_loop up turns framepool freed = (framepool', freed') →
  buffer_ok framepool → buf_size framepool ≤ Z.of_nat turns →
  buffer_ok framepool' ∧ buf_size framepool' = 0 ∧
  buf_capacity framepool' = buf_capacity framepool ∧
  freed' = freed ++ (vf_image <$> contents framepool).
Proof.
  revert framepool freed. induction turns as [|turns IH]; intros framepool freed;
    cbn [UninitialiseImages_loop]; intros Hloop Hok Hturns.
  - injection Hloop as <- <-. pose proof Hok as (? & ? & ? & ? & ?).
    rewrite (contents_empty framepool), app_nil_r by lia. split_and!; [done|lia|done|done].
  - pose proof Hok as (? & ? & ? & ? & ?).
    destruct (Z.ltb_spec 0 (buf_size framepool)) as [Hsome|].
    + destruct (DequeueBuffer_contents framepool Hok Hsome) as (Hok1 & Hcontents & Hslot).
      pose proof (contents_update_left framepool (λ f, set_vf_image f 0) Hok Hsome) as Hleft.
      destruct (DequeueBuffer framepool) as [pool1 frame] eqn:Hdeq.
      cbn [fst snd] in *.
      assert (frame_of pool1 frame = frame_at framepool 0) as Hframe.
      { rewrite Hslot. unfold frame_at, frame_of.
        injection Hdeq as <- _. done. }
      assert (buf_size pool1 = buf_size framepool - 1 ∧
              buf_capacity pool1 = buf_capacity framepool) as [Hsize Hcap].
      { injection Hdeq as <- _. done. }
      rewrite Hframe in Hloop.
      set (pool2 := if up then pool1 else update_slot pool1 frame _) in Hloop.
      assert (buffer_ok pool2 ∧ contents pool2 = contents pool1 ∧
              buf_size pool2 = buf_size pool1 ∧ buf_capacity pool2 = buf_capacity pool1)
        as (Hok2 & Hc2 & Hs2 & Hcap2).
      { subst pool2. destruct up; [done|]. split_and!.
        - by apply update_slot_buffer_ok.
        - exact Hleft.
        - apply update_slot_size.
        - unfold update_slot. by destruct frame. }
      apply IH in Hloop as (? & ? & ? & ->); [|done|lia].
      split_and!; [done|done|congruence|].
      rewrite Hcontents, Hc2, <-app_assoc. done.
    + injection Hloop as <- <-.
      rewrite (contents_empty framepool), app_nil_r by lia. split_and!; [done|lia|done|done].
Qed.

Lemma FlushFrameBuffers_held {A} `{!Inhabited A} (stream : moviestream A)
    (ws : moviedecodeworkerstream A) stream' ws' :
  FlushFrameBuffers stream ws = (stream', ws') →
  stream_ok stream ws →
  stream_ok stream' ws' ∧
  buf_size (st_buffer stream') = 0 ∧ buf_size (ws_framequeue ws') = 0 ∧
  buf_capacity (st_buffer stream') = buf_capacity (st_buffer stream) ∧
  contents (ws_framepool ws')
  = contents (ws_framepool ws) ++ contents (st_buffer stream) ++ contents (ws_framequeue ws).
Proof.
  unfold FlushFrameBuffers. intros Hflush Hok.
  pose proof (stream_ok_sizes _ _ Hok) as (? & ? & ? & ?).
  destruct Hok as (Hb & Hq & Hp & Hqc & Hpc & Hsum).
  destruct (DequeueWholeBufferIntoBuffer (ws_framepool ws) (st_buffer stream))
    as [pool1 buffer1] eqn:Hmove1.
  destruct (DequeueWholeBufferIntoBuffer pool1 (ws_framequeue ws))
    as [pool2 queue2] eqn:Hmove2.
  injection Hflush as <- <-.
  pose proof (DequeueWholeBufferIntoBuffer_shape _ _ _ _ Hmove1) as ([? _] & [? _] & ?).
  apply DequeueWholeBufferIntoBuffer_contents in Hmove1 as (Hp1 & Hb1 & Hc1 & Hzero1);
    [|done|done|lia].
  pose proof (DequeueWholeBufferIntoBuffer_shape _ _ _ _ Hmove2) as ([? _] & [? _] & ?).
  apply DequeueWholeBufferIntoBuffer_contents in Hmove2 as (Hp2 & Hq2 & Hc2 & Hzero2);
    [|done|done|lia].
  simpl. split_and!; [|done|done|lia|by rewrite Hc2, Hc1, <-app_assoc].
  unfold stream_ok. simpl. split_and!; try done; lia.
Qed.

Lemma UninitialiseImages_freed m m' freed :
  UninitialiseImages m = (m', freed) →
  stream_ok (videostream m) (dw_videostream (decodeworker m)) →
  freed
  = (vf_image <$> (contents (ws_framepool (dw_videostream (decodeworker m)))
                   ++ contents (st_buffer (videostream m))
                   ++ contents (ws_framequeue (dw_videostream (decodeworker m)))))
    ++ (if usepatches m then [dw_tmpimage (decodeworker m)] else []) ∧
  (buffer_ok (st_buffer (videostream m')) ∧
   buffer_ok (ws_framequeue (dw_videostream (decodeworker m'))) ∧
   buffer_ok (ws_framepool (dw_videostream (decodeworker m')))) ∧
  (buf_size (st_buffer (videostream m')) = 0 ∧
   buf_size (ws_framequeue (dw_videostream (decodeworker m'))) = 0 ∧
   buf_size (ws_framepool (dw_videostream (decodeworker m'))) = 0) ∧
  (buf_capacity (st_buffer (videostream m')) = buf_capacity (st_buffer (videostream m)) ∧
   buf_capacity (ws_framequeue (dw_videostream (decodeworker m')))
   = buf_capacity (st_buffer (videostream m)) ∧
   buf_capacity (ws_framepool (dw_videostream (decodeworker m')))
   = buf_capacity (st_buffer (videostream m))) ∧
  usepatches m' = usepatches m.
Proof.
  unfold UninitialiseImages. intros Hfree Hok.
  destruct (FlushFrameBuffers _ _) as [stream vs] eqn:Hflush.
  apply FlushFrameBuffers_held in Hflush as (Hok1 & Hbzero & Hqzero & Hcap & Hpool); [|done].
  destruct Hok1 as (Hb & Hq & Hp & Hqc & Hpc & Hsum).
  destruct (UninitialiseImages_loop _ _ _ _) as [framepool freed1] eqn:Hloop.
  apply UninitialiseImages_loop_freed in Hloop as (Hp' & Hpzero & Hpcap & ->); [|done|lia].
  rewrite Hpool in *. cbn [app] in *.
  cbn [usepatches set_videostream] in Hfree.
  destruct (usepatches m) eqn:Hup; injection Hfree as <- <-; simpl;
    rewrite ?app_nil_r; split_and!; try done; congruence.
Qed.

Lemma ClearAllFrames_empty_video m :
  buf_size (st_buffer (videostream m)) = 0 →
  videostream (ClearAllFrames m) = videostream m ∧
  dw_videostream (decodeworker (ClearAllFrames m)) = dw_videostream (decodeworker m) ∧
  usepatches (ClearAllFrames m) = usepatches m.
Proof.
  intros Hzero. unfold ClearAllFrames. rewrite Hzero. cbn [Z.to_nat ClearAllFrames_loop].
  by destruct (ClearAllFrames_loop _ (audiostream m) _) as [astream aws].
Qed.

(** When the format changes, [MovieDecode_SetImageFormat] releases every
    image the video stream holds, each once (and the image it scaled into,
    when the movie was in patches), and allocates the images anew: on
    return the consumer buffer and the frame queue are empty, so that the
    frames decoded before are no longer shown, and the frame pool holds one
    frame per new image. *)
Theorem MovieDecode_SetImageFormat_renews alloc (m : movie) (up' : bool) (m' : movie)
    (freed : list Z) :
  stream_ok (videostream m) (dw_videostream (decodeworker m)) →
  up' ≠ usepatches m →
  MovieDecode_SetImageFormat alloc m up' = Returned (m', freed) →
  let capacity := buf_capacity (st_buffer (videostream m)) in
  freed ≡ₚ (vf_image <$> held (videostream m) (dw_videostream (decodeworker m)))
           ++ (if usepatches m then [dw_tmpimage (decodeworker m)] else []) ∧
  usepatches m' = up' ∧ dw_usepatches (decodeworker m') = up' ∧
  stream_ok (videostream m') (dw_videostream (decodeworker m')) ∧
  buf_capacity (st_buffer (videostream m')) = capacity ∧
  contents (st_buffer (videostream m')) = [] ∧
  contents (ws_framequeue (dw_videostream (decodeworker m'))) = [] ∧
  Some <$> (vf_image <$> contents (ws_framepool (dw_videostream (decodeworker m'))))
  = alloc <$> seqZ 0 capacity ∧
  (up' = true → alloc capacity = Some (dw_tmpimage (decodeworker m'))).
Proof.
  intros Hok Hne Hset capacity. unfold MovieDecode_SetImageFormat in Hset.
  destruct (Bool.eqb up' (usepatches m)) eqn:Heq; [by apply Bool.eqb_prop in Heq|].
  set (m0 := set_decodeworker m (StopDecoderThread (decodeworker m))) in Hset.
  destruct (UninitialiseImages m0) as [m1 freed1] eqn:Hfree.
  apply UninitialiseImages_freed in Hfree
    as (-> & (Hb & Hq & Hp) & (Hbzero & Hqzero & Hpzero) & (Hbcap & Hqcap & Hpcap) & Hup);
    [|exact Hok].
  change (videostream m0) with (videostream m) in *.
  change (dw_videostream (decodeworker m0)) with (dw_videostream (decodeworker m)) in *.
  change (usepatches m0) with (usepatches m) in *.
  change (dw_tmpimage (decodeworker m0)) with (dw_tmpimage (decodeworker m)) in *.
  fold capacity in Hbcap, Hqcap, Hpcap.
  destruct (ClearAllFrames_empty_video m1 Hbzero) as (Hv2 & Hw2 & _).
  apply outcome_bind_Returned in Hset as (worker & Hinit & Hset). injection Hset as <- <-.
  unfold InitialiseImages in Hinit.
  apply outcome_bind_Returned in Hinit as (framepool & Hloop & Hinit).
  cbn [decodeworker set_decodeworker set_usepatches dw_videostream set_dw_usepatches
       dw_usepatches] in Hloop, Hinit.
  rewrite Hw2 in Hloop, Hinit. rewrite Hpcap in Hloop, Hinit.
  pose proof (InitialiseImages_loop_shape _ _ _ _ _ _ Hloop) as [[Hc Hl] Hsize].
  assert (0 < capacity) as Hpos by (apply stream_ok_sizes in Hok; unfold capacity; lia).
  apply InitialiseImages_loop_contents in Hloop as (Hp' & Hsome & Himages); [|done|lia].
  rewrite (contents_empty (ws_framepool _)) in Himages by lia. cbn [fmap list_fmap app] in Himages.
  rewrite Z2Nat.id in Hsome, Himages, Hsize by lia.
  assert (dw_videostream worker
          = set_ws_framepool (dw_videostream (decodeworker m1)) framepool ∧
          dw_usepatches worker = up' ∧
          (up' = true → alloc capacity = Some (dw_tmpimage worker))) as (Hw' & Hup' & Htmp).
  { destruct up'.
    - destruct (alloc capacity) as [addr|]; [|done]. by injection Hinit as <-.
    - by injection Hinit as <-. }
  cbn [videostream decodeworker set_decodeworker usepatches set_usepatches].
  rewrite Hv2, Hw'. cbn [ws_framequeue ws_framepool set_ws_framepool].
  split_and!; try done.
  - unfold held. rewrite !fmap_app. solve_Permutation.
  - unfold stream_ok. cbn [ws_framequeue ws_framepool set_ws_framepool].
    split_and!; try done; lia.
  - by apply contents_empty; lia.
  - by apply contents_empty; lia.
  - rewrite Himages, <-list_fmap_compose. apply list_fmap_ext. intros i k Hk.
    apply lookup_seqZ in Hk as [-> ?].
    destruct (Hsome (0 + Z.of_nat i)) as [addr Haddr]; [lia..|]. simpl. by rewrite Haddr.
Qed.

Lemma MovieDecode_SetImageFormat_renews_witness :
  example_format_change.2
  ≡ₚ (vf_image <$> held (videostream example_video_movie)
                     (dw_videostream (decodeworker example_video_movie)))
     ++ (if usepatches example_video_movie
         then [dw_tmpimage (decodeworker example_video_movie)] else []) ∧
  usepatches example_format_change.1 = true ∧
  dw_usepatches (decodeworker example_format_change.1) = true ∧
  stream_ok (videostream example_format_change.1)
    (dw_videostream (decodeworker example_format_change.1)) ∧
  buf_capacity (st_buffer (videostream example_format_change.1))
  = buf_capacity (st_buffer (videostream example_video_movie)) ∧
  contents (st_buffer (videostream example_format_change.1)) = [] ∧
  contents (ws_framequeue (dw_videostream (decodeworker example_format_change.1))) = [] ∧
  Some <$> (vf_image <$> contents (ws_framepool (dw_videostream
                                     (decodeworker example_format_change.1))))
  = (λ i, Some (65536 + 4096 * i))
      <$> seqZ 0 (buf_capacity (st_buffer (videostream example_video_movie))) ∧
  (true = true →
   Some (65536 + 4096 * buf_capacity (st_buffer (videostream example_video_movie)))
   = Some (dw_tmpimage (decodeworker example_format_change.1))).
Proof.
  apply (MovieDecode_SetImageFormat_renews (λ i, Some (65536 + 4096 * i))
           example_video_movie true).
  - unfold stream_ok, buffer_ok. vm_compute. repeat split; congruence.
  - vm_compute. discriminate.
  - vm_compute. reflexivity.
Defined.

(** ** Releasing the packets *)

Lemma UninitialisePacketQueue_loop_freed turns packetpool freed packetpool' freed' :
  UninitialisePacketQueue_loop turns packetpool freed = (packetpool', freed') →
  buffer_ok packetpool → buf_size packetpool ≤ Z.of_nat turns →
  buffer_ok packetpool' ∧ buf_size packetpool' = 0 ∧
  freed' = freed ++ contents packetpool.
Proof.
  revert packetpool freed. induction turns as [|turns IH]; intros packetpool freed;
    cbn [UninitialisePacketQueue_loop]; intros Hloop Hok Hturns.
  - injection Hloop as <- <-. pose proof Hok as (? & ? & ? & ? & ?).
    rewrite (contents_empty packetpool), app_nil_r by lia. split_and!; [done|lia|done].
  - pose proof Hok as (? & ? & ? & ? & ?).
    destruct (Z.ltb_spec 0 (buf_size packetpool)) as [Hsome|].
    + destruct (DequeueBuffer_contents packetpool Hok Hsome) as (Hok1 & Hcontents & Hslot).
      pose proof (contents_update_left packetpool (λ _, Packetptr 0) Hok Hsome) as Hleft.
      destruct (DequeueBuffer packetpool) as [pool1 slot] eqn:Hdeq.
      cbn [fst snd] in *.
      assert (frame_of pool1 slot = frame_at packetpool 0) as Hframe.
      { rewrite Hslot. unfold frame_at, frame_of. injection Hdeq as <- _. done. }
      assert (buf_size pool1 = buf_size packetpool - 1) as Hsize
        by (injection Hdeq as <- _; done).
      rewrite Hframe in Hloop.
      apply IH in Hloop as (? & ? & ->).
      * split_and!; [done|done|]. rewrite Hleft, Hcontents, <-app_assoc. done.
      * by apply update_slot_buffer_ok.
      * rewrite update_slot_size. lia.
    + injection Hloop as <- <-.
      rewrite (contents_empty packetpool), app_nil_r by lia. split_and!; [done|lia|done].
Qed.

(** [UninitialisePacketQueue] releases every packet of the packet pool and
    of the packet queue, each once, and leaves both empty: with the packet
    buffers in the state a playing movie keeps them in, the packets
    released are as many as the capacity and no two are the same. *)
Theorem UninitialisePacketQueue_frees_each_once (m : movie) worker' (freed : list packetptr) :
  packets_ok m →
  UninitialisePacketQueue (decodeworker m) = (worker', freed) →
  freed = contents (dw_packetpool (decodeworker m))
          ++ contents (dw_packetqueue (decodeworker m)) ∧
  NoDup (packet_place <$> freed) ∧
  Z.of_nat (length freed) = buf_capacity (dw_packetpool (decodeworker m)) ∧
  buf_size (dw_packetpool worker') = 0 ∧ buf_size (dw_packetqueue worker') = 0.
Proof.
  intros [(Hq & Hp & Hcap & Hsum & Hnodup & _) _]. unfold UninitialisePacketQueue.
  destruct (DequeueWholeBufferIntoBuffer _ _) as [pool1 queue1] eqn:Hmove.
  pose proof (DequeueWholeBufferIntoBuffer_shape _ _ _ _ Hmove) as ([? _] & [? _] & Hsize).
  apply DequeueWholeBufferIntoBuffer_contents in Hmove as (Hp1 & Hq1 & Hc1 & Hzero);
    [|done|done|lia].
  destruct (UninitialisePacketQueue_loop _ _ _) as [pool2 freed2] eqn:Hloop.
  pose proof Hp1 as (? & ? & ? & ? & ?).
  apply UninitialisePacketQueue_loop_freed in Hloop as (_ & Hzero2 & ->); [|done|lia].
  intros [= <- <-]. cbn [app]. rewrite Hc1. split_and!; try done.
  rewrite <-Hc1. unfold contents. rewrite length_fmap, length_seqZ. lia.
Qed.

Lemma UninitialisePacketQueue_frees_each_once_witness :
  (UninitialisePacketQueue (decodeworker example_packet_movie)).2
  = contents (dw_packetpool (decodeworker example_packet_movie))
    ++ contents (dw_packetqueue (decodeworker example_packet_movie)) ∧
  NoDup (packet_place <$> (UninitialisePacketQueue (decodeworker example_packet_movie)).2) ∧
  Z.of_nat (length (UninitialisePacketQueue (decodeworker example_packet_movie)).2)
  = buf_capacity (dw_packetpool (decodeworker example_packet_movie)) ∧
  buf_size (dw_packetpool (UninitialisePacketQueue (decodeworker example_packet_movie)).1)
  = 0 ∧
  buf_size (dw_packetqueue (UninitialisePacketQueue (decodeworker example_packet_movie)).1)
  = 0.
Proof.
  apply (UninitialisePacketQueue_frees_each_once example_packet_movie).
  - apply (ReadPacket_packets_ok 0 {| stream_index := 0 |} example_movie
             example_packet_movie true); [vm_compute; reflexivity..|].
    apply (MovieDecode_Play_packets_ok (Some []) example_info example_host false).
    vm_compute. reflexivity.
  - apply surjective_pairing.
Defined.

(** ** The duration *)

(** [MovieDecode_GetDuration] gives the duration of the container, which is
    in microseconds, in milliseconds: the nearest one, so at most half a
    millisecond away, and with the same sign. *)
Theorem MovieDecode_GetDuration_nearest (duration : Z) :
  - 2 ^ 62 ≤ duration → duration ≤ 2 ^ 62 →
  - 500 ≤ 1000 * MovieDecode_GetDuration duration - duration ≤ 500 ∧
  MovieDecode_GetDuration (- duration) = - MovieDecode_GetDuration duration.
Proof.
  intros Hlo Hhi.
  assert (∀ d, - 2 ^ 62 ≤ d → d ≤ 2 ^ 62 →
            MovieDecode_GetDuration d
            = if d <? 0 then - ((Z.abs d * 1000 + 500000) / 1000000)
              else (Z.abs d * 1000 + 500000) / 1000000) as Heq.
  { intros d ? ?. unfold MovieDecode_GetDuration, PTSToMS, av_rescale_q, AV_TIME_BASE_Q.
    cbn [num den]. change (1 * 1000) with 1000. change (1 * 1000000) with 1000000.
    change ((1000000 <=? 0) || (1000 <? 0)) with false. cbv iota.
    change (1000000 / 2) with 500000.
    assert ((Z.abs d * 1000 + 500000) / 1000000 ≤ 2 ^ 62) as Hfit.
    { apply Z.div_le_upper_bound; lia. }
    unfold INT64_MAX.
    destruct (Z.ltb_spec (2 ^ 63 - 1) ((Z.abs d * 1000 + 500000) / 1000000)); [lia|done]. }
  rewrite !Heq by lia. clear Heq.
  pose proof (Z.div_mod (Z.abs duration * 1000 + 500000) 1000000 ltac:(lia)) as Hdiv.
  pose proof (Z.mod_pos_bound (Z.abs duration * 1000 + 500000) 1000000 ltac:(lia)) as Hmod.
  rewrite Z.abs_opp.
  set (q := (Z.abs duration * 1000 + 500000) / 1000000) in *.
  assert (0 ≤ q) by (apply Z.div_pos; lia).
  destruct (Z.ltb_spec duration 0); destruct (Z.ltb_spec (- duration) 0); try lia.
Qed.

Lemma MovieDecode_GetDuration_nearest_witness :
  - 500 ≤ 1000 * MovieDecode_GetDuration 1234567 - 1234567 ≤ 500 ∧
  MovieDecode_GetDuration (- 1234567) = - MovieDecode_GetDuration 1234567.
Proof. apply (MovieDecode_GetDuration_nearest 1234567); lia. Defined.

(** ** Seeking: the frames decoded before are not shown *)

Lemma flush_ok_kept id m m' :
  videostream m' = videostream m →
  dw_videostream (decodeworker m') = dw_videostream (decodeworker m) →
  dw_nextframeid (decodeworker m') = dw_nextframeid (decodeworker m) →
  dw_flushing (decodeworker m') = dw_flushing (decodeworker m) →
  flush_ok id m → flush_ok id m'.
Proof. unfold flush_ok. by intros -> -> -> ->. Qed.

Lemma PollVideoFrameQueue_flush_ok id m :
  stream_ok (videostream m) (dw_videostream (decodeworker m)) →
  dw_flushing (decodeworker m) = false →
  flush_ok id m → flush_ok id (PollVideoFrameQueue m).
Proof.
  intros Hok Hfl (Hid & Hb & Hq & He). unfold PollVideoFrameQueue.
  destruct (negb _); [|done].
  destruct (DequeueWholeBufferIntoBuffer _ _) as [buffer framequeue] eqn:Hmove.
  apply Poll_held in Hmove as (_ & Hb' & Hq'); [|done].
  unfold flush_ok. simpl. rewrite Hb', Hq', Hfl. split_and!; [done| |done|done].
  apply Forall_app. split; [done|by apply Hq].
Qed.

Lemma ClearAllFrames_flush_ok id m :
  stream_ok (videostream m) (dw_videostream (decodeworker m)) →
  flush_ok id m →
  flush_ok id (ClearAllFrames m) ∧ contents (st_buffer (videostream (ClearAllFrames m))) = [] ∧
  dw_flushing (decodeworker (ClearAllFrames m)) = dw_flushing (decodeworker m).
Proof.
  intros Hok (Hid & Hb & Hq & He). unfold ClearAllFrames.
  destruct (ClearAllFrames_loop _ (videostream m) _) as [vstream vws] eqn:Hloop.
  destruct (ClearAllFrames_loop _ (audiostream m) _) as [astream aws].
  apply ClearAllFrames_loop_held in Hloop as (_ & Hb' & _ & Hq' & _); [|done|lia].
  unfold flush_ok. simpl. rewrite Hb', Hq'. split_and!; done.
Qed.

Lemma ClearOldVideoFrames_flush_ok id m :
  stream_ok (videostream m) (dw_videostream (decodeworker m)) →
  flush_ok id m → flush_ok id (ClearOldVideoFrames m).
Proof.
  intros Hok (Hid & Hb & Hq & He). unfold ClearOldVideoFrames.
  destruct (ClearOldVideoFrames_loop _ _ _ _) as [stream ws] eqn:Hloop.
  apply ClearOldVideoFrames_loop_held in Hloop
    as (old & _ & Hb' & _ & Hq' & _); [|done|lia].
  unfold flush_ok. simpl. rewrite Hq'. rewrite Hb' in Hb, He.
  apply Forall_app in Hb as [_ Hb]. split_and!; [done..|].
  intros Hfl. apply He in Hfl. by apply app_eq_nil in Hfl as [_ ?].
Qed.

Lemma UpdateSeeking_flush_ok id seekerror m m' :
  UpdateSeeking seekerror m = Returned m' →
  stream_ok (videostream m) (dw_videostream (decodeworker m)) →
  flush_ok id m → flush_ok id m'.
Proof.
  unfold UpdateSeeking. intros Hupdate Hok Hflush.
  match type of Hupdate with
  | context [IsPTSInVideoBuffer ?x _] => set (m1 := x) in *
  end.
  assert (flush_ok id m1 ∧ stream_ok (videostream m1) (dw_videostream (decodeworker m1)))
    as [Hflush1 Hok1] by (subst m1; by repeat case_match).
  apply outcome_bind_Returned in Hupdate as (m2 & Hseek & Hupdate).
  assert (flush_ok id m2) as Hflush2.
  { destruct (negb _); [|by injection Hseek as <-].
    unfold Seek in Hseek. destruct (seekerror <? 0); [done|]. injection Hseek as <-.
    destruct (ClearAllFrames_flush_ok id (set_seeking m1 true) Hok1 Hflush1)
      as ((Hid & Hb & _ & _) & Hempty & _).
    destruct (FlushDecodeWorker_frames (decodeworker (ClearAllFrames (set_seeking m1 true))))
      as (Hv & _ & Hn & Hfl).
    unfold flush_ok. cbn [decodeworker set_decodeworker videostream].
    rewrite Hv, Hn, Hfl. split_and!; [done|done|done|]. intros _.
    exact Hempty. }
  repeat case_match; by injection Hupdate as <-.
Qed.

Lemma MovieDecode_Update_frames_flush_ok images id seekerror m m' :
  MovieDecode_Update_frames seekerror m = Returned m' →
  video_ok images m → flush_ok id m → flush_ok id m'.
Proof.
  unfold MovieDecode_Update_frames. intros Hupdate Hvideo Hflush.
  apply outcome_bind_Returned in Hupdate as (m2 & Hseek & Hupdate).
  set (m1 := if negb _ then _ else m) in *.
  assert (flush_ok id m1 ∧ video_ok images m1) as [Hflush1 Hvideo1].
  { subst m1. destruct (dw_flushing (decodeworker m)) eqn:Hfl; [done|]. cbn [negb].
    pose proof (PollVideoFrameQueue_video images m Hvideo) as Hvideo'.
    pose proof (PollVideoFrameQueue_flush_ok id m (proj1 Hvideo) Hfl Hflush) as Hflush'.
    split.
    - eapply flush_ok_kept; [..|exact Hflush'];
        unfold PollAudioFrameQueue; destruct (negb (_ =? 0)); try done;
        by destruct (PollAudioFrameQueue_loop _ _ _ _).
    - eapply video_ok_kept; [..|exact Hvideo'];
        unfold PollAudioFrameQueue; destruct (negb (_ =? 0)); try done;
        by destruct (PollAudioFrameQueue_loop _ _ _ _). }
  pose proof (UpdateSeeking_flush_ok id _ _ _ Hseek (proj1 Hvideo1) Hflush1) as Hflush2.
  pose proof (UpdateSeeking_video images _ _ _ Hseek Hvideo1) as Hvideo2.
  destruct (0 <? _); injection Hupdate as <-; [|done].
  pose proof (ClearOldVideoFrames_flush_ok id m2 (proj1 Hvideo2) Hflush2) as Hflush3.
  eapply flush_ok_kept; [..|exact Hflush3];
    unfold ClearOldAudioFrames; by destruct (ClearOldAudioFrames_loop _ _ _ _ _).
Qed.

Lemma ParseAudioFrame_flushing mem planar samples_alloc sizeof numoutputsamples converted
    m m' :
  ParseAudioFrame mem planar samples_alloc sizeof numoutputsamples converted m = Returned m' →
  videostream m' = videostream m ∧
  dw_videostream (decodeworker m') = dw_videostream (decodeworker m) ∧
  dw_nextframeid (decodeworker m') = dw_nextframeid (decodeworker m) ∧
  dw_flushing (decodeworker m') = dw_flushing (decodeworker m).
Proof.
  unfold ParseAudioFrame. intros Hparse.
  apply outcome_bind_Returned in Hparse as ([stream worker] & Hinit & Hparse).
  assert (dw_videostream worker = dw_videostream (decodeworker m) ∧
          dw_nextframeid worker = dw_nextframeid (decodeworker m) ∧
          dw_flushing worker = dw_flushing (decodeworker m)) as (Hv & Hn & Hfl).
  { destruct (buf_data _); [by injection Hinit as <- <-|].
    unfold InitialiseAudioBuffer in Hinit. destruct (st_stream _); [|by injection Hinit as <- <-].
    apply outcome_bind_Returned in Hinit as (buffer & _ & Hinit). cbn zeta in Hinit.
    apply outcome_bind_Returned in Hinit as (framequeue & _ & Hinit).
    apply outcome_bind_Returned in Hinit as (framepool & _ & Hinit).
    apply outcome_bind_Returned in Hinit as (framepool' & _ & Hinit).
    by injection Hinit as <- <-. }
  destruct (numoutputsamples <? 0); [done|].
  destruct (DequeueBufferIntoBuffer _ _) as [[framequeue framepool] slot].
  by injection Hparse as <-.
Qed.

Lemma SendPacket_flushing senderror worker worker' :
  SendPacket senderror worker = Returned worker' → dw_flushing worker' = dw_flushing worker.
Proof.
  unfold SendPacket. destruct (_ =? 0); [by intros [= <-]|].
  destruct (DequeueBufferIntoBuffer _ _) as [[packetpool packetqueue] slot].
  destruct (_ || _); [|done]. destruct (senderror <? 0); [done|]. by intros [= <-].
Qed.

Lemma DecoderThread_turn_flush_ok images id ev m m' more :
  DecoderThread_turn ev m = Returned (m', more) →
  video_ok images m → flush_ok id m → flush_ok id m'.
Proof.
  unfold DecoderThread_turn. intros Hturn Hvideo Hflush.
  destruct (dw_stopping (decodeworker m)).
  { injection Hturn as <- <-. by eapply flush_ok_kept. }
  apply outcome_bind_Returned in Hturn as (worker1 & Hflushing & Hturn).
  set (m1 := set_decodeworker m worker1).
  assert (flush_ok id m1 ∧ video_ok images m1 ∧
          buf_size (ws_framepool (dw_videostream (decodeworker m)))
          ≤ buf_size (ws_framepool (dw_videostream worker1)))
    as (Hflush1 & Hvideo1 & Hpool).
  { destruct (dw_flushing (decodeworker m)) eqn:Hfl.
    - pose proof (FlushDecoding_pools _ _ _ _ _ _ Hflushing) as (Hp & _).
      pose proof (FlushDecoding_video images _ _ _ _ _ _ Hflushing Hvideo) as Hvideo'.
      split_and!; [|done|by eapply Hp, Hvideo].
      destruct Hflush as (Hid & Hb & Hq & He).
      unfold FlushDecoding in Hflushing.
      apply outcome_bind_Returned in Hflushing as (vs & Hvs & Hflushing).
      apply outcome_bind_Returned in Hflushing as (aus & _ & Hflushing).
      injection Hflushing as <-.
      apply (FlushStream_held _ _ (videostream m)) in Hvs as (_ & Hq' & _);
        [|exact (proj1 Hvideo)].
      unfold flush_ok. subst m1. simpl. rewrite Hq'. split_and!; [done|done|done|done].
    - injection Hflushing as <-. subst m1. split_and!; [|by eapply video_ok_kept|done].
      by eapply flush_ok_kept. }
  destruct (_ || _) eqn:Hfull; [by injection Hturn as <- <-|].
  apply orb_false_iff in Hfull as [Hvsize _]. apply Z.eqb_neq in Hvsize.
  apply outcome_bind_Returned in Hturn as (vreceived & _ & Hturn).
  destruct vreceived.
  { injection Hturn as <- <-.
    destruct Hvideo1 as [Hok1 _]. pose proof (stream_ok_sizes _ _ Hok1) as (? & ? & ? & ?).
    pose proof (stream_ok_sizes _ _ (proj1 Hvideo)) as (? & ? & ? & ?).
    destruct Hflush1 as (Hid & Hb & Hq & He).
    unfold ParseVideoFrame.
    destruct (DequeueBufferIntoBuffer _ _) as [[framequeue framepool] slot] eqn:Hmove.
    cbn [dw_videostream set_dw_frame set_dw_nextframeid dw_frame dw_nextframeid] in Hmove.
    apply (Parse_held (videostream m1)) in Hmove as (_ & _ & Hq'); [|done|simpl in *; lia].
    unfold flush_ok. simpl in *. rewrite Hq'. split_and!; [lia|done| |done].
    intros Hfl. apply Forall_app. split; [by apply Hq|].
    apply Forall_singleton. simpl. lia. }
  apply outcome_bind_Returned in Hturn as (areceived & _ & Hturn).
  destruct areceived.
  { apply outcome_bind_Returned in Hturn as (m2 & Hparse & Hturn).
    injection Hturn as <- <-.
    apply ParseAudioFrame_flushing in Hparse as (? & ? & ? & ?).
    by eapply flush_ok_kept; [..|exact Hflush1]. }
  destruct (0 <? _).
  - apply outcome_bind_Returned in Hturn as (worker2 & Hsend & Hturn).
    injection Hturn as <- <-.
    pose proof (SendPacket_frames _ _ _ Hsend) as (? & ? & ?).
    pose proof (SendPacket_flushing _ _ _ Hsend).
    by eapply flush_ok_kept; [..|exact Hflush1].
  - injection Hturn as <- <-. by eapply flush_ok_kept; [..|exact Hflush1].
Qed.

Lemma playing_step_flush_ok images id m m' :
  playing_step m m' → video_ok images m → flush_ok id m → flush_ok id m'.
Proof.
  intros [m1 reads seekerror m2 Hupdate|m1 ev m2 more Hturn|m1 ms|m1 ms|m1|m1 planar size]
    Hvideo Hflush.
  - unfold MovieDecode_Update in Hupdate.
    destruct (MovieDecode_Update_packets reads m1) as [[m3|]|] eqn:Hreads; [|done..].
    injection Hupdate as Hframes.
    apply MovieDecode_Update_packets_steps in Hreads as (_ & ? & ? & ? & ? & ? & ?).
    eapply MovieDecode_Update_frames_flush_ok; [exact Hframes|by eapply video_ok_kept|].
    by eapply flush_ok_kept.
  - by eapply DecoderThread_turn_flush_ok.
  - unfold MovieDecode_SetPosition. destruct (_ =? -1); by eapply flush_ok_kept.
  - unfold MovieDecode_Seek. destruct (_ =? -1); by eapply flush_ok_kept.
  - unfold MovieDecode_GetImage. repeat case_match; simpl; by eapply flush_ok_kept.
  - unfold MovieDecode_CopyAudioSamples. destruct (_ =? -1); simpl; by eapply flush_ok_kept.
Qed.

Lemma playing_steps_flush_ok images id m m' :
  rtc playing_step m m' →
  video_ok images m → audio_ok m → packets_ok m → flush_ok id m → flush_ok id m'.
Proof.
  induction 1 as [|m1 m2 m3 Hstep _ IH]; [done|]. intros Hvideo Haudio Hpackets Hflush.
  destruct (playing_step_ok images _ _ Hstep Hvideo Haudio Hpackets) as (? & ? & ?).
  apply IH; [done..|]. by eapply playing_step_flush_ok.
Qed.

Lemma MovieDecode_Play_flush_ok lump info host up m :
  MovieDecode_Play lump info host up = Returned m → flush_ok 0 m.
Proof.
  intros Hplay.
  pose proof (MovieDecode_Play_images _ _ _ _ _ Hplay) as (Hb & Hq & _).
  apply MovieDecode_Play_inv in Hplay
    as (bytes & framepool & _ & _ & _ & _ & _ & _ & _ & _ & _ & _ & _ & _ & _ & _
        & _ & _ & _ & _ & _ & _ & _ & Hn & _).
  unfold flush_ok. rewrite Hb, Hq, Hn. split_and!; [done|constructor|by constructor|done].
Qed.

Lemma playing_flush_ok lump info host up m0 m :
  MovieDecode_Play lump info host up = Returned m0 →
  0 < buf_capacity (st_buffer (videostream m0)) →
  rtc playing_step m0 m →
  flush_ok 0 m.
Proof.
  intros Hplay Hcap Hsteps.
  destruct (MovieDecode_Play_ok _ _ _ _ _ Hplay Hcap) as (? & ? & ?).
  eapply playing_steps_flush_ok; [done..|]. by eapply MovieDecode_Play_flush_ok.
Qed.

(** The steps of the examples up to the update that seeks, and from there
    on. *)
Ltac example_seeking_steps :=
  eapply rtc_l;
    [apply (playing_DecoderThread _ (example_video_events 0)
              (example_turn (example_video_events 0) example_audio_played) true);
     vm_compute; reflexivity|];
  eapply rtc_l;
    [apply (playing_DecoderThread _ (example_video_events 40)
              (example_turn (example_video_events 40)
                 (example_turn (example_video_events 0) example_audio_played)) true);
     vm_compute; reflexivity|];
  eapply rtc_l;
    [eapply (playing_DecoderThread _ (example_audio_events 0 [1; 2; 3; 4; 5; 6; 7; 8]) _ true);
     vm_compute; reflexivity|];
  eapply rtc_l;
    [eapply (playing_DecoderThread _ (example_audio_events 4 [9; 10; 11; 12; 13; 14; 15; 16])
               _ true);
     vm_compute; reflexivity|];
  eapply rtc_l;
    [eapply (playing_Update _ example_reads 0); vm_compute; reflexivity|];
  eapply rtc_l; [apply playing_GetImage|];
  eapply rtc_l; [apply (playing_CopyAudioSamples _ false 4)|];
  eapply rtc_l; [apply (playing_SetPosition _ 10000)|];
  eapply rtc_l;
    [eapply (playing_Update _ example_reads 0); vm_compute; reflexivity|];
  vm_compute; apply rtc_refl.

Ltac example_sought_steps :=
  eapply rtc_l;
    [apply (playing_DecoderThread _ (example_video_events 10000)
              (example_turn (example_video_events 10000) example_seeking_movie) true);
     vm_compute; reflexivity|];
  eapply rtc_l;
    [eapply (playing_Update _ example_reads 0); vm_compute; reflexivity|];
  vm_compute; apply rtc_refl.

(** While the worker is being flushed, that is from a seek until the
    decoding thread has flushed the decoders, the consumer video buffer is
    empty and [MovieDecode_GetImage] hands out no image. *)
Theorem playing_flushing_no_image lump info host up (m0 m : movie) :
  MovieDecode_Play lump info host up = Returned m0 →
  0 < buf_capacity (st_buffer (videostream m0)) →
  rtc playing_step m0 m →
  dw_flushing (decodeworker m) = true →
  contents (st_buffer (videostream m)) = [] ∧
  MovieDecode_GetImage m = (m, None).
Proof.
  intros Hplay Hcap Hsteps Hfl.
  destruct (playing_flush_ok _ _ _ _ _ _ Hplay Hcap Hsteps) as (_ & _ & _ & Hempty).
  destruct (playing_ok _ _ _ _ _ _ Hplay Hcap Hsteps) as ([(Hb & _) _] & _).
  specialize (Hempty Hfl). split; [done|].
  assert (buf_size (st_buffer (videostream m)) = 0) as Hzero.
  { apply (f_equal length) in Hempty. rewrite length_contents in Hempty.
    destruct Hb as (? & ? & ? & ? & ?). simpl in Hempty. lia. }
  unfold MovieDecode_GetImage, FindVideoBufferIndexForPosition. rewrite Hzero.
  cbn [Z.to_nat FindVideoBufferIndexForPosition_loop]. unfold GetBufferSlot. done.
Qed.

Lemma playing_flushing_no_image_witness :
  contents (st_buffer (videostream example_seeking_movie)) = [] ∧
  MovieDecode_GetImage example_seeking_movie = (example_seeking_movie, None).
Proof.
  apply (playing_flushing_no_image (Some []) example_audio_info example_host false
           example_audio_played example_seeking_movie).
  - vm_compute. reflexivity.
  - vm_compute. reflexivity.
  - example_seeking_steps.
  - vm_compute. reflexivity.
Defined.

(** A seek hides what was decoded before it: once the worker is being
    flushed, no frame that the decoding thread decoded before reaches the
    consumer video buffer, whatever the game and the decoding thread do
    next; the frames the game can get from then on have the ids the worker
    had not given yet. *)
Theorem playing_seek_hides_decoded lump info host up (m0 m1 m2 : movie) :
  MovieDecode_Play lump info host up = Returned m0 →
  0 < buf_capacity (st_buffer (videostream m0)) →
  rtc playing_step m0 m1 →
  dw_flushing (decodeworker m1) = true →
  rtc playing_step m1 m2 →
  Forall (λ frame, dw_nextframeid (decodeworker m1) ≤ vf_id frame)
    (contents (st_buffer (videostream m2))).
Proof.
  intros Hplay Hcap Hsteps Hfl Hsteps2.
  destruct (playing_flush_ok _ _ _ _ _ _ Hplay Hcap Hsteps) as (_ & _ & _ & Hempty).
  destruct (playing_ok _ _ _ _ _ _ Hplay Hcap Hsteps) as (Hvideo & Haudio & Hpackets).
  assert (flush_ok (dw_nextframeid (decodeworker m1)) m1) as Hflush.
  { unfold flush_ok. rewrite (Hempty Hfl), Hfl. split_and!; [done|constructor|done|done]. }
  by destruct (playing_steps_flush_ok _ _ _ _ Hsteps2 Hvideo Haudio Hpackets Hflush)
    as (_ & ? & _).
Qed.

Lemma playing_seek_hides_decoded_witness :
  Forall (λ frame, dw_nextframeid (decodeworker example_seeking_movie) ≤ vf_id frame)
    (contents (st_buffer (videostream example_sought_movie))).
Proof.
  apply (playing_seek_hides_decoded (Some []) example_audio_info example_host false
           example_audio_played example_seeking_movie example_sought_movie).
  - vm_compute. reflexivity.
  - vm_compute. reflexivity.
  - example_seeking_steps.
  - vm_compute. reflexivity.
  - example_sought_steps.
Defined.
